(* ===== verification/_CoqProject ===== *)
-Q . S2P
Prelude.v
ByteCodec.v
BlockCache.v
DiskLogic.v
Bitmap.v
Layout.v
InodeMap.v
InodeIO.v
Efs.v
Vfs.v
FsInv.v
VfsSpec.v
Directory.v
Format.v
EasyFs.v
Allocator.v
Address.v
State.v
PageEntry.v
PageTable.v
BTree.v
MemorySet.v
AddressSpace.v
UserSpace.v
LoadUser.v
Pipe.v
Sched.v
Sync.v
SyncInv.v
Signal.v
UserAccess.v
Process.v
ProcessInv.v
OsFile.v
OsFileSpec.v
Pack.v
Shell.v
Spin.v
Gic.v
Abi.v
KernelSpace.v
Exec.v
Switch.v
Coroutine.v
Boot.v
Trap.v
Entry.v
Philosophers.v
Lifecycle.v
Stackless.v
