(* ===== verification/Prelude.v ===== *)
(** * A verification of rCore-Tutorial-v3 for AArch64

    The repository is a teaching operating system in Rust: a kernel ([os/]), a file
    system that the kernel and a host tool share ([easy-fs/], [easy-fs-fuse/]) and user
    programs ([user/]).  This library translates the file system, the memory management,
    the task, signal, synchronisation and file layers of the kernel, its lowest layer
    (entry, exceptions, spin lock, context switch, interrupt controller, system calls), its
    start, the shell and some user programs into Rocq functions and proves that they do what
    their callers rely on.

    ** How the parts fit together

    A system call of a process reaches the kernel through an exception.  Calls on files
    go through a descriptor to an open file, a pipe or the console; open files go to
    easy-fs, whose virtual file system works on disk inodes and bitmaps, which read and
    write blocks through a cache of 16 slots over a block device.  Calls on processes
    create and destroy address spaces, which are areas of frames mapped by four-level
    page tables, and move tasks through the scheduler; mutexes, semaphores, condition
    variables and timers block tasks and resume them; signals are delivered on the way
    back to user mode.

    ** Conventions

    Code is a function in one of three forms: pure; in [res] below, where the error says
    why Rust stops (a panic, a lock taken twice, a fault on user memory); or in a state
    monad ([State.st], and [BlockCache.prog] for programs on blocks).  Integers are [Z]
    in the range of their type and wrap where the source can overflow ([u32], [usize],
    [as_isize]); bytes are [Z] below 256.  Names are those of the source, with the type
    in front of a method when several types have it ([Inode_read_at]).  [wp] and [swp]
    state total correctness: the program returns, and its result and state satisfy the
    postcondition.

    ** easy-fs

    - [ByteCodec]: integers and structures as little-endian bytes ([repr(C)] structures
      read from and written to blocks).
    - [BlockCache]: easy-fs/src/block_cache.rs and block_dev.rs.  A manager is the device
      and the queue of slots with their reference counts, dirty flags and locks.  The
      device is the class [BlockDevice] with the laws [BlockDeviceLaws]; the instance
      [BlockFile] is the device of easy-fs-fuse/src/main.rs.  [prog] is the syntax of what
      the upper layers do with blocks; [run_cache] runs it on the manager and [run_disk]
      on an abstract disk with a set of locked blocks.  [cache_refines_disk]: both give
      the same value, panic or deadlock for every program.  All that follows is proved
      on the abstract disk and holds on the cache.
    - [DiskLogic]: the rules of [wp] for programs on the abstract disk.
    - [Bitmap] (bitmap.rs), [Layout] (layout.rs), [Efs] (efs.rs), [Vfs] (vfs.rs): the
      operations, each whole, with their asserts and unwraps.
    - [InodeMap], [InodeIO]: a disk inode with its direct, indirect and doubly indirect
      tables is a list of data blocks; [increase_size], [clear_size], [read_at] and
      [write_at] on it.
    - [FsInv]: the invariant [fs_inv] of a mounted file system (bitmaps exact, no block
      with two owners, free blocks zero) and its abstract view [abs], a map from inode ids
      to type and bytes.  [VfsSpec], [Directory], [Format]: what reading, writing, clearing,
      looking up, creating, formatting and mounting do to it.
    - [EasyFs]: the theorems, and that a write that has returned survives a crash.
    - [Pack] (easy-fs-fuse/src/main.rs): packing of the applications into an image.  The
      host's directory and files are arguments.  [packed_apps_load]: the kernel mounts the
      image and reads back the bytes of each application.

    ** Memory

    - [Allocator] (utils/allocator.rs), [Address] (mm/address.rs, config.rs).
    - [PageEntry], [PageTable] (mm/page_table.rs, mm/frame_allocator.rs): descriptors as
      bits, tables as bytes of frames in physical memory.  [pt_rel] relates a page table to
      the map from pages to frames and flags it implements.
    - [BTree]: the map from addresses to frames or areas that the source keeps in a
      BTreeMap, as a list sorted by key.
    - [MemorySet] (mm/memory_set.rs): areas, insertion, [clone], [clear], [drop],
      [load_user].  [AddressSpace] and [UserSpace] give the invariant of an address space
      and the frames it owns; [LoadUser] has the theorems: the image of an ELF file,
      duplication into frames of its own, and every frame given back once.  The parsed
      ELF file is a value (the parser is a third-party crate).
    - [KernelSpace] ([init_paging] and [remap_test] of mm/memory_set.rs, mm/mod.rs, the frame
      allocator's set-up, [init_boot_page_table] of arch/aarch64/entry.rs).  The addresses
      of the linker script are a record [Symbols] with the order [linked].
      [kernel_space_boot]: after [mm::init] the kernel runs under a linear map in which
      nothing is writable and executable.
    - [UserAccess] (mm/uaccess.rs; [exec] in task/structs.rs; [_start] in user/src/lib.rs):
      user memory as the bytes mapped at user addresses.

    ** Tasks

    - [Sched] (task/schedule.rs, manager.rs, percpu.rs): the state of every task, the ready
      queue and the current task.  [scheduler_invariant], [scheduler_fair] and
      [idle_never_returns] are proved over every sequence of scheduler operations.
    - [Sync] (sync/, timer.rs, syscall/sync.rs) and [SyncInv]: system calls are split at
      the points where the source gives up the processor; what a task still has to do
      when it runs again is part of its state.  The order in which Rust's [BinaryHeap]
      yields timers that expire together is not specified, so the heap is a class
      ([BinaryHeap]) whose only law is that a timer with the earliest time comes first.
    - [Signal] (task/signal.rs, the signal part of task/structs.rs, syscall/signal.rs,
      trap/context.rs): delivery, return, masks and actions on a trap frame of registers.
    - [Process] (task/structs.rs, task/mod.rs, syscall/process.rs, syscall/thread.rs) and
      [ProcessInv]: the table of processes with their tasks, children, descriptors and
      address spaces, on top of the scheduler and physical memory.
    - [Exec] ([Process::exec], [sys_exec]): the whole call on the process table and physical
      memory.  Stores to the new stack go through the page table in TTBR0, translated by
      the walk of [PageTable_query].  [exec_runs_program] composes the clearing of the old
      space, [load_user] and the arguments.
    - [Lifecycle]: the calls of a parent and a child, and of two threads of a process, in the
      order in which the scheduler runs them.  [fork_exit_wait]: after fork, exit and wait the
      processes, the frames in use and their bytes are those before; [thread_exit_wait]:
      after the life of a thread its process has one more stack and is otherwise as before.

    ** The machine

    - [Spin] (sync/spin.rs, sync/lazy_init.rs): the spin lock as instructions of any number
      of processors with interrupt handlers, as a step relation.
    - [Switch] (task/switch.rs, and the same sequence in the coroutine program): the
      assembly as a list of instructions with a semantics on registers and memory.
    - [Trap] (trap/trap.S, trap/mod.rs, trap/context.rs, [handle_signals] of task/structs.rs): the
      vectors as instructions on registers and the kernel stack.  [svc_round_trip]: a system
      call comes back to the instruction after it with the registers the handler left.
    - [Entry] (arch/aarch64/entry.rs): the system registers that the first instructions
      write, with the exception level each needs, [eret], and the translation of addresses
      they switch on.  [entry_enters_kernel]: from EL1, EL2 or EL3 the processor reaches
      [rust_main].  The addresses of the linker script are the record [Link].
    - [Boot] (main.rs, task/mod.rs, the root task's loop): [rust_main] from memory set-up to the
      shell in user mode ([boot_starts_shell]), and a round of the loop that reaps orphans
      ([root_reaps_zombies]).
    - [Gic] (arch/aarch64/gicv2.rs, [timer::init]): register accesses over a class [GicLaws]
      with what the architecture documents of the controller.
    - [Abi] (user/src/syscall.rs, user/src/lib.rs; os/src/syscall/mod.rs, trap/mod.rs):
      [Abi.User] puts a request into registers, [Abi.Kernel] takes it out.

    ** User programs

    - [Shell] (user/src/bin/user_shell.rs): keys, parsing, redirections and pipes; a
      descriptor table is a list, and a child ends in the call of [exec] it makes.
    - [Coroutine] (user/src/bin/stackful_coroutine.rs): the runtime and the tasks of [main],
      each task as the number of times it still prints.
    - [Stackless] (user/src/bin/stackless_coroutine.rs): futures and their executor, which runs
      its blocks in rounds ([executor_rounds]).
    - [Philosophers] (user/src/bin/phil_din_mutex.rs): the threads as a step relation on the
      mutexes of [Sync], any of those that can run going next.  [philosophers_dine]: no
      panic, no deadlock, no neighbours eating together, and every run ends.

    ** Files

    - [Pipe] (fs/pipe.rs): the ring buffer, and the loops of [read] and [write] one pass at
      a time, so that readers and writers interleave at the points where they yield.
    - [OsFile] (fs/inode.rs, fs/stdio.rs, syscall/fs.rs) and [OsFileSpec]: the trait [File]
      as the class [FileOps]; the calls that read and write through a descriptor are
      written against it and proved for standard output and for files of easy-fs.

    ** What the theorems show

    - Refinement: cache and disk, page table and map, free list and set, semaphore.
    - Equivalence: what the user library asks for and what the kernel does.
    - Functional behaviour: each operation of the file system, loading and duplication of
      address spaces, fork, exec, exit, wait and stop, the life of a process and of a thread,
      delivery of signals, opening of files, the way from the first instruction to the
      shell, the command line of the shell.
    - Invariants and safety: the file system's invariant is kept by every operation; the
      scheduler's and the waiting queues' by every sequence of calls; mutexes and the
      kernel's spin lock exclude; the kernel's own map is linear and W^X;
      pipes lose and duplicate nothing; frames are owned once and given back once.
    - Liveness and termination: fairness of the scheduler; the dining philosophers finish;
      [read_all], the root task's rounds and the runtimes of the coroutines end; [wp] and [swp] include termination everywhere else.
    - Round trips: formatting and mounting, packing and loading, page table entries,
      arguments of [exec], delivery of a signal and return from it, a system call and its
      return, switching from a task and back, writing and reading through descriptors.
    - Errors: which calls panic the kernel.

    ** Fuel

    Loops that are not structural take fuel, and running out of it is [Err NoFuel], which
    no theorem allows.  [write_chunks] gets one round more than there are chunks,
    [check_timers] one more than there are timers, [find_zero] and [read_argvs] one more
    than there are mapped bytes (each round reads another one); [read_all], [load_app] and the
    coroutine runtimes take their fuel as an argument, and their theorems say how much is
    enough.

    ** Not modelled

    - Devices: serial line, power control.  In [Sched] a switch is the change of the current
      task, in [Abi] a trap is a frame; [Switch] and [Trap] show what the assembly does.
      Address translation by the hardware is the walk of [PageTable_query] (of
      [boot_lookup] for the boot table); caches, barriers and the TLB are left out.
    - Third-party code: the ELF parser, the virtio driver, the buddy heaps, the command line
      parser of the image builder.  The methods that the macro bitflags generates are
      written out.  Memory for kernel objects never runs out.
    - [force_unlock] of the spin lock, used when a task runs for the first time.  The layers
      above [Spin] take a lock to be free unless its holder takes it again, which
      [spin_lock_exclusion] justifies on one processor; the block cache, where a holder
      can take it again, has the outcome [Deadlock].  The mutex of the file system is
      taken once by every call and is left out.
    - Reference counts of tasks; those of processes appear where [waitpid] asserts one.
    - Printing, the shell's waiting for its children, the chart of the philosophers, and the
      other user programs.
*)
From stdpp Require Export base numbers list gmap sets.

#[global] Open Scope Z_scope.

(** ** Outcomes of Rust code *)

(** What stops a Rust computation.  [Panic]: a failed [assert!], [unwrap],
    index or slice check, or [panic!].  [Deadlock]: a lock that the same
    flow of control already holds is taken again, so the code spins for
    ever.  [Undefined]: a memory reinterpretation with no meaning in Rust
    (an enum byte that is no discriminant), or an instruction the processor
    refuses at its exception level.  [DataAbort]: the kernel touches
    user memory that is not mapped; the trap handler then kills the current
    task.  [NoFuel]: a loop of the model
    ran longer than the bound it was given; it is no behaviour of the code,
    and the theorems show it is never reached. *)
Inductive fault := Panic | Deadlock | Undefined | DataAbort | NoFuel.

#[global] Instance fault_eq_dec : EqDecision fault.
Proof. solve_decision. Defined.

Inductive res (A : Type) := Ok (a : A) | Err (e : fault).
Arguments Ok {A} a.
Arguments Err {A} e.

#[global] Instance res_ret : MRet res := fun A a => Ok a.
#[global] Instance res_bind : MBind res := fun A B f m =>
  match m with Ok a => f a | Err e => Err e end.
#[global] Instance res_fmap : FMap res := fun A B f m =>
  match m with Ok a => Ok (f a) | Err e => Err e end.

#[global] Instance res_eq_dec {A} `{EqDecision A} : EqDecision (res A).
Proof. solve_decision. Defined.

(** [assert!(b)] and [Option::unwrap]. *)
Definition rassert (b : bool) : res unit := if b then Ok tt else Err Panic.
Definition unwrap {A} (o : option A) : res A :=
  match o with Some a => Ok a | None => Err Panic end.

Lemma bind_Ok {A B} (m : res A) (f : A -> res B) b :
  m ≫= f = Ok b <-> exists a, m = Ok a /\ f a = Ok b.
Proof.
  destruct m as [a|e]; simpl; split.
  - eauto.
  - intros (? & [= ->] & ?). done.
  - done.
  - intros (? & ? & ?). done.
Qed.

Lemma rassert_Ok b u : rassert b = Ok u <-> b = true.
Proof. destruct b, u; simpl; split; congruence. Qed.

Lemma unwrap_Ok {A} (o : option A) a : unwrap o = Ok a <-> o = Some a.
Proof. destruct o; simpl; split; congruence. Qed.

(** ** Machine integers

    A [w]-bit integer is a [Z] in [0, 2^w).  The kernel and easy-fs are
    built in release mode, so arithmetic wraps instead of panicking. *)
Definition u32 (z : Z) : Z := z `mod` 2 ^ 32.
Definition u64 (z : Z) : Z := z `mod` 2 ^ 64.
Abbreviation usize := u64.
(** [as isize] and [as i32]: two's complement reading. *)
Definition as_isize (z : Z) : Z :=
  let m := u64 z in if m <? 2 ^ 63 then m else m - 2 ^ 64.
Definition as_i32 (z : Z) : Z :=
  let m := u32 z in if m <? 2 ^ 31 then m else m - 2 ^ 32.

Lemma u32_small z : 0 <= z < 2 ^ 32 -> u32 z = z.
Proof. apply Z.mod_small. Qed.
Lemma u64_small z : 0 <= z < 2 ^ 64 -> u64 z = z.
Proof. apply Z.mod_small. Qed.
Lemma u32_range z : 0 <= u32 z < 2 ^ 32.
Proof. apply Z.mod_pos_bound. lia. Qed.
Lemma u64_range z : 0 <= u64 z < 2 ^ 64.
Proof. apply Z.mod_pos_bound. lia. Qed.

Lemma as_isize_small z : - 2 ^ 63 <= z < 2 ^ 63 -> as_isize z = z.
Proof.
  intros Hz. unfold as_isize. destruct (decide (0 <= z)).
  - rewrite u64_small by lia. by rewrite (proj2 (Z.ltb_lt _ _)) by lia.
  - unfold u64. rewrite <- (Z.mod_unique z (2 ^ 64) (-1) (z + 2 ^ 64)) by lia. rewrite (proj2 (Z.ltb_ge _ _)); lia.
Qed.

(** ** UTF-8

    [core::str::from_utf8] accepts exactly the well-formed byte sequences of
    Unicode: no overlong form, no surrogate, nothing above U+10FFFF. *)
Definition between (lo z hi : Z) : bool := (lo <=? z) && (z <=? hi).
Definition utf8_cont (z : Z) : bool := between 0x80 z 0xBF.
Fixpoint utf8_ok (l : list Z) : bool :=
  match l with
  | [] => true
  | a :: l1 =>
    if between 0 a 0x7F then utf8_ok l1 else
    match l1 with
    | [] => false
    | b :: l2 =>
      if between 0xC2 a 0xDF && utf8_cont b then utf8_ok l2 else
      match l2 with
      | [] => false
      | c :: l3 =>
        if ((a =? 0xE0) && between 0xA0 b 0xBF
            || (between 0xE1 a 0xEC || between 0xEE a 0xEF) && utf8_cont b
            || (a =? 0xED) && between 0x80 b 0x9F) && utf8_cont c
        then utf8_ok l3 else
        match l3 with
        | [] => false
        | e :: l4 =>
          if ((a =? 0xF0) && between 0x90 b 0xBF
              || between 0xF1 a 0xF3 && utf8_cont b
              || (a =? 0xF4) && between 0x80 b 0x8F) && utf8_cont c && utf8_cont e
          then utf8_ok l4 else false
        end
      end
    end
  end.
Definition from_utf8 (l : list Z) : option (list Z) :=
  if utf8_ok l then Some l else None.

(** ** Vectors and slices indexed by machine integers *)

Abbreviation Zlength l := (Z.of_nat (length l)).

(** [v[i]] and [v[i] = x], with Rust's bounds check. *)
Definition vget {A} (l : list A) (i : Z) : res A := unwrap (l !! Z.to_nat i).
Definition vset {A} (l : list A) (i : Z) (x : A) : res (list A) :=
  if i <? Zlength l then Ok (<[Z.to_nat i := x]> l) else Err Panic.

(** The [n] elements of [l] from [off] on, and [l] with [l'] written over
    the elements from [off] on. *)
Definition slice {A} (l : list A) (off n : Z) : list A :=
  take (Z.to_nat n) (drop (Z.to_nat off) l).
Definition splice {A} (l : list A) (off : Z) (l' : list A) : list A :=
  take (Z.to_nat off) l ++ l' ++ drop (Z.to_nat off + length l') l.

Lemma vget_Ok {A} (l : list A) i x :
  vget l i = Ok x <-> l !! Z.to_nat i = Some x.
Proof. apply unwrap_Ok. Qed.

Lemma vset_lt {A} (l : list A) i x :
  i < Zlength l -> vset l i x = Ok (<[Z.to_nat i := x]> l).
Proof. intros. unfold vset. by rewrite (proj2 (Z.ltb_lt _ _)). Qed.

Lemma length_slice {A} (l : list A) off n :
  0 <= off -> 0 <= n -> off + n <= Zlength l -> Zlength (slice l off n) = n.
Proof. intros. unfold slice. rewrite length_take, length_drop. lia. Qed.

Lemma length_splice {A} (l l' : list A) off :
  0 <= off -> off + Zlength l' <= Zlength l -> length (splice l off l') = length l.
Proof.
  intros. unfold splice. rewrite !length_app, length_take, length_drop. lia.
Qed.

Lemma lookup_slice {A} (l : list A) off n i :
  0 <= off -> (i < Z.to_nat n)%nat ->
  slice l off n !! i = l !! (Z.to_nat off + i)%nat.
Proof.
  intros. unfold slice. rewrite lookup_take_lt by lia. by rewrite lookup_drop.
Qed.

Lemma lookup_splice_in {A} (l l' : list A) off (i : nat) :
  0 <= off -> off + Zlength l' <= Zlength l ->
  off <= Z.of_nat i < off + Zlength l' ->
  splice l off l' !! i = l' !! (i - Z.to_nat off)%nat.
Proof.
  intros. unfold splice.
  rewrite lookup_app_r by (rewrite length_take; lia).
  rewrite length_take. rewrite lookup_app_l by lia. f_equal. lia.
Qed.

Lemma lookup_splice_out {A} (l l' : list A) off (i : nat) :
  0 <= off -> off + Zlength l' <= Zlength l ->
  ~ (off <= Z.of_nat i < off + Zlength l') ->
  splice l off l' !! i = l !! i.
Proof.
  intros. unfold splice. destruct (decide (Z.of_nat i < off)).
  - rewrite lookup_app_l by (rewrite length_take; lia).
    by rewrite lookup_take_lt by lia.
  - rewrite lookup_app_r by (rewrite length_take; lia).
    rewrite length_take. rewrite lookup_app_r by lia.
    rewrite lookup_drop. f_equal. lia.
Qed.

Lemma slice_splice_same {A} (l l' : list A) off :
  0 <= off -> off + Zlength l' <= Zlength l ->
  slice (splice l off l') off (Zlength l') = l'.
Proof.
  intros. unfold slice, splice.
  rewrite drop_app_le by (rewrite length_take; lia).
  rewrite (drop_ge (take _ _)) by (rewrite length_take; lia). simpl.
  rewrite take_app_le by lia. apply take_ge. lia.
Qed.

Lemma splice_slice_same {A} (l : list A) off n :
  0 <= off -> 0 <= n -> off + n <= Zlength l ->
  splice l off (slice l off n) = l.
Proof.
  intros. unfold splice. pose proof (length_slice l off n) as Hl.
  specialize (Hl ltac:(lia) ltac:(lia) ltac:(lia)). unfold slice in *.
  replace (Z.to_nat off + length (take (Z.to_nat n) (drop (Z.to_nat off) l)))%nat
    with (Z.to_nat off + Z.to_nat n)%nat by lia.
  rewrite <- drop_drop. by rewrite !take_drop.
Qed.

Lemma slice_full {A} (l : list A) n : n = Zlength l -> slice l 0 n = l.
Proof. intros ->. unfold slice. simpl. rewrite drop_0. apply take_ge. lia. Qed.

Lemma splice_full {A} (l l' : list A) :
  length l' = length l -> splice l 0 l' = l'.
Proof.
  intros E. unfold splice. simpl. rewrite drop_ge by lia.
  by rewrite app_nil_r.
Qed.

(** ** Searching *)

(** [iter().enumerate().find(p)]: the first index whose element satisfies
    [p], with the element. *)
Fixpoint find_index {A} (p : A -> bool) (l : list A) : option (nat * A) :=
  match l with
  | [] => None
  | x :: l => if p x then Some (0%nat, x) else
      match find_index p l with
      | Some (i, y) => Some (S i, y)
      | None => None
      end
  end.

Lemma find_index_Some {A} (p : A -> bool) l i x :
  find_index p l = Some (i, x) <->
  l !! i = Some x /\ p x = true /\
  forall j y, (j < i)%nat -> l !! j = Some y -> p y = false.
Proof.
  revert i; induction l as [|z l IH]; intros i; simpl.
  - rewrite lookup_nil. naive_solver.
  - destruct (p z) eqn:E.
    + split.
      * intros [= <- <-]. split_and!; [done..|]. intros. lia.
      * intros (Hl & Hp & Hmin). destruct i as [|i].
        -- simpl in Hl. congruence.
        -- specialize (Hmin 0%nat z ltac:(lia) eq_refl). congruence.
    + destruct (find_index p l) as [[k y]|] eqn:F.
      * split.
        -- intros [= <- ->]. destruct (proj1 (IH k) eq_refl) as (? & ? & Hm).
           split_and!; [done..|]. intros [|j] w Hj Hw; simpl in Hw.
           ++ congruence.
           ++ eapply (Hm j); [lia|done].
        -- intros (Hl & Hp & Hmin). destruct i as [|i]; simpl in Hl; [congruence|].
           assert (Some (k, y) = Some (i, x)) as [= -> ->]; [|done].
           apply IH. split_and!; [done..|]. intros j w Hj Hw.
           apply (Hmin (S j)); [lia|done].
      * split; [done|]. intros (Hl & Hp & Hmin).
        destruct i as [|i]; simpl in Hl; [congruence|].
        assert (None = Some (i, x)) as [=]. apply IH.
        split_and!; [done..|]. intros j w Hj Hw.
        apply (Hmin (S j)); [lia|done].
Qed.

Lemma filter_all {A} (P : A -> Prop) `{!forall x, Decision (P x)} l : Forall P l -> filter P l = l.
Proof. induction 1; [done|]. rewrite filter_cons_True by done. by f_equal. Qed.

Lemma filter_same {A} (P Q : A -> Prop) `{!forall x, Decision (P x), !forall x, Decision (Q x)} (l : list A) :
  (forall x, x ∈ l -> P x <-> Q x) -> filter P l = filter Q l.
Proof.
  induction l as [|x l IH]; intros HPQ; [done|]. rewrite !filter_cons.
  rewrite (decide_ext (P x) (Q x)) by (apply HPQ, elem_of_cons; by left). rewrite IH by (intros; apply HPQ, elem_of_cons; by right). done.
Qed.

Lemma find_index_None {A} (p : A -> bool) l :
  find_index p l = None <-> Forall (fun x => p x = false) l.
Proof.
  induction l as [|z l IH]; simpl.
  - split; [constructor|done].
  - rewrite Forall_cons. destruct (p z) eqn:E; [naive_solver|].
    destruct (find_index p l) as [[??]|]; naive_solver.
Qed.

Lemma find_index_split {A} (p : A -> bool) l i x :
  find_index p l = Some (i, x) ->
  p x = true /\ exists l1 l2, l = l1 ++ x :: l2 /\
    Forall (fun y => p y = false) l1 /\
    delete i l = l1 ++ l2 /\ forall y, <[i := y]> l = l1 ++ y :: l2.
Proof.
  intros (Hx & Hp & Hmin)%find_index_Some. split; [done|].
  exists (take i l), (drop (S i) l).
  pose proof (lookup_lt_Some _ _ _ Hx) as Hi. split_and!.
  - symmetry. by apply take_drop_middle.
  - apply Forall_lookup. intros j y Hy.
    pose proof (lookup_lt_Some _ _ _ Hy) as Hj. rewrite length_take in Hj.
    apply (Hmin j); [lia|]. by rewrite lookup_take_lt in Hy by lia.
  - apply delete_take_drop.
  - intros y. apply insert_take_drop. done.
Qed.

Lemma find_index_middle {A} (p : A -> bool) l1 x l2 :
  Forall (fun y => p y = false) l1 -> p x = true ->
  find_index p (l1 ++ x :: l2) = Some (length l1, x).
Proof.
  intros Hl1 Hx. apply find_index_Some. split_and!; [by rewrite list_lookup_middle|done|].
  intros k y Hk Hy. rewrite lookup_app_l in Hy by done.
  by eapply (Forall_lookup_1 _ _ _ _ Hl1).
Qed.

Lemma insert_middle {A} (l1 : list A) x l2 y :
  <[length l1 := y]> (l1 ++ x :: l2) = l1 ++ y :: l2.
Proof. rewrite insert_app_r_alt, Nat.sub_diag by lia. done. Qed.
