(* ===== verification/ByteCodec.v ===== *)
(** Little-endian words in byte buffers.

    easy-fs reinterprets the 512 bytes of a cached block as [[u32; 128]],
    [[u64; 64]] or a [#[repr(C)]] struct through a raw pointer
    (easy-fs/src/block_cache.rs, [get_ref] and [get_mut]).  On the aarch64
    and x86-64 hosts such a cast reads and writes little-endian words; this
    file defines that reading and writing and shows the two invert each
    other. *)
From S2P Require Import Prelude.

(** A byte is a [Z] in [0, 256). *)
Definition is_byte (z : Z) : Prop := 0 <= z < 256.
Abbreviation bytes_ok l := (Forall is_byte l).

(** The value of little-endian bytes, and the [n] bytes of a value. *)
Fixpoint le_Z (l : list Z) : Z :=
  match l with [] => 0 | b :: t => b + 256 * le_Z t end.
Fixpoint le_bytes (n : nat) (z : Z) : list Z :=
  match n with O => [] | S n => z `mod` 256 :: le_bytes n (z / 256) end.

(** [k] words of [n] bytes each, and back. *)
Fixpoint words (n k : nat) (l : list Z) : list Z :=
  match k with O => [] | S k => le_Z (take n l) :: words n k (drop n l) end.
Fixpoint unwords (n : nat) (ws : list Z) : list Z :=
  match ws with [] => [] | w :: ws => le_bytes n w ++ unwords n ws end.

Definition is_word (n : nat) (z : Z) : Prop := 0 <= z < 256 ^ Z.of_nat n.
Abbreviation words_ok n l := (Forall (is_word n) l).

Lemma length_le_bytes n z : length (le_bytes n z) = n.
Proof. revert z; induction n; intros; simpl; auto. Qed.

Lemma le_bytes_ok n z : bytes_ok (le_bytes n z).
Proof.
  revert z; induction n; intros; simpl; constructor; auto.
  unfold is_byte. apply Z.mod_pos_bound. lia.
Qed.

Lemma pow256_S n : 256 ^ Z.of_nat (S n) = 256 * 256 ^ Z.of_nat n.
Proof. rewrite Nat2Z.inj_succ, Z.pow_succ_r; lia. Qed.

Lemma le_Z_le_bytes n z : is_word n z -> le_Z (le_bytes n z) = z.
Proof.
  unfold is_word. revert z; induction n; intros z Hz; simpl le_bytes; simpl le_Z.
  - simpl in Hz. lia.
  - rewrite pow256_S in Hz. rewrite IHn.
    + pose proof (Z.div_mod z 256). lia.
    + split; [apply Z.div_pos; lia|]. apply Z.div_lt_upper_bound; lia.
Qed.

Lemma le_Z_word l : bytes_ok l -> is_word (length l) (le_Z l).
Proof.
  unfold is_word. induction 1 as [|b l Hb _ IH].
  - simpl. lia.
  - simpl length. rewrite pow256_S. simpl le_Z. unfold is_byte in *. lia.
Qed.

Lemma le_bytes_le_Z l : bytes_ok l -> le_bytes (length l) (le_Z l) = l.
Proof.
  induction 1 as [|b l Hb _ IH]; simpl; [done|]. unfold is_byte in *.
  rewrite <- (Z.mod_unique (b + 256 * le_Z l) 256 (le_Z l) b) by lia.
  rewrite <- (Z.div_unique (b + 256 * le_Z l) 256 (le_Z l) b) by lia.
  by rewrite IH.
Qed.

Lemma length_words n k l : length (words n k l) = k.
Proof. revert l; induction k; intros; simpl; auto. Qed.

Lemma length_unwords n ws : length (unwords n ws) = (n * length ws)%nat.
Proof.
  induction ws as [|w ws IH]; simpl; [lia|].
  rewrite length_app, length_le_bytes, IH. lia.
Qed.

Lemma unwords_ok n ws : bytes_ok (unwords n ws).
Proof.
  induction ws; simpl; [constructor|]. apply Forall_app; auto using le_bytes_ok.
Qed.

Lemma words_unwords n ws rest :
  words_ok n ws -> words n (length ws) (unwords n ws ++ rest) = ws.
Proof.
  induction 1 as [|w ws Hw _ IH]; simpl; [done|].
  rewrite <- app_assoc.
  rewrite take_app_length', drop_app_length' by (by rewrite length_le_bytes).
  by rewrite IH, le_Z_le_bytes.
Qed.

Lemma words_unwords_exact n k ws :
  length ws = k -> words_ok n ws -> words n k (unwords n ws) = ws.
Proof.
  intros <- Hw. rewrite <- (app_nil_r (unwords n ws)). by apply words_unwords.
Qed.

Lemma words_words_ok n k l :
  bytes_ok l -> length l = (n * k)%nat -> words_ok n (words n k l).
Proof.
  revert l; induction k; intros l Hb Hl; simpl; constructor.
  - assert (length (take n l) = n) as E by (rewrite length_take; lia).
    rewrite <- E at 1. apply le_Z_word. by apply Forall_take.
  - apply IHk; [by apply Forall_drop|]. rewrite length_drop. lia.
Qed.

Lemma unwords_words n k l :
  bytes_ok l -> length l = (n * k)%nat -> unwords n (words n k l) = l.
Proof.
  revert l; induction k; intros l Hb Hl; simpl.
  - destruct l; [done|]. simpl in Hl. lia.
  - rewrite IHk; [|by apply Forall_drop|rewrite length_drop; lia].
    assert (length (take n l) = n) as E by (rewrite length_take; lia).
    rewrite <- E at 1. rewrite le_bytes_le_Z by (by apply Forall_take).
    apply take_drop.
Qed.

#[global] Arguments words : simpl never.
#[global] Arguments unwords : simpl never.
#[global] Arguments le_bytes : simpl never.
#[global] Arguments le_Z : simpl never.

Create HintDb codec.
#[export] Hint Resolve le_bytes_ok unwords_ok words_words_ok : codec.
#[export] Hint Rewrite length_le_bytes length_words length_unwords : codec.

Lemma slice_bytes_ok l off n : bytes_ok l -> bytes_ok (slice l off n).
Proof. intros. unfold slice. by apply Forall_take, Forall_drop. Qed.

Lemma splice_bytes_ok l off l' :
  bytes_ok l -> bytes_ok l' -> bytes_ok (splice l off l').
Proof.
  intros. unfold splice. rewrite !Forall_app.
  split_and!; auto using Forall_take, Forall_drop.
Qed.
#[export] Hint Resolve slice_bytes_ok splice_bytes_ok : codec.

(** ** Types that live in a block

    [Layout T] is what the casts of [BlockCache::get_ref] and [get_mut]
    need of [T]: its size and its reading from and writing to raw bytes.
    [encode] is given the old bytes, since padding keeps its value. *)
Class Layout (T : Type) := {
  size_of : Z;
  decode : list Z -> option T;
  encode : T -> list Z -> list Z;
}.
Arguments size_of T {_}.

(** The values of a type the layout represents, and the laws. *)
Class LayoutLaws (T : Type) `{Layout T} := {
  repr_ok : T -> Prop;
  size_of_range : 0 < size_of T <= 512;
  length_encode t old :
    Zlength old = size_of T -> repr_ok t -> Zlength (encode t old) = size_of T;
  encode_ok t old : bytes_ok old -> repr_ok t -> bytes_ok (encode t old);
  decode_encode t old :
    Zlength old = size_of T -> repr_ok t -> decode (encode t old) = Some t;
  encode_decode t old :
    Zlength old = size_of T -> bytes_ok old -> decode old = Some t ->
    repr_ok t /\ encode t old = old;
}.

(** [[u32; 128]], [[u64; 64]] and [[u8; 512]]. *)
Record IndirectBlock := mkIndirect { ind_words : list Z }.
Record BitmapBlock := mkBitmap { bits_words : list Z }.
Record DataBlock := mkData { data_bytes : list Z }.

#[export] Instance IndirectBlock_layout : Layout IndirectBlock := {|
  size_of := 512;
  decode l := Some (mkIndirect (words 4 128 l));
  encode b _ := unwords 4 (ind_words b) |}.
#[export] Instance BitmapBlock_layout : Layout BitmapBlock := {|
  size_of := 512;
  decode l := Some (mkBitmap (words 8 64 l));
  encode b _ := unwords 8 (bits_words b) |}.
#[export] Instance DataBlock_layout : Layout DataBlock := {|
  size_of := 512;
  decode l := Some (mkData l);
  encode b _ := data_bytes b |}.

#[export] Instance IndirectBlock_laws : LayoutLaws IndirectBlock.
Proof.
  refine {| repr_ok b := length (ind_words b) = 128%nat /\ words_ok 4 (ind_words b) |}.
  - simpl; lia.
  - intros [ws] old _ [Hl _]. simpl in *. rewrite length_unwords, Hl. done.
  - intros. apply unwords_ok.
  - intros [ws] old _ [Hl Hw]; simpl in *. do 2 f_equal.
    by apply words_unwords_exact.
  - intros t old Hl Hb [= <-]. simpl in *.
    assert (length old = (4 * 128)%nat) by lia. split_and!.
    + by rewrite ?length_words.
    + by apply words_words_ok.
    + by apply unwords_words.
Defined.

#[export] Instance BitmapBlock_laws : LayoutLaws BitmapBlock.
Proof.
  refine {| repr_ok b := length (bits_words b) = 64%nat /\ words_ok 8 (bits_words b) |}.
  - simpl; lia.
  - intros [ws] old _ [Hl _]. simpl in *. rewrite length_unwords, Hl. done.
  - intros. apply unwords_ok.
  - intros [ws] old _ [Hl Hw]; simpl in *. do 2 f_equal.
    by apply words_unwords_exact.
  - intros t old Hl Hb [= <-]. simpl in *.
    assert (length old = (8 * 64)%nat) by lia. split_and!.
    + by rewrite ?length_words.
    + by apply words_words_ok.
    + by apply unwords_words.
Defined.

#[export] Instance DataBlock_laws : LayoutLaws DataBlock.
Proof.
  refine {| repr_ok b := length (data_bytes b) = 512%nat /\ bytes_ok (data_bytes b) |}.
  - simpl; lia.
  - intros [l] old _ [Hl _]. simpl in *. by rewrite Hl.
  - intros [l] old _ [_ Hb]. done.
  - intros [l] old _ _. done.
  - intros t old Hl Hb [= <-]. simpl in *. split_and!; [lia|done|done].
Defined.
