(* ===== verification/BlockCache.v ===== *)
(** The block layer of easy-fs: block devices (easy-fs/src/block_dev.rs), the
    block cache (easy-fs/src/block_cache.rs), and the host file device of
    the image packer (easy-fs-fuse/src/main.rs).

    File-system code is written as a [prog]: a tree of the block-layer calls
    it makes.  The same program is run by [run_cache], the cache manager
    with its 16 slots, reference counts, dirty flags and write-back, and by
    [run_disk], an abstract disk that is one map from block ids to bytes.
    [cache_refines_disk] shows the two runs agree on every program,
    panics and deadlocks included, so the rest of easy-fs is reasoned about
    on the abstract disk. *)
From S2P Require Import Prelude ByteCodec.

Definition BLOCK_SZ : Z := 512.
Definition BLOCK_CACHE_SIZE : Z := 16.

(** ** Block devices *)

Class BlockDevice (D : Type) := {
  read_block : D -> Z -> res (list Z);
  write_block : D -> Z -> list Z -> res D;
}.

(** The content of a block: exactly [BLOCK_SZ] bytes. *)
Definition is_block (l : list Z) : Prop := Zlength l = BLOCK_SZ /\ bytes_ok l.

#[export] Instance is_byte_dec z : Decision (is_byte z).
Proof. unfold is_byte. apply _. Defined.
#[export] Instance is_block_dec l : Decision (is_block l).
Proof. unfold is_block. apply _. Defined.

(** What the cache relies on: a block that can be read can be written, reads
    back what was written, and writing leaves the other blocks alone. *)
Class BlockDeviceLaws (D : Type) `{BlockDevice D} := {
  dev_ok : D -> Prop;
  read_is_block d b l : dev_ok d -> read_block d b = Ok l -> is_block l;
  read_fault d b e : dev_ok d -> read_block d b = Err e -> e = Panic;
  write_read d b l l' :
    dev_ok d -> read_block d b = Ok l -> is_block l' ->
    exists d', write_block d b l' = Ok d' /\ dev_ok d' /\
      read_block d' b = Ok l' /\
      forall b', b' <> b -> read_block d' b' = read_block d b';
}.

(** [BlockFile]: a host file accessed with [seek], [read] and [write].  Block
    ids are [u32] values widened to [usize], so [block_id * BLOCK_SZ] does
    not wrap; ids below zero do not exist. *)
Record BlockFile := mkFile { file : list Z }.

Definition file_read_block (f : BlockFile) (b : Z) : res (list Z) :=
  if b <? 0 then Err Panic else
  let buf := slice (file f) (b * BLOCK_SZ) BLOCK_SZ in
  _ ← rassert (Zlength buf =? BLOCK_SZ);
  Ok buf.

(** Writing past the end extends the file, the gap being zero. *)
Definition file_write_block (f : BlockFile) (b : Z) (buf : list Z) : res BlockFile :=
  if b <? 0 then Err Panic else
  let off := Z.to_nat (b * BLOCK_SZ) in
  let base := file f ++ replicate (off - length (file f)) 0 in
  _ ← rassert (Zlength buf =? BLOCK_SZ);
  Ok (mkFile (take off base ++ buf ++ drop (off + length buf) base)).

#[export] Instance BlockFile_device : BlockDevice BlockFile := {|
  read_block := file_read_block;
  write_block := file_write_block |}.

(** ** The cache manager *)

Record BlockCache := mkCache {
  cache : list Z;
  block_id : Z;
  modified : bool;
}.

(** A queue entry: the id, the cached block behind [Arc<Mutex<_>>] with the
    number of [Arc]s to it and whether the mutex is taken. *)
Record Slot := mkSlot {
  slot_id : Z;
  slot_cache : BlockCache;
  strong_count : Z;
  locked : bool;
}.

Record BlockCacheManager (D : Type) := mkManager {
  dev : D;
  queue : list Slot;
}.
Arguments mkManager {D} _ _.
Arguments dev {D} _.
Arguments queue {D} _.

Section manager.
Context {D : Type} `{BlockDevice D}.
Implicit Types (s : BlockCacheManager D).

(** [BlockCache::new]. *)
Definition BlockCache_new (d : D) (b : Z) : res BlockCache :=
  c ← read_block d b;
  Ok (mkCache c b false).

(** [BlockCache::sync], also what dropping the cache does. *)
Definition sync (d : D) (c : BlockCache) : res (D * BlockCache) :=
  if modified c then
    d' ← write_block d (block_id c) (cache c);
    Ok (d', mkCache (cache c) (block_id c) false)
  else Ok (d, c).

(** Make room when the queue is full: evict the first slot nobody else
    holds, writing it back. *)
Definition substitute s : res (BlockCacheManager D) :=
  if Zlength (queue s) =? BLOCK_CACHE_SIZE then
    match find_index (fun sl => strong_count sl =? 1) (queue s) with
    | Some (i, sl) =>
        '(d', _) ← sync (dev s) (slot_cache sl);
        Ok (mkManager d' (delete i (queue s)))
    | None => Err Panic
    end
  else Ok s.

(** [BlockCacheManager::get_block_cache]: the returned [Arc] counts. *)
Definition get_block_cache s (b : Z) : res (BlockCacheManager D) :=
  match find_index (fun sl => slot_id sl =? b) (queue s) with
  | Some (i, sl) =>
      Ok (mkManager (dev s) (<[i := mkSlot (slot_id sl) (slot_cache sl)
                                  (strong_count sl + 1) (locked sl)]> (queue s)))
  | None =>
      s1 ← substitute s;
      c ← BlockCache_new (dev s1) b;
      Ok (mkManager (dev s1) (queue s1 ++ [mkSlot b c 2 false]))
  end.

(** [Mutex::lock] on the slot of [b]. *)
Definition lock_slot s (b : Z) : res (list Z * BlockCacheManager D) :=
  match find_index (fun sl => slot_id sl =? b) (queue s) with
  | Some (i, sl) =>
      if locked sl then Err Deadlock else
      Ok (cache (slot_cache sl),
          mkManager (dev s) (<[i := mkSlot (slot_id sl) (slot_cache sl)
                                      (strong_count sl) true]> (queue s)))
  | None => Err Undefined
  end.

(** The end of [get_block_cache(b, ..).lock().read/modify(..)]: the guard and
    the [Arc] are dropped.  [w] is the new content after a [modify], which
    [get_mut] has marked [modified]. *)
Definition release_slot s (b : Z) (w : option (list Z)) : res (BlockCacheManager D) :=
  match find_index (fun sl => slot_id sl =? b) (queue s) with
  | Some (i, sl) =>
      if locked sl then
        let c := slot_cache sl in
        c' ← match w with
             | Some l => if decide (is_block l) then Ok (mkCache l (block_id c) true)
                         else Err Undefined
             | None => Ok c
             end;
        Ok (mkManager (dev s) (<[i := mkSlot (slot_id sl) c'
                                    (strong_count sl - 1) false]> (queue s)))
      else Err Undefined
  | None => Err Undefined
  end.

(** [block_cache_sync_all]. *)
Fixpoint sync_slots (d : D) (q : list Slot) : res (D * list Slot) :=
  match q with
  | [] => Ok (d, [])
  | sl :: q =>
      if locked sl then Err Deadlock else
      '(d1, c) ← sync d (slot_cache sl);
      '(d2, q') ← sync_slots d1 q;
      Ok (d2, mkSlot (slot_id sl) c (strong_count sl) (locked sl) :: q')
  end.
Definition block_cache_sync_all s : res (BlockCacheManager D) :=
  '(d', q') ← sync_slots (dev s) (queue s);
  Ok (mkManager d' q').
End manager.

(** ** Programs over the block layer *)

Inductive prog (A : Type) : Type :=
| Ret (a : A)
| Fail (e : fault)
| Acquire (b : Z) (k : list Z -> prog A)
| Release (b : Z) (w : option (list Z)) (k : prog A)
| SyncAll (k : prog A).
Arguments Ret {A} a.
Arguments Fail {A} e.
Arguments Acquire {A} b k.
Arguments Release {A} b w k.
Arguments SyncAll {A} k.

#[export] Instance prog_ret : MRet prog := fun A a => Ret a.
Fixpoint prog_bind_def {A B} (f : A -> prog B) (m : prog A) : prog B :=
  match m with
  | Ret a => f a
  | Fail e => Fail e
  | Acquire b k => Acquire b (fun l => prog_bind_def f (k l))
  | Release b w k => Release b w (prog_bind_def f k)
  | SyncAll k => SyncAll (prog_bind_def f k)
  end.
#[export] Instance prog_bind : MBind prog := @prog_bind_def.

Definition lift {A} (r : res A) : prog A :=
  match r with Ok a => Ret a | Err e => Fail e end.
Definition sync_all : prog unit := SyncAll (Ret tt).

(** [get_block_cache(b, dev).lock().read(off, |t: &T| f(t))]. *)
Definition cache_read {T V} `{Layout T} (b off : Z) (f : T -> prog V) : prog V :=
  Acquire b (fun l =>
    _ ← lift (rassert (off + size_of T <=? BLOCK_SZ));
    match decode (slice l off (size_of T)) with
    | None => Fail Undefined
    | Some t => v ← f t; Release b None (Ret v)
    end).

(** [get_block_cache(b, dev).lock().modify(off, |t: &mut T| f(t))]. *)
Definition cache_modify {T V} `{Layout T} (b off : Z) (f : T -> prog (V * T)) : prog V :=
  Acquire b (fun l =>
    _ ← lift (rassert (off + size_of T <=? BLOCK_SZ));
    let old := slice l off (size_of T) in
    match decode old with
    | None => Fail Undefined
    | Some t => '(v, t') ← f t;
                Release b (Some (splice l off (encode t' old))) (Ret v)
    end).

(** ** Running programs *)

Section run_cache.
Context {D : Type} `{BlockDevice D}.

Fixpoint run_cache {A} (p : prog A) (s : BlockCacheManager D)
    : res (A * BlockCacheManager D) :=
  match p with
  | Ret a => Ok (a, s)
  | Fail e => Err e
  | Acquire b k =>
      s1 ← get_block_cache s b;
      '(l, s2) ← lock_slot s1 b;
      run_cache (k l) s2
  | Release b w k => s1 ← release_slot s b w; run_cache k s1
  | SyncAll k => s1 ← block_cache_sync_all s; run_cache k s1
  end.
End run_cache.

(** The abstract disk: the latest content of every block, and the blocks
    whose cache mutex is taken. *)
Record Disk := mkDisk { dat : gmap Z (list Z); held : gset Z }.

Fixpoint run_disk {A} (p : prog A) (a : Disk) : res (A * Disk) :=
  match p with
  | Ret v => Ok (v, a)
  | Fail e => Err e
  | Acquire b k =>
      if decide (b ∈ held a) then Err Deadlock else
      if BLOCK_CACHE_SIZE <=? Z.of_nat (size (held a)) then Err Panic else
      l ← unwrap (dat a !! b);
      run_disk (k l) (mkDisk (dat a) ({[b]} ∪ held a))
  | Release b w k =>
      if decide (b ∈ held a) then
        d' ← match w with
             | Some l => if decide (is_block l) then Ok (<[b := l]> (dat a))
                         else Err Undefined
             | None => Ok (dat a)
             end;
        run_disk k (mkDisk d' (held a ∖ {[b]}))
      else Err Undefined
  | SyncAll k => if decide (held a = ∅) then run_disk k a else Err Deadlock
  end.

(** ** The cache refines the disk *)

Section refinement.
Context {D : Type} `{BlockDeviceLaws D}.
Implicit Types (s : BlockCacheManager D) (a : Disk) (d : D).

(** A slot agrees with the disk; a clean slot agrees with the device. *)
Record slot_rel (d : D) a (sl : Slot) : Prop := {
  sr_id : block_id (slot_cache sl) = slot_id sl;
  sr_dat : dat a !! slot_id sl = Some (cache (slot_cache sl));
  sr_block : is_block (cache (slot_cache sl));
  sr_dev : exists l, read_block d (slot_id sl) = Ok l /\
             (modified (slot_cache sl) = false -> l = cache (slot_cache sl));
  sr_locked : locked sl = bool_decide (slot_id sl ∈ held a);
  sr_count : strong_count sl = if decide (slot_id sl ∈ held a) then 2 else 1;
}.

Definition device_view (d : D) (b : Z) : option (list Z) :=
  match read_block d b with Ok l => Some l | Err _ => None end.

Record cache_rel s a : Prop := {
  cr_dev : dev_ok (dev s);
  cr_nodup : NoDup (slot_id <$> queue s);
  cr_len : Zlength (queue s) <= BLOCK_CACHE_SIZE;
  cr_slot : Forall (slot_rel (dev s) a) (queue s);
  cr_uncached b : b ∉ slot_id <$> queue s -> dat a !! b = device_view (dev s) b;
  cr_held b : b ∈ held a -> b ∈ slot_id <$> queue s;
}.

(** The slots' ids, split around one slot. *)
Lemma ids_split (q1 q2 : list Slot) sl :
  NoDup (slot_id <$> q1 ++ sl :: q2) <->
  slot_id sl ∉ slot_id <$> q1 ++ q2 /\ NoDup (slot_id <$> q1 ++ q2).
Proof.
  rewrite <- (Permutation_middle q1 q2 sl). rewrite fmap_cons. apply NoDup_cons.
Qed.

(** Only the held set and the content of other blocks matter to a slot. *)
Lemma slot_rel_frame d a d' a' sl :
  slot_rel d a sl ->
  dat a' !! slot_id sl = dat a !! slot_id sl ->
  (slot_id sl ∈ held a' <-> slot_id sl ∈ held a) ->
  read_block d' (slot_id sl) = read_block d (slot_id sl) ->
  slot_rel d' a' sl.
Proof.
  intros [] Hd Hh Hr. split; rewrite ?Hd, ?Hr; auto.
  - rewrite sr_locked0. apply bool_decide_ext. by rewrite Hh.
  - rewrite sr_count0. by destruct (decide (_ ∈ held a)), (decide (_ ∈ held a')); try tauto.
Qed.

Lemma Forall_slot_frame d a d' a' (q : list Slot) b :
  Forall (slot_rel d a) q -> b ∉ slot_id <$> q ->
  (forall b', b' <> b -> dat a' !! b' = dat a !! b') ->
  (forall b', b' <> b -> (b' ∈ held a' <-> b' ∈ held a)) ->
  (forall b', b' <> b -> read_block d' b' = read_block d b') ->
  Forall (slot_rel d' a') q.
Proof.
  intros Hq Hb Hd Hh Hr. rewrite Forall_forall in *. intros sl Hsl.
  assert (slot_id sl <> b).
  { intros <-. apply Hb. by apply list_elem_of_fmap_2. }
  eapply slot_rel_frame; eauto.
Qed.

(** Replace one slot by another of the same block. *)
Lemma cache_rel_replace d q1 sl sl' q2 a a' :
  cache_rel (mkManager d (q1 ++ sl :: q2)) a ->
  slot_id sl' = slot_id sl ->
  slot_rel d a' sl' ->
  (forall b, b <> slot_id sl -> dat a' !! b = dat a !! b) ->
  (forall b, b <> slot_id sl -> (b ∈ held a' <-> b ∈ held a)) ->
  cache_rel (mkManager d (q1 ++ sl' :: q2)) a'.
Proof.
  intros [Hdev Hnd Hlen Hs Hu Hh] Hid Hsl Hd Hhe. simpl in *.
  apply ids_split in Hnd as [Hni Hnd].
  assert (slot_id <$> q1 ++ sl' :: q2 = slot_id <$> q1 ++ sl :: q2) as Eids.
  { rewrite !fmap_app, !fmap_cons. by rewrite Hid. }
  rewrite Forall_app, Forall_cons in Hs. destruct Hs as (Hs1 & Hs & Hs2).
  rewrite fmap_app, elem_of_app in Hni.
  split; simpl; auto.
  - apply ids_split. rewrite Hid, fmap_app, elem_of_app, <- fmap_app. tauto.
  - rewrite length_app in *. simpl in *. lia.
  - rewrite Forall_app, Forall_cons. split_and!; auto;
      eapply Forall_slot_frame; eauto.
  - intros b Hb. rewrite Eids in Hb. rewrite Hd; [by apply Hu|].
    intros ->. apply Hb. rewrite fmap_app, fmap_cons. set_solver.
  - intros b Hb. rewrite Eids. destruct (decide (b = slot_id sl)) as [->|].
    + rewrite fmap_app, fmap_cons. set_solver.
    + apply Hh. by apply Hhe.
Qed.

(** Writing back a slot: the device then shows the slot's content. *)
Lemma sync_rel d a sl :
  dev_ok d -> slot_rel d a sl ->
  exists d', sync d (slot_cache sl) =
    Ok (d', mkCache (cache (slot_cache sl)) (slot_id sl) false) /\ dev_ok d' /\
    read_block d' (slot_id sl) = Ok (cache (slot_cache sl)) /\
    forall b, b <> slot_id sl -> read_block d' b = read_block d b.
Proof.
  intros Hd [Hid Hdat Hblk (l & Hl & Hclean) _ _].
  unfold sync. destruct (slot_cache sl) as [c b m]; simpl in *. subst b.
  destruct m; simpl.
  - destruct (write_read d (slot_id sl) l c) as (d' & -> & Hd' & Hr & Hne); auto.
    simpl. eauto.
  - exists d. split_and!; auto. rewrite Hl. f_equal. auto.
Qed.

(** A full queue with fewer than 16 held blocks has a slot to evict. *)
Lemma evictable s a :
  cache_rel s a -> Zlength (queue s) = BLOCK_CACHE_SIZE ->
  Z.of_nat (size (held a)) < BLOCK_CACHE_SIZE ->
  exists i sl, find_index (fun sl => strong_count sl =? 1) (queue s) = Some (i, sl).
Proof.
  intros [Hdev Hnd Hlen Hs Hu Hh] Hfull Hheld.
  destruct (find_index _ _) as [[i sl]|] eqn:E; [eauto|].
  apply find_index_None in E. exfalso.
  assert (list_to_set (slot_id <$> queue s) ⊆ held a) as Hsub.
  { intros b. rewrite elem_of_list_to_set, list_elem_of_fmap. intros (sl & -> & Hsl).
    rewrite Forall_forall in E, Hs. destruct (Hs _ Hsl) as [_ _ _ _ _ Hc].
    specialize (E _ Hsl). simpl in E. rewrite Hc in E. by case_decide. }
  apply subseteq_size in Hsub. rewrite size_list_to_set in Hsub by done.
  rewrite length_fmap in Hsub. lia.
Qed.

(** A full queue of held blocks has none. *)
Lemma not_evictable s a :
  cache_rel s a -> BLOCK_CACHE_SIZE <= Z.of_nat (size (held a)) ->
  Zlength (queue s) = BLOCK_CACHE_SIZE /\
  (forall b, b ∈ slot_id <$> queue s -> b ∈ held a) /\
  find_index (fun sl => strong_count sl =? 1) (queue s) = None.
Proof.
  intros [Hdev Hnd Hlen Hs Hu Hh] Hheld.
  set (ids := list_to_set (slot_id <$> queue s) : gset Z).
  assert (held a ⊆ ids) as Hsub.
  { intros b Hb. apply elem_of_list_to_set. auto. }
  assert (size ids = length (queue s)) as Hsz.
  { unfold ids. rewrite size_list_to_set by done. apply length_fmap. }
  pose proof (subseteq_size _ _ Hsub).
  assert (held a = ids) as Heq by (apply set_subseteq_size_eq; [done|lia]).
  assert (forall b, b ∈ slot_id <$> queue s -> b ∈ held a) as Hall.
  { intros b Hb. rewrite Heq. by apply elem_of_list_to_set. }
  split_and!; [lia|done|].
  apply find_index_None, Forall_forall. intros sl Hsl.
  rewrite Forall_forall in Hs. destruct (Hs _ Hsl) as [_ _ _ _ _ Hc].
  rewrite Hc, decide_True; [done|]. apply Hall. by apply list_elem_of_fmap_2.
Qed.

Lemma find_slot s b :
  match find_index (fun sl => slot_id sl =? b) (queue s) with
  | Some (_, sl) => slot_id sl = b
  | None => b ∉ slot_id <$> queue s
  end.
Proof.
  destruct (find_index _ _) as [[i sl]|] eqn:E.
  - apply find_index_Some in E as (_ & E & _). lia.
  - apply find_index_None in E. rewrite Forall_forall in E.
    rewrite list_elem_of_fmap. intros (sl & -> & Hsl). specialize (E _ Hsl). simpl in E. lia.
Qed.

Lemma substitute_rel s a :
  cache_rel s a -> Z.of_nat (size (held a)) < BLOCK_CACHE_SIZE ->
  exists s', substitute s = Ok s' /\ cache_rel s' a /\
    Zlength (queue s') < BLOCK_CACHE_SIZE /\
    forall b, b ∉ slot_id <$> queue s -> b ∉ slot_id <$> queue s'.
Proof.
  intros Hrel Hheld. unfold substitute. destruct (Z.eqb_spec (Zlength (queue s)) BLOCK_CACHE_SIZE) as [Hfull|Hfull].
  - destruct (evictable s a) as (i & sl & E); auto. rewrite E.
    apply find_index_split in E as (Hc & q1 & q2 & Eq & _ & Edel & _).
    destruct Hrel as [Hdev Hnd Hlen Hs Hu Hh]. rewrite Eq in *. rewrite Edel.
    rewrite Forall_app, Forall_cons in Hs. destruct Hs as (Hs1 & Hsl & Hs2).
    apply ids_split in Hnd as [Hni Hnd].
    destruct (sync_rel (dev s) a sl) as (d' & -> & Hd' & Hr & Hne); auto. simpl.
    eexists; split; [done|]. simpl. split.
    2:{ rewrite length_app in *. simpl in *. split; [lia|]. intros b.
        rewrite !fmap_app, fmap_cons. set_solver. }
    destruct Hsl as [Hid Hdat Hblk Hdv Hlk Hcnt].
    rewrite fmap_app, elem_of_app in Hni.
    split; simpl; auto.
    + rewrite length_app in *. simpl in *. lia.
    + rewrite Forall_app. split; eapply Forall_slot_frame; eauto; try done; tauto.
    + intros b Hb. destruct (decide (b = slot_id sl)) as [->|Hb'].
      * unfold device_view. by rewrite Hr.
      * unfold device_view. rewrite Hne by done. apply Hu.
        rewrite fmap_app, fmap_cons. rewrite fmap_app in Hb. set_solver.
    + intros b Hb. specialize (Hh b Hb). rewrite fmap_app, fmap_cons in Hh.
      rewrite fmap_app. assert (b <> slot_id sl); [|set_solver].
      intros ->. rewrite decide_True in Hcnt by done. lia.
  - exists s. split_and!; auto. destruct Hrel. lia.
Qed.

(** Taking the mutex of a cached block. *)
Lemma lock_middle d q1 sl q2 b :
  slot_id sl = b -> Forall (fun sl' => (slot_id sl' =? b) = false) q1 ->
  lock_slot (mkManager d (q1 ++ sl :: q2)) b =
  if locked sl then Err Deadlock else
  Ok (cache (slot_cache sl),
      mkManager d (q1 ++ mkSlot (slot_id sl) (slot_cache sl) (strong_count sl) true :: q2)).
Proof.
  intros <- Hq1. unfold lock_slot; simpl.
  rewrite find_index_middle; [|done|apply Z.eqb_refl].
  by rewrite insert_middle.
Qed.

Lemma acquire_cached d q1 sl q2 a :
  cache_rel (mkManager d (q1 ++ sl :: q2)) a -> slot_id sl ∉ held a ->
  Z.of_nat (size (held a)) < BLOCK_CACHE_SIZE /\
  cache_rel (mkManager d (q1 ++ mkSlot (slot_id sl) (slot_cache sl) 2 true :: q2))
    (mkDisk (dat a) ({[slot_id sl]} ∪ held a)).
Proof.
  intros Hrel Hin. pose proof Hrel as [_ _ _ Hs _ _]. simpl in Hs.
  rewrite Forall_app, Forall_cons in Hs. destruct Hs as (_ & [Hid Hdat Hblk Hdv Hlk Hcnt] & _).
  split.
  - destruct (decide (BLOCK_CACHE_SIZE <= Z.of_nat (size (held a)))); [|lia].
    destruct (not_evictable _ _ Hrel) as (_ & Hall & _); auto. exfalso. apply Hin, Hall.
    simpl. rewrite fmap_app, fmap_cons. set_solver.
  - eapply cache_rel_replace; eauto; simpl; [|set_solver].
    split; simpl; auto.
    + symmetry. apply bool_decide_eq_true. set_solver.
    + rewrite decide_True by set_solver. done.
Qed.

Lemma cache_rel_push s a b l :
  cache_rel s a -> Zlength (queue s) < BLOCK_CACHE_SIZE ->
  b ∉ slot_id <$> queue s -> read_block (dev s) b = Ok l ->
  cache_rel (mkManager (dev s) (queue s ++ [mkSlot b (mkCache l b false) 2 true]))
    (mkDisk (dat a) ({[b]} ∪ held a)).
Proof.
  intros Hrel Hlen' Hni Er. pose proof (cr_uncached _ _ Hrel b Hni) as Hdat.
  unfold device_view in Hdat. rewrite Er in Hdat.
  destruct Hrel as [Hdev Hnd Hlen Hs Hu Hh]. split; simpl; auto.
  - apply ids_split. by rewrite app_nil_r.
  - rewrite length_app. simpl. lia.
  - rewrite Forall_app, Forall_singleton. split.
    + eapply Forall_slot_frame; eauto. simpl. set_solver.
    + split; simpl; eauto using read_is_block.
      * symmetry. apply bool_decide_eq_true. set_solver.
      * rewrite decide_True by set_solver. done.
  - intros b' Hb'. apply Hu. rewrite fmap_app in Hb'. set_solver.
  - intros b' Hb'. rewrite fmap_app. set_solver.
Qed.

(** What taking a block's cache and its mutex does, on every branch. *)
Definition acquire_spec a b (r : res (list Z * BlockCacheManager D)) : Prop :=
  match r with
  | Ok (l, s') => b ∉ held a /\ Z.of_nat (size (held a)) < BLOCK_CACHE_SIZE /\
      dat a !! b = Some l /\ cache_rel s' (mkDisk (dat a) ({[b]} ∪ held a))
  | Err e =>
      if decide (b ∈ held a) then e = Deadlock else
      e = Panic /\ (dat a !! b = None \/ BLOCK_CACHE_SIZE <= Z.of_nat (size (held a)))
  end.

Lemma acquire_load s a b :
  cache_rel s a -> b ∉ slot_id <$> queue s ->
  acquire_spec a b (s1 ← substitute s; c ← BlockCache_new (dev s1) b;
    lock_slot (mkManager (dev s1) (queue s1 ++ [mkSlot b c 2 false])) b).
Proof.
  intros Hrel Hfind.
  assert (b ∉ held a) as Hnh by (intros ?; apply Hfind; by apply (cr_held _ _ Hrel)).
  destruct (decide (BLOCK_CACHE_SIZE <= Z.of_nat (size (held a)))) as [Hcap|Hcap].
  { destruct (not_evictable _ _ Hrel Hcap) as (Hfull & Hall & Hnone).
    unfold substitute. rewrite Hfull, Z.eqb_refl, Hnone. simpl.
    rewrite decide_False; auto. }
  destruct (substitute_rel s a) as (s' & -> & Hrel' & Hlen' & Hni); [done|lia|]. simpl.
  specialize (Hni _ Hfind). pose proof (cr_uncached _ _ Hrel' b Hni) as Hdat.
  unfold BlockCache_new, device_view in *.
  destruct (read_block (dev s') b) as [l|e] eqn:Er; simpl.
  2:{ rewrite decide_False by done. split; [|by left].
      eapply read_fault; [|done]. by destruct Hrel'. }
  rewrite (lock_middle _ _ (mkSlot b (mkCache l b false) 2 false) [] b); [|done|].
  2:{ apply Forall_forall. intros sl Hsl. apply Z.eqb_neq. intros <-.
      apply Hni. by apply list_elem_of_fmap_2. }
  simpl. split_and!; [done|lia|done|]. by apply cache_rel_push.
Qed.

Lemma acquire_sim s a b :
  cache_rel s a -> acquire_spec a b (s1 ← get_block_cache s b; lock_slot s1 b).
Proof.
  intros Hrel. unfold get_block_cache. pose proof (find_slot s b) as Hfind.
  destruct (find_index _ (queue s)) as [[i sl]|] eqn:E; simpl.
  - subst b. apply find_index_split in E as (_ & q1 & q2 & Eq & Hq1 & _ & Eins).
    destruct s as [d q]; simpl in *. subst q. rewrite Eins.
    pose proof (cr_slot _ _ Hrel) as Hs. simpl in Hs.
    rewrite Forall_app, Forall_cons in Hs. destruct Hs as (_ & Hsl & _).
    rewrite (lock_middle d q1 (mkSlot (slot_id sl) _ _ _) q2 (slot_id sl)) by done. simpl.
    rewrite (sr_locked _ _ _ Hsl), (sr_count _ _ _ Hsl). case_bool_decide as Hin; simpl.
    + by rewrite decide_True.
    + rewrite decide_False by done. destruct (acquire_cached d q1 sl q2 a); auto.
      split_and!; auto. apply (sr_dat _ _ _ Hsl).
  - pose proof (acquire_load s a b Hrel Hfind) as Hl.
    destruct (substitute s) as [s1|]; simpl in *; [|done].
    by destruct (BlockCache_new (dev s1) b); simpl in *.
Qed.

(** Dropping the guard and the [Arc]. *)
Lemma release_sim s a b w :
  cache_rel s a ->
  match release_slot s b w with
  | Ok s' => b ∈ held a /\ (forall l, w = Some l -> is_block l) /\
      cache_rel s' (mkDisk (match w with Some l => <[b := l]> (dat a) | None => dat a end)
                           (held a ∖ {[b]}))
  | Err e => e = Undefined /\ (b ∉ held a \/ exists l, w = Some l /\ ~ is_block l)
  end.
Proof.
  intros Hrel. unfold release_slot. pose proof (find_slot s b) as Hfind.
  destruct (find_index _ (queue s)) as [[i sl]|] eqn:E; simpl.
  2:{ split; [done|]. left. intros ?. apply Hfind. by apply (cr_held _ _ Hrel). }
  subst b. apply find_index_split in E as (_ & q1 & q2 & Eq & Hq1 & _ & Eins).
  destruct s as [d q]; simpl in *. subst q.
  pose proof (cr_slot _ _ Hrel) as Hs. simpl in Hs.
  rewrite Forall_app, Forall_cons in Hs.
  destruct Hs as (_ & [Hid Hdat Hblk (l0 & Hl0 & Hcl) Hlk Hcnt] & _).
  rewrite Hlk. case_bool_decide as Hin; simpl; [|by auto].
  rewrite decide_True in Hcnt by done.
  assert (forall c a', slot_rel d a' (mkSlot (slot_id sl) c (strong_count sl - 1) false) ->
    (forall b', b' <> slot_id sl -> dat a' !! b' = dat a !! b') ->
    held a' = held a ∖ {[slot_id sl]} ->
    cache_rel (mkManager d (q1 ++ mkSlot (slot_id sl) c (strong_count sl - 1) false :: q2)) a')
    as Hrep.
  { intros c a' Hc Hd He. eapply cache_rel_replace; eauto. rewrite He. set_solver. }
  destruct w as [l|]; [destruct (decide (is_block l)) as [Hl|Hl]|]; simpl; rewrite ?Eins.
  2:{ split; [done|]. right. eauto. }
  all: split_and!; [done|naive_solver|]; apply Hrep; simpl; auto.
  2:{ intros. by rewrite lookup_insert_ne. }
  all: split; simpl; rewrite ?lookup_insert_eq; auto.
  all: try (symmetry; apply bool_decide_eq_false; set_solver).
  all: try (rewrite decide_False by set_solver; lia).
  - eexists; split; [exact Hl0|done].
  - eauto.
Qed.

(** [block_cache_sync_all] succeeds when nothing is held, and then every slot
    is clean: the device holds the latest content of every block. *)
Lemma sync_slots_rel a q1 q2 d :
  cache_rel (mkManager d (q1 ++ q2)) a -> held a = ∅ ->
  Forall (fun sl => modified (slot_cache sl) = false) q1 ->
  exists d' q2', sync_slots d q2 = Ok (d', q2') /\
    cache_rel (mkManager d' (q1 ++ q2')) a /\
    Forall (fun sl => modified (slot_cache sl) = false) (q1 ++ q2').
Proof.
  revert q1 d. induction q2 as [|sl q2 IH]; intros q1 d Hrel Hheld Hclean; simpl.
  { exists d, []. rewrite app_nil_r in *. auto. }
  pose proof (cr_slot _ _ Hrel) as Hs. simpl in Hs.
  rewrite Forall_app, Forall_cons in Hs. destruct Hs as (Hs1 & Hsl & Hs2).
  rewrite (sr_locked _ _ _ Hsl), bool_decide_eq_false_2 by (rewrite Hheld; set_solver).
  destruct (sync_rel d a sl) as (d1 & -> & Hd1 & Hr & Hne); [by destruct Hrel|done|].
  simpl. set (sl' := mkSlot (slot_id sl) _ _ _).
  destruct (IH (q1 ++ [sl']) d1) as (d' & q2' & -> & Hrel' & Hcl').
  - rewrite <- app_assoc. simpl. destruct Hrel as [Hdev Hnd Hlen _ Hu Hh]. simpl in *.
    apply ids_split in Hnd as [Hni Hnd]. destruct Hsl.
    assert (slot_id <$> q1 ++ sl' :: q2 = slot_id <$> q1 ++ sl :: q2) as Eids.
    { by rewrite !fmap_app, !fmap_cons. }
    split; simpl; rewrite ?Eids; auto.
    + by apply ids_split.
    + rewrite length_app in *. simpl in *. lia.
    + rewrite fmap_app, elem_of_app in Hni.
      rewrite Forall_app, Forall_cons. split_and!.
      1,3: eapply Forall_slot_frame; eauto; try done; tauto.
      split; simpl; eauto.
      symmetry. apply bool_decide_eq_false. rewrite Hheld. set_solver.
    + intros b Hb. rewrite Hu by done. unfold device_view. rewrite Hne; [done|].
      intros ->. apply Hb. rewrite fmap_app, fmap_cons. set_solver.
  - done.
  - apply Forall_app. split; [done|]. by apply Forall_singleton.
  - simpl. rewrite <- app_assoc in Hrel', Hcl'. eauto.
Qed.

Lemma sync_all_rel s a :
  cache_rel s a -> held a = ∅ ->
  exists s', block_cache_sync_all s = Ok s' /\ cache_rel s' a /\
    forall b, dat a !! b = device_view (dev s') b.
Proof.
  intros Hrel Hheld. destruct s as [d q].
  destruct (sync_slots_rel a [] q d) as (d' & q' & E & Hrel' & Hcl); auto.
  unfold block_cache_sync_all. simpl. rewrite E. simpl.
  eexists; split_and!; [done..|]. intros b. simpl in *.
  destruct (decide (b ∈ slot_id <$> q')) as [Hb|Hb].
  - apply list_elem_of_fmap in Hb as (sl & -> & Hsl).
    pose proof (cr_slot _ _ Hrel') as Hs. rewrite Forall_forall in Hs, Hcl.
    destruct (Hs _ Hsl) as [_ -> _ (l & Hl & Hd) _ _]. specialize (Hcl _ Hsl).
    simpl in Hl. unfold device_view. rewrite Hl. f_equal. symmetry. auto.
  - by apply (cr_uncached _ _ Hrel').
Qed.

Lemma sync_slots_locked d q a :
  dev_ok d -> Forall (slot_rel d a) q -> NoDup (slot_id <$> q) ->
  Exists (fun sl => slot_id sl ∈ held a) q ->
  sync_slots d q = Err Deadlock.
Proof.
  intros Hd Hq Hnd He. revert d Hd Hq Hnd.
  induction He as [sl q Hin|sl q He IH]; intros d Hd Hq Hnd; simpl.
  - inversion Hq as [|?? Hsl _]; subst.
    by rewrite (sr_locked _ _ _ Hsl), bool_decide_eq_true_2.
  - inversion Hq as [|?? Hsl Hq']; subst. rewrite fmap_cons, NoDup_cons in Hnd.
    destruct (locked sl); [done|].
    destruct (sync_rel d a sl) as (d1 & -> & Hd1 & Hr & Hne); auto. simpl.
    destruct Hnd as [Hni Hnd]. rewrite (IH d1); [done|done| |done].
    eapply Forall_slot_frame; [exact Hq'|exact Hni|done..].
Qed.

(** Two runs agree: same value and related states, or the same fault. *)
Definition agree {A} (r1 : res (A * BlockCacheManager D)) (r2 : res (A * Disk)) : Prop :=
  match r1, r2 with
  | Ok (v, s'), Ok (v', a') => v = v' /\ cache_rel s' a'
  | Err e, Err e' => e = e'
  | _, _ => False
  end.

Lemma run_refines {A} (p : prog A) s a :
  cache_rel s a -> agree (run_cache p s) (run_disk p a).
Proof.
  revert s a. induction p as [v|e|b k IH|b w k IH|k IH]; intros s a Hrel; simpl; auto.
  - pose proof (acquire_sim s a b Hrel) as Hacq.
    destruct (get_block_cache s b) as [s1|]; simpl in *;
      [destruct (lock_slot s1 b) as [[l s2]|]; simpl in *|].
    2,3: case_decide; [by subst|]; destruct Hacq as [-> [Hn|Hn]];
         [rewrite Hn; by destruct (_ <=? _)|by rewrite (proj2 (Z.leb_le _ _))].
    destruct Hacq as (Hni & Hsz & Hdat & Hrel'). rewrite decide_False by done.
    rewrite (proj2 (Z.leb_gt _ _)) by done. rewrite Hdat. simpl. auto.
  - pose proof (release_sim s a b w Hrel) as Hr.
    destruct (release_slot s b w) as [s1|e]; simpl.
    + destruct Hr as (Hin & Hw & Hrel'). rewrite decide_True by done.
      destruct w as [l|]; simpl; [rewrite decide_True by auto; simpl|]; auto.
    + destruct Hr as [-> [Hn|(l & -> & Hl)]]; case_decide; try done.
      by rewrite decide_False.
  - case_decide as Hheld.
    + destruct (sync_all_rel s a) as (s' & -> & Hrel' & _); auto. simpl. auto.
    + apply set_choose_L in Hheld as [b Hb]. pose proof Hrel as [Hdev Hnd _ Hs _ Hh].
      unfold block_cache_sync_all. rewrite (sync_slots_locked _ _ a); [done|done..|].
      apply Exists_exists. destruct (proj1 (list_elem_of_fmap _ _ _) (Hh b Hb)) as (sl & -> & ?).
      eauto.
Qed.
End refinement.

(** ** The host file as a block device *)

Lemma file_write_bytes f b (buf : list Z) :
  0 <= b -> b * BLOCK_SZ + BLOCK_SZ <= Zlength (file f) -> Zlength buf = BLOCK_SZ ->
  file_write_block f b buf = Ok (mkFile (splice (file f) (b * BLOCK_SZ) buf)).
Proof.
  unfold BLOCK_SZ. intros Hb Hin Hl. unfold file_write_block, BLOCK_SZ.
  rewrite (proj2 (Z.ltb_ge b 0)), Hl by lia. simpl. do 2 f_equal.
  replace (Z.to_nat (b * 512) - length (file f))%nat with 0%nat by lia.
  simpl. by rewrite app_nil_r.
Qed.

Lemma file_read_Ok f b l :
  file_read_block f b = Ok l <->
  0 <= b /\ b * BLOCK_SZ + BLOCK_SZ <= Zlength (file f) /\
  l = slice (file f) (b * BLOCK_SZ) BLOCK_SZ.
Proof.
  unfold file_read_block, BLOCK_SZ. destruct (Z.ltb_spec b 0) as [Hb|Hb].
  { split; [done|lia]. }
  rewrite bind_Ok. setoid_rewrite rassert_Ok. unfold slice. rewrite length_take, length_drop.
  split.
  - intros (_ & Hl%Z.eqb_eq & [= <-]). split_and!; [done|lia|done].
  - intros (_ & Hl & ->). exists tt. split; [apply Z.eqb_eq; lia|done].
Qed.

Lemma file_read_fault f b e : file_read_block f b = Err e -> e = Panic.
Proof.
  unfold file_read_block. destruct (b <? 0); [congruence|].
  unfold rassert. destruct (_ =? _); simpl; congruence.
Qed.

(** Blocks do not overlap in the file. *)
Lemma file_slice_other (l l' : list Z) b b' :
  0 <= b -> 0 <= b' -> b' <> b -> Zlength l' = BLOCK_SZ ->
  b * BLOCK_SZ + BLOCK_SZ <= Zlength l -> b' * BLOCK_SZ + BLOCK_SZ <= Zlength l ->
  slice (splice l (b * BLOCK_SZ) l') (b' * BLOCK_SZ) BLOCK_SZ = slice l (b' * BLOCK_SZ) BLOCK_SZ.
Proof.
  unfold BLOCK_SZ. intros ? ? Hne ? ? ?. apply list_eq_same_length with (n := 512%nat).
  - pose proof (length_slice l (b' * 512) 512). lia.
  - pose proof (length_slice (splice l (b * 512) l') (b' * 512) 512) as Hx.
    rewrite length_splice in Hx by lia. lia.
  - intros i x y Hi Hx Hy. rewrite lookup_slice in Hx, Hy by lia.
    rewrite lookup_splice_out in Hx by lia. congruence.
Qed.

Lemma file_read_other f b b' l' :
  0 <= b -> b' <> b -> b * BLOCK_SZ + BLOCK_SZ <= Zlength (file f) -> Zlength l' = BLOCK_SZ ->
  file_read_block (mkFile (splice (file f) (b * BLOCK_SZ) l')) b' = file_read_block f b'.
Proof.
  intros Hb Hne Hin Hl'.
  assert (forall l0, file_read_block (mkFile (splice (file f) (b * BLOCK_SZ) l')) b' = Ok l0
            <-> file_read_block f b' = Ok l0) as Heq.
  { intros l0. rewrite !file_read_Ok. simpl. rewrite length_splice by (unfold BLOCK_SZ in *; lia).
    split; intros (? & ? & ->); rewrite file_slice_other in *; auto. }
  destruct (file_read_block (mkFile _) b') as [l1|e1] eqn:E1.
  - symmetry. by apply Heq.
  - destruct (file_read_block f b') as [l2|e2] eqn:E2; [by apply (Heq l2)|].
    apply file_read_fault in E1, E2. congruence.
Qed.

#[export] Instance BlockFile_laws : BlockDeviceLaws BlockFile.
Proof.
  refine {| dev_ok f := bytes_ok (file f) |}.
  - intros f b l Hf (? & ? & ->)%file_read_Ok. split.
    + unfold BLOCK_SZ in *. apply length_slice; lia.
    + by apply slice_bytes_ok.
  - intros f b e Hf. apply file_read_fault.
  - intros f b l l' Hf (Hb & Hin & ->)%file_read_Ok [Hl' Hb'].
    exists (mkFile (splice (file f) (b * BLOCK_SZ) l')). simpl. split_and!.
    + by apply file_write_bytes.
    + by apply splice_bytes_ok.
    + apply file_read_Ok. unfold BLOCK_SZ in *. simpl. split_and!; [done| |].
      * rewrite length_splice; lia.
      * rewrite <- Hl'. symmetry. rewrite slice_splice_same; lia || done.
    + intros b' Hne. simpl. by apply file_read_other.
Defined.

(** The blocks of a device whose blocks are numbered from 0 to [n - 1]. *)
Definition read_opt {D} `{BlockDevice D} (d : D) (i : nat) : option (Z * list Z) :=
  match read_block d (Z.of_nat i) with Ok l => Some (Z.of_nat i, l) | Err _ => None end.
Definition disk_of {D} `{BlockDevice D} (d : D) (n : nat) : gmap Z (list Z) :=
  list_to_map (omap (read_opt d) (seq 0 n)).

Lemma read_opt_ids {D} `{BlockDevice D} (d : D) k m :
  Forall (fun b : Z => Z.of_nat m <= b) (omap (read_opt d) (seq m k)).*1 /\
  NoDup (omap (read_opt d) (seq m k)).*1.
Proof.
  revert m. induction k as [|k IH]; intros m; simpl; [by split; constructor|].
  destruct (IH (S m)) as [Hf Hd].
  assert (Forall (fun b : Z => Z.of_nat m <= b) (omap (read_opt d) (seq (S m) k)).*1).
  { eapply Forall_impl; [exact Hf|]. simpl. lia. }
  destruct (read_opt d m) as [[b l]|] eqn:E; simpl; [|done].
  assert (b = Z.of_nat m) as ->.
  { unfold read_opt in E. destruct (read_block d (Z.of_nat m)); congruence. }
  split; constructor; auto; [lia|].
  rewrite Forall_forall in Hf. intros Hin. specialize (Hf _ Hin). simpl in Hf. lia.
Qed.

Lemma disk_of_lookup {D} `{BlockDevice D} (d : D) n b :
  (forall b l, read_block d b = Ok l -> 0 <= b < Z.of_nat n) ->
  disk_of d n !! b = device_view d b.
Proof.
  intros Hn. unfold device_view.
  assert (forall l, disk_of d n !! b = Some l <-> read_block d b = Ok l) as Hl.
  { intros l. unfold disk_of. rewrite <- elem_of_list_to_map by apply read_opt_ids.
    rewrite list_elem_of_omap. unfold read_opt. split.
    - intros (i & _ & Hi). destruct (read_block d (Z.of_nat i)) eqn:E; simplify_eq. done.
    - intros Hb. pose proof (Hn _ _ Hb). exists (Z.to_nat b).
      rewrite elem_of_seq. split; [lia|]. rewrite Z2Nat.id by lia. by rewrite Hb. }
  destruct (read_block d b) as [l|] eqn:E; [by apply Hl|].
  destruct (disk_of d n !! b) as [l|] eqn:E'; [|done]. by pose proof (proj1 (Hl l) eq_refl).
Qed.

Lemma cache_rel_start {D} `{BlockDeviceLaws D} (d : D) n :
  dev_ok d -> (forall b l, read_block d b = Ok l -> 0 <= b < Z.of_nat n) ->
  cache_rel (mkManager d []) (mkDisk (disk_of d n) ∅).
Proof.
  intros Hd Hn. split; simpl; auto; try done.
  - constructor.
  - intros b _. by apply disk_of_lookup.
Qed.

(** ** The claims about the cache *)

(** C1: every file-system program gives the same value, panic or deadlock when
    run on the 16-slot write-back cache over a device as on a plain map from
    block ids to bytes, and leaves the two related: no read of the program
    can tell the cache from the disk. *)
Theorem cache_refines_disk {D} `{BlockDeviceLaws D} {A} (p : prog A)
    (s : BlockCacheManager D) (a : Disk) :
  cache_rel s a ->
  match run_cache p s, run_disk p a with
  | Ok (v, s'), Ok (v', a') => v = v' /\ cache_rel s' a'
  | Err e, Err e' => e = e'
  | _, _ => False
  end.
Proof. intros Hrel. exact (run_refines p s a Hrel). Qed.

(** A two-block image, and a program that fills the cache of one block. *)
Definition small_image : BlockFile := mkFile (replicate 1024 7).
Definition fill_block (b : Z) (x : Z) : prog Z :=
  cache_modify b 0 (fun t : DataBlock => Ret (x, mkData (replicate 512 x))).

Lemma small_image_rel : cache_rel (mkManager small_image []) (mkDisk (disk_of small_image 2) ∅).
Proof.
  apply cache_rel_start.
  - change (bytes_ok (replicate 1024 7)). apply Forall_replicate. unfold is_byte. lia.
  - intros b l Hb%file_read_Ok. change (file small_image) with (replicate 1024 7) in Hb.
    rewrite length_replicate in Hb. unfold BLOCK_SZ in Hb. lia.
Qed.

Lemma cache_refines_disk_witness :
  match run_cache (fill_block 1 5) (mkManager small_image []),
        run_disk (fill_block 1 5) (mkDisk (disk_of small_image 2) ∅) with
  | Ok (v, s'), Ok (v', a') => v = v' /\ cache_rel s' a'
  | Err e, Err e' => e = e'
  | _, _ => False
  end.
Proof. exact (cache_refines_disk (fill_block 1 5) _ _ small_image_rel). Defined.

(** When no block is locked, [block_cache_sync_all] succeeds and afterwards
    the device itself holds the latest content of every block, so a device
    reopened after it shows all earlier writes. *)
Theorem sync_all_durable {D} `{BlockDeviceLaws D} (s : BlockCacheManager D) (a : Disk) :
  cache_rel s a -> held a = ∅ ->
  exists s', block_cache_sync_all s = Ok s' /\ cache_rel s' a /\
    forall b l, read_block (dev s') b = Ok l <-> dat a !! b = Some l.
Proof.
  intros Hrel Hh. destruct (sync_all_rel s a Hrel Hh) as (s' & E & Hr & Hd).
  exists s'. split_and!; [done..|]. intros b l. rewrite Hd. unfold device_view.
  destruct (read_block (dev s') b); naive_solver.
Qed.

Lemma sync_all_durable_witness :
  exists s', block_cache_sync_all (mkManager small_image []) = Ok s' /\
    cache_rel s' (mkDisk (disk_of small_image 2) ∅) /\
    forall b l, read_block (dev s') b = Ok l <->
      dat (mkDisk (disk_of small_image 2) ∅) !! b = Some l.
Proof. exact (sync_all_durable _ _ small_image_rel eq_refl). Defined.
