(* ===== verification/DiskLogic.v ===== *)
(** Total-correctness reasoning for file-system programs on the abstract disk.

    [wp h p d Q]: run with the blocks [h] locked by callers and disk content
    [d], the program [p] terminates without panic or deadlock, gives every
    lock it took back, and its value and the new content satisfy [Q]. *)
From S2P Require Import Prelude ByteCodec BlockCache.

Abbreviation content := (gmap Z (list Z)).

Definition wp {A} (h : gset Z) (p : prog A) (d : content)
    (Q : A -> content -> Prop) : Prop :=
  exists v d', run_disk p (mkDisk d h) = Ok (v, mkDisk d' h) /\ Q v d'.

(** Every block of the disk holds [BLOCK_SZ] bytes. *)
Definition disk_ok (d : content) : Prop := map_Forall (fun _ => is_block) d.

(** The cache can hold this many locked blocks while more are needed. *)
Abbreviation room h := (Z.of_nat (size h) < BLOCK_CACHE_SIZE).

Lemma run_disk_bind {A B} (p : prog A) (f : A -> prog B) a :
  run_disk (p ≫= f) a = '(v, a') ← run_disk p a; run_disk (f v) a'.
Proof.
  revert a; induction p as [v|e|b k IH|b w k IH|k IH]; intros a; simpl; auto.
  - case_decide; [done|]. destruct (_ <=? _); [done|].
    destruct (dat a !! b); simpl; [apply IH|done].
  - case_decide; [|done]. destruct w as [l|]; simpl; [case_decide; simpl; [|done]|]; apply IH.
  - case_decide; [apply IH|done].
Qed.

Lemma wp_ret {A} h (v : A) d (Q : A -> content -> Prop) : Q v d -> wp h (Ret v) d Q.
Proof. intros HQ. exists v, d. auto. Qed.

Lemma wp_bind {A B} h (p : prog A) (f : A -> prog B) d Q :
  wp h p d (fun v d' => wp h (f v) d' Q) -> wp h (p ≫= f) d Q.
Proof.
  intros (v & d' & E & v2 & d2 & E2 & HQ). exists v2, d2. split; [|done].
  rewrite run_disk_bind, E. simpl. done.
Qed.

Lemma wp_mono {A} h (p : prog A) d (Q Q' : A -> content -> Prop) :
  wp h p d Q -> (forall v d', Q v d' -> Q' v d') -> wp h p d Q'.
Proof. intros (v & d' & E & HQ) Himp. exists v, d'. auto. Qed.

(** The value and the final content of a program are unique. *)
Lemma wp_and {A} h (p : prog A) d (Q Q' : A -> content -> Prop) :
  wp h p d Q -> wp h p d Q' -> wp h p d (fun v d' => Q v d' /\ Q' v d').
Proof.
  intros (v & d' & E & HQ) (v2 & d2 & E2 & HQ2). rewrite E in E2. simplify_eq.
  exists v2, d2. auto.
Qed.

Lemma wp_lift {A} h (r : res A) v d (Q : A -> content -> Prop) :
  r = Ok v -> Q v d -> wp h (lift r) d Q.
Proof. intros -> HQ. exists v, d. auto. Qed.

Lemma wp_lift_bind {A B} h (r : res A) v (f : A -> prog B) d Q :
  r = Ok v -> wp h (f v) d Q -> wp h (lift r ≫= f) d Q.
Proof. intros -> HQ. exact HQ. Qed.

Lemma wp_sync {A} (p : prog A) d Q : wp ∅ p d Q -> wp ∅ (SyncAll p) d Q.
Proof. intros (v & d' & E & HQ). exists v, d'. simpl. auto. Qed.

(** A read of a [T] at [off] in block [b]. *)
Lemma wp_read {T V} `{Layout T} h b off (f : T -> prog V) d l t Q :
  b ∉ h -> room h -> d !! b = Some l -> off + size_of T <= BLOCK_SZ ->
  decode (slice l off (size_of T)) = Some t ->
  wp ({[b]} ∪ h) (f t) d Q -> wp h (cache_read b off f) d Q.
Proof.
  intros Hb Hroom Hl Hoff Hdec (v & d' & E & HQ). exists v, d'. split; [|done].
  unfold cache_read. simpl. rewrite decide_False by done.
  rewrite (proj2 (Z.leb_gt _ _)) by done. rewrite Hl. simpl.
  rewrite (proj2 (Z.leb_le _ _)) by done. simpl. rewrite Hdec.
  rewrite run_disk_bind, E. simpl. rewrite decide_True by set_solver. simpl.
  do 3 f_equal. set_solver.
Qed.

(** A modification of the [T] at [off] in block [b]. *)
Lemma wp_modify {T V} `{LayoutLaws T} h b off (f : T -> prog (V * T)) d l t Q :
  b ∉ h -> room h -> d !! b = Some l -> is_block l ->
  0 <= off -> off + size_of T <= BLOCK_SZ ->
  decode (slice l off (size_of T)) = Some t ->
  wp ({[b]} ∪ h) (f t) d (fun '(v, t') d' => repr_ok t' /\
    Q v (<[b := splice l off (encode t' (slice l off (size_of T)))]> d')) ->
  wp h (cache_modify b off f) d Q.
Proof.
  intros Hb Hroom Hl [Hlen Hbytes] Hoff Hoff' Hdec ([v t'] & d' & E & Hok & HQ).
  eexists v, _. split; [|exact HQ].
  unfold cache_modify. simpl. rewrite decide_False by done.
  rewrite (proj2 (Z.leb_gt _ _)) by done. rewrite Hl. simpl.
  rewrite (proj2 (Z.leb_le _ _)) by done. simpl. rewrite Hdec.
  rewrite run_disk_bind, E. simpl. rewrite decide_True by set_solver.
  pose proof size_of_range. unfold BLOCK_SZ in *.
  assert (Zlength (slice l off (size_of T)) = size_of T) as Hs by (apply length_slice; lia).
  pose proof (length_encode t' _ Hs Hok) as He.
  rewrite decide_True.
  - simpl. do 3 f_equal. set_solver.
  - split.
    + rewrite length_splice; unfold BLOCK_SZ; lia.
    + apply splice_bytes_ok; [done|]. apply encode_ok; [|done]. by apply slice_bytes_ok.
Qed.

(** A whole-block value: the block is exactly its encoding. *)
Lemma wp_modify_block {T V} `{LayoutLaws T} h b (f : T -> prog (V * T)) d l t Q :
  size_of T = BLOCK_SZ ->
  b ∉ h -> room h -> d !! b = Some l -> is_block l -> decode l = Some t ->
  wp ({[b]} ∪ h) (f t) d (fun '(v, t') d' => repr_ok t' /\ Q v (<[b := encode t' l]> d')) ->
  wp h (cache_modify b 0 f) d Q.
Proof.
  intros Hsz Hb Hroom Hl Hblk Hdec Hf. pose proof Hblk as [Hlen _].
  assert (slice l 0 (size_of T) = l) as Hs by (apply slice_full; lia).
  eapply wp_modify; eauto; rewrite ?Hs; [lia|lia|done|].
  eapply wp_mono; [exact Hf|]. intros [v t'] d' [Hok HQ]. split; [done|].
  rewrite splice_full; [done|].
  assert (Zlength (encode t' l) = size_of T) by (apply length_encode; [lia|done]). lia.
Qed.

Lemma wp_read_block {T V} `{Layout T} h b (f : T -> prog V) d l t Q :
  size_of T = BLOCK_SZ ->
  b ∉ h -> room h -> d !! b = Some l -> is_block l -> decode l = Some t ->
  wp ({[b]} ∪ h) (f t) d Q -> wp h (cache_read b 0 f) d Q.
Proof.
  intros Hsz Hb Hroom Hl [Hlen _] Hdec Hf.
  eapply wp_read; eauto; [lia|]. rewrite slice_full; [done|lia].
Qed.

(** Leaving a value unchanged leaves the disk unchanged. *)
Lemma insert_encode_same {T} `{LayoutLaws T} (d : content) b l t :
  d !! b = Some l -> is_block l -> size_of T = BLOCK_SZ -> decode l = Some t ->
  <[b := encode t l]> d = d.
Proof.
  intros Hl [Hlen Hb] Hs Hdec.
  destruct (encode_decode t l) as [_ He]; [lia|done|done|].
  rewrite He. by apply insert_id.
Qed.

Lemma disk_ok_insert d b l : disk_ok d -> is_block l -> disk_ok (<[b := l]> d).
Proof. intros. by apply map_Forall_insert_2. Qed.

Lemma disk_ok_lookup d b l : disk_ok d -> d !! b = Some l -> is_block l.
Proof. intros Hd Hl. by apply (Hd b). Qed.

Lemma encode_is_block {T} `{LayoutLaws T} (t : T) l :
  size_of T = BLOCK_SZ -> is_block l -> repr_ok t -> is_block (encode t l).
Proof.
  intros Hs [Hl Hb] Ht. split.
  - rewrite length_encode; lia || done.
  - by apply encode_ok.
Qed.

#[export] Hint Resolve disk_ok_insert disk_ok_lookup : codec.

Lemma size_union_1 (b : Z) (h : gset Z) : (size ({[b]} ∪ h) <= S (size h))%nat.
Proof.
  rewrite size_union_alt, size_singleton.
  assert (size (h ∖ {[b]}) <= size h)%nat by (apply subseteq_size; set_solver). lia.
Qed.

Lemma room_union (b : Z) (h : gset Z) :
  Z.of_nat (size h) + 1 < BLOCK_CACHE_SIZE -> room ({[b]} ∪ h).
Proof. intros. pose proof (size_union_1 b h). lia. Qed.
