(* ===== verification/Bitmap.v ===== *)
(** The bitmaps of easy-fs (easy-fs/src/bitmap.rs): allocation finds the lowest
    clear bit and sets it; deallocation clears a set bit. *)
From S2P Require Import Prelude ByteCodec BlockCache DiskLogic.

(** Number of bits in a block. *)
Definition BLOCK_BITS : Z := BLOCK_SZ * 8.
Definition u64_MAX : Z := 2 ^ 64 - 1.

Record Bitmap := Bitmap_new { start_block_id : Z; blocks : Z }.

(** Decompose bits into (block_pos, bits64_pos, inner_pos). *)
Definition decomposition (bit : Z) : Z * Z * Z :=
  let block_pos := bit / BLOCK_BITS in
  let bit := bit `mod` BLOCK_BITS in
  (block_pos, bit / 64, bit `mod` 64).

(** [u64::trailing_ones]. *)
Definition trailing_ones (w : Z) : Z :=
  match find_index (fun i => negb (Z.testbit w (Z.of_nat i))) (seq 0 64) with
  | Some (i, _) => Z.of_nat i
  | None => 64
  end.

(** The closure of [Bitmap::alloc] on one bitmap block. *)
Definition alloc_in_block (block_id : Z) (t : BitmapBlock) : option Z * BitmapBlock :=
  match find_index (fun bits64 => negb (bits64 =? u64_MAX)) (bits_words t) with
  | Some (bits64_pos, bits64) =>
      let inner_pos := trailing_ones bits64 in
      (Some (block_id * BLOCK_BITS + Z.of_nat bits64_pos * 64 + inner_pos),
       mkBitmap (<[bits64_pos := Z.lor bits64 (Z.shiftl 1 inner_pos)]> (bits_words t)))
  | None => (None, t)
  end.

(** [Bitmap::alloc]: the loop over the [n] bitmap blocks from [block_id]. *)
Fixpoint alloc_from (bm : Bitmap) (block_id : Z) (n : nat) : prog (option Z) :=
  match n with
  | O => Ret None
  | S n =>
      pos ← cache_modify (block_id + start_block_id bm) 0
              (fun t : BitmapBlock => Ret (alloc_in_block block_id t));
      match pos with
      | Some p => Ret (Some p)
      | None => alloc_from bm (block_id + 1) n
      end
  end.
Definition alloc (bm : Bitmap) : prog (option Z) :=
  alloc_from bm 0 (Z.to_nat (blocks bm)).

(** [Bitmap::dealloc]. *)
Definition dealloc (bm : Bitmap) (bit : Z) : prog unit :=
  let '(block_pos, bits64_pos, inner_pos) := decomposition bit in
  cache_modify (block_pos + start_block_id bm) 0 (fun t : BitmapBlock =>
    w ← lift (vget (bits_words t) bits64_pos);
    _ ← lift (rassert (0 <? Z.land w (Z.shiftl 1 inner_pos)));
    ws ← lift (vset (bits_words t) bits64_pos (u64 (w - Z.shiftl 1 inner_pos)));
    Ret (tt, mkBitmap ws)).

(** [Bitmap::maximum]. *)
Definition maximum (bm : Bitmap) : Z := blocks bm * BLOCK_BITS.

(** ** What a bitmap means *)

(** Bit [n] of the bitmap on disk [d]. *)
Definition bit_set (d : content) (bm : Bitmap) (n : Z) : bool :=
  let '(block_pos, bits64_pos, inner_pos) := decomposition n in
  match d !! (block_pos + start_block_id bm) with
  | Some l => match words 8 64 l !! Z.to_nat bits64_pos with
              | Some w => Z.testbit w inner_pos
              | None => false
              end
  | None => false
  end.

(** The bitmap's blocks are on the disk and no caller holds one. *)
Record bitmap_on (bm : Bitmap) (h : gset Z) (d : content) : Prop := {
  bo_blocks : 0 <= blocks bm;
  bo_dom n : 0 <= n < blocks bm -> is_Some (d !! (n + start_block_id bm));
  bo_free n : 0 <= n < blocks bm -> n + start_block_id bm ∉ h;
}.

Lemma trailing_ones_spec w :
  0 <= w < 2 ^ 64 -> w <> u64_MAX ->
  0 <= trailing_ones w < 64 /\ Z.testbit w (trailing_ones w) = false /\
  forall i, 0 <= i < trailing_ones w -> Z.testbit w i = true.
Proof.
  intros Hw Hne. unfold trailing_ones.
  destruct (find_index _ _) as [[i j]|] eqn:E.
  - apply find_index_Some in E as (Hi & Hp & Hmin).
    apply lookup_seq in Hi as [-> Hi]. rewrite Nat.add_0_l in *. split_and!; [lia..| |].
    + by apply negb_true_iff.
    + intros k Hk. specialize (Hmin (Z.to_nat k) (Z.to_nat k)).
      rewrite <- negb_false_iff. rewrite Z2Nat.id in Hmin by lia. apply Hmin; [lia|].
      apply lookup_seq. lia.
  - exfalso. apply Hne. apply find_index_None in E. rewrite Forall_forall in E.
    unfold u64_MAX. rewrite <- (Z.mod_small w (2 ^ 64)) by lia.
    rewrite <- Z.land_ones by lia. change (2 ^ 64 - 1) with (Z.ones 64).
    apply Z.bits_inj'. intros n Hn. rewrite Z.land_spec.
    destruct (decide (n < 64)).
    + specialize (E (Z.to_nat n)). rewrite elem_of_seq, negb_false_iff, Z2Nat.id in E by lia.
      rewrite E by lia. done.
    + rewrite Z.ones_spec_high by lia. by rewrite andb_false_r.
Qed.

Lemma setbit_word w i :
  0 <= w < 2 ^ 64 -> 0 <= i < 64 ->
  0 <= Z.lor w (Z.shiftl 1 i) < 2 ^ 64 /\
  forall j, 0 <= j -> Z.testbit (Z.lor w (Z.shiftl 1 i)) j = Z.testbit w j || (i =? j).
Proof.
  intros Hw Hi.
  assert (forall j, 0 <= j -> Z.testbit (Z.lor w (Z.shiftl 1 i)) j = Z.testbit w j || (i =? j))
    as Hbit.
  { intros j Hj. rewrite Z.lor_spec, Z.shiftl_1_l, Z.pow2_bits_eqb by lia. done. }
  split; [|done]. split.
  - apply Z.lor_nonneg. split; [lia|]. apply Z.shiftl_nonneg. lia.
  - apply Z.log2_lt_cancel. destruct (decide (w = 0)) as [->|].
    { rewrite Z.lor_0_l, Z.shiftl_1_l, !Z.log2_pow2; lia. }
    rewrite Z.log2_lor; [|lia|apply Z.shiftl_nonneg; lia].
    rewrite Z.shiftl_1_l, !Z.log2_pow2 by lia.
    assert (Z.log2 w < 64) by (apply Z.log2_lt_pow2; lia). lia.
Qed.

Lemma clearbit_word w i :
  0 <= w < 2 ^ 64 -> 0 <= i < 64 -> Z.testbit w i = true ->
  0 <= u64 (w - Z.shiftl 1 i) < 2 ^ 64 /\
  forall j, 0 <= j -> Z.testbit (u64 (w - Z.shiftl 1 i)) j = Z.testbit w j && negb (i =? j).
Proof.
  intros Hw Hi Hb. split; [apply u64_range|].
  assert (Z.ldiff (Z.shiftl 1 i) w = 0) as Hld.
  { apply Z.bits_inj'. intros n Hn. rewrite Z.ldiff_spec, Z.bits_0, Z.shiftl_1_l,
      Z.pow2_bits_eqb by lia. destruct (Z.eqb_spec i n) as [->|]; [by rewrite Hb|done]. }
  rewrite Z.sub_nocarry_ldiff by done. intros j Hj. unfold u64.
  destruct (decide (j < 64)).
  - rewrite Z.mod_pow2_bits_low by lia.
    by rewrite Z.ldiff_spec, Z.shiftl_1_l, Z.pow2_bits_eqb by lia.
  - rewrite Z.mod_pow2_bits_high by lia.
    rewrite (Z.bits_above_log2 w); [done|lia|].
    destruct (decide (w = 0)) as [->|]; [simpl; lia|].
    assert (Z.log2 w < 64) by (apply Z.log2_lt_pow2; lia). lia.
Qed.

Lemma land_bit_pos w i :
  0 <= w -> 0 <= i -> (0 <? Z.land w (Z.shiftl 1 i)) = Z.testbit w i.
Proof.
  intros Hw Hi. rewrite Z.shiftl_1_l.
  assert (Z.land w (2 ^ i) = if Z.testbit w i then 2 ^ i else 0) as ->.
  { apply Z.bits_inj'. intros n Hn. rewrite Z.land_spec, Z.pow2_bits_eqb by lia.
    destruct (Z.testbit w i) eqn:E; rewrite ?Z.pow2_bits_eqb, ?Z.bits_0 by lia;
      destruct (Z.eqb_spec i n) as [<-|]; by rewrite ?E, ?andb_false_r. }
  pose proof (Z.pow_pos_nonneg 2 i). destruct (Z.testbit w i); lia.
Qed.

(** Bit [m] of one bitmap block given as words. *)
Definition bit_in (ws : list Z) (m : Z) : bool :=
  match ws !! Z.to_nat (m / 64) with
  | Some w => Z.testbit w (m `mod` 64)
  | None => false
  end.

Lemma bit_set_eq d bm n :
  bit_set d bm n = match d !! (n / BLOCK_BITS + start_block_id bm) with
                   | Some l => bit_in (words 8 64 l) (n `mod` BLOCK_BITS)
                   | None => false
                   end.
Proof. done. Qed.

Lemma word_lookup ws i w :
  words_ok 8 ws -> ws !! i = Some w -> 0 <= w < 2 ^ 64.
Proof. intros Hw Hi. exact (Forall_lookup_1 _ _ _ _ Hw Hi). Qed.

(** Writing one word changes exactly its bits. *)
Lemma bit_in_insert ws pos w' m :
  0 <= m -> (pos < length ws)%nat ->
  bit_in (<[pos := w']> ws) m =
  if m / 64 =? Z.of_nat pos then Z.testbit w' (m `mod` 64) else bit_in ws m.
Proof.
  intros Hm Hpos. unfold bit_in. destruct (Z.eqb_spec (m / 64) (Z.of_nat pos)) as [E|E].
  - rewrite E, Nat2Z.id. by rewrite list_lookup_insert_eq.
  - rewrite list_lookup_insert_ne; [done|].
    assert (0 <= m / 64) by (apply Z.div_pos; lia). lia.
Qed.

Lemma div_mod_64 pos inner :
  0 <= inner < 64 -> (pos * 64 + inner) / 64 = pos /\ (pos * 64 + inner) `mod` 64 = inner.
Proof.
  intros. rewrite Z.add_comm. rewrite Z.div_add, Z.mod_add by lia.
  rewrite Z.div_small, Z.mod_small by lia. lia.
Qed.

Lemma alloc_in_block_spec id t :
  length (bits_words t) = 64%nat -> words_ok 8 (bits_words t) ->
  match alloc_in_block id t with
  | (Some p, t') => exists m, p = id * BLOCK_BITS + m /\ 0 <= m < BLOCK_BITS /\
      repr_ok t' /\ bit_in (bits_words t) m = false /\
      (forall k, 0 <= k < m -> bit_in (bits_words t) k = true) /\
      (forall k, 0 <= k -> bit_in (bits_words t') k = bit_in (bits_words t) k || (m =? k))
  | (None, t') => t' = t /\ forall k, 0 <= k < BLOCK_BITS -> bit_in (bits_words t) k = true
  end.
Proof.
  destruct t as [ws]; simpl. intros Hlen Hok. unfold alloc_in_block; simpl.
  change BLOCK_BITS with 4096.
  destruct (find_index _ ws) as [[pos w]|] eqn:E.
  - apply find_index_Some in E as (Hpos & Hne & Hmin).
    apply negb_true_iff, Z.eqb_neq in Hne.
    pose proof (word_lookup _ _ _ Hok Hpos) as Hw.
    destruct (trailing_ones_spec w Hw Hne) as (Ht & Hclear & Hones).
    destruct (setbit_word w (trailing_ones w) Hw Ht) as [Hrange Hset].
    pose proof (lookup_lt_Some _ _ _ Hpos) as Hlt.
    set (i := trailing_ones w) in *.
    destruct (div_mod_64 (Z.of_nat pos) i Ht) as [Hd Hm].
    exists (Z.of_nat pos * 64 + i). split_and!; [lia..| | | | |]; simpl.
    + by rewrite length_insert.
    + apply Forall_insert; [done|]. exact Hrange.
    + unfold bit_in. rewrite Hd, Hm, Nat2Z.id, Hpos. done.
    + intros k Hk. unfold bit_in. pose proof (Z.div_mod k 64 ltac:(lia)).
      pose proof (Z.mod_pos_bound k 64 ltac:(lia)).
      destruct (decide (k / 64 = Z.of_nat pos)) as [Ek|Hkp].
      * rewrite Ek, Nat2Z.id, Hpos. apply Hones. lia.
      * assert (0 <= k / 64) by (apply Z.div_pos; lia).
        destruct (lookup_lt_is_Some_2 ws (Z.to_nat (k / 64))) as [w' Hw']; [lia|].
        rewrite Hw'. specialize (Hmin (Z.to_nat (k / 64)) w' ltac:(lia) Hw').
        apply negb_false_iff, Z.eqb_eq in Hmin. subst w'.
        unfold u64_MAX. change (2 ^ 64 - 1) with (Z.ones 64). apply Z.ones_spec_low. lia.
    + intros k Hk. rewrite bit_in_insert by done.
      pose proof (Z.div_mod k 64 ltac:(lia)). pose proof (Z.mod_pos_bound k 64 ltac:(lia)).
      destruct (Z.eqb_spec (k / 64) (Z.of_nat pos)) as [Ek|Ek].
      * rewrite Hset by lia. unfold bit_in. rewrite Ek, Nat2Z.id, Hpos.
        f_equal. destruct (Z.eqb_spec i (k `mod` 64)), (Z.eqb_spec (Z.of_nat pos * 64 + i) k); lia.
      * rewrite (proj2 (Z.eqb_neq _ _)), orb_false_r by lia. done.
  - split; [done|]. intros k Hk. apply find_index_None in E. unfold bit_in.
    assert (0 <= k / 64) by (apply Z.div_pos; lia).
    assert (k / 64 < 64) by (apply Z.div_lt_upper_bound; lia).
    destruct (lookup_lt_is_Some_2 ws (Z.to_nat (k / 64))) as [w Hw]; [lia|].
    rewrite Hw. rewrite Forall_lookup in E. specialize (E _ _ Hw).
    apply negb_false_iff, Z.eqb_eq in E. subst w.
    unfold u64_MAX. change (2 ^ 64 - 1) with (Z.ones 64). apply Z.ones_spec_low.
    apply Z.mod_pos_bound. lia.
Qed.

(** Replacing one bitmap block changes only its own bits. *)
Lemma bit_set_insert d bm id l' k :
  0 <= k ->
  bit_set (<[id + start_block_id bm := l']> d) bm k =
  if k / BLOCK_BITS =? id then bit_in (words 8 64 l') (k `mod` BLOCK_BITS) else bit_set d bm k.
Proof.
  intros Hk. rewrite !bit_set_eq. destruct (Z.eqb_spec (k / BLOCK_BITS) id) as [->|Hne].
  - by rewrite lookup_insert_eq.
  - by rewrite lookup_insert_ne by lia.
Qed.

Lemma div_mod_bits id m :
  0 <= m < BLOCK_BITS ->
  (id * BLOCK_BITS + m) / BLOCK_BITS = id /\ (id * BLOCK_BITS + m) `mod` BLOCK_BITS = m.
Proof.
  change BLOCK_BITS with 4096. intros. rewrite Z.add_comm, Z.div_add, Z.mod_add by lia.
  rewrite Z.div_small, Z.mod_small by lia. lia.
Qed.

Lemma block_words_ok l :
  is_block l -> length (words 8 64 l) = 64%nat /\ words_ok 8 (words 8 64 l).
Proof.
  intros [Hl Hb]. split; [apply length_words|]. apply words_words_ok; [done|].
  unfold BLOCK_SZ in Hl. lia.
Qed.

(** The disks agree except on the block of bit [n]. *)
Definition same_but (bm : Bitmap) (n : Z) (d d' : content) : Prop :=
  (forall b, b <> n / BLOCK_BITS + start_block_id bm -> d' !! b = d !! b) /\
  dom d' = dom d /\ disk_ok d'.

(** [v] is the lowest clear bit from [lo] on, and it alone becomes set. *)
Definition alloc_post (bm : Bitmap) (lo : Z) (d : content) (v : option Z) (d' : content) : Prop :=
  match v with
  | Some p => lo <= p < maximum bm /\ bit_set d bm p = false /\
      (forall k, lo <= k < p -> bit_set d bm k = true) /\
      (forall k, 0 <= k -> bit_set d' bm k = bit_set d bm k || (p =? k)) /\
      same_but bm p d d'
  | None => d' = d /\ forall k, lo <= k < maximum bm -> bit_set d bm k = true
  end.

(** One bitmap block: the bits of block [id]. *)
Lemma alloc_block_post bm id d l t' p m :
  0 <= id < blocks bm -> 0 <= m < BLOCK_BITS -> p = id * BLOCK_BITS + m ->
  disk_ok d -> d !! (id + start_block_id bm) = Some l -> repr_ok t' ->
  bit_in (words 8 64 l) m = false ->
  (forall k, 0 <= k < m -> bit_in (words 8 64 l) k = true) ->
  (forall k, 0 <= k -> bit_in (bits_words t') k = bit_in (words 8 64 l) k || (m =? k)) ->
  alloc_post bm (id * BLOCK_BITS) d (Some p)
    (<[id + start_block_id bm := encode t' l]> d).
Proof.
  intros Hid Hm -> Hdok Hl Hok Hclear Hlow Hset. destruct (div_mod_bits id m Hm) as [Ed Em].
  pose proof (disk_ok_lookup _ _ _ Hdok Hl) as Hblk.
  assert (words 8 64 (unwords 8 (bits_words t')) = bits_words t') as Hw.
  { by apply words_unwords_exact; apply Hok. }
  unfold alloc_post, same_but. simpl. split_and!.
  - lia.
  - unfold maximum. change BLOCK_BITS with 4096 in *. nia.
  - by rewrite bit_set_eq, Ed, Em, Hl.
  - intros k Hk. rewrite bit_set_eq. destruct (div_mod_bits id (k - id * BLOCK_BITS)) as [Ek Ek'].
    { lia. }
    replace (id * BLOCK_BITS + (k - id * BLOCK_BITS)) with k in * by lia.
    rewrite Ek, Ek', Hl. apply Hlow. lia.
  - intros k Hk. rewrite bit_set_insert by done.
    pose proof (Z.div_mod k BLOCK_BITS ltac:(done)).
    pose proof (Z.mod_pos_bound k BLOCK_BITS ltac:(done)).
    destruct (Z.eqb_spec (k / BLOCK_BITS) id) as [Ek|Ek].
    + rewrite Hw, Hset, bit_set_eq, Ek, Hl by lia. f_equal.
      destruct (Z.eqb_spec m (k `mod` BLOCK_BITS)), (Z.eqb_spec (id * BLOCK_BITS + m) k); lia.
    + rewrite (proj2 (Z.eqb_neq _ k)), orb_false_r; [done|]. intros <-. by rewrite Ed in Ek.
  - intros b. rewrite Ed. intros. by rewrite lookup_insert_ne.
  - apply dom_insert_lookup_L. eauto.
  - apply disk_ok_insert; [done|]. exact (encode_is_block t' l eq_refl Hblk Hok).
Qed.

Lemma bit_set_full bm d id l :
  d !! (id + start_block_id bm) = Some l ->
  (forall k, 0 <= k < BLOCK_BITS -> bit_in (words 8 64 l) k = true) ->
  forall k, id * BLOCK_BITS <= k < (id + 1) * BLOCK_BITS -> bit_set d bm k = true.
Proof.
  intros Hl Hfull k Hk. destruct (div_mod_bits id (k - id * BLOCK_BITS)) as [Ek Ek']; [lia|].
  replace (id * BLOCK_BITS + (k - id * BLOCK_BITS)) with k in * by lia.
  rewrite bit_set_eq, Ek, Ek', Hl. apply Hfull. lia.
Qed.

Lemma alloc_from_spec bm h d n id :
  room h -> disk_ok d -> bitmap_on bm h d -> 0 <= id -> id + Z.of_nat n = blocks bm ->
  wp h (alloc_from bm id n) d (alloc_post bm (id * BLOCK_BITS) d).
Proof.
  intros Hroom Hd Hon. revert id. induction n as [|n IH]; intros id Hid Hn.
  - apply wp_ret. split; [done|]. unfold maximum. intros. change BLOCK_BITS with 4096 in *. lia.
  - cbn [alloc_from]. apply wp_bind. destruct Hon as [Hb Hdom Hfree].
    destruct (Hdom id) as [l Hl]; [lia|].
    pose proof (disk_ok_lookup _ _ _ Hd Hl) as Hblk.
    eapply wp_modify_block; eauto; [apply Hfree; lia|]. apply wp_ret.
    destruct (block_words_ok l Hblk) as [Hlen Hws].
    pose proof (alloc_in_block_spec id (mkBitmap (words 8 64 l)) Hlen Hws) as Hspec.
    destruct (alloc_in_block id _) as [[p|] t'].
    + destruct Hspec as (m & Hp & Hm & Hok & Hclear & Hlow & Hset). split; [done|].
      apply wp_ret. eapply alloc_block_post; eauto. lia.
    + destruct Hspec as [-> Hfull]. split; [by split|].
      rewrite insert_encode_same; [|done..].
      pose proof (bit_set_full bm d id l Hl Hfull) as Hbelow.
      assert (0 < BLOCK_BITS) by done.
      eapply wp_mono; [apply IH; lia|]. intros [p|] d'; simpl.
      * intros (Hp & Hclear & Hlow & Hrest). split_and!; [lia..|done| |apply Hrest|apply Hrest].
        intros k Hk. destruct (decide (k < (id + 1) * BLOCK_BITS)); [apply Hbelow|apply Hlow]; lia.
      * intros [-> Hall]. split; [done|]. intros k Hk.
        destruct (decide (k < (id + 1) * BLOCK_BITS)); [apply Hbelow|apply Hall]; lia.
Qed.

Lemma alloc_spec bm h d :
  room h -> disk_ok d -> bitmap_on bm h d -> wp h (alloc bm) d (alloc_post bm 0 d).
Proof.
  intros. unfold alloc. apply (alloc_from_spec bm h d _ 0); auto; [lia|].
  destruct H1. lia.
Qed.

Lemma bit_set_true d bm n :
  bit_set d bm n = true ->
  exists l w, d !! (n / BLOCK_BITS + start_block_id bm) = Some l /\
    words 8 64 l !! Z.to_nat (n `mod` BLOCK_BITS / 64) = Some w /\
    Z.testbit w (n `mod` BLOCK_BITS `mod` 64) = true.
Proof.
  rewrite bit_set_eq. unfold bit_in. destruct (d !! _) as [l|]; [|done].
  destruct (words 8 64 l !! _) as [w|] eqn:E; [|done]. eauto.
Qed.

(** Clearing bit [r] of one bitmap block. *)
Lemma clear_in_block ws r w :
  length ws = 64%nat -> words_ok 8 ws -> 0 <= r < BLOCK_BITS ->
  ws !! Z.to_nat (r / 64) = Some w -> Z.testbit w (r `mod` 64) = true ->
  let ws' := <[Z.to_nat (r / 64) := u64 (w - Z.shiftl 1 (r `mod` 64))]> ws in
  repr_ok (mkBitmap ws') /\
  forall k, 0 <= k -> bit_in ws' k = bit_in ws k && negb (r =? k).
Proof.
  intros Hlen Hok Hr Hw Hbit ws'. pose proof (word_lookup _ _ _ Hok Hw) as Hwr.
  pose proof (Z.mod_pos_bound r 64 ltac:(lia)) as Hrb.
  pose proof (Z.div_mod r 64 ltac:(lia)) as Hrd.
  assert (0 <= r / 64) by (apply Z.div_pos; lia).
  destruct (clearbit_word w (r `mod` 64) Hwr Hrb Hbit) as [Hrange Hclr]. split.
  - split; simpl; unfold ws'; [by rewrite length_insert|].
    apply Forall_insert; [done|]. exact Hrange.
  - intros k Hk. unfold ws'. rewrite bit_in_insert by (eauto using lookup_lt_Some).
    rewrite Z2Nat.id by lia. pose proof (Z.div_mod k 64 ltac:(lia)).
    pose proof (Z.mod_pos_bound k 64 ltac:(lia)).
    destruct (Z.eqb_spec (k / 64) (r / 64)) as [Er|Er].
    + rewrite Hclr by lia. unfold bit_in. rewrite Er, Hw. f_equal. f_equal.
      destruct (Z.eqb_spec (r `mod` 64) (k `mod` 64)), (Z.eqb_spec r k); lia.
    + rewrite (proj2 (Z.eqb_neq r k)), andb_true_r; [done|]. intros ->. lia.
Qed.

(** Deallocating a set bit clears it and nothing else. *)
Lemma dealloc_spec bm h d n :
  room h -> disk_ok d -> bitmap_on bm h d -> 0 <= n < maximum bm -> bit_set d bm n = true ->
  wp h (dealloc bm n) d (fun _ d' =>
    (forall k, 0 <= k -> bit_set d' bm k = bit_set d bm k && negb (n =? k)) /\ same_but bm n d d').
Proof.
  intros Hroom Hd [_ _ Hfree] Hn (l & w & Hl & Hw & Hbit)%bit_set_true.
  unfold dealloc, decomposition. pose proof (disk_ok_lookup _ _ _ Hd Hl) as Hblk.
  destruct (block_words_ok l Hblk) as [Hlen Hws].
  pose proof (Z.mod_pos_bound n BLOCK_BITS ltac:(done)) as Hnb.
  pose proof (Z.div_mod n BLOCK_BITS ltac:(done)) as Hnd.
  destruct (clear_in_block _ _ _ Hlen Hws Hnb Hw Hbit) as [Hok Hclr].
  assert (0 <= n / BLOCK_BITS < blocks bm) as Hq.
  { split; [apply Z.div_pos; [lia|done]|].
    apply Z.div_lt_upper_bound; [done|]. unfold maximum in Hn. lia. }
  pose proof (word_lookup _ _ _ Hws Hw) as Hwr.
  eapply wp_modify_block; [done|by apply Hfree|done|exact Hl|exact Hblk|done|].
  eapply wp_lift_bind; [by apply vget_Ok|].
  eapply wp_lift_bind; [rewrite land_bit_pos, Hbit; [done|lia|]; apply Z.mod_pos_bound; lia|].
  eapply wp_lift_bind; [apply vset_lt; cbn [bits_words]|].
  { pose proof (lookup_lt_Some _ _ _ Hw). lia. }
  apply wp_ret. cbn [bits_words]. set (ws' := <[_ := _]> _) in *. split; [done|]. split.
  - intros k Hk. simpl. rewrite bit_set_insert by done.
    rewrite words_unwords_exact by apply Hok.
    pose proof (Z.div_mod k BLOCK_BITS ltac:(done)). pose proof (Z.mod_pos_bound k BLOCK_BITS ltac:(done)).
    destruct (Z.eqb_spec (k / BLOCK_BITS) (n / BLOCK_BITS)) as [Ek|Ek].
    + rewrite Hclr, bit_set_eq, Ek, Hl by lia. f_equal. f_equal.
      destruct (Z.eqb_spec (n `mod` BLOCK_BITS) (k `mod` BLOCK_BITS)), (Z.eqb_spec n k); lia.
    + rewrite (proj2 (Z.eqb_neq n k)), andb_true_r; [done|]. intros ->. lia.
  - split_and!.
    + intros b Hb. by rewrite lookup_insert_ne.
    + apply dom_insert_lookup_L. eauto.
    + apply disk_ok_insert; [done|]. exact (encode_is_block (mkBitmap ws') l eq_refl Hblk Hok).
Qed.

(** [Bitmap::alloc] returns the lowest clear bit of the whole bitmap and
    sets exactly that bit, or returns nothing and changes nothing when every
    bit is set. *)
Theorem bitmap_alloc_lowest bm h d :
  room h -> disk_ok d -> bitmap_on bm h d -> wp h (alloc bm) d (alloc_post bm 0 d).
Proof. apply alloc_spec. Qed.

(** A one-block bitmap whose first nine bits are set. *)
Definition demo_bitmap : Bitmap := Bitmap_new 1 1.
Definition demo_bits : content := {[ 1 := [255; 1] ++ replicate 510 0 ]}.

Lemma demo_bits_ok : disk_ok demo_bits /\ bitmap_on demo_bitmap ∅ demo_bits.
Proof.
  split.
  - unfold disk_ok, demo_bits. apply map_Forall_singleton. apply (bool_decide_unpack _). by vm_compute.
  - split; [done| |intros; apply not_elem_of_empty]. simpl. intros n Hn.
    replace n with 0 by lia. eexists. by vm_compute.
Qed.

Lemma bitmap_alloc_lowest_witness : wp ∅ (alloc demo_bitmap) demo_bits (alloc_post demo_bitmap 0 demo_bits).
Proof. apply bitmap_alloc_lowest; [reflexivity|apply demo_bits_ok|apply demo_bits_ok]. Defined.

(** [Bitmap::dealloc] of a set bit clears exactly that bit and keeps every
    other block of the disk; of a clear bit it panics. *)
Theorem bitmap_dealloc_one bm h d n :
  room h -> disk_ok d -> bitmap_on bm h d -> 0 <= n < maximum bm ->
  if bit_set d bm n then
    wp h (dealloc bm n) d (fun _ d' =>
      (forall k, 0 <= k -> bit_set d' bm k = bit_set d bm k && negb (n =? k)) /\ same_but bm n d d')
  else run_disk (dealloc bm n) (mkDisk d h) = Err Panic.
Proof.
  intros Hroom Hd Hon Hn. destruct (bit_set d bm n) eqn:Hb; [by apply dealloc_spec|].
  destruct Hon as [_ Hdom Hfree].
  assert (0 <= n / BLOCK_BITS < blocks bm) as Hq.
  { split; [apply Z.div_pos; [lia|done]|].
    apply Z.div_lt_upper_bound; [done|]. unfold maximum in Hn. lia. }
  destruct (Hdom _ Hq) as [l Hl]. pose proof (disk_ok_lookup _ _ _ Hd Hl) as Hblk.
  destruct (block_words_ok l Hblk) as [Hlen Hws]. destruct Hblk as [Hll _].
  pose proof (Z.mod_pos_bound n BLOCK_BITS ltac:(done)) as Hnb.
  assert (0 <= n `mod` BLOCK_BITS / 64 < 64) as Hpos.
  { change BLOCK_BITS with 4096 in *. split; [apply Z.div_pos; lia|apply Z.div_lt_upper_bound; lia]. }
  destruct (lookup_lt_is_Some_2 (words 8 64 l) (Z.to_nat (n `mod` BLOCK_BITS / 64))) as [w Hw]; [lia|].
  rewrite bit_set_eq, Hl in Hb. unfold bit_in in Hb. rewrite Hw in Hb.
  pose proof (word_lookup _ _ _ Hws Hw) as Hwr.
  unfold dealloc, decomposition, cache_modify. cbn [run_disk held dat].
  rewrite decide_False by (by apply Hfree). rewrite (proj2 (Z.leb_gt _ _)) by done. rewrite Hl.
  change (size_of BitmapBlock) with 512. change (0 + 512 <=? BLOCK_SZ) with true.
  cbn [unwrap rassert lift mbind res_bind prog_bind prog_bind_def].
  rewrite slice_full by (unfold BLOCK_SZ in Hll; lia). cbn [decode BitmapBlock_layout bits_words].
  unfold vget. rewrite Hw. cbn [unwrap lift mbind prog_bind prog_bind_def].
  rewrite land_bit_pos, Hb; [done|lia|]. apply Z.mod_pos_bound. lia.
Qed.

Lemma bitmap_dealloc_one_witness :
  run_disk (dealloc demo_bitmap 9) (mkDisk demo_bits ∅) = Err Panic /\
  wp ∅ (dealloc demo_bitmap 8) demo_bits (fun _ d' =>
    (forall k, 0 <= k -> bit_set d' demo_bitmap k = bit_set demo_bits demo_bitmap k && negb (8 =? k)) /\
    same_but demo_bitmap 8 demo_bits d').
Proof.
  split; [apply (bitmap_dealloc_one demo_bitmap ∅ demo_bits 9)|apply (bitmap_dealloc_one demo_bitmap ∅ demo_bits 8)];
    try apply demo_bits_ok; vm_compute; try reflexivity; split; congruence.
Defined.
