(* ===== verification/Layout.v ===== *)
(** The on-disk structures of easy-fs (easy-fs/src/layout.rs): the super block,
    the disk inode with its direct, single- and double-indirect block
    tables, and directory entries.  Definitions only; the correctness of the
    block tables is in InodeMap.v, of reading and writing in InodeIO.v. *)
From S2P Require Import Prelude ByteCodec BlockCache DiskLogic.

Definition EFS_MAGIC : Z := 0x3b800001.
Definition INODE_DIRECT_COUNT : Z := 28.
Definition NAME_LENGTH_LIMIT : Z := 27.
Definition INODE_INDIRECT1_COUNT : Z := BLOCK_SZ / 4.
Definition INODE_INDIRECT2_COUNT : Z := INODE_INDIRECT1_COUNT * INODE_INDIRECT1_COUNT.
Definition DIRECT_BOUND : Z := INODE_DIRECT_COUNT.
Definition INDIRECT1_BOUND : Z := DIRECT_BOUND + INODE_INDIRECT1_COUNT.
Definition INDIRECT2_BOUND : Z := INDIRECT1_BOUND + INODE_INDIRECT2_COUNT.

(** ** Super block *)

Record SuperBlock := mkSuper {
  magic : Z;
  total_blocks_sb : Z;
  inode_bitmap_blocks : Z;
  inode_area_blocks : Z;
  data_bitmap_blocks : Z;
  data_area_blocks : Z;
}.

#[export] Instance SuperBlock_layout : Layout SuperBlock := {|
  size_of := 24;
  decode l := match words 4 6 l with
              | [m; t; ib; ia; db; da] => Some (mkSuper m t ib ia db da)
              | _ => None
              end;
  encode s _ := unwords 4 [magic s; total_blocks_sb s; inode_bitmap_blocks s;
                           inode_area_blocks s; data_bitmap_blocks s; data_area_blocks s] |}.

(** [SuperBlock::initialize] and [is_valid]. *)
Definition SuperBlock_initialize (total ib ia db da : Z) : SuperBlock :=
  mkSuper EFS_MAGIC total ib ia db da.
Definition is_valid (s : SuperBlock) : bool := magic s =? EFS_MAGIC.

(** ** Disk inode *)

Inductive DiskInodeType := File | Directory.

#[export] Instance DiskInodeType_eq_dec : EqDecision DiskInodeType.
Proof. solve_decision. Defined.

Record DiskInode := mkInode {
  size : Z;
  direct : list Z;
  indirect1 : Z;
  indirect2 : Z;
  type_ : DiskInodeType;
}.

(** The discriminant byte; any other byte is no [DiskInodeType]. *)
Definition type_byte (t : DiskInodeType) : Z :=
  match t with File => 0 | Directory => 1 end.
Definition type_of_byte (z : Z) : option DiskInodeType :=
  if z =? 0 then Some File else if z =? 1 then Some Directory else None.

Definition inode_words (di : DiskInode) : list Z :=
  size di :: direct di ++ [indirect1 di; indirect2 di].

(** [repr(C)]: 31 words, the discriminant byte, three bytes of padding. *)
#[export] Instance DiskInode_layout : Layout DiskInode := {|
  size_of := 128;
  decode l :=
    let ws := words 4 31 l in
    match l !! 124%nat, ws !! 0%nat, ws !! 29%nat, ws !! 30%nat with
    | Some tb, Some s, Some i1, Some i2 =>
        t ← type_of_byte tb; Some (mkInode s (take 28 (drop 1 ws)) i1 i2 t)
    | _, _, _, _ => None
    end;
  encode di old := unwords 4 (inode_words di) ++ type_byte (type_ di) :: drop 125 old |}.

(** [DiskInode::initialize]: every field is assigned. *)
Definition DiskInode_initialize (di : DiskInode) (t : DiskInodeType) : DiskInode :=
  mkInode 0 (replicate (length (direct di)) 0) 0 0 t.
Definition is_dir (di : DiskInode) : bool := bool_decide (type_ di = Directory).
Definition is_file (di : DiskInode) : bool := bool_decide (type_ di = File).

(** Return block number correspond to size. *)
Definition _data_blocks (size : Z) : Z := u32 (u32 (size + BLOCK_SZ) - 1) / BLOCK_SZ.
Definition data_blocks (di : DiskInode) : Z := _data_blocks (size di).

(** Return number of blocks needed include indirect1/2. *)
Definition total_blocks (size : Z) : Z :=
  let data_blocks := _data_blocks size in
  let total := data_blocks in
  let total := if INODE_DIRECT_COUNT <? data_blocks then total + 1 else total in
  let total :=
    if INDIRECT1_BOUND <? data_blocks then
      total + 1 + (data_blocks - INDIRECT1_BOUND + INODE_INDIRECT1_COUNT - 1)
                    / INODE_INDIRECT1_COUNT
    else total in
  u32 total.

Definition blocks_num_needed (di : DiskInode) (new_size : Z) : res Z :=
  _ ← rassert (size di <=? new_size);
  Ok (u32 (total_blocks new_size - total_blocks (size di))).

(** Get id of block given inner id. *)
Definition get_block_id (di : DiskInode) (inner_id : Z) : prog Z :=
  if inner_id <? INODE_DIRECT_COUNT then lift (vget (direct di) inner_id)
  else if inner_id <? INDIRECT1_BOUND then
    cache_read (indirect1 di) 0 (fun t : IndirectBlock =>
      lift (vget (ind_words t) (inner_id - INODE_DIRECT_COUNT)))
  else
    let last := inner_id - INDIRECT1_BOUND in
    i1 ← cache_read (indirect2 di) 0 (fun t : IndirectBlock =>
           lift (vget (ind_words t) (last / INODE_INDIRECT1_COUNT)));
    cache_read i1 0 (fun t : IndirectBlock =>
      lift (vget (ind_words t) (last `mod` INODE_INDIRECT1_COUNT))).

(** [new_blocks.next().unwrap()] on the iterator's remaining items. *)
Definition next (nb : list Z) : res (Z * list Z) :=
  match nb with b :: nb => Ok (b, nb) | [] => Err Panic end.

(** [while current < bound { table[current] = next; current += 1 }]: [n] is
    [bound - current], the number of iterations. *)
Fixpoint fill (n : nat) (current : Z) (table nb : list Z) : res (list Z * list Z) :=
  match n with
  | O => Ok (table, nb)
  | S n =>
      '(b, nb) ← next nb;
      table ← vset table current b;
      fill n (current + 1) table nb
  end.

(** The loop that fills the double-indirect table from (a0, b0) for [n]
    entries; [ind2] is the table of the locked [indirect2] block. *)
Fixpoint fill2 (n : nat) (a0 b0 : Z) (ind2 nb : list Z) : prog (list Z * list Z) :=
  match n with
  | O => Ret (ind2, nb)
  | S n =>
      '(ind2, nb) ← (if b0 =? 0 then
                       '(b, nb) ← lift (next nb);
                       ind2 ← lift (vset ind2 a0 b);
                       Ret (ind2, nb)
                     else Ret (ind2, nb));
      e ← lift (vget ind2 a0);
      nb ← cache_modify e 0 (fun t : IndirectBlock =>
             '(b, nb) ← lift (next nb);
             ws ← lift (vset (ind_words t) b0 b);
             Ret (nb, mkIndirect ws));
      let b0 := b0 + 1 in
      if b0 =? INODE_INDIRECT1_COUNT then fill2 n (a0 + 1) 0 ind2 nb
      else fill2 n a0 b0 ind2 nb
  end.

Definition set_size (di : DiskInode) (s : Z) : DiskInode :=
  mkInode s (direct di) (indirect1 di) (indirect2 di) (type_ di).
Definition set_direct (di : DiskInode) (v : list Z) : DiskInode :=
  mkInode (size di) v (indirect1 di) (indirect2 di) (type_ di).
Definition set_indirect1 (di : DiskInode) (b : Z) : DiskInode :=
  mkInode (size di) (direct di) b (indirect2 di) (type_ di).
Definition set_indirect2 (di : DiskInode) (b : Z) : DiskInode :=
  mkInode (size di) (direct di) (indirect1 di) b (type_ di).

(** The double-indirect part of [increase_size]: [current_blocks] and
    [total_blocks] count from [INDIRECT1_BOUND]. *)
Definition increase_indirect2 (di : DiskInode) (current total : Z) (nb : list Z)
    : prog DiskInode :=
  let a0 := current / INODE_INDIRECT1_COUNT in
  let b0 := current `mod` INODE_INDIRECT1_COUNT in
  let a1 := total / INODE_INDIRECT1_COUNT in
  let b1 := total `mod` INODE_INDIRECT1_COUNT in
  let n := a1 * INODE_INDIRECT1_COUNT + b1 - (a0 * INODE_INDIRECT1_COUNT + b0) in
  _ ← cache_modify (indirect2 di) 0 (fun t : IndirectBlock =>
        '(ws, nb) ← fill2 (Z.to_nat n) a0 b0 (ind_words t) nb;
        Ret (nb, mkIndirect ws));
  Ret di.

(** Increase the size of current disk inode. *)
Definition DiskInode_increase_size (di : DiskInode) (new_size : Z) (new_blocks : list Z)
    : prog DiskInode :=
  let current_blocks := data_blocks di in
  let di := set_size di new_size in
  let total_blocks := data_blocks di in
  (* fill direct *)
  let bound := Z.min total_blocks INODE_DIRECT_COUNT in
  '(dir, nb) ← lift (fill (Z.to_nat (bound - current_blocks)) current_blocks (direct di) new_blocks);
  let di := set_direct di dir in
  let current_blocks := Z.max current_blocks bound in
  (* alloc indirect1 *)
  if negb (INODE_DIRECT_COUNT <? total_blocks) then Ret di else
  '(di, nb) ← (if current_blocks =? INODE_DIRECT_COUNT then
                 '(b, nb) ← lift (next nb); Ret (set_indirect1 di b, nb)
               else Ret (di, nb));
  let current_blocks := current_blocks - INODE_DIRECT_COUNT in
  let total_blocks := total_blocks - INODE_DIRECT_COUNT in
  (* fill indirect1 *)
  let bound := Z.min total_blocks INODE_INDIRECT1_COUNT in
  nb ← cache_modify (indirect1 di) 0 (fun t : IndirectBlock =>
         '(ws, nb) ← lift (fill (Z.to_nat (bound - current_blocks)) current_blocks
                             (ind_words t) nb);
         Ret (nb, mkIndirect ws));
  let current_blocks := Z.max current_blocks bound in
  (* alloc indirect2 *)
  if negb (INODE_INDIRECT1_COUNT <? total_blocks) then Ret di else
  '(di, nb) ← (if current_blocks =? INODE_INDIRECT1_COUNT then
                 '(b, nb) ← lift (next nb); Ret (set_indirect2 di b, nb)
               else Ret (di, nb));
  increase_indirect2 di (current_blocks - INODE_INDIRECT1_COUNT)
    (total_blocks - INODE_INDIRECT1_COUNT) nb.

(** The full low-level tables of [clear_size]: [take(a1)] of [indirect2]. *)
Fixpoint collect_tables (entries : list Z) : prog (list Z) :=
  match entries with
  | [] => Ret []
  | e :: entries =>
      v1 ← cache_modify e 0 (fun t : IndirectBlock => Ret (ind_words t, t));
      v2 ← collect_tables entries;
      Ret (e :: v1 ++ v2)
  end.

(** Clear size to zero and return blocks that should be deallocated. *)
Definition clear_size (di : DiskInode) : prog (list Z * DiskInode) :=
  let data_blocks := data_blocks di in
  let di := set_size di 0 in
  (* direct *)
  let n := Z.to_nat (Z.min data_blocks INODE_DIRECT_COUNT) in
  let v := take n (direct di) in
  let di := set_direct di (replicate n 0 ++ drop n (direct di)) in
  (* indirect1 block *)
  if negb (INODE_DIRECT_COUNT <? data_blocks) then Ret (v, di) else
  let v := v ++ [indirect1 di] in
  let data_blocks := data_blocks - INODE_DIRECT_COUNT in
  v1 ← cache_modify (indirect1 di) 0 (fun t : IndirectBlock =>
         Ret (take (Z.to_nat (Z.min data_blocks INODE_INDIRECT1_COUNT)) (ind_words t), t));
  let v := v ++ v1 in
  let di := set_indirect1 di 0 in
  (* indirect2 block *)
  if negb (INODE_INDIRECT1_COUNT <? data_blocks) then Ret (v, di) else
  let v := v ++ [indirect2 di] in
  let data_blocks := data_blocks - INODE_INDIRECT1_COUNT in
  _ ← lift (rassert (data_blocks <=? INODE_INDIRECT2_COUNT));
  let a1 := data_blocks / INODE_INDIRECT1_COUNT in
  let b1 := data_blocks `mod` INODE_INDIRECT1_COUNT in
  v2 ← cache_modify (indirect2 di) 0 (fun t : IndirectBlock =>
         v2 ← collect_tables (take (Z.to_nat a1) (ind_words t));
         v3 ← (if 0 <? b1 then
                 e ← lift (vget (ind_words t) a1);
                 ws ← cache_modify e 0 (fun t1 : IndirectBlock =>
                        Ret (take (Z.to_nat b1) (ind_words t1), t1));
                 Ret (e :: ws)
               else Ret []);
         Ret (v2 ++ v3, t));
  Ret (v ++ v2, set_indirect2 di 0).

(** Read data from current disk inode: the loop over blocks.  The result is
    the bytes read, in the order they are copied to the buffer. *)
Fixpoint read_loop (fuel : nat) (di : DiskInode) (start start_block end_ : Z) : prog (list Z) :=
  match fuel with
  | O => Fail NoFuel
  | S fuel =>
      let end_current_block := Z.min ((start / BLOCK_SZ + 1) * BLOCK_SZ) end_ in
      let block_read_size := end_current_block - start in
      b ← get_block_id di (u32 start_block);
      src ← cache_read b 0 (fun t : DataBlock =>
              Ret (slice (data_bytes t) (start `mod` BLOCK_SZ) block_read_size));
      if end_current_block =? end_ then Ret src else
      rest ← read_loop fuel di end_current_block (start_block + 1) end_;
      Ret (src ++ rest)
  end.

(** The result: the number of bytes read and the buffer afterwards. *)
Definition DiskInode_read_at (di : DiskInode) (offset : Z) (buf : list Z) : prog (Z * list Z) :=
  let start := offset in
  let end_ := Z.min (usize (offset + Zlength buf)) (size di) in
  if end_ <=? start then Ret (0, buf) else
  v ← read_loop (S (Z.to_nat (end_ / BLOCK_SZ - start / BLOCK_SZ))) di start
        (start / BLOCK_SZ) end_;
  Ret (Zlength v, splice buf 0 v).

(** Write data into current disk inode; size must be adjusted properly
    beforehand.  [buf] is the part of the buffer not yet written. *)
Fixpoint write_loop (fuel : nat) (di : DiskInode) (start start_block end_ : Z) (buf : list Z)
    : prog Z :=
  match fuel with
  | O => Fail NoFuel
  | S fuel =>
      let end_current_block := Z.min ((start / BLOCK_SZ + 1) * BLOCK_SZ) end_ in
      let block_write_size := end_current_block - start in
      b ← get_block_id di (u32 start_block);
      _ ← cache_modify b 0 (fun t : DataBlock =>
            let src := slice buf 0 block_write_size in
            Ret (tt, mkData (splice (data_bytes t) (start `mod` BLOCK_SZ) src)));
      if end_current_block =? end_ then Ret block_write_size else
      rest ← write_loop fuel di end_current_block (start_block + 1) end_
               (drop (Z.to_nat block_write_size) buf);
      Ret (block_write_size + rest)
  end.

Definition DiskInode_write_at (di : DiskInode) (offset : Z) (buf : list Z) : prog Z :=
  let start := offset in
  let end_ := Z.min (usize (offset + Zlength buf)) (size di) in
  _ ← lift (rassert (start <=? end_));
  write_loop (S (Z.to_nat (end_ / BLOCK_SZ - start / BLOCK_SZ))) di start
    (start / BLOCK_SZ) end_ buf.

(** ** Directory entries *)

Record DirEntry := mkDirEntry { de_name : list Z; de_inode_number : Z }.

Definition DIRENT_SZ : Z := 32.

Definition DirEntry_empty : DirEntry :=
  mkDirEntry (replicate (Z.to_nat (NAME_LENGTH_LIMIT + 1)) 0) 0.

(** [DirEntry::new]: [bytes[..name.len()]] panics past 28 bytes. *)
Definition DirEntry_new (name : list Z) (inode_number : Z) : res DirEntry :=
  _ ← rassert (Zlength name <=? NAME_LENGTH_LIMIT + 1);
  Ok (mkDirEntry (splice (replicate (Z.to_nat (NAME_LENGTH_LIMIT + 1)) 0) 0 name) inode_number).

(** [as_bytes] and writing through [as_bytes_mut]. *)
Definition as_bytes (e : DirEntry) : list Z := de_name e ++ le_bytes 4 (de_inode_number e).
Definition of_bytes (l : list Z) : DirEntry := mkDirEntry (take 28 l) (le_Z (drop 28 l)).

(** [DirEntry::name]: the search for the terminating zero indexes past the
    array when there is none. *)
Definition DirEntry_name (e : DirEntry) : res (list Z) :=
  '(len, _) ← unwrap (find_index (fun c => c =? 0) (de_name e));
  unwrap (from_utf8 (take len (de_name e))).

Definition inode_number (e : DirEntry) : Z := de_inode_number e.

(** ** The layouts represent their types *)

#[export] Instance SuperBlock_laws : LayoutLaws SuperBlock.
Proof.
  refine {| repr_ok s := words_ok 4 [magic s; total_blocks_sb s; inode_bitmap_blocks s;
              inode_area_blocks s; data_bitmap_blocks s; data_area_blocks s] |}.
  - simpl; lia.
  - intros [] old _ _. unfold encode, size_of, SuperBlock_layout. by rewrite length_unwords.
  - intros. apply unwords_ok.
  - intros [] old _ Hw. unfold decode, encode, SuperBlock_layout.
    rewrite words_unwords_exact; [done..|exact Hw].
  - intros t old Hl Hb. unfold decode, encode, SuperBlock_layout. intros Hd.
    simpl in Hl. assert (length old = (4 * 6)%nat) as Hl' by lia.
    pose proof (words_words_ok 4 6 old Hb Hl') as Hw.
    pose proof (unwords_words 4 6 old Hb Hl') as Hu.
    destruct (words 4 6 old) as [|m [|t0 [|ib [|ia [|db [|da [|]]]]]]]; simplify_eq. done.
Defined.

Lemma type_byte_of t : type_of_byte (type_byte t) = Some t.
Proof. by destruct t. Qed.

Lemma type_of_byte_inv z t : type_of_byte z = Some t -> z = type_byte t.
Proof. unfold type_of_byte. repeat case_match; intros; simplify_eq; simpl; lia. Qed.

(** The 31 words of an inode, taken apart. *)
Lemma inode_words_parts di :
  length (direct di) = 28%nat ->
  length (inode_words di) = 31%nat /\
  inode_words di !! 0%nat = Some (size di) /\
  take 28 (drop 1 (inode_words di)) = direct di /\
  inode_words di !! 29%nat = Some (indirect1 di) /\
  inode_words di !! 30%nat = Some (indirect2 di).
Proof.
  intros Hl. unfold inode_words. simpl. rewrite length_app, Hl. split_and!; [done|done| |..].
  - rewrite drop_0. by apply take_app_length'.
  - by rewrite lookup_app_r, Hl by lia.
  - by rewrite lookup_app_r, Hl by lia.
Qed.

Lemma inode_words_join ws s i1 i2 t :
  length ws = 31%nat -> ws !! 0%nat = Some s -> ws !! 29%nat = Some i1 -> ws !! 30%nat = Some i2 ->
  inode_words (mkInode s (take 28 (drop 1 ws)) i1 i2 t) = ws.
Proof.
  intros Hl Hs H1 H2. unfold inode_words. simpl.
  destruct ws as [|s' ws]; simplify_eq/=.
  f_equal. rewrite drop_0. rewrite <- (take_drop 28 ws) at 2. f_equal.
  apply list_eq. intros [|[|i]]; rewrite lookup_drop; simpl; auto.
  symmetry. apply lookup_ge_None_2. lia.
Qed.

Lemma inode_words_prefix old :
  bytes_ok old -> Zlength old = 128 ->
  words 4 31 old = words 4 31 (take 124 old) /\
  unwords 4 (words 4 31 old) = take 124 old.
Proof.
  intros Hb Hold.
  assert (length (take 124 old) = (4 * 31)%nat) as Hl by (rewrite length_take; lia).
  assert (bytes_ok (take 124 old)) as Hb' by (by apply Forall_take).
  pose proof (words_unwords 4 (words 4 31 (take 124 old)) (drop 124 old)
                (words_words_ok 4 31 _ Hb' Hl)) as E.
  rewrite length_words, unwords_words, take_drop in E by done.
  rewrite E. auto using unwords_words.
Qed.

#[export] Instance DiskInode_laws : LayoutLaws DiskInode.
Proof.
  refine {| repr_ok di := length (direct di) = 28%nat /\ words_ok 4 (inode_words di) |}.
  - simpl; lia.
  - intros di old Hold [Hl _]. unfold encode, size_of, DiskInode_layout in *.
    destruct (inode_words_parts di Hl) as [Hw _].
    rewrite length_app, length_unwords, Hw. simpl. rewrite length_drop. lia.
  - intros di old Hold _. unfold encode, DiskInode_layout.
    apply Forall_app. split; [apply unwords_ok|].
    constructor; [|by apply Forall_drop]. destruct (type_ di); unfold is_byte; simpl; lia.
  - intros di old Hold [Hl Hok]. unfold encode, decode, size_of, DiskInode_layout in *.
    destruct (inode_words_parts di Hl) as (Hw & H0 & Hd & H1 & H2).
    pose proof (words_unwords 4 (inode_words di) (type_byte (type_ di) :: drop 125 old) Hok) as Hwu.
    rewrite Hw in Hwu. rewrite Hwu. rewrite lookup_app_r; rewrite length_unwords, Hw; [|lia].
    replace (124 - 4 * 31)%nat with 0%nat by lia. cbn [lookup list_lookup].
    rewrite H0, H1, H2, Hd. rewrite type_byte_of. by destruct di.
  - intros di old Hold Hb. unfold encode, decode, size_of, DiskInode_layout in *.
    assert (length (take 124 old) = (4 * 31)%nat) as Hl by (rewrite length_take; lia).
    pose proof (inode_words_prefix old Hb Hold) as [Ew Hu].
    assert (words_ok 4 (words 4 31 old)) as Hok.
    { rewrite Ew. apply words_words_ok; [by apply Forall_take|done]. }
    pose proof (length_words 4 31 old) as Hlw. clear Ew.
    remember (words 4 31 old) as ws eqn:Ews. clear Ews.
    destruct (old !! 124%nat) as [tb|] eqn:Etb; [|done].
    destruct (ws !! 0%nat) as [s|] eqn:E0; [|done].
    destruct (ws !! 29%nat) as [i1|] eqn:E1; [|done].
    destruct (ws !! 30%nat) as [i2|] eqn:E2; [|done].
    destruct (type_of_byte tb) as [t|] eqn:Et; [|done]. intros [= <-].
    rewrite inode_words_join by done. apply type_of_byte_inv in Et as ->. split_and!.
    + cbn [direct]. rewrite length_take, length_drop, Hlw. done.
    + done.
    + cbn [type_]. rewrite Hu. by apply take_drop_middle.
Defined.
