(* ===== verification/InodeMap.v ===== *)
(** The block tables of a disk inode (easy-fs/src/layout.rs): [get_block_id],
    [increase_size] and [clear_size] implement a list of data blocks.

    [inode_map d di bs ix] says that on disk [d] the inode [di] maps file
    block [i] to [bs !! i], and that [ix] lists the index blocks it uses. *)
From S2P Require Import Prelude ByteCodec BlockCache DiskLogic Layout.

From Stdlib Require Import ZifyNat.
#[local] Ltac Zify.zify_post_hook ::= Z.to_euclidean_division_equations.

(** The table of block ids in block [b]. *)
Definition ind_at (d : content) (b : Z) : list Z :=
  match d !! b with Some l => words 4 128 l | None => [] end.

(** Index blocks used by a file of [n] data blocks. *)
Definition sub_count (n : nat) : nat := (n + 127) / 128.
Definition index_list (d : content) (di : DiskInode) (n : nat) : list Z :=
  (if decide (28 < n)%nat then [indirect1 di] else []) ++
  (if decide (156 < n)%nat then
     indirect2 di :: take (sub_count (n - 156)) (ind_at d (indirect2 di))
   else []).

Record inode_map (d : content) (di : DiskInode) (bs ix : list Z) : Prop := {
  im_repr : repr_ok di;
  im_direct i b : bs !! i = Some b -> (i < 28)%nat -> direct di !! i = Some b;
  im_ind1 i b : bs !! i = Some b -> (28 <= i < 156)%nat ->
    ind_at d (indirect1 di) !! (i - 28)%nat = Some b;
  im_ind2 i b : bs !! i = Some b -> (156 <= i)%nat -> exists s,
    ind_at d (indirect2 di) !! ((i - 156) / 128)%nat = Some s /\
    ind_at d s !! ((i - 156) mod 128)%nat = Some b;
  im_max : Zlength bs <= INDIRECT2_BOUND;
  im_ix : ix = index_list d di (length bs);
}.

(** The index blocks are on the disk and nobody holds one. *)
Definition usable (h : gset Z) (d : content) (l : list Z) : Prop :=
  Forall (fun b => b ∉ h /\ b ∈ dom d) l.

Lemma usable_lookup h d l b : usable h d l -> b ∈ l -> b ∉ h /\ exists blk, d !! b = Some blk.
Proof.
  intros Hu Hb. unfold usable in Hu. rewrite Forall_forall in Hu. destruct (Hu b Hb) as [? Hd].
  apply elem_of_dom in Hd as [blk ?]. eauto.
Qed.

Lemma usable_app h d l1 l2 : usable h d (l1 ++ l2) <-> usable h d l1 /\ usable h d l2.
Proof. apply Forall_app. Qed.

Lemma usable_dom h d d' l : dom d' = dom d -> usable h d l -> usable h d' l.
Proof. intros E. unfold usable. by rewrite E. Qed.

Lemma usable_perm h d l l' : l ≡ₚ l' -> usable h d l -> usable h d l'.
Proof. intros E. unfold usable. by rewrite E. Qed.

Lemma ind_at_lookup d b l : d !! b = Some l -> ind_at d b = words 4 128 l.
Proof. intros E. unfold ind_at. by rewrite E. Qed.

Lemma ind_at_ok d b l : disk_ok d -> d !! b = Some l ->
  length (ind_at d b) = 128%nat /\ words_ok 4 (ind_at d b).
Proof.
  intros Hd E. rewrite (ind_at_lookup _ _ _ E). destruct (Hd _ _ E) as [Hl Hb].
  split; [apply length_words|]. apply words_words_ok; [done|]. unfold BLOCK_SZ in Hl. lia.
Qed.

Lemma ind_at_other d d' b : d' !! b = d !! b -> ind_at d' b = ind_at d b.
Proof. intros E. unfold ind_at. by rewrite E. Qed.

Lemma ind_at_insert_eq d b ws :
  length ws = 128%nat -> words_ok 4 ws -> ind_at (<[b := unwords 4 ws]> d) b = ws.
Proof.
  intros. unfold ind_at. rewrite lookup_insert_eq. by apply words_unwords_exact.
Qed.

Lemma ind_at_insert_ne d b b' l : b <> b' -> ind_at (<[b := l]> d) b' = ind_at d b'.
Proof. intros. apply ind_at_other. by rewrite lookup_insert_ne. Qed.

(** Only the index blocks matter. *)
Lemma inode_map_frame d d' di bs ix :
  inode_map d di bs ix -> (forall b, b ∈ ix -> d' !! b = d !! b) -> inode_map d' di bs ix.
Proof.
  intros [Hr H0 H1 H2 Hm Hix] Heq.
  assert ((28 < length bs)%nat -> ind_at d' (indirect1 di) = ind_at d (indirect1 di)) as E1.
  { intros. apply ind_at_other, Heq. rewrite Hix. unfold index_list. rewrite decide_True by lia.
    set_solver. }
  assert ((156 < length bs)%nat -> ind_at d' (indirect2 di) = ind_at d (indirect2 di)) as E2.
  { intros. apply ind_at_other, Heq. rewrite Hix. unfold index_list.
    rewrite (decide_True (P := (156 < _)%nat)) by lia. set_solver. }
  split; auto.
  - intros i b Hi Hr'. pose proof (lookup_lt_Some _ _ _ Hi). rewrite E1 by lia. eauto.
  - intros i b Hi Hr'. pose proof (lookup_lt_Some _ _ _ Hi).
    destruct (H2 i b Hi Hr') as (s & Hs & Hb). exists s. rewrite E2 by lia. split; [done|].
    rewrite (ind_at_other d d' s); [done|]. apply Heq. rewrite Hix. unfold index_list.
    rewrite (decide_True (P := (156 < _)%nat)) by lia. apply elem_of_app. right.
    apply elem_of_cons. right. eapply list_elem_of_lookup_2.
    rewrite lookup_take_lt; [exact Hs|]. unfold sub_count. lia.
  - rewrite Hix. unfold index_list. f_equal. case_decide; [|done]. rewrite E2 by lia. done.
Qed.

Lemma in_index_ind1 d di n : (28 < n)%nat -> indirect1 di ∈ index_list d di n.
Proof. intros. unfold index_list. rewrite decide_True by lia. set_solver. Qed.
Lemma in_index_ind2 d di n : (156 < n)%nat -> indirect2 di ∈ index_list d di n.
Proof.
  intros. unfold index_list. rewrite (decide_True (P := (156 < n)%nat)) by lia. set_solver.
Qed.
Lemma in_index_sub d di n i s :
  (156 <= i < n)%nat -> ind_at d (indirect2 di) !! ((i - 156) / 128)%nat = Some s ->
  s ∈ index_list d di n.
Proof.
  intros Hi Hs. unfold index_list. rewrite (decide_True (P := (156 < n)%nat)) by lia.
  apply elem_of_app. right. apply elem_of_cons. right. eapply list_elem_of_lookup_2.
  rewrite lookup_take_lt; [exact Hs|]. unfold sub_count. lia.
Qed.

(** Reading entry [i] of the table in block [b]. *)
Lemma wp_table h d b i x (Q : Z -> content -> Prop) :
  room h -> disk_ok d -> b ∉ h -> b ∈ dom d -> ind_at d b !! Z.to_nat i = Some x -> Q x d ->
  wp h (cache_read b 0 (fun t : IndirectBlock => lift (vget (ind_words t) i))) d Q.
Proof.
  intros Hroom Hd Hb [l Hl]%elem_of_dom Hx HQ. rewrite (ind_at_lookup _ _ _ Hl) in Hx.
  eapply wp_read_block; [done|done|done|exact Hl|eauto with codec|done|].
  eapply wp_lift; [|exact HQ]. by apply vget_Ok.
Qed.

(** [get_block_id] looks the block up and changes nothing. *)
Lemma get_block_id_wp h d di bs ix i b :
  room h -> disk_ok d -> inode_map d di bs ix -> usable h d ix ->
  bs !! i = Some b ->
  wp h (get_block_id di (Z.of_nat i)) d (fun v d' => v = b /\ d' = d).
Proof.
  intros Hroom Hd [Hr H0 H1 H2 Hm ->] Hu Hi. pose proof (lookup_lt_Some _ _ _ Hi) as Hlt.
  unfold usable in Hu. rewrite Forall_forall in Hu. unfold get_block_id.
  change INODE_DIRECT_COUNT with 28. change INDIRECT1_BOUND with 156.
  change INODE_INDIRECT1_COUNT with 128.
  destruct (Z.ltb_spec (Z.of_nat i) 28); [|destruct (Z.ltb_spec (Z.of_nat i) 156)].
  - eapply wp_lift; [|done]. apply vget_Ok. rewrite Nat2Z.id. apply H0; [done|lia].
  - destruct (Hu (indirect1 di)) as [Hh Hdom]; [apply in_index_ind1; lia|].
    eapply wp_table; eauto. replace (Z.to_nat _) with (i - 28)%nat by lia. apply H1; [done|lia].
  - destruct (H2 i b) as (s & Hs & Hb); [done|lia|].
    destruct (Hu (indirect2 di)) as [Hh Hdom]; [apply in_index_ind2; lia|].
    destruct (Hu s) as [Hh' Hdom']; [eapply in_index_sub; [|done]; lia|].
    apply wp_bind. eapply wp_table; eauto.
    { replace (Z.to_nat _) with ((i - 156) / 128)%nat by lia. done. }
    eapply wp_table; eauto. replace (Z.to_nat _) with ((i - 156) mod 128)%nat by lia. done.
Qed.

(** ** Growing *)

Lemma fill_eq n cur ws nb :
  0 <= cur -> (n <= length nb)%nat -> (Z.to_nat cur + n <= length ws)%nat ->
  fill n cur ws nb = Ok (splice ws cur (take n nb), drop n nb).
Proof.
  revert cur ws nb. induction n as [|n IH]; intros cur ws nb Hcur Hnb Hws; simpl.
  - unfold splice. simpl. rewrite Nat.add_0_r, take_drop. by rewrite drop_0.
  - destruct nb as [|b nb]; simpl in *; [lia|]. rewrite vset_lt by lia. simpl.
    rewrite IH; [|lia|lia|rewrite length_insert; lia]. do 2 f_equal.
    unfold splice. replace (Z.to_nat (cur + 1)) with (S (Z.to_nat cur)) by lia. simpl.
    rewrite (take_S_r _ _ b) by (apply list_lookup_insert_eq; lia).
    rewrite take_insert_ge by lia. rewrite <- app_assoc. simpl. do 3 f_equal.
    rewrite drop_insert_lt by lia. f_equal. lia.
Qed.

(** The table of the double-indirect block: [bs] are the data blocks it
    leads to, [take (sub_count (length bs)) ws] its sub-tables. *)
Record table2 (d : content) (ws bs : list Z) : Prop := {
  t2_len : length ws = 128%nat;
  t2_ok : words_ok 4 ws;
  t2_at m b : bs !! m = Some b -> exists s,
    ws !! (m / 128)%nat = Some s /\ ind_at d s !! (m mod 128)%nat = Some b;
}.

(** Writing entry [length bs] through sub-table [s]. *)
Lemma table2_write d ws bs s b l :
  let a := (length bs / 128)%nat in
  table2 d ws bs -> disk_ok d -> d !! s = Some l -> is_word 4 b ->
  ws !! a = Some s -> NoDup (take (S a) ws) ->
  let d' := <[s := unwords 4 (<[(length bs mod 128)%nat := b]> (ind_at d s))]> d in
  table2 d' ws (bs ++ [b]) /\ disk_ok d' /\ dom d' = dom d.
Proof.
  intros a [Hl Hok Hat] Hd Hs Hb Ha Hnd d'.
  destruct (ind_at_ok d s l Hd Hs) as [Hil Hiok].
  set (ws' := <[(length bs mod 128)%nat := b]> (ind_at d s)) in *.
  assert (length ws' = 128%nat) as Hl' by (unfold ws'; by rewrite length_insert).
  assert (words_ok 4 ws') as Hok' by (by apply Forall_insert).
  assert (ind_at d' s = ws') as Eat by (by apply ind_at_insert_eq).
  split_and!.
  - split; auto. intros m b' Hm. apply lookup_app_Some in Hm as [Hm|[Hge Hm]].
    + destruct (Hat m b' Hm) as (s' & Hs' & Hb'). exists s'. split; [done|].
      pose proof (lookup_lt_Some _ _ _ Hm).
      destruct (decide (s' = s)) as [->|Hne].
      * assert ((m / 128)%nat = a) as Em.
        { eapply (NoDup_lookup (take (S a) ws)); [done| |].
          - rewrite lookup_take_lt; [exact Hs'|]. unfold a. lia.
          - rewrite lookup_take_lt; [exact Ha|lia]. }
        rewrite Eat. unfold ws', a in *. rewrite list_lookup_insert_ne by lia. done.
      * unfold d'. by rewrite ind_at_insert_ne.
    + apply list_lookup_singleton_Some in Hm as [Hm ->].
      replace m with (length bs) in * by lia. exists s. split; [done|].
      rewrite Eat. unfold ws'. apply list_lookup_insert_eq. rewrite Hil. lia.
  - apply disk_ok_insert; [done|]. split; [|apply unwords_ok].
    rewrite length_unwords, Hl'. done.
  - apply dom_insert_lookup_L. eauto.
Qed.

(** The state of the double-indirect loop: tables so far, blocks still to
    hand out, nothing shared. *)
Record fill2_inv (h : gset Z) (d : content) (ws nb bs : list Z) : Prop := {
  f2_table : table2 d ws bs;
  f2_disk : disk_ok d;
  f2_nodup : NoDup (take (sub_count (length bs)) ws ++ nb);
  f2_use : usable h d (take (sub_count (length bs)) ws ++ nb);
  f2_words : words_ok 4 nb;
}.

(** What one or more iterations did: data blocks [bs'] were appended, every
    block came out of [nb], and only sub-tables were written. *)
Record fill2_post (h : gset Z) (d : content) (ws nb bs : list Z) (n : nat)
    (d' : content) (ws' nb' : list Z) (bs' : list Z) : Prop := {
  fp_inv : fill2_inv h d' ws' nb' (bs ++ bs');
  fp_len : length bs' = n;
  fp_perm : bs' ++ take (sub_count (length bs + n)) ws' ++ nb' ≡ₚ
            take (sub_count (length bs)) ws ++ nb;
  fp_dom : dom d' = dom d;
  fp_frame b : b ∉ take (sub_count (length bs + n)) ws' -> d' !! b = d !! b;
  fp_prefix : take (sub_count (length bs)) ws `prefix_of` take (sub_count (length bs + n)) ws';
}.

(** The first half of an iteration: make sure the sub-table exists. *)
Lemma fill2_alloc h d ws nb bs a :
  fill2_inv h d ws nb bs -> Zlength bs < INODE_INDIRECT2_COUNT -> a = (length bs / 128)%nat ->
  (sub_count (S (length bs)) - sub_count (length bs) < length nb)%nat ->
  exists ws1 nb1 s,
    wp h (if Z.of_nat (length bs mod 128) =? 0 then
            '(b, nb) ← lift (next nb); ws ← lift (vset ws (Z.of_nat a) b); Ret (ws, nb)
          else Ret (ws, nb)) d (fun r d' => r = (ws1, nb1) /\ d' = d) /\
    ws1 !! a = Some s /\ table2 d ws1 bs /\ words_ok 4 nb1 /\
    take (S a) ws1 ++ nb1 = take (sub_count (length bs)) ws ++ nb /\
    take (sub_count (length bs)) ws `prefix_of` take (S a) ws1 /\
    (length nb1 + sub_count (S (length bs)) = length nb + sub_count (length bs))%nat.
Proof.
  intros [[Hl Hok Hat] Hd Hnd Hu Hw] Hlen Ha Hnb. unfold sub_count in *.
  change INODE_INDIRECT2_COUNT with 16384 in Hlen.
  assert (a < 128)%nat as Ha' by lia.
  destruct (Z.eqb_spec (Z.of_nat (length bs mod 128)) 0) as [E|E].
  - destruct nb as [|s nb]; simpl in Hnb; [lia|]. inversion Hw; subst x l.
    exists (<[a := s]> ws), nb, s.
    assert (<[a:=s]> ws !! a = Some s) as Has by (apply list_lookup_insert_eq; lia).
    replace ((length bs + 127) / 128)%nat with a by lia.
    rewrite (take_S_r _ _ _ Has), take_insert_ge by lia.
    split_and!; [|done| |done|by rewrite <- app_assoc|by eexists|cbn [length]; lia].
    + cbn [next lift mbind prog_bind prog_bind_def].
      eapply wp_lift_bind; [apply vset_lt; lia|]. rewrite Nat2Z.id. by apply wp_ret.
    + split; [by rewrite length_insert|by apply Forall_insert|].
      intros m b Hm. destruct (Hat m b Hm) as (s' & Hs' & Hb'). exists s'. split; [|done].
      pose proof (lookup_lt_Some _ _ _ Hm). rewrite list_lookup_insert_ne; [done|lia].
  - destruct (lookup_lt_is_Some_2 ws a) as [s Hs]; [lia|].
    exists ws, nb, s. replace ((length bs + 127) / 128)%nat with (S a) by lia.
    split_and!; [by apply wp_ret|done|done|done|done|done|lia].
Qed.

(** The second half: write the entry through the sub-table. *)
Lemma fill2_entry h d ws ws1 nb nb1 bs a s :
  fill2_inv h d ws nb bs -> Z.of_nat (base.size h) < BLOCK_CACHE_SIZE ->
  a = (length bs / 128)%nat -> (1 <= length nb1)%nat ->
  ws1 !! a = Some s -> table2 d ws1 bs -> words_ok 4 nb1 ->
  take (S a) ws1 ++ nb1 = take (sub_count (length bs)) ws ++ nb ->
  take (sub_count (length bs)) ws `prefix_of` take (S a) ws1 ->
  wp h (cache_modify s 0 (fun t : IndirectBlock =>
          '(b, nb) ← lift (next nb1);
          ws ← lift (vset (ind_words t) (Z.of_nat (length bs mod 128)) b);
          Ret (nb, mkIndirect ws))) d
    (fun nb' d' => exists b, nb1 = b :: nb' /\ fill2_post h d ws nb bs 1 d' ws1 nb' [b]).
Proof.
  intros [_ Hd Hnd Hu Hw] Hroom Ha Hne Hs Ht Hw1 Etake Hpre.
  destruct nb1 as [|b nb1]; [simpl in Hne; lia|]. inversion Hw1 as [|? ? Hb Hw1']; subst x l.
  rewrite <- Etake in Hnd, Hu.
  assert (s ∈ take (S a) ws1) as Hin.
  { eapply list_elem_of_lookup_2. rewrite lookup_take_lt; [exact Hs|lia]. }
  destruct (usable_lookup _ _ _ s Hu) as [Hsh [l Hsl]]; [set_solver|].
  pose proof (disk_ok_lookup _ _ _ Hd Hsl) as Hblk.
  destruct (ind_at_ok d s l Hd Hsl) as [Hil Hiok].
  apply NoDup_app in Hnd as (Hnd1 & Hnd2 & [Hb3 Hnd3]%NoDup_cons).
  rewrite Ha in Hs, Hnd1. destruct (table2_write d ws1 bs s b l Ht Hd Hsl Hb Hs Hnd1) as (Ht' & Hd' & Hdom').
  rewrite <- Ha in Hs, Hnd1. set (b0 := (length bs mod 128)%nat) in *.
  eapply wp_modify_block; [done|exact Hsh|exact Hroom|exact Hsl|exact Hblk|done|].
  cbn [next lift mbind prog_bind prog_bind_def]. rewrite <- (ind_at_lookup _ _ _ Hsl).
  eapply wp_lift_bind; [apply vset_lt; cbn [ind_words]; unfold b0; lia|]. cbn [ind_words].
  rewrite Nat2Z.id. apply wp_ret. split.
  { split; cbn [ind_words]; [by rewrite length_insert|by apply Forall_insert]. }
  exists b. split; [done|]. change (encode _ l) with (unwords 4 (<[b0:=b]> (ind_at d s))).
  set (d' := <[s := _]> d) in *.
  assert (sub_count (length (bs ++ [b])) = S a) as Esub.
  { rewrite length_app. unfold sub_count. cbn [length]. lia. }
  assert (sub_count (length bs + 1) = S a) as Esub' by (unfold sub_count; lia).
  split; rewrite ?Esub'; auto.
  - split; rewrite ?Esub; auto.
    + apply NoDup_app. split_and!; auto. set_solver.
    + apply usable_app in Hu as [Hu1 Hu2]. unfold usable in Hu2. rewrite Forall_cons in Hu2.
      eapply usable_dom; [exact Hdom'|]. apply usable_app. split; [done|]. apply Hu2.
  - rewrite <- Etake. by rewrite <- Permutation_middle.
  - intros b' Hb'. unfold d'. rewrite lookup_insert_ne; [done|]. set_solver.
Qed.

(** Posts compose. *)
Lemma fill2_post_trans h d ws nb bs n1 d1 ws1 nb1 bs1 n2 d2 ws2 nb2 bs2 :
  fill2_post h d ws nb bs n1 d1 ws1 nb1 bs1 ->
  fill2_post h d1 ws1 nb1 (bs ++ bs1) n2 d2 ws2 nb2 bs2 ->
  fill2_post h d ws nb bs (n1 + n2) d2 ws2 nb2 (bs1 ++ bs2).
Proof.
  intros [I1 L1 P1 D1 F1 X1] [I2 L2 P2 D2 F2 X2].
  rewrite length_app, L1 in P2, F2, X2.
  split; rewrite ?Nat.add_assoc; auto.
  - by rewrite app_assoc.
  - rewrite length_app. lia.
  - rewrite <- P1, <- P2. by rewrite <- app_assoc.
  - congruence.
  - intros b Hb. rewrite F2 by done. apply F1. intros Hin. apply Hb.
    destruct X2 as [k ->]. set_solver.
  - by etrans.
Qed.

Lemma fill2_post_refl h d ws nb bs :
  fill2_inv h d ws nb bs -> fill2_post h d ws nb bs 0 d ws nb [].
Proof.
  intros. rewrite <- (app_nil_r bs) in H. split; rewrite ?Nat.add_0_r; auto.
Qed.

Lemma fill2_spec n h d ws nb bs :
  fill2_inv h d ws nb bs -> Z.of_nat (base.size h) < BLOCK_CACHE_SIZE ->
  Zlength bs + Z.of_nat n <= INODE_INDIRECT2_COUNT ->
  (n + sub_count (length bs + n) - sub_count (length bs) <= length nb)%nat ->
  wp h (fill2 n (Z.of_nat (length bs / 128)) (Z.of_nat (length bs mod 128)) ws nb) d
    (fun '(ws', nb') d' => exists bs', fill2_post h d ws nb bs n d' ws' nb' bs').
Proof.
  intros Hinv Hroom. revert d ws nb bs Hinv. induction n as [|n IH]; intros d ws nb bs Hinv Hlen Hnb.
  { apply wp_ret. exists []. by apply fill2_post_refl. }
  unfold sub_count in Hnb.
  destruct (fill2_alloc h d ws nb bs _ Hinv ltac:(lia) eq_refl ltac:(unfold sub_count; lia))
    as (ws1 & nb1 & s & Hal & Hs & Ht & Hw1 & Etake & Hpre & Hcnt).
  cbn [fill2]. apply wp_bind. eapply wp_mono; [exact Hal|]. intros ? ? [-> ->].
  eapply wp_lift_bind; [apply vget_Ok; rewrite Nat2Z.id; exact Hs|].
  apply wp_bind. unfold sub_count in Hcnt.
  eapply wp_mono; [eapply fill2_entry; eauto; lia|].
  intros nb' d' (b & -> & Hpost). cbn [length] in Hcnt.
  pose proof (fp_inv _ _ _ _ _ _ _ _ _ _ Hpost) as Hinv'.
  assert (length (bs ++ [b]) = S (length bs)) as El by (rewrite length_app; cbn [length]; lia).
  specialize (IH d' ws1 nb' (bs ++ [b]) Hinv'). rewrite El in IH.
  unfold sub_count in IH. specialize (IH ltac:(lia) ltac:(lia)).
  change INODE_INDIRECT1_COUNT with 128.
  assert (forall p, p = fill2 n (Z.of_nat (S (length bs) / 128)) (Z.of_nat (S (length bs) mod 128)) ws1 nb' ->
    wp h p d' (fun '(ws', nb') d' => exists bs', fill2_post h d ws nb bs (S n) d' ws' nb' bs')) as Hgo.
  { intros p ->. eapply wp_mono; [exact IH|]. intros [ws2 nb2] d2 [bs2 Hpost2].
    exists ([b] ++ bs2). change (S n) with (1 + n)%nat. eapply fill2_post_trans; eauto. }
  destruct (Z.eqb_spec (Z.of_nat (length bs mod 128) + 1) 128); apply Hgo; f_equal; lia.
Qed.

(** ** The three stages of [increase_size] *)

Definition index_list2 (d : content) (di : DiskInode) (n : nat) : list Z :=
  if decide (156 < n)%nat then
    indirect2 di :: take (sub_count (n - 156)) (ind_at d (indirect2 di))
  else [].

Lemma index_list_28 d di n : (28 < n)%nat ->
  index_list d di n = indirect1 di :: index_list2 d di n.
Proof. intros. unfold index_list. by rewrite decide_True. Qed.

Lemma index_list_small d di n : (n <= 28)%nat -> index_list d di n = [].
Proof. intros. unfold index_list. rewrite !decide_False by lia. done. Qed.

Lemma index_list2_small d di n : (n <= 156)%nat -> index_list2 d di n = [].
Proof. intros. unfold index_list2. by rewrite decide_False by lia. Qed.

(** Blocks at hand: disjoint, on the disk, not locked, 32-bit ids. *)
Record pool (h : gset Z) (d : content) (l : list Z) : Prop := {
  pool_nodup : NoDup l;
  pool_use : usable h d l;
  pool_words : words_ok 4 l;
}.

Lemma pool_perm h d d' l l' : l ≡ₚ l' -> dom d' = dom d -> pool h d l -> pool h d' l'.
Proof.
  intros E Ed [Hn Hu Hw]. split; [by rewrite <- E| |by rewrite <- E].
  eapply usable_dom; [exact Ed|]. by eapply usable_perm.
Qed.

Lemma pool_app h d l1 l2 : pool h d (l1 ++ l2) -> pool h d l1 /\ pool h d l2.
Proof.
  intros [(? & _ & ?)%NoDup_app Hu Hw]. apply usable_app in Hu as [].
  apply Forall_app in Hw as []. by split; split.
Qed.

Lemma pool_lookup h d l b :
  pool h d l -> b ∈ l -> b ∉ h /\ is_word 4 b /\ exists blk, d !! b = Some blk.
Proof.
  intros [_ Hu Hw] Hb. destruct (usable_lookup _ _ _ _ Hu Hb) as [? ?].
  rewrite Forall_forall in Hw. auto.
Qed.

(** [bs] grew to [bs'], [ix] to [ix'], out of the fresh blocks [nb], of which
    [nb'] are left. *)
Record grown (d : content) (di : DiskInode) (bs ix nb : list Z)
    (d' : content) (di' : DiskInode) (bs' ix' nb' : list Z) : Prop := {
  gr_map : inode_map d' di' bs' ix';
  gr_disk : disk_ok d';
  gr_prefix : bs `prefix_of` bs';
  gr_perm : bs' ++ ix' ++ nb' ≡ₚ bs ++ ix ++ nb;
  gr_dom : dom d' = dom d;
  gr_frame b : b ∉ ix' -> d' !! b = d !! b;
  gr_ix b : b ∈ ix -> b ∈ ix';
  gr_size : size di' = size di;
  gr_type : type_ di' = type_ di;
}.

Lemma grown_trans d di bs ix nb d1 di1 bs1 ix1 nb1 d2 di2 bs2 ix2 nb2 :
  grown d di bs ix nb d1 di1 bs1 ix1 nb1 -> grown d1 di1 bs1 ix1 nb1 d2 di2 bs2 ix2 nb2 ->
  grown d di bs ix nb d2 di2 bs2 ix2 nb2.
Proof.
  intros [M1 K1 X1 P1 D1 F1 I1 S1 T1] [M2 K2 X2 P2 D2 F2 I2 S2 T2]. split; auto; try congruence.
  - by etrans.
  - by rewrite P2.
  - intros b Hb. rewrite F2 by done. apply F1. auto.
Qed.

Lemma grown_pool h d di bs ix nb d' di' bs' ix' nb' :
  grown d di bs ix nb d' di' bs' ix' nb' -> pool h d (bs ++ ix ++ nb) ->
  pool h d' (bs' ++ ix' ++ nb').
Proof. intros G. eapply pool_perm; [by rewrite (gr_perm _ _ _ _ _ _ _ _ _ _ G)|apply G]. Qed.

Lemma grown_refl d di bs ix nb :
  inode_map d di bs ix -> disk_ok d -> grown d di bs ix nb d di bs ix nb.
Proof. intros. by split. Qed.

Lemma repr_ok_set_direct di v :
  repr_ok di -> length v = 28%nat -> words_ok 4 v -> repr_ok (set_direct di v).
Proof.
  intros [_ Hw] Hl Hv. split; [done|]. unfold inode_words in *. simpl.
  inversion Hw as [|? ? H0 H1]; subst. apply Forall_app in H1 as [_ H1].
  constructor; [done|]. by apply Forall_app.
Qed.
Lemma repr_ok_set_indirect di b1 b2 s :
  repr_ok di -> is_word 4 b1 -> is_word 4 b2 -> is_word 4 s ->
  repr_ok (mkInode s (direct di) b1 b2 (type_ di)).
Proof.
  intros [Hl Hw] H1 H2 Hs. split; [done|]. unfold inode_words in *. simpl.
  inversion Hw as [|? ? H0 H3]; subst. apply Forall_app in H3 as [H3 _].
  constructor; [done|]. apply Forall_app. auto.
Qed.
Lemma repr_ok_words di :
  repr_ok di -> is_word 4 (size di) /\ words_ok 4 (direct di) /\
    is_word 4 (indirect1 di) /\ is_word 4 (indirect2 di).
Proof.
  intros [Hl Hw]. unfold inode_words in *.
  inversion Hw as [|? ? H0 H3]; subst. apply Forall_app in H3 as [H3 H4].
  inversion H4 as [|? ? H5 H6]; subst. inversion H6; subst. auto.
Qed.

(** Stage 1: direct entries. *)
Lemma grow_direct n h d di bs nb :
  inode_map d di bs [] -> disk_ok d -> pool h d (bs ++ [] ++ nb) ->
  (length bs + n <= 28)%nat -> (n <= length nb)%nat ->
  exists dir, fill n (Zlength bs) (direct di) nb = Ok (dir, drop n nb) /\
    grown d di bs [] nb d (set_direct di dir) (bs ++ take n nb) [] (drop n nb).
Proof.
  intros M Hd Hp Hlen Hnb. pose proof M as [Hr H0 _ _ _ _]. pose proof (repr_ok_words _ Hr) as (_ & Hdw & _).
  destruct Hr as [Hdl Hw].
  assert (length (splice (direct di) (Zlength bs) (take n nb)) = 28%nat) as Hsl.
  { rewrite length_splice; rewrite ?length_take; lia. }
  assert (words_ok 4 (take n nb)) as Htw.
  { apply Forall_take. apply pool_app in Hp as [_ Hp]. apply Hp. }
  assert (length (bs ++ take n nb) = (length bs + n)%nat) as El by (rewrite length_app, length_take; lia).
  eexists. split; [apply fill_eq; lia|]. split; auto.
  - split; rewrite ?El.
    + apply repr_ok_set_direct; [by split|done|].
      unfold splice. rewrite !Forall_app. auto using Forall_take, Forall_drop.
    + intros i b Hi _. cbn [direct set_direct].
      apply lookup_app_Some in Hi as [Hi|[Hge Hi]].
      * pose proof (lookup_lt_Some _ _ _ Hi).
        rewrite lookup_splice_out; rewrite ?length_take; try lia. apply H0; [done|lia].
      * pose proof (lookup_lt_Some _ _ _ Hi) as Hl. rewrite length_take in Hl.
        rewrite lookup_splice_in; rewrite ?length_take; try lia.
        rewrite <- Hi. f_equal. lia.
    + intros i b Hi. pose proof (lookup_lt_Some _ _ _ Hi). lia.
    + intros i b Hi. pose proof (lookup_lt_Some _ _ _ Hi). lia.
    + change INDIRECT2_BOUND with 16540. lia.
    + by rewrite index_list_small by lia.
  - by eexists.
  - simpl. rewrite <- app_assoc. by rewrite take_drop.
Qed.

(** Stage 2: the single-indirect table, allocated when the direct entries
    are exactly full. *)
Lemma alloc_indirect1 h d di bs ix nb :
  inode_map d di bs ix -> pool h d (bs ++ ix ++ nb) -> (28 <= length bs)%nat ->
  (length bs = 28%nat -> nb <> []) ->
  exists di1 nb1,
    wp h (if Zlength bs =? INODE_DIRECT_COUNT then
            '(b, nb) ← lift (next nb); Ret (set_indirect1 di b, nb)
          else Ret (di, nb)) d (fun r d' => r = (di1, nb1) /\ d' = d) /\
    inode_map d di1 bs ix /\
    (indirect1 di1 :: index_list2 d di1 (length bs)) ++ nb1 = ix ++ nb /\
    forall d' di' bs' ix' nb',
      grown d di1 bs (indirect1 di1 :: index_list2 d di1 (length bs)) nb1 d' di' bs' ix' nb' ->
      grown d di bs ix nb d' di' bs' ix' nb'.
Proof.
  intros M Hp Hlen Hnb. change INODE_DIRECT_COUNT with 28.
  pose proof (im_ix _ _ _ _ M) as Eix.
  destruct (Z.eqb_spec (Zlength bs) 28) as [E|E].
  - destruct nb as [|b nb]; [destruct Hnb; [lia|done]|].
    rewrite index_list_small in Eix by lia. subst ix.
    assert (is_word 4 b) as Hb by (apply (pool_lookup h d _ b Hp); set_solver).
    exists (set_indirect1 di b), nb. rewrite !index_list2_small by lia.
    destruct M as [Hr H0 H1 H2 Hm _]. pose proof (repr_ok_words _ Hr) as (? & ? & ? & ?).
    split_and!; [by apply wp_ret| |done|].
    + split; auto; [by apply repr_ok_set_indirect| |by rewrite index_list_small by lia].
      intros i b' Hi. pose proof (lookup_lt_Some _ _ _ Hi). lia.
    + intros d' di' bs' ix' nb' [M' K X P D F I S T]. split; auto. intros ?. set_solver.
  - rewrite index_list_28 in Eix by lia. subst ix. exists di, nb.
    split_and!; [by apply wp_ret|done|done|auto].
Qed.

(** Writing [new] behind the blocks [bs] of the single-indirect table. *)
Lemma inode_map_indirect1 d di bs new l :
  let d' := <[indirect1 di := unwords 4 (splice (ind_at d (indirect1 di)) (Zlength bs - 28) new)]> d in
  inode_map d di bs (index_list d di (length bs)) -> disk_ok d -> words_ok 4 new ->
  d !! indirect1 di = Some l ->
  (28 <= length bs)%nat -> (length bs + length new <= 156)%nat ->
  inode_map d' di (bs ++ new) (index_list d' di (length (bs ++ new))) /\ disk_ok d' /\ dom d' = dom d.
Proof.
  intros d' [Hr H0 H1 H2 Hm _] Hd Hw Hl Hge Hle.
  destruct (ind_at_ok _ _ _ Hd Hl) as [Hil Hiok].
  set (ws := splice _ _ new) in d'.
  assert (length ws = 128%nat) as Hwl by (unfold ws; rewrite length_splice; lia).
  assert (words_ok 4 ws) as Hwok.
  { unfold ws, splice. rewrite !Forall_app. auto using Forall_take, Forall_drop. }
  assert (ind_at d' (indirect1 di) = ws) as Eat by (by apply ind_at_insert_eq).
  split_and!.
  - split; auto.
    + intros i b Hi Hlt. rewrite lookup_app_l in Hi by lia. auto.
    + intros i b Hi Hlt. rewrite Eat. unfold ws.
      apply lookup_app_Some in Hi as [Hi|[Hge' Hi]].
      * pose proof (lookup_lt_Some _ _ _ Hi). rewrite lookup_splice_out by lia. auto.
      * pose proof (lookup_lt_Some _ _ _ Hi). rewrite lookup_splice_in by lia.
        rewrite <- Hi. f_equal. lia.
    + intros i b Hi Hlt. pose proof (lookup_lt_Some _ _ _ Hi) as Hx. rewrite length_app in Hx. lia.
    + rewrite length_app. change INDIRECT2_BOUND with 16540. lia.
  - apply disk_ok_insert; [done|]. split; [|apply unwords_ok]. by rewrite length_unwords, Hwl.
  - apply dom_insert_lookup_L. eauto.
Qed.

Lemma grow_indirect1 n h d di bs nb :
  let ix := indirect1 di :: index_list2 d di (length bs) in
  inode_map d di bs (index_list d di (length bs)) -> disk_ok d -> room h ->
  pool h d (bs ++ ix ++ nb) -> (28 <= length bs)%nat -> (n <= length nb)%nat ->
  (n = 0%nat /\ (28 < length bs)%nat) \/ (28 < length bs + n <= 156)%nat ->
  wp h (cache_modify (indirect1 di) 0 (fun t : IndirectBlock =>
          '(ws, nb) ← lift (fill n (Zlength bs - INODE_DIRECT_COUNT) (ind_words t) nb);
          Ret (nb, mkIndirect ws))) d
    (fun nb' d' => nb' = drop n nb /\ exists ix', grown d di bs ix nb d' di (bs ++ take n nb) ix' nb').
Proof.
  intros ix M Hd Hroom Hp Hlen Hnb Hn. change INODE_DIRECT_COUNT with 28.
  destruct (pool_lookup h d _ (indirect1 di) Hp) as (Hh & Hb & l & Hl); [set_solver|].
  pose proof (disk_ok_lookup _ _ _ Hd Hl) as Hblk.
  destruct (ind_at_ok _ _ _ Hd Hl) as [Hil Hiok].
  eapply wp_modify_block; [done|done|done|exact Hl|done|done|].
  cbn [ind_words]. rewrite <- (ind_at_lookup _ _ _ Hl).
  destruct Hn as [[-> Hgt]|Hn].
  - eapply wp_lift_bind; [done|]. apply wp_ret. split; [by split|]. split; [done|].
    rewrite (ind_at_lookup _ _ _ Hl), (insert_encode_same _ _ _ _ Hl Hblk) by done.
    exists ix. rewrite take_0, app_nil_r. apply grown_refl; [|done].
    unfold ix. by rewrite <- index_list_28.
  - assert (words_ok 4 (take n nb)) as Hw.
    { apply Forall_take. apply pool_app in Hp as [_ Hp]. apply pool_app in Hp as [_ Hp]. apply Hp. }
    assert (length (take n nb) = n) as Htl by (rewrite length_take; lia).
    eapply wp_lift_bind; [apply fill_eq; lia|]. apply wp_ret.
    destruct (inode_map_indirect1 d di bs (take n nb) l M Hd Hw Hl) as (M' & Hd' & Hdom); [lia|lia|].
    split; [split; cbn [ind_words]|split; [done|]].
    + rewrite length_splice; lia.
    + unfold splice. rewrite !Forall_app. auto using Forall_take, Forall_drop.
    + eexists. split; [exact M'|done|by eexists| |done| | |done|done].
      * rewrite length_app, Htl, index_list_28, index_list2_small by lia.
        unfold ix. rewrite index_list2_small by lia. rewrite <- app_assoc. f_equiv.
        simpl. rewrite <- Permutation_middle. by rewrite take_drop.
      * intros b Hb'. rewrite length_app, Htl, index_list_28 in Hb' by lia.
        apply lookup_insert_ne. set_solver.
      * rewrite length_app, Htl, index_list_28, index_list2_small by lia.
        unfold ix. by rewrite index_list2_small by lia.
Qed.

(** Stage 3: the double-indirect table. *)
Definition sub_tables (d : content) (di : DiskInode) (n : nat) : list Z :=
  take (sub_count (n - 156)) (ind_at d (indirect2 di)).

Lemma index_list_156 d di n : (156 < n)%nat ->
  index_list d di n = indirect1 di :: indirect2 di :: sub_tables d di n.
Proof. intros. rewrite index_list_28 by lia. unfold index_list2. by rewrite decide_True. Qed.

Lemma sub_tables_small d di n : (n <= 156)%nat -> sub_tables d di n = [].
Proof. intros. unfold sub_tables. replace (n - 156)%nat with 0%nat by lia. done. Qed.

Lemma alloc_indirect2 h d di bs ix nb :
  inode_map d di bs ix -> pool h d (bs ++ ix ++ nb) -> (156 <= length bs)%nat ->
  (length bs = 156%nat -> nb <> []) ->
  exists di1 nb1,
    let ix1 := indirect1 di1 :: indirect2 di1 :: sub_tables d di1 (length bs) in
    wp h (if Zlength bs - INODE_DIRECT_COUNT =? INODE_INDIRECT1_COUNT then
            '(b, nb) ← lift (next nb); Ret (set_indirect2 di b, nb)
          else Ret (di, nb)) d (fun r d' => r = (di1, nb1) /\ d' = d) /\
    inode_map d di1 bs ix /\ ix1 ++ nb1 = ix ++ nb /\
    forall d' di' bs' ix' nb',
      grown d di1 bs ix1 nb1 d' di' bs' ix' nb' -> grown d di bs ix nb d' di' bs' ix' nb'.
Proof.
  intros M Hp Hlen Hnb. change INODE_DIRECT_COUNT with 28. change INODE_INDIRECT1_COUNT with 128.
  pose proof (im_ix _ _ _ _ M) as Eix.
  destruct (Z.eqb_spec (Zlength bs - 28) 128) as [E|E].
  - destruct nb as [|b nb]; [destruct Hnb; [lia|done]|].
    rewrite index_list_28, index_list2_small in Eix by lia. subst ix.
    assert (is_word 4 b) as Hb by (apply (pool_lookup h d _ b Hp); set_solver).
    exists (set_indirect2 di b), nb. rewrite !sub_tables_small by lia.
    destruct M as [Hr H0 H1 H2 Hm _]. pose proof (repr_ok_words _ Hr) as (? & ? & ? & ?).
    split_and!; [by apply wp_ret| |done|].
    + split; auto; [by apply repr_ok_set_indirect| |].
      * intros i b' Hi. pose proof (lookup_lt_Some _ _ _ Hi). lia.
      * rewrite index_list_28, index_list2_small by lia. done.
    + intros d' di' bs' ix' nb' [M' K X P D F I S T]. split; auto.
      intros b' Hb'. apply I. cbn [indirect1 set_indirect2]. set_solver.
  - rewrite index_list_156 in Eix by lia. subst ix. exists di, nb.
    split_and!; [by apply wp_ret|done|done|auto].
Qed.

(** The double-indirect part of an inode is a [table2]. *)
Lemma inode_table2 d di bs ix l :
  inode_map d di bs ix -> disk_ok d -> d !! indirect2 di = Some l ->
  table2 d (ind_at d (indirect2 di)) (drop 156 bs).
Proof.
  intros [_ _ _ H2 _ _] Hd Hl. destruct (ind_at_ok _ _ _ Hd Hl). split; auto.
  intros m b. rewrite lookup_drop. intros Hm.
  destruct (H2 _ _ Hm) as (s & ? & ?); [lia|]. exists s.
  by replace (156 + m - 156)%nat with m in * by lia.
Qed.

Lemma table2_other d d' ws bs :
  table2 d ws bs -> (forall s, s ∈ take (sub_count (length bs)) ws -> d' !! s = d !! s) ->
  table2 d' ws bs.
Proof.
  intros [Hl Hok Hat] Heq. split; auto. intros m b Hm.
  destruct (Hat m b Hm) as (s & Hs & Hb). exists s. split; [done|].
  rewrite (ind_at_other d d'); [done|]. apply Heq.
  eapply list_elem_of_lookup_2. rewrite lookup_take_lt; [exact Hs|].
  pose proof (lookup_lt_Some _ _ _ Hm). unfold sub_count. lia.
Qed.

Lemma table2_inode d d' di bs bs' ix ws :
  inode_map d di bs ix -> (156 <= length bs)%nat ->
  d' !! indirect1 di = d !! indirect1 di -> ind_at d' (indirect2 di) = ws ->
  table2 d' ws (drop 156 bs ++ bs') -> Zlength bs + Zlength bs' <= INDIRECT2_BOUND ->
  inode_map d' di (bs ++ bs') (index_list d' di (length bs + length bs')).
Proof.
  intros [Hr H0 H1 _ _ _] Hlen E1 E2 [Hl Hok Hat] Hm. split; auto.
  - intros i b Hi Hlt. rewrite lookup_app_l in Hi by lia. auto.
  - intros i b Hi Hlt. rewrite lookup_app_l in Hi by lia.
    rewrite (ind_at_other d d') by done. auto.
  - intros i b Hi Hge. rewrite E2. apply Hat.
    rewrite <- drop_app_le by lia. rewrite lookup_drop. by replace (156 + (i - 156))%nat with i by lia.
  - rewrite length_app. lia.
  - by rewrite length_app.
Qed.

Lemma grow_indirect2_inv h d di bs nb l :
  inode_map d di bs (index_list d di (length bs)) -> disk_ok d ->
  pool h d (bs ++ (indirect1 di :: indirect2 di :: sub_tables d di (length bs)) ++ nb) ->
  d !! indirect2 di = Some l ->
  fill2_inv ({[indirect2 di]} ∪ h) d (ind_at d (indirect2 di)) nb (drop 156 bs) /\
  indirect1 di <> indirect2 di /\ indirect1 di ∉ sub_tables d di (length bs) ++ nb.
Proof.
  intros M Hd [Hn Hu Hw]%pool_app%proj2 Hl.
  pose proof (inode_table2 _ _ _ _ _ M Hd Hl) as Ht. simpl in *.
  apply NoDup_cons in Hn as [Hi1 [Hi2 Hn]%NoDup_cons].
  unfold usable in Hu. rewrite !Forall_cons in Hu. destruct Hu as (_ & _ & Hu).
  rewrite !Forall_cons in Hw. destruct Hw as (_ & _ & Hw). apply Forall_app in Hw as [_ Hw].
  split; [|set_solver]. split; auto; rewrite length_drop; [done|].
  unfold usable, sub_tables in *. rewrite Forall_forall in *. intros b Hb.
  destruct (Hu b Hb). split; [set_solver|done].
Qed.

Lemma grow_indirect2_post h d di bs nb n d1 ws1 nb1 bs1 :
  let ix := indirect1 di :: indirect2 di :: sub_tables d di (length bs) in
  let d' := <[indirect2 di := unwords 4 ws1]> d1 in
  inode_map d di bs (index_list d di (length bs)) ->
  (156 <= length bs)%nat -> (156 < length bs + n)%nat -> Zlength bs + Z.of_nat n <= INDIRECT2_BOUND ->
  indirect1 di <> indirect2 di -> indirect1 di ∉ sub_tables d di (length bs) ++ nb ->
  indirect2 di ∈ dom d ->
  fill2_post ({[indirect2 di]} ∪ h) d (ind_at d (indirect2 di)) nb (drop 156 bs) n d1 ws1 nb1 bs1 ->
  exists ix', grown d di bs ix nb d' di (bs ++ bs1) ix' nb1.
Proof.
  intros ix d' M Hlen Hn Hmax Hne Hi1 Hdom [I L P D F X].
  destruct I as [[Hl1 Hok1 Hat1] K _ U _].
  rewrite length_drop in P, F, X. unfold sub_tables in *.
  rewrite length_app, length_drop, L in U.
  replace (length bs - 156 + n)%nat with (length bs + n - 156)%nat in * by lia.
  set (subs := take (sub_count (length bs + n - 156)) ws1) in *.
  assert (ind_at d' (indirect2 di) = ws1) as E2 by (by apply ind_at_insert_eq).
  assert (indirect2 di ∉ subs) as Hni2.
  { intros Hin. unfold usable in U. rewrite Forall_forall in U.
    destruct (U (indirect2 di)); set_solver. }
  assert (indirect1 di ∉ subs) as Hni1.
  { intros Hin. apply Hi1. rewrite <- P. set_solver. }
  assert (index_list d' di (length (bs ++ bs1)) = indirect1 di :: indirect2 di :: subs) as Eix.
  { rewrite index_list_156 by (rewrite length_app; lia). unfold sub_tables, subs.
    by rewrite E2, length_app, L. }
  exists (index_list d' di (length (bs ++ bs1))). split; [|..|done|done].
  - rewrite length_app. eapply table2_inode; [exact M|done| |exact E2| |lia].
    + unfold d'. rewrite lookup_insert_ne by done. by apply F.
    + apply (table2_other d1); [by split|]. intros s Hs. unfold d'. apply lookup_insert_ne.
      intros <-. apply Hni2. unfold subs. rewrite length_app, length_drop, L in Hs.
      by replace (length bs - 156 + n)%nat with (length bs + n - 156)%nat in Hs by lia.
  - apply disk_ok_insert; [done|]. split; [|apply unwords_ok]. by rewrite length_unwords, Hl1.
  - by eexists.
  - rewrite Eix. unfold ix. rewrite <- app_assoc. f_equiv. simpl. rewrite <- P.
    by rewrite <- !Permutation_middle.
  - unfold d'. rewrite dom_insert_L, D. set_solver.
  - intros b Hb. rewrite Eix in Hb. unfold d'. rewrite lookup_insert_ne by set_solver. apply F. set_solver.
  - intros b Hb. rewrite Eix. unfold ix in Hb. unfold sub_tables in Hb.
    destruct X as [k Hk]. rewrite Hk. set_solver.
Qed.

Lemma grow_indirect2 n h d di bs nb :
  let ix := indirect1 di :: indirect2 di :: sub_tables d di (length bs) in
  inode_map d di bs (index_list d di (length bs)) -> disk_ok d ->
  Z.of_nat (base.size h) + 1 < BLOCK_CACHE_SIZE -> pool h d (bs ++ ix ++ nb) ->
  (156 <= length bs)%nat -> (156 < length bs + n)%nat -> Zlength bs + Z.of_nat n <= INDIRECT2_BOUND ->
  (n + sub_count (length bs + n - 156) - sub_count (length bs - 156) <= length nb)%nat ->
  wp h (increase_indirect2 di (Zlength bs - 156) (Zlength bs + Z.of_nat n - 156) nb) d
    (fun di' d' => di' = di /\ exists bs' ix' nb', length bs' = n /\
      grown d di bs ix nb d' di (bs ++ bs') ix' nb').
Proof.
  intros ix M Hd Hroom Hp Hlen Hgt Hmax Hnb. unfold increase_indirect2.
  change INODE_INDIRECT1_COUNT with 128. change INDIRECT2_BOUND with 16540 in Hmax.
  destruct (pool_lookup h d _ (indirect2 di) Hp) as (Hh & Hb & l & Hl); [set_solver|].
  pose proof (disk_ok_lookup _ _ _ Hd Hl) as Hblk.
  destruct (grow_indirect2_inv h d di bs nb l M Hd Hp Hl) as (I & Hne & Hi1).
  pose proof (room_union (indirect2 di) h Hroom) as Hroom'. pose proof (length_drop bs 156) as El.
  apply wp_bind. eapply wp_modify_block; [done|done|lia|exact Hl|done|done|].
  cbn [ind_words]. rewrite <- (ind_at_lookup _ _ _ Hl). apply wp_bind.
  eapply wp_mono.
  { match goal with |- wp _ (fill2 ?k ?x ?y _ _) _ _ =>
      replace k with n by lia; replace x with (Z.of_nat (length (drop 156 bs) / 128)) by lia;
      replace y with (Z.of_nat (length (drop 156 bs) mod 128)) by lia end.
    apply fill2_spec; [exact I|done|change INODE_INDIRECT2_COUNT with 16384; lia|].
    rewrite El. by replace (length bs - 156 + n)%nat with (length bs + n - 156)%nat by lia. }
  intros [ws1 nb1] d1 [bs1 Hpost]. apply wp_ret.
  pose proof (f2_table _ _ _ _ _ (fp_inv _ _ _ _ _ _ _ _ _ _ Hpost)) as [Hl1 Hok1 _].
  split; [by split|]. apply wp_ret. split; [done|].
  assert (indirect2 di ∈ dom d) as Hdom by (apply elem_of_dom; eauto).
  destruct (grow_indirect2_post h d di bs nb n d1 ws1 nb1 bs1 M Hlen Hgt) as [ix' G];
    [change INDIRECT2_BOUND with 16540; lia|done..|].
  exists bs1, ix', nb1. split; [apply Hpost|exact G].
Qed.

(** ** Counting blocks *)

Definition index_count (n : nat) : nat :=
  ((if decide (28 < n) then 1 else 0) +
   (if decide (156 < n) then 1 + sub_count (n - 156) else 0))%nat.

Lemma index_list_length d di n :
  Z.of_nat n <= INDIRECT2_BOUND -> length (ind_at d (indirect2 di)) = 128%nat ->
  length (index_list d di n) = index_count n.
Proof.
  change INDIRECT2_BOUND with 16540. intros Hn Hl. unfold index_list, index_count.
  rewrite length_app. f_equal; case_decide; [done|done| |done].
  cbn [length]. rewrite length_take, Hl. unfold sub_count. lia.
Qed.

Definition MAX_SIZE : Z := INDIRECT2_BOUND * BLOCK_SZ.

Lemma data_blocks_eq s : 0 <= s <= MAX_SIZE -> _data_blocks s = (s + 511) / 512.
Proof.
  change MAX_SIZE with 8468480. intros. unfold _data_blocks, BLOCK_SZ.
  rewrite (u32_small (s + 512)) by lia. rewrite u32_small by lia. f_equal. lia.
Qed.

Lemma data_blocks_max s : 0 <= s <= MAX_SIZE -> 0 <= _data_blocks s <= INDIRECT2_BOUND.
Proof.
  intros. rewrite data_blocks_eq by done. change MAX_SIZE with 8468480 in *.
  change INDIRECT2_BOUND with 16540. lia.
Qed.

Lemma total_blocks_count s n : 0 <= s <= MAX_SIZE -> _data_blocks s = Z.of_nat n ->
  total_blocks s = Z.of_nat (n + index_count n).
Proof.
  intros Hs E. pose proof (data_blocks_max s Hs) as Hm. change INDIRECT2_BOUND with 16540 in Hm.
  unfold total_blocks. rewrite E in *. change INODE_DIRECT_COUNT with 28.
  change INDIRECT1_BOUND with 156. change INODE_INDIRECT1_COUNT with 128.
  unfold index_count, sub_count.
  destruct (Z.ltb_spec 28 (Z.of_nat n)), (Z.ltb_spec 156 (Z.of_nat n));
    repeat case_decide; try lia; rewrite u32_small; lia.
Qed.

(** Stage 1 as [increase_size] runs it: [t] is the target block count. *)
Lemma stage1 h d di bs ix nb (t : nat) :
  inode_map d di bs ix -> disk_ok d -> pool h d (bs ++ ix ++ nb) ->
  (t `min` 28 - length bs <= length nb)%nat ->
  exists dir nb1 bs1,
    fill (Z.to_nat (Z.min (Z.of_nat t) 28 - Zlength bs)) (Zlength bs) (direct di) nb = Ok (dir, nb1) /\
    grown d di bs ix nb d (set_direct di dir) bs1 ix nb1 /\
    length bs1 = (length bs `max` (t `min` 28))%nat.
Proof.
  intros M Hd Hp Hnb. destruct (decide (t `min` 28 <= length bs)%nat) as [Hle|Hgt].
  - replace (Z.to_nat _) with 0%nat by lia. exists (direct di), nb, bs.
    split_and!; [done| |lia]. replace (set_direct di (direct di)) with di by (by destruct di).
    by apply grown_refl.
  - pose proof (im_ix _ _ _ _ M) as E. rewrite index_list_small in E by lia. subst ix.
    destruct (grow_direct (t `min` 28 - length bs) h d di bs nb M Hd Hp) as (dir & Hf & G); [lia|lia|].
    exists dir, (drop (t `min` 28 - length bs) nb), (bs ++ take (t `min` 28 - length bs) nb).
    split_and!; [|done|rewrite length_app, length_take; lia].
    rewrite <- Hf. f_equal. lia.
Qed.

Lemma grown_length d di bs ix nb d' di' bs' ix' nb' :
  grown d di bs ix nb d' di' bs' ix' nb' ->
  (length bs' + length ix' + length nb' = length bs + length ix + length nb)%nat.
Proof. intros G. pose proof (Permutation_length (gr_perm _ _ _ _ _ _ _ _ _ _ G)) as E.
  rewrite !length_app in E. lia. Qed.

Lemma grown_index_length h d di bs ix nb :
  inode_map d di bs ix -> disk_ok d -> pool h d (bs ++ ix ++ nb) -> length ix = index_count (length bs).
Proof.
  intros M Hd Hp. pose proof M as [_ _ _ _ Hm ->]. destruct (decide (156 < length bs)%nat) as [Hgt|Hgt].
  - destruct (pool_lookup h d _ (indirect2 di) Hp) as (_ & _ & l & Hl).
    { apply elem_of_app. right. apply elem_of_app. left. by apply in_index_ind2. }
    apply index_list_length; [done|]. eapply ind_at_ok; eauto.
  - unfold index_list, index_count. rewrite length_app. by repeat case_decide.
Qed.

(** Stage 2 and 3 as [increase_size] runs them. *)
Lemma stage2 h d di bs ix nb (t : nat) (K : DiskInode * list Z -> prog DiskInode) Q :
  let n := Z.to_nat (Z.min (Z.of_nat t - 28) 128 - (Zlength bs - 28)) in
  inode_map d di bs ix -> disk_ok d -> room h -> pool h d (bs ++ ix ++ nb) ->
  (28 < t)%nat -> (28 <= length bs <= t)%nat ->
  (t `min` 156 - length bs + (if decide (length bs = 28) then 1 else 0) <= length nb)%nat ->
  (forall d' di' bs' ix' nb', grown d di bs ix nb d' di' bs' ix' nb' ->
     length bs' = (length bs `max` (t `min` 156))%nat -> wp h (K (di', nb')) d' Q) ->
  wp h ('(di, nb) ← (if Zlength bs =? INODE_DIRECT_COUNT then
                       '(b, nb) ← lift (next nb); Ret (set_indirect1 di b, nb)
                     else Ret (di, nb));
        nb ← cache_modify (indirect1 di) 0 (fun t : IndirectBlock =>
               '(ws, nb) ← lift (fill n (Zlength bs - INODE_DIRECT_COUNT) (ind_words t) nb);
               Ret (nb, mkIndirect ws));
        K (di, nb)) d Q.
Proof.
  intros n M Hd Hroom Hp Ht Hlen Hnb HK.
  destruct (alloc_indirect1 h d di bs ix nb M Hp) as (di1 & nb1 & Hal & M1 & Eix & Hgr).
  { lia. } { intros E ->. rewrite decide_True in Hnb by done. simpl in Hnb. lia. }
  pose proof (im_ix _ _ _ _ M1) as Eix1. rewrite Eix1 in M1.
  apply wp_bind. eapply wp_mono; [exact Hal|]. intros ? ? [-> ->]. cbn beta iota.
  assert (n <= length nb1)%nat as Hn1.
  { apply (f_equal length) in Eix. rewrite Eix1 in Eix. cbn [app] in Eix.
    revert Eix Hnb. destruct (decide (length bs = 28%nat)) as [E|E].
    - rewrite index_list_small, index_list2_small by lia. simpl. lia.
    - rewrite index_list_28 by lia. simpl. rewrite !length_app. lia. }
  apply wp_bind. eapply wp_mono.
  { apply grow_indirect1; auto; [|lia|].
    - by rewrite Eix.
    - destruct (decide (t `min` 156 <= length bs)%nat); [left|right]; lia. }
  intros ? d' [-> [ix' G]]. eapply HK; [by apply Hgr|].
  rewrite length_app, length_take. lia.
Qed.

Lemma stage3 h d di bs ix nb (t : nat) :
  inode_map d di bs ix -> disk_ok d -> Z.of_nat (base.size h) + 1 < BLOCK_CACHE_SIZE ->
  pool h d (bs ++ ix ++ nb) ->
  (156 < t)%nat -> (156 <= length bs <= t)%nat -> Z.of_nat t <= INDIRECT2_BOUND ->
  (t - length bs + index_count t - index_count (length bs) <= length nb)%nat ->
  wp h ('(di, nb) ← (if Zlength bs - INODE_DIRECT_COUNT =? INODE_INDIRECT1_COUNT then
                       '(b, nb) ← lift (next nb); Ret (set_indirect2 di b, nb)
                     else Ret (di, nb));
        increase_indirect2 di (Zlength bs - 156) (Z.of_nat t - 156) nb) d
    (fun di' d' => exists bs' ix' nb', length bs' = t /\ grown d di bs ix nb d' di' bs' ix' nb').
Proof.
  intros M Hd Hroom Hp Ht Hlen Hmax Hnb.
  destruct (alloc_indirect2 h d di bs ix nb M Hp) as (di1 & nb1 & Hal & M1 & Eix & Hgr).
  { lia. } { intros E ->. rewrite E in Hnb. unfold index_count in Hnb. rewrite !decide_True in Hnb by lia.
    rewrite decide_False in Hnb by lia. simpl in Hnb. lia. }
  pose proof (grown_index_length _ _ _ _ _ _ M Hd Hp) as Eil.
  pose proof (im_ix _ _ _ _ M1) as Eix1. rewrite Eix1 in M1.
  apply wp_bind. eapply wp_mono; [exact Hal|]. intros ? ? [-> ->]. cbn beta iota.
  assert (t - length bs + sub_count (t - 156) - sub_count (length bs - 156) <= length nb1)%nat as Hn1.
  { apply (f_equal length) in Eix. cbn [app] in Eix. cbn [length] in Eix.
    rewrite !length_app, Eil in Eix. unfold index_count in *.
    rewrite !(decide_True (P := (28 < _)%nat)) in * by lia.
    rewrite (decide_True (P := (156 < t)%nat)) in * by lia.
    unfold sub_tables in Eix. rewrite length_take in Eix.
    case_decide; unfold sub_count in *; lia. }
  replace (Z.of_nat t - 156) with (Zlength bs + Z.of_nat (t - length bs) - 156) by lia.
  eapply wp_mono.
  { apply grow_indirect2; auto; [by rewrite Eix|lia|lia|lia|].
    by replace (length bs + (t - length bs))%nat with t by lia. }
  intros ? d' (-> & bs' & ix' & nb' & Hl & G). exists (bs ++ bs'), ix', nb'.
  split; [rewrite length_app; lia|]. by apply Hgr.
Qed.

(** What [increase_size] with the blocks [nb] achieves. *)
Record resized (d : content) (di : DiskInode) (bs ix nb : list Z) (new_size : Z)
    (d' : content) (di' : DiskInode) (bs' ix' : list Z) : Prop := {
  rs_size : size di' = new_size;
  rs_type : type_ di' = type_ di;
  rs_map : inode_map d' di' bs' ix';
  rs_blocks : Zlength bs' = data_blocks di';
  rs_disk : disk_ok d';
  rs_prefix : bs `prefix_of` bs';
  rs_perm : bs' ++ ix' ≡ₚ bs ++ ix ++ nb;
  rs_dom : dom d' = dom d;
  rs_frame b : b ∉ ix' -> d' !! b = d !! b;
  rs_ix b : b ∈ ix -> b ∈ ix';
}.

Lemma inode_map_set_size d di bs ix s :
  inode_map d di bs ix -> is_word 4 s -> inode_map d (set_size di s) bs ix.
Proof.
  intros [Hr H0 H1 H2 Hm ->] Hs. pose proof (repr_ok_words _ Hr) as (? & ? & ? & ?).
  split; auto. by apply repr_ok_set_indirect.
Qed.

Lemma grown_resized h d di bs ix nb s d' di' bs' ix' nb' :
  grown d (set_size di s) bs ix nb d' di' bs' ix' nb' -> pool h d (bs ++ ix ++ nb) ->
  Zlength bs' = _data_blocks s ->
  (length nb + (length bs + length ix) = length bs' + index_count (length bs'))%nat ->
  resized d di bs ix nb s d' di' bs' ix'.
Proof.
  intros G Hp Hl Hnb. pose proof (grown_pool _ _ _ _ _ _ _ _ _ _ _ G Hp) as Hp'.
  pose proof (grown_length _ _ _ _ _ _ _ _ _ _ G) as Hgl.
  pose proof G as [M K X P D F I S T]. simpl in S, T.
  pose proof (grown_index_length _ _ _ _ _ _ M K Hp') as Hix.
  destruct nb'; [|simpl in Hgl; lia]. split; auto.
  - unfold data_blocks. by rewrite S.
  - by rewrite <- P, app_nil_r.
Qed.

Lemma increase_size_stages h d di new_size nb bs ix (t : nat) :
  inode_map d (set_size di new_size) bs ix -> disk_ok d -> pool h d (bs ++ ix ++ nb) ->
  Z.of_nat (base.size h) + 1 < BLOCK_CACHE_SIZE ->
  Zlength bs = data_blocks di -> _data_blocks new_size = Z.of_nat t ->
  (length bs <= t)%nat -> Z.of_nat t <= INDIRECT2_BOUND ->
  (length nb + (length bs + index_count (length bs)) = t + index_count t)%nat ->
  wp h (DiskInode_increase_size di new_size nb) d
    (fun di' d' => exists bs' ix' nb', length bs' = t /\
       grown d (set_size di new_size) bs ix nb d' di' bs' ix' nb').
Proof.
  intros M Hd Hp Hroom Hbs Ht Hcur Hmt Hneed. unfold DiskInode_increase_size.
  rewrite <- Hbs. unfold data_blocks. cbn [size set_size]. rewrite Ht.
  pose proof (grown_index_length _ _ _ _ _ _ M Hd Hp) as Eil.
  change (Z.min (Z.of_nat t) INODE_DIRECT_COUNT) with (Z.min (Z.of_nat t) 28).
  destruct (stage1 h d _ bs ix nb t M Hd Hp) as (dir & nb1 & bs1 & Hf & G1 & Hl1).
  { unfold index_count in *. repeat case_decide; lia. }
  eapply wp_lift_bind; [exact Hf|]. cbn beta iota zeta.
  pose proof (grown_pool _ _ _ _ _ _ _ _ _ _ _ G1 Hp) as Hp1.
  pose proof (grown_length _ _ _ _ _ _ _ _ _ _ G1) as Hgl1.
  change INODE_DIRECT_COUNT with 28. replace (Z.max (Zlength bs) _) with (Zlength bs1) by lia.
  destruct (Z.ltb_spec 28 (Z.of_nat t)) as [Hgt|Hgt]; cbn [negb];
    [|apply wp_ret; exists bs1, ix, nb1; split; [lia|done]].
  apply stage2 with (K := fun '(di, nb) => _) (ix := ix) (t := t); [apply G1|done|lia|done|lia|lia| |].
  { unfold index_count in *. repeat case_decide; lia. }
  intros d2 di2 bs2 ix2 nb2 G2 Hl2. cbn beta iota zeta.
  pose proof (grown_trans _ _ _ _ _ _ _ _ _ _ _ _ _ _ _ G1 G2) as G12.
  change INODE_INDIRECT1_COUNT with 128.
  destruct (Z.ltb_spec 128 (Z.of_nat t - 28)) as [Hgt2|Hgt2]; cbn [negb];
    [|apply wp_ret; exists bs2, ix2, nb2; split; [lia|done]].
  pose proof (grown_pool _ _ _ _ _ _ _ _ _ _ _ G12 Hp) as Hp2.
  pose proof (grown_length _ _ _ _ _ _ _ _ _ _ G12) as Hgl2.
  pose proof (grown_index_length _ _ _ _ _ _ (gr_map _ _ _ _ _ _ _ _ _ _ G2) (gr_disk _ _ _ _ _ _ _ _ _ _ G2) Hp2) as Eil2.
  replace (Z.max (Zlength bs1 - 28) _) with (Zlength bs2 - 28) by lia.
  replace (Zlength bs2 - 28 - 128) with (Zlength bs2 - 156) by lia.
  replace (Z.of_nat t - 28 - 128) with (Z.of_nat t - 156) by lia.
  eapply wp_mono; [apply (stage3 h d2 di2 bs2 ix2 nb2 t); [apply G2|apply G2|done|done|lia|lia|done|lia]|].
  intros di3 d3 (bs3 & ix3 & nb3 & Hl3 & G3). exists bs3, ix3, nb3.
  split; [done|]. by eapply grown_trans.
Qed.

Lemma increase_size_wp h d di new_size nb bs ix :
  inode_map d di bs ix -> disk_ok d -> pool h d (bs ++ ix ++ nb) ->
  Z.of_nat (base.size h) + 1 < BLOCK_CACHE_SIZE ->
  Zlength bs = data_blocks di -> new_size <= MAX_SIZE ->
  blocks_num_needed di new_size = Ok (Zlength nb) ->
  wp h (DiskInode_increase_size di new_size nb) d
    (fun di' d' => exists bs' ix', resized d di bs ix nb new_size d' di' bs' ix').
Proof.
  intros M Hd Hp Hroom Hbs Hmax Hneed. unfold blocks_num_needed in Hneed.
  apply bind_Ok in Hneed as (? & Hle%rassert_Ok%Z.leb_le & [= Hneed]).
  pose proof (repr_ok_words _ (im_repr _ _ _ _ M)) as [Hsz _]. unfold is_word in Hsz.
  assert (0 <= new_size <= MAX_SIZE) as Hns by lia. assert (0 <= size di <= MAX_SIZE) as Hos by lia.
  pose proof (data_blocks_max _ Hns) as Hmt.
  destruct (Z_of_nat_complete (_data_blocks new_size)) as [t Ht]; [lia|].
  assert (length bs <= t)%nat as Hcur.
  { unfold data_blocks in Hbs. rewrite data_blocks_eq in Hbs, Ht by done. lia. }
  pose proof (grown_index_length _ _ _ _ _ _ M Hd Hp) as Eil.
  rewrite (total_blocks_count _ t), (total_blocks_count _ (length bs)) in Hneed by done.
  assert (length bs + index_count (length bs) <= t + index_count t)%nat as Hmono.
  { unfold index_count, sub_count. repeat case_decide; lia. }
  assert (Z.of_nat (index_count t) <= 1000) as Hsm.
  { change INDIRECT2_BOUND with 16540 in Hmt. unfold index_count, sub_count. repeat case_decide; lia. }
  rewrite u32_small in Hneed by (change INDIRECT2_BOUND with 16540 in Hmt; lia).
  assert (is_word 4 new_size) as Hw.
  { change MAX_SIZE with 8468480 in *. unfold is_word. simpl. lia. }
  pose proof (inode_map_set_size d di bs ix new_size M Hw) as M0.
  eapply wp_mono; [apply (increase_size_stages h d di new_size nb bs ix t); eauto; lia|].
  intros di' d' (bs' & ix' & nb' & Hl & G). exists bs', ix'.
  eapply grown_resized; eauto; [|rewrite Hl; lia]. rewrite Hl, Ht. done.
Qed.

(** ** Clearing *)

(** The sub-tables of a [table2] spell out its data blocks. *)
Lemma table2_part d ws bs a k s :
  table2 d ws bs -> ws !! a = Some s -> length (ind_at d s) = 128%nat ->
  (k <= 128)%nat -> (a * 128 + k <= length bs)%nat ->
  take k (ind_at d s) = take k (drop (a * 128) bs).
Proof.
  intros [_ _ Hat] Hs Hl Hk Hlen. apply list_eq_same_length with k;
    [rewrite length_take, length_drop; lia|rewrite length_take; lia|].
  intros i x y Hi. rewrite !lookup_take_lt, lookup_drop by lia. intros Hx Hy.
  destruct (Hat _ _ Hy) as (s' & Hs' & Hb).
  replace ((a * 128 + i) / 128)%nat with a in Hs' by lia.
  replace ((a * 128 + i) mod 128)%nat with i in Hb by lia. congruence.
Qed.

Lemma table2_concat d ws bs a :
  table2 d ws bs -> (a * 128 <= length bs)%nat ->
  (forall s, s ∈ take a ws -> length (ind_at d s) = 128%nat) ->
  concat (ind_at d <$> take a ws) = take (a * 128) bs.
Proof.
  intros Ht Hlen Htab. induction a as [|a IH]; [done|].
  destruct (lookup_lt_is_Some_2 bs (a * 128)) as [b Hb]; [lia|].
  destruct (t2_at _ _ _ Ht _ _ Hb) as (s & Hs & _).
  replace (a * 128 / 128)%nat with a in Hs by lia.
  rewrite (take_S_r _ _ _ Hs) in *. rewrite fmap_app, concat_app, IH; [|lia|set_solver].
  change (concat (ind_at d <$> [s])) with (ind_at d s ++ []). rewrite app_nil_r.
  replace (S a * 128)%nat with (a * 128 + 128)%nat by lia.
  rewrite <- (take_take_drop bs (a * 128) 128). f_equal.
  rewrite <- (table2_part d ws bs a 128 s); auto; [|apply Htab; set_solver|lia].
  rewrite take_ge; [done|]. rewrite Htab; [lia|set_solver].
Qed.

(** Reading a table through [modify] changes nothing. *)
Lemma wp_peek {V} h d b (f : list Z -> V) (Q : V -> content -> Prop) :
  room h -> disk_ok d -> b ∉ h -> b ∈ dom d -> Q (f (ind_at d b)) d ->
  wp h (cache_modify b 0 (fun t : IndirectBlock => Ret (f (ind_words t), t))) d Q.
Proof.
  intros Hroom Hd Hb [l Hl]%elem_of_dom HQ. pose proof (disk_ok_lookup _ _ _ Hd Hl) as Hblk.
  destruct (ind_at_ok _ _ _ Hd Hl) as [Hil Hiok].
  eapply wp_modify_block; [done|done|done|exact Hl|done|done|].
  cbn [ind_words]. rewrite <- (ind_at_lookup _ _ _ Hl). apply wp_ret. split; [by split|].
  rewrite (ind_at_lookup _ _ _ Hl) at 2. by rewrite (insert_encode_same _ _ _ _ Hl Hblk).
Qed.

Lemma collect_tables_wp h d l :
  room h -> disk_ok d -> usable h d l ->
  wp h (collect_tables l) d (fun v d' => d' = d /\ v ≡ₚ l ++ concat (ind_at d <$> l)).
Proof.
  intros Hroom Hd. induction l as [|e l IH]; intros Hu; cbn [collect_tables].
  - by apply wp_ret.
  - unfold usable in Hu. apply Forall_cons in Hu as [[Hh Hdom] Hu].
    apply wp_bind. apply wp_peek with (f := id); auto.
    apply wp_bind. eapply wp_mono; [by apply IH|]. intros v d' [-> Hv]. apply wp_ret.
    split; [done|]. rewrite fmap_cons. cbn [concat app]. rewrite Hv. f_equiv.
    rewrite !app_assoc. by rewrite (Permutation_app_comm (id _)).
Qed.

(** The double-indirect part of [clear_size]. *)
Lemma clear_indirect2_wp h d ws bs :
  let a1 := (length bs / 128)%nat in
  let b1 := (length bs mod 128)%nat in
  room h -> disk_ok d -> table2 d ws bs -> Zlength bs <= INODE_INDIRECT2_COUNT ->
  usable h d (take (sub_count (length bs)) ws) ->
  wp h (v2 ← collect_tables (take (Z.to_nat (Z.of_nat a1)) ws);
        v3 ← (if 0 <? Z.of_nat b1 then
                e ← lift (vget ws (Z.of_nat a1));
                ws ← cache_modify e 0 (fun t1 : IndirectBlock =>
                       Ret (take (Z.to_nat (Z.of_nat b1)) (ind_words t1), t1));
                Ret (e :: ws)
              else Ret []);
        Ret (v2 ++ v3, mkIndirect ws)) d
    (fun '(v, t) d' => d' = d /\ t = mkIndirect ws /\ v ≡ₚ take (sub_count (length bs)) ws ++ bs).
Proof.
  intros a1 b1 Hroom Hd Ht Hmax Hu. change INODE_INDIRECT2_COUNT with 16384 in Hmax.
  pose proof (t2_len _ _ _ Ht) as Hl. rewrite !Nat2Z.id.
  assert (forall s, s ∈ take (sub_count (length bs)) ws -> length (ind_at d s) = 128%nat) as Htab.
  { intros s Hs. destruct (usable_lookup _ _ _ _ Hu Hs) as (_ & l & El). by eapply ind_at_ok. }
  assert (take a1 ws `prefix_of` take (sub_count (length bs)) ws) as [k Hk].
  { exists (drop a1 (take (sub_count (length bs)) ws)).
    rewrite <- (take_drop a1 (take (sub_count (length bs)) ws)) at 1. f_equal.
    rewrite take_take. f_equal. unfold a1, sub_count. lia. }
  assert (usable h d (take a1 ws)) as Hu1 by (rewrite Hk in Hu; by apply usable_app in Hu as [? _]).
  assert (concat (ind_at d <$> take a1 ws) = take (a1 * 128) bs) as Ec.
  { apply table2_concat; [done|unfold a1; lia|]. intros. apply Htab. rewrite Hk. set_solver. }
  apply wp_bind. eapply wp_mono; [by apply collect_tables_wp|]. intros v2 ? [-> Hv2].
  rewrite Ec in Hv2. destruct (Z.ltb_spec 0 (Z.of_nat b1)) as [Hb|Hb].
  - destruct (lookup_lt_is_Some_2 ws a1) as [s Hs]; [unfold a1, b1 in *; lia|].
    assert (sub_count (length bs) = S a1) as Esub by (unfold sub_count, a1, b1 in *; lia).
    rewrite Esub, (take_S_r _ _ _ Hs) in *.
    destruct (usable_lookup _ _ _ s Hu) as (Hh & l & El); [set_solver|].
    apply wp_bind, wp_bind. eapply wp_lift; [apply vget_Ok; rewrite Nat2Z.id; exact Hs|].
    apply wp_bind, wp_peek; auto; [by eapply elem_of_dom_2|]. apply wp_ret, wp_ret.
    split_and!; [done|done|]. rewrite Hv2.
    rewrite (table2_part d ws bs a1 b1 s); auto;
      [|apply Htab; set_solver|unfold b1; lia|unfold a1, b1; lia].
    rewrite <- (take_drop (a1 * 128) bs) at 3. rewrite (take_ge (drop _ bs)).
    + rewrite <- !app_assoc. f_equiv. by rewrite <- Permutation_middle.
    + rewrite length_drop. unfold a1, b1. lia.
  - assert (sub_count (length bs) = a1) as -> by (unfold sub_count, a1, b1 in *; lia).
    apply wp_bind, wp_ret, wp_ret. split_and!; [done|done|].
    rewrite Hv2, app_nil_r. rewrite (take_ge bs); [done|unfold a1, b1 in *; lia].
Qed.

Lemma inode_map_direct d di bs ix n :
  inode_map d di bs ix -> (n <= length bs)%nat -> (n <= 28)%nat -> take n (direct di) = take n bs.
Proof.
  intros [[Hl _] H0 _ _ _ _] Hn Hn'. apply list_eq_same_length with n; [rewrite length_take; lia..|].
  intros i x y Hi. rewrite !lookup_take_lt by lia. intros Hx Hy.
  rewrite (H0 i y) in Hx by (done || lia). congruence.
Qed.

Lemma inode_map_ind1 d di bs ix n :
  inode_map d di bs ix -> length (ind_at d (indirect1 di)) = 128%nat ->
  (28 + n <= length bs)%nat -> (n <= 128)%nat ->
  take n (ind_at d (indirect1 di)) = take n (drop 28 bs).
Proof.
  intros [_ _ H1 _ _ _] Hl Hn Hn'.
  apply list_eq_same_length with n; [rewrite length_take, ?length_drop; lia..|].
  intros i x y Hi. rewrite !lookup_take_lt, lookup_drop by lia. intros Hx Hy.
  specialize (H1 _ _ Hy ltac:(lia)). replace (28 + i - 28)%nat with i in H1 by lia. congruence.
Qed.

(** A cleared inode: no blocks. *)
Lemma inode_map_cleared d di n b1 b2 :
  repr_ok di -> is_word 4 b1 -> is_word 4 b2 -> (n <= 28)%nat ->
  inode_map d (mkInode 0 (replicate n 0 ++ drop n (direct di)) b1 b2 (type_ di)) [] [].
Proof.
  intros Hr H1 H2 Hn. pose proof (repr_ok_words _ Hr) as (_ & Hd & _). destruct Hr as [Hl Hw].
  assert (is_word 4 0) by (unfold is_word; simpl; lia).
  split; try done. split; [cbn [direct]; rewrite length_app, length_replicate, length_drop; lia|].
  unfold inode_words. cbn [size direct indirect1 indirect2]. constructor; [done|].
  rewrite !Forall_app. split_and!; auto using Forall_drop, Forall_replicate.
Qed.

(** [v] are the blocks to free, [di'] the emptied inode. *)
Definition cleared (d : content) (di : DiskInode) (bs ix : list Z)
    (v : list Z) (di' : DiskInode) (d' : content) : Prop :=
  d' = d /\ v ≡ₚ bs ++ ix /\ size di' = 0 /\ type_ di' = type_ di /\ inode_map d di' [] [].

Lemma clear_ind2_block h d di bs ix :
  inode_map d di bs ix -> disk_ok d -> pool h d ix ->
  Z.of_nat (base.size h) + 1 < BLOCK_CACHE_SIZE -> (156 < length bs)%nat ->
  ix = indirect1 di :: indirect2 di :: sub_tables d di (length bs) ->
  wp h (cache_modify (indirect2 di) 0 (fun t : IndirectBlock =>
         v2 ← collect_tables (take (Z.to_nat ((Zlength bs - 28 - 128) / 128)) (ind_words t));
         v3 ← (if 0 <? (Zlength bs - 28 - 128) `mod` 128 then
                 e ← lift (vget (ind_words t) ((Zlength bs - 28 - 128) / 128));
                 ws ← cache_modify e 0 (fun t1 : IndirectBlock =>
                        Ret (take (Z.to_nat ((Zlength bs - 28 - 128) `mod` 128)) (ind_words t1), t1));
                 Ret (e :: ws)
               else Ret []);
         Ret (v2 ++ v3, t))) d
    (fun v d' => d' = d /\ v ≡ₚ sub_tables d di (length bs) ++ drop 156 bs).
Proof.
  intros M Hd Hp Hroom Hlen Hix. pose proof (im_max _ _ _ _ M) as Hmax.
  change INDIRECT2_BOUND with 16540 in Hmax.
  destruct (pool_lookup h d ix (indirect2 di) Hp) as (Hh & _ & l & Hl); [rewrite Hix; set_solver|].
  pose proof (disk_ok_lookup _ _ _ Hd Hl) as Hblk. destruct (ind_at_ok _ _ _ Hd Hl) as [Hil Hiok].
  pose proof (inode_table2 _ _ _ _ _ M Hd Hl) as Ht. pose proof (length_drop bs 156) as El.
  assert (usable ({[indirect2 di]} ∪ h) d (sub_tables d di (length bs))) as Hu.
  { destruct Hp as [Hn Hu _]. rewrite Hix in Hn, Hu. apply NoDup_cons in Hn as [_ [Hn _]%NoDup_cons].
    unfold usable in *. rewrite !Forall_cons in Hu. destruct Hu as (_ & _ & Hu).
    rewrite Forall_forall in *. intros b Hb. destruct (Hu b Hb). set_solver. }
  eapply wp_modify_block; [done|done|lia|exact Hl|done|done|].
  cbn [ind_words]. rewrite <- (ind_at_lookup _ _ _ Hl).
  replace ((Zlength bs - 28 - 128) / 128) with (Z.of_nat (length (drop 156 bs) / 128)) by lia.
  replace ((Zlength bs - 28 - 128) mod 128) with (Z.of_nat (length (drop 156 bs) mod 128)) by lia.
  eapply wp_mono.
  { apply clear_indirect2_wp; [by apply room_union|done|exact Ht|change INODE_INDIRECT2_COUNT with 16384; lia|].
    by rewrite El. }
  intros [v t] ? (-> & -> & Hv). split; [by split|]. rewrite El in Hv. unfold sub_tables.
  split; [|exact Hv]. rewrite (ind_at_lookup _ _ _ Hl).
  by rewrite (insert_encode_same _ _ _ _ Hl Hblk).
Qed.

Lemma cleared_perm (i1 i2 : Z) (b1 b2 b3 subs : list Z) :
  ((b1 ++ [i1]) ++ b2) ++ [i2] ++ subs ++ b3 ≡ₚ (b1 ++ b2 ++ b3) ++ i1 :: i2 :: subs.
Proof.
  rewrite <- !app_assoc. f_equiv. rewrite (Permutation_app_comm b3). simpl.
  rewrite <- (Permutation_middle b2 _ i1). done.
Qed.

Lemma clear_size_wp h d di bs ix :
  inode_map d di bs ix -> disk_ok d -> pool h d ix ->
  Z.of_nat (base.size h) + 1 < BLOCK_CACHE_SIZE -> Zlength bs = data_blocks di ->
  wp h (clear_size di) d (fun '(v, di') d' => cleared d di bs ix v di' d').
Proof.
  intros M Hd Hp Hroom Hbs. unfold clear_size. rewrite <- Hbs. cbn [set_size].
  pose proof M as [Hr _ _ _ Hmax Hix]. pose proof (repr_ok_words _ Hr) as (_ & _ & Hw1 & Hw2).
  assert (is_word 4 0) as Hw0 by (unfold is_word; simpl; lia).
  change INODE_DIRECT_COUNT with 28. change INODE_INDIRECT1_COUNT with 128.
  change INODE_INDIRECT2_COUNT with 16384. change INDIRECT2_BOUND with 16540 in Hmax.
  set (n := Z.to_nat (Z.min (Zlength bs) 28)). cbn [direct indirect1 indirect2 set_direct set_size].
  rewrite (inode_map_direct d di bs ix n M) by lia.
  destruct (Z.ltb_spec 28 (Zlength bs)) as [G1|G1]; cbn [negb].
  2:{ apply wp_ret. split_and!; [done| |done|done|apply (inode_map_cleared d di n); auto; lia].
      rewrite Hix, index_list_small, app_nil_r by lia. by rewrite take_ge by lia. }
  rewrite index_list_28 in Hix by lia.
  destruct (pool_lookup h d ix (indirect1 di) Hp) as (Hh1 & _ & l1 & Hl1); [rewrite Hix; set_solver|].
  destruct (ind_at_ok _ _ _ Hd Hl1) as [Hil1 _].
  apply wp_bind, wp_peek; [lia|done|done|by eapply elem_of_dom_2|].
  set (k := Z.to_nat (Z.min (Zlength bs - 28) 128)). rewrite (inode_map_ind1 d di bs ix k M Hil1) by lia.
  replace n with 28%nat in * by lia. cbn [set_indirect1 indirect2].
  destruct (Z.ltb_spec 128 (Zlength bs - 28)) as [G2|G2]; cbn [negb].
  2:{ apply wp_ret. split_and!; [done| |done|done|by apply (inode_map_cleared d di 28)].
      rewrite Hix, index_list2_small, (take_ge (drop 28 bs)) by (rewrite ?length_drop; lia).
      rewrite <- app_assoc. simpl. rewrite <- Permutation_middle, take_drop.
      by rewrite Permutation_app_comm. }
  rewrite <- index_list_28, index_list_156 in Hix by lia.
  apply (wp_lift_bind _ _ tt); [apply rassert_Ok, Z.leb_le; lia|]. apply wp_bind.
  eapply wp_mono; [apply (clear_ind2_block h d di bs ix M Hd Hp Hroom); [lia|exact Hix]|].
  intros v2 ? [-> Hv2]. apply wp_ret.
  split_and!; [done| |done|done|by apply (inode_map_cleared d di 28)].
  rewrite Hix, Hv2. replace k with 128%nat by lia.
  assert (bs = take 28 bs ++ take 128 (drop 28 bs) ++ drop 156 bs) as Ebs.
  { rewrite <- (take_drop 28 bs) at 1. f_equal.
    rewrite <- (take_drop 128 (drop 28 bs)) at 1. by rewrite drop_drop. }
  rewrite Ebs at 5. rewrite <- (app_assoc _ [_]). apply cleared_perm.
Qed.

(** ** The claims about the block tables *)

(** Given exactly the blocks [blocks_num_needed] asks for,
    [increase_size] never panics and makes the inode map the old blocks
    followed by new ones; old, new and index blocks together are exactly the
    old ones and the given ones; only index blocks are written. *)
Theorem increase_size_extends h d di new_size nb bs ix :
  inode_map d di bs ix -> disk_ok d -> pool h d (bs ++ ix ++ nb) ->
  Z.of_nat (base.size h) + 1 < BLOCK_CACHE_SIZE ->
  Zlength bs = data_blocks di -> new_size <= MAX_SIZE ->
  blocks_num_needed di new_size = Ok (Zlength nb) ->
  wp h (DiskInode_increase_size di new_size nb) d
    (fun di' d' => exists bs' ix', resized d di bs ix nb new_size d' di' bs' ix').
Proof. apply increase_size_wp. Qed.

(** An empty inode, and an inode of 29 blocks with its index block. *)
Definition empty_inode : DiskInode := mkInode 0 (replicate 28 0) 0 0 File.
Definition demo_blocks (n : nat) : list Z := seqZ 10 (Z.of_nat n).
Definition demo_content (n : nat) : content :=
  gset_to_gmap (replicate 512 0) (list_to_set (demo_blocks n)).

Lemma demo_content_ok n : (n <= 100)%nat ->
  disk_ok (demo_content n) /\ pool ∅ (demo_content n) (demo_blocks n).
Proof.
  intros Hn. split.
  - intros b l [_ <-]%lookup_gset_to_gmap_Some. apply (bool_decide_unpack _). by vm_compute.
  - split; [apply NoDup_seqZ| |].
    + apply Forall_forall. intros b Hb. split; [apply not_elem_of_empty|].
      unfold demo_content. rewrite dom_gset_to_gmap. by apply elem_of_list_to_set.
    + apply Forall_forall. intros b [? ?]%elem_of_seqZ. unfold is_word. simpl. lia.
Qed.

Lemma empty_inode_map d : inode_map d empty_inode [] [].
Proof. split; try done. split; [done|]. apply (bool_decide_unpack _). by vm_compute. Qed.

Lemma increase_size_extends_witness :
  wp ∅ (DiskInode_increase_size empty_inode 14500 (demo_blocks 30)) (demo_content 30)
    (fun di' d' => exists bs' ix',
       resized (demo_content 30) empty_inode [] [] (demo_blocks 30) 14500 d' di' bs' ix').
Proof.
  apply increase_size_extends.
  - apply empty_inode_map.
  - apply demo_content_ok. lia.
  - apply demo_content_ok. lia.
  - reflexivity.
  - reflexivity.
  - vm_compute. discriminate.
  - reflexivity.
Defined.

(** [clear_size] returns every data and index block of the inode exactly
    once, leaves the disk alone and empties the inode. *)
Theorem clear_size_collects h d di bs ix :
  inode_map d di bs ix -> disk_ok d -> pool h d ix ->
  Z.of_nat (base.size h) + 1 < BLOCK_CACHE_SIZE -> Zlength bs = data_blocks di ->
  wp h (clear_size di) d (fun '(v, di') d' => cleared d di bs ix v di' d').
Proof. apply clear_size_wp. Qed.

Lemma clear_size_collects_witness : exists d di bs ix,
  Zlength bs = 29 /\ wp ∅ (clear_size di) d (fun '(v, di') d' => cleared d di bs ix v di' d').
Proof.
  destruct (demo_content_ok 30 ltac:(lia)) as [Hd Hp].
  assert (wp ∅ (DiskInode_increase_size empty_inode 14500 (demo_blocks 30)) (demo_content 30)
    (fun di' d' => exists bs' ix',
       resized (demo_content 30) empty_inode [] [] (demo_blocks 30) 14500 d' di' bs' ix')) as Hwp.
  { apply increase_size_wp; auto using empty_inode_map; [vm_compute; reflexivity|vm_compute; discriminate]. }
  destruct Hwp as (di & d & _ & bs & ix & R). exists d, di, bs, ix.
  pose proof (rs_blocks _ _ _ _ _ _ _ _ _ _ R) as Hb. split.
  - rewrite Hb. unfold data_blocks. rewrite (rs_size _ _ _ _ _ _ _ _ _ _ R). reflexivity.
  - apply (clear_size_collects ∅ d di bs ix); [apply R|apply R| |reflexivity|exact Hb].
    apply (pool_app ∅ d bs ix). eapply pool_perm; [|apply R|exact Hp]. symmetry. apply R.
Defined.
