(* ===== verification/InodeIO.v ===== *)
(** Reading and writing through a disk inode (easy-fs/src/layout.rs, [read_at] and
    [write_at]) as operations on the file's bytes, and directory entries. *)
From S2P Require Import Prelude ByteCodec BlockCache DiskLogic Layout InodeMap.

From Stdlib Require Import ZifyNat.
#[local] Ltac Zify.zify_post_hook ::= Z.to_euclidean_division_equations.

(** The bytes in the data blocks [bs], and those of them that the file owns. *)
Definition block_at (d : content) (b : Z) : list Z := default [] (d !! b).
Definition data_of (d : content) (bs : list Z) : list Z := concat (block_at d <$> bs).
Definition file_bytes (d : content) (di : DiskInode) (bs : list Z) : list Z :=
  take (Z.to_nat (size di)) (data_of d bs).

(** ** Slices of concatenated blocks *)

Lemma slice_app_split {A} (l : list A) s m e :
  0 <= s <= m -> m <= e -> e <= Zlength l ->
  slice l s (m - s) ++ slice l m (e - m) = slice l s (e - s).
Proof.
  intros. unfold slice.
  replace (Z.to_nat m) with (Z.to_nat s + Z.to_nat (m - s))%nat by lia.
  rewrite <- drop_drop, take_take_drop. f_equal. lia.
Qed.

Lemma concat_lookup (n : nat) (ls : list (list Z)) k l i :
  Forall (fun l => length l = n) ls -> ls !! k = Some l -> (i < n)%nat ->
  concat ls !! (k * n + i)%nat = l !! i.
Proof.
  intros Hall. revert k. induction Hall as [|x ls Hx _ IH]; intros k Hk Hi; [done|].
  destruct k as [|k]; simpl in *.
  - simplify_eq. rewrite lookup_app_l by lia. done.
  - rewrite lookup_app_r by lia. rewrite <- (IH k Hk Hi). f_equal. lia.
Qed.

Lemma concat_length (n : nat) (ls : list (list Z)) :
  Forall (fun l => length l = n) ls -> length (concat ls) = (length ls * n)%nat.
Proof. induction 1; simpl; [done|]. rewrite length_app. lia. Qed.

Lemma concat_insert (n : nat) (ls : list (list Z)) k l :
  Forall (fun l => length l = n) ls -> (k < length ls)%nat -> length l = n ->
  concat (<[k := l]> ls) = splice (concat ls) (Z.of_nat (k * n)) l.
Proof.
  intros Hall. revert k. induction Hall as [|x ls Hx _ IH]; intros k Hk Hl; simpl in *; [lia|].
  destruct k as [|k]; simpl.
  - unfold splice. simpl. rewrite drop_app_le, drop_ge by lia. done.
  - rewrite IH by lia. unfold splice. rewrite !Nat2Z.id.
    rewrite (take_app_ge x), (drop_app_ge x) by lia. rewrite <- app_assoc. do 4 f_equal; lia.
Qed.

(** Two adjacent writes are one. *)
Lemma splice_splice_adj {A} (l a b : list A) s :
  0 <= s -> s + Zlength a + Zlength b <= Zlength l ->
  splice (splice l s a) (s + Zlength a) b = splice l s (a ++ b).
Proof.
  intros Hs Hl. apply list_eq. intros i.
  destruct (decide (s <= Z.of_nat i < s + Zlength (a ++ b))) as [Hin|Hout]; rewrite length_app in *.
  - rewrite (lookup_splice_in l) by (rewrite ?length_app; lia).
    destruct (decide (Z.of_nat i < s + Zlength a)).
    + rewrite lookup_splice_out by (rewrite ?length_splice; lia).
      rewrite lookup_splice_in, lookup_app_l by lia. done.
    + rewrite lookup_splice_in by (rewrite ?length_splice; lia).
      rewrite lookup_app_r by lia. f_equal. lia.
  - rewrite !lookup_splice_out; rewrite ?length_splice, ?length_app; try lia. done.
Qed.

(** A write inside one block is a write to the whole. *)
Lemma splice_splice_in {A} (l blk new : list A) s o :
  0 <= s -> 0 <= o -> s + Zlength blk <= Zlength l -> o + Zlength new <= Zlength blk ->
  slice l s (Zlength blk) = blk ->
  splice l s (splice blk o new) = splice l (s + o) new.
Proof.
  intros Hs Ho Hl Hn Hblk. apply list_eq. intros i.
  pose proof (length_splice blk new o ltac:(lia) ltac:(lia)) as Hsl.
  destruct (decide (s <= Z.of_nat i < s + Zlength blk)) as [Hin|Hout].
  - rewrite (lookup_splice_in l) by (rewrite ?Hsl; lia).
    destruct (decide (s + o <= Z.of_nat i < s + o + Zlength new)) as [Hn'|Hn'].
    + rewrite !lookup_splice_in by lia. f_equal. lia.
    + rewrite !lookup_splice_out by lia. rewrite <- Hblk, lookup_slice by lia. f_equal. lia.
  - rewrite !lookup_splice_out by (rewrite ?Hsl; lia). done.
Qed.

(** ** The blocks of a file *)

Lemma data_of_blocks h d bs :
  disk_ok d -> usable h d bs -> Forall (fun l => length l = 512%nat) (block_at d <$> bs).
Proof.
  intros Hd Hu. apply Forall_fmap. unfold usable in Hu. eapply Forall_impl; [exact Hu|].
  intros b [_ [l Hl]%elem_of_dom]. unfold compose, block_at. rewrite Hl. simpl.
  destruct (Hd _ _ Hl) as [E _]. unfold BLOCK_SZ in E. lia.
Qed.

Lemma data_of_length h d bs :
  disk_ok d -> usable h d bs -> length (data_of d bs) = (length bs * 512)%nat.
Proof.
  intros Hd Hu. unfold data_of. rewrite (concat_length 512) by (by eapply data_of_blocks).
  by rewrite length_fmap.
Qed.

(** Part of block [k]. *)
Lemma data_of_slice h d bs k b l o n :
  disk_ok d -> usable h d bs -> bs !! k = Some b -> d !! b = Some l ->
  0 <= o -> 0 <= n -> o + n <= 512 ->
  slice (data_of d bs) (Z.of_nat k * 512 + o) n = slice l o n.
Proof.
  intros Hd Hu Hk Hl Ho Hn Hon. pose proof (data_of_length h d bs Hd Hu) as Hlen.
  pose proof (lookup_lt_Some _ _ _ Hk). destruct (Hd _ _ Hl) as [Hll _]. unfold BLOCK_SZ in Hll.
  apply list_eq_same_length with (Z.to_nat n).
  { apply Nat2Z.inj. rewrite length_slice; lia. }
  { apply Nat2Z.inj. rewrite length_slice; lia. }
  intros i x y Hi. rewrite !lookup_slice by lia.
  replace (Z.to_nat (Z.of_nat k * 512 + o) + i)%nat with (k * 512 + (Z.to_nat o + i))%nat by lia.
  unfold data_of. rewrite (concat_lookup 512 _ _ l); [congruence|by eapply data_of_blocks| |lia].
  rewrite list_lookup_fmap, Hk. simpl. unfold block_at. by rewrite Hl.
Qed.

(** ** Reading *)

Lemma read_loop_wp fuel h d di bs ix s e :
  inode_map d di bs ix -> disk_ok d -> room h -> usable h d (bs ++ ix) ->
  0 <= s < e -> e <= Zlength bs * 512 -> e / 512 - s / 512 < Z.of_nat fuel ->
  wp h (read_loop fuel di s (s / BLOCK_SZ) e) d
    (fun v d' => d' = d /\ v = slice (data_of d bs) s (e - s)).
Proof.
  intros M Hd Hroom Hu. pose proof Hu as [Hub Hui]%usable_app. revert s.
  pose proof (im_max _ _ _ _ M) as Hmax. change INDIRECT2_BOUND with 16540 in Hmax.
  pose proof (data_of_length h d bs Hd Hub) as Hlen.
  induction fuel as [|fuel IH]; intros s Hs He Hf; [lia|]. cbn [read_loop]. unfold BLOCK_SZ in *.
  set (c := Z.min ((s / 512 + 1) * 512) e).
  destruct (lookup_lt_is_Some_2 bs (Z.to_nat (s / 512))) as [b Hb]; [lia|].
  destruct (usable_lookup _ _ _ b Hub) as (Hh & l & Hl); [by eapply list_elem_of_lookup_2|].
  rewrite u32_small by lia. apply wp_bind. eapply wp_mono.
  { replace (s / 512) with (Z.of_nat (Z.to_nat (s / 512))) by lia. by eapply get_block_id_wp. }
  intros ? ? [-> ->]. apply wp_bind.
  eapply wp_read_block; [done|done|done|exact Hl|eauto with codec|done|]. apply wp_ret. cbn [data_bytes].
  assert (slice l (s mod 512) (c - s) = slice (data_of d bs) s (c - s)) as ->.
  { rewrite <- (data_of_slice h d bs (Z.to_nat (s / 512)) b l) by (done || lia). f_equal. lia. }
  destruct (Z.eqb_spec c e) as [->|Hne]; [by apply wp_ret|].
  apply wp_bind. replace (s / 512 + 1) with (c / 512) by lia. eapply wp_mono; [apply IH; lia|].
  intros ? ? [-> ->]. apply wp_ret. split; [done|]. apply slice_app_split; lia.
Qed.

(** [v] over the front of the buffer. *)
Lemma read_at_wp h d di bs ix offset buf :
  inode_map d di bs ix -> disk_ok d -> room h -> usable h d (bs ++ ix) ->
  Zlength bs = data_blocks di -> size di <= MAX_SIZE ->
  0 <= offset -> offset + Zlength buf < 2 ^ 64 ->
  wp h (DiskInode_read_at di offset buf) d (fun '(n, buf') d' => d' = d /\
    let v := slice (file_bytes d di bs) offset (Zlength buf) in
    n = Zlength v /\ buf' = v ++ drop (length v) buf).
Proof.
  intros M Hd Hroom Hu Hbs Hsz Hoff Hlen. unfold DiskInode_read_at.
  rewrite u64_small by lia. pose proof (repr_ok_words _ (im_repr _ _ _ _ M)) as [Hs0 _].
  unfold is_word in Hs0. unfold data_blocks in Hbs. rewrite data_blocks_eq in Hbs by lia.
  pose proof Hu as [Hub _]%usable_app. pose proof (data_of_length h d bs Hd Hub) as Hdl.
  set (e := Z.min (offset + Zlength buf) (size di)).
  assert (slice (file_bytes d di bs) offset (Zlength buf) = slice (data_of d bs) offset (e - offset)) as Ev.
  { unfold file_bytes, slice. rewrite skipn_firstn_comm, take_take. f_equal. lia. }
  destruct (Z.leb_spec e offset) as [Hle|Hlt].
  - apply wp_ret. split; [done|]. rewrite Ev. unfold slice.
    replace (Z.to_nat (e - offset)) with 0%nat by lia. done.
  - apply wp_bind. eapply wp_mono; [eapply read_loop_wp; eauto; unfold BLOCK_SZ; lia|].
    intros v ? [-> ->]. apply wp_ret. rewrite <- Ev. done.
Qed.

(** ** Writing *)

(** [new] was written at [s] into the blocks [bs], and nothing else. *)
Record wrote (d : content) (bs : list Z) (s : Z) (new : list Z) (d' : content) : Prop := {
  wr_data : data_of d' bs = splice (data_of d bs) s new;
  wr_dom : dom d' = dom d;
  wr_frame b : b ∉ bs -> d' !! b = d !! b;
  wr_disk : disk_ok d';
}.

Lemma wrote_trans d bs s a d1 b d2 :
  wrote d bs s a d1 -> wrote d1 bs (s + Zlength a) b d2 ->
  0 <= s -> s + Zlength a + Zlength b <= Zlength (data_of d bs) -> wrote d bs s (a ++ b) d2.
Proof.
  intros [E1 D1 F1 K1] [E2 D2 F2 K2] Hs Hl. split; [|congruence| |done].
  - by rewrite E2, E1, splice_splice_adj.
  - intros x Hx. by rewrite F2, F1.
Qed.

(** Changing block [k] of the file. *)
Lemma data_of_insert h d bs k b l' :
  disk_ok d -> usable h d bs -> NoDup bs -> bs !! k = Some b -> length l' = 512%nat ->
  data_of (<[b := l']> d) bs = splice (data_of d bs) (Z.of_nat (k * 512)) l'.
Proof.
  intros Hd Hu Hnd Hk Hl. unfold data_of.
  rewrite <- concat_insert; [|by eapply data_of_blocks| |done].
  2:{ rewrite length_fmap. by eapply lookup_lt_Some. }
  f_equal. apply list_eq. intros i. destruct (decide (i = k)) as [->|Hne].
  - rewrite list_lookup_insert_eq by (rewrite length_fmap; by eapply lookup_lt_Some).
    rewrite list_lookup_fmap, Hk. simpl. unfold block_at. by rewrite lookup_insert_eq.
  - rewrite list_lookup_insert_ne by done. rewrite !list_lookup_fmap.
    destruct (bs !! i) as [b'|] eqn:Hi; [|done]. simpl. f_equal. unfold block_at.
    rewrite lookup_insert_ne; [done|]. intros <-. apply Hne. by eapply NoDup_lookup.
Qed.

Lemma write_block_wrote h d bs k b l o src :
  disk_ok d -> usable h d bs -> NoDup bs -> bs !! k = Some b -> d !! b = Some l ->
  0 <= o -> o + Zlength src <= 512 -> bytes_ok src ->
  wrote d bs (Z.of_nat k * 512 + o) src (<[b := splice l o src]> d) /\ is_block (splice l o src).
Proof.
  intros Hd Hu Hnd Hk Hl Ho Hlen Hb. pose proof (Hd _ _ Hl) as [Hll Hlb]. unfold BLOCK_SZ in Hll.
  pose proof (lookup_lt_Some _ _ _ Hk). pose proof (data_of_length h d bs Hd Hu) as Hdl.
  pose proof (length_splice l src o ltac:(lia) ltac:(lia)) as Hsl.
  assert (is_block (splice l o src)) as Hblk.
  { split; [unfold BLOCK_SZ; lia|]. by apply splice_bytes_ok. }
  split; [|done]. split.
  - rewrite (data_of_insert h) with (k := k) by (done || lia).
    replace (Z.of_nat (k * 512)) with (Z.of_nat k * 512) by lia. apply splice_splice_in; try lia.
    replace (Z.of_nat k * 512) with (Z.of_nat k * 512 + 0) by lia.
    rewrite (data_of_slice h d bs k b l) by (done || lia). apply slice_full. lia.
  - apply dom_insert_lookup_L. eauto.
  - intros x Hx. apply lookup_insert_ne. intros <-. apply Hx. by eapply list_elem_of_lookup_2.
  - by apply disk_ok_insert.
Qed.

Lemma write_loop_wp fuel h d di bs ix s e buf :
  inode_map d di bs ix -> disk_ok d -> room h -> usable h d (bs ++ ix) -> NoDup (bs ++ ix) ->
  bytes_ok buf -> 0 <= s <= e -> s / 512 < Zlength bs -> e <= Zlength bs * 512 ->
  e - s <= Zlength buf -> e / 512 - s / 512 < Z.of_nat fuel ->
  wp h (write_loop fuel di s (s / BLOCK_SZ) e buf) d
    (fun n d' => n = e - s /\ wrote d bs s (slice buf 0 (e - s)) d').
Proof.
  intros M Hd Hroom Hu Hnd. pose proof (NoDup_app bs ix) as [(Hndb & Hdisj & _) _]; [done|].
  pose proof (im_max _ _ _ _ M) as Hmax. change INDIRECT2_BOUND with 16540 in Hmax.
  revert s d buf M Hd Hu. induction fuel as [|fuel IH]; intros s d buf M Hd Hu Hb Hs Hsb He Hbuf Hf; [lia|].
  pose proof Hu as [Hub Hui]%usable_app. pose proof (data_of_length h d bs Hd Hub) as Hlen.
  cbn [write_loop]. unfold BLOCK_SZ in *. set (c := Z.min ((s / 512 + 1) * 512) e).
  destruct (lookup_lt_is_Some_2 bs (Z.to_nat (s / 512))) as [b Hk]; [lia|].
  destruct (usable_lookup _ _ _ b Hub) as (Hh & l & Hl); [by eapply list_elem_of_lookup_2|].
  rewrite u32_small by lia. apply wp_bind. eapply wp_mono.
  { replace (s / 512) with (Z.of_nat (Z.to_nat (s / 512))) by lia. by eapply get_block_id_wp. }
  intros ? ? [-> ->]. apply wp_bind.
  assert (Zlength (slice buf 0 (c - s)) = c - s) as Hsl by (apply length_slice; lia).
  destruct (write_block_wrote h d bs (Z.to_nat (s / 512)) b l (s mod 512) (slice buf 0 (c - s)))
    as [W Hblk]; [done..|lia|lia|by apply slice_bytes_ok|].
  replace (Z.of_nat (Z.to_nat (s / 512)) * 512 + s mod 512) with s in W by lia.
  eapply wp_modify_block; [done|done|done|exact Hl|eauto with codec|done|]. cbn [data_bytes].
  apply wp_ret. split. { destruct Hblk as [Hx ?]. split; [cbn [data_bytes]|done]. unfold BLOCK_SZ in Hx. lia. }
  change (encode _ l) with (splice l (s mod 512) (slice buf 0 (c - s))).
  destruct (Z.eqb_spec c e) as [Ec|Hne]; [apply wp_ret; by rewrite Ec in *|].
  apply wp_bind. replace (s / 512 + 1) with (c / 512) by lia. eapply wp_mono.
  { apply IH; try lia.
    - eapply inode_map_frame; [exact M|]. intros x Hx. apply W. intros Hin. by apply (Hdisj x).
    - apply W.
    - eapply usable_dom; [apply W|done].
    - by apply Forall_drop.
    - rewrite length_drop. lia. }
  intros n d2 [-> W2]. apply wp_ret. split; [lia|].
  pose proof (slice_app_split buf 0 (c - s) (e - s)) as Es. rewrite !Z.sub_0_r in Es.
  rewrite <- Es by lia.
  eapply wrote_trans; [exact W| |lia|].
  - rewrite Hsl. replace (s + (c - s)) with c by lia. unfold slice in *. rewrite drop_0 in W2.
    replace (e - s - (c - s)) with (e - c) by lia. exact W2.
  - rewrite Hsl. rewrite length_slice by lia. lia.
Qed.

Lemma take_splice {A} (l l' : list A) s n :
  0 <= s -> s + Zlength l' <= Z.of_nat n -> (n <= length l)%nat ->
  take n (splice l s l') = splice (take n l) s l'.
Proof.
  intros Hs Hn Hl. apply list_eq. intros i. destruct (decide (i < n)%nat) as [Hi|Hi].
  - rewrite lookup_take_lt by done.
    destruct (decide (s <= Z.of_nat i < s + Zlength l')).
    + rewrite !lookup_splice_in by (rewrite ?length_take; lia). done.
    + rewrite !lookup_splice_out by (rewrite ?length_take; lia). by rewrite lookup_take_lt.
  - rewrite !lookup_ge_None_2; [done| |].
    + rewrite length_splice; rewrite ?length_take; lia.
    + rewrite length_take, length_splice; lia.
Qed.

Lemma wrote_file h d di bs s new d' :
  wrote d bs s new d' -> disk_ok d -> usable h d bs ->
  0 <= s -> s + Zlength new <= size di -> size di <= Zlength bs * 512 ->
  file_bytes d' di bs = splice (file_bytes d di bs) s new.
Proof.
  intros W Hd Hu Hs Hn Hsz. pose proof (data_of_length h d bs Hd Hu).
  unfold file_bytes. rewrite (wr_data _ _ _ _ _ W). apply take_splice; lia.
Qed.

Lemma write_at_wp h d di bs ix offset buf :
  inode_map d di bs ix -> disk_ok d -> room h -> usable h d (bs ++ ix) -> NoDup (bs ++ ix) ->
  Zlength bs = data_blocks di -> size di <= MAX_SIZE -> bytes_ok buf ->
  0 <= offset -> offset + Zlength buf < 2 ^ 64 -> offset < size di ->
  let n := Z.min (Zlength buf) (size di - offset) in
  wp h (DiskInode_write_at di offset buf) d
    (fun m d' => m = n /\ wrote d bs offset (slice buf 0 n) d' /\
       file_bytes d' di bs = splice (file_bytes d di bs) offset (slice buf 0 n)).
Proof.
  intros M Hd Hroom Hu Hnd Hbs Hsz Hb Hoff Hlen Hlt n. unfold DiskInode_write_at.
  rewrite u64_small by lia. unfold data_blocks in Hbs. rewrite data_blocks_eq in Hbs by lia.
  set (e := Z.min (offset + Zlength buf) (size di)).
  apply (wp_lift_bind _ _ tt); [apply rassert_Ok, Z.leb_le; lia|].
  pose proof (usable_app h d bs ix) as [[Hub _] _]; [done|].
  eapply wp_mono; [eapply write_loop_wp; eauto; unfold BLOCK_SZ; lia|].
  intros m d' [-> W]. replace (e - offset) with n in * by lia. split_and!; [done|done|].
  eapply wrote_file; eauto; [|lia]. rewrite length_slice; lia.
Qed.

(** A writable file: its tables, blocks and size agree. *)
Record file_ok (h : gset Z) (d : content) (di : DiskInode) (bs ix : list Z) : Prop := {
  fo_map : inode_map d di bs ix;
  fo_disk : disk_ok d;
  fo_pool : pool h d (bs ++ ix);
  fo_blocks : Zlength bs = data_blocks di;
  fo_size : size di <= MAX_SIZE;
}.

Lemma wrote_file_ok h d di bs ix s new d' :
  file_ok h d di bs ix -> wrote d bs s new d' -> file_ok h d' di bs ix.
Proof.
  intros [M K P B S] W. split; auto.
  - eapply inode_map_frame; [exact M|]. intros b Hb. apply W. intros Hin.
    destruct P as [(_ & Hdisj & _)%NoDup_app _ _]. by apply (Hdisj b).
  - apply W.
  - eapply pool_perm; [done|apply W|done].
Qed.

Lemma file_bytes_length h d di bs ix : file_ok h d di bs ix -> Zlength (file_bytes d di bs) = size di.
Proof.
  intros [M K [_ [Hu _]%usable_app _] B S]. unfold file_bytes.
  pose proof (repr_ok_words _ (im_repr _ _ _ _ M)) as [Hs _]. unfold is_word in Hs.
  pose proof (data_of_length h d bs K Hu). unfold data_blocks in B.
  rewrite data_blocks_eq in B by lia. rewrite length_take. lia.
Qed.

(** Growing keeps the old bytes as a prefix. *)
Lemma resized_file_ok h d di bs ix nb s d' di' bs' ix' :
  file_ok h d di bs ix -> pool h d (bs ++ ix ++ nb) -> s <= MAX_SIZE ->
  resized d di bs ix nb s d' di' bs' ix' -> file_ok h d' di' bs' ix'.
Proof.
  intros F P Hs R. split; [apply R|apply R| |apply R|by rewrite (rs_size _ _ _ _ _ _ _ _ _ _ R)].
  eapply pool_perm; [|apply R|exact P]. symmetry. apply R.
Qed.

Lemma resized_bytes h d di bs ix nb s d' di' bs' ix' :
  file_ok h d di bs ix -> pool h d (bs ++ ix ++ nb) -> s <= MAX_SIZE -> size di <= s ->
  resized d di bs ix nb s d' di' bs' ix' ->
  file_bytes d di bs = take (Z.to_nat (size di)) (file_bytes d' di' bs').
Proof.
  intros F P Hs Hle R. pose proof (resized_file_ok _ _ _ _ _ _ _ _ _ _ _ F P Hs R) as F'.
  pose proof (fo_pool _ _ _ _ _ F') as [(_ & Hdisj & _)%NoDup_app _ _].
  pose proof (file_bytes_length _ _ _ _ _ F) as Hl. pose proof (fo_pool _ _ _ _ _ F) as [_ [Hu _]%usable_app _].
  destruct (rs_prefix _ _ _ _ _ _ _ _ _ _ R) as [k ->].
  assert (data_of d' bs = data_of d bs) as E.
  { unfold data_of. f_equal. apply list_fmap_ext. intros i b Hi. unfold block_at.
    rewrite (rs_frame _ _ _ _ _ _ _ _ _ _ R); [done|]. apply Hdisj.
    apply list_elem_of_lookup_2 in Hi. set_solver. }
  unfold file_bytes in *. rewrite (rs_size _ _ _ _ _ _ _ _ _ _ R).
  rewrite take_take, Nat.min_l by lia. unfold data_of. rewrite fmap_app, concat_app.
  rewrite take_app_le; [by fold (data_of d' bs); rewrite E|].
  fold (data_of d' bs). rewrite E. rewrite length_take in Hl. lia.
Qed.
