(* ===== verification/Efs.v ===== *)
(** The easy file system on a block device (easy-fs/src/efs.rs): the disk layout,
    formatting, mounting, and allocation of inodes and data blocks. *)
From S2P Require Import Prelude ByteCodec BlockCache DiskLogic Bitmap Layout InodeMap InodeIO.

From Stdlib Require Import ZifyNat.
#[local] Ltac Zify.zify_post_hook ::= Z.to_euclidean_division_equations.

(** The block device is the one the program runs on. *)
Record EasyFileSystem := mkEfs {
  inode_bitmap : Bitmap;
  data_bitmap : Bitmap;
  inode_area_start_block : Z;
  data_area_start_block : Z;
}.

(** ** Operations *)

(** [get_disk_inode_pos]: block and byte offset of an inode. *)
Definition get_disk_inode_pos (fs : EasyFileSystem) (inode_id : Z) : Z * Z :=
  let inode_size := size_of DiskInode in
  let inodes_per_block := BLOCK_SZ / inode_size in
  (u32 (inode_area_start_block fs + inode_id / inodes_per_block),
   inode_id `mod` inodes_per_block * inode_size).

Definition get_data_block_id (fs : EasyFileSystem) (data_block_id : Z) : Z :=
  u32 (data_area_start_block fs + data_block_id).

Definition alloc_inode (fs : EasyFileSystem) : prog Z :=
  p ← alloc (inode_bitmap fs);
  p ← lift (unwrap p);
  Ret (u32 p).

Definition alloc_data (fs : EasyFileSystem) : prog Z :=
  p ← alloc (data_bitmap fs);
  p ← lift (unwrap p);
  Ret (u32 (u32 p + data_area_start_block fs)).

(** [for byte in data_block.iter_mut() { *byte = 0 }] on block [b]. *)
Definition zero_block (b : Z) : prog unit :=
  cache_modify b 0 (fun t : DataBlock => Ret (tt, mkData (replicate (length (data_bytes t)) 0))).

Definition dealloc_data (fs : EasyFileSystem) (block_id : Z) : prog unit :=
  _ ← zero_block block_id;
  dealloc (data_bitmap fs) (u32 (block_id - data_area_start_block fs)).

(** [for i in first..first + n]: clear the blocks. *)
Fixpoint clear_blocks (n : nat) (first : Z) : prog unit :=
  match n with
  | O => Ret tt
  | S n => _ ← zero_block first; clear_blocks n (first + 1)
  end.

(** [EasyFileSystem::create]: format the device. *)
Definition create_fs (total_blocks inode_bitmap_blocks : Z) : prog EasyFileSystem :=
  let inode_bitmap := Bitmap_new 1 inode_bitmap_blocks in
  let inode_num := maximum inode_bitmap in
  let inode_area_blocks :=
    u32 ((inode_num * size_of DiskInode + BLOCK_SZ - 1) / BLOCK_SZ) in
  let inode_total_blocks := u32 (inode_bitmap_blocks + inode_area_blocks) in
  let data_total_blocks := u32 (u32 (total_blocks - 1) - inode_total_blocks) in
  let data_bitmap_blocks := u32 (data_total_blocks + 4096) / 4097 in
  let data_area_blocks := u32 (data_total_blocks - data_bitmap_blocks) in
  let data_bitmap :=
    Bitmap_new (u32 (u32 (1 + inode_bitmap_blocks) + inode_area_blocks)) data_bitmap_blocks in
  let efs := mkEfs inode_bitmap data_bitmap (u32 (1 + inode_bitmap_blocks))
               (u32 (u32 (1 + inode_total_blocks) + data_bitmap_blocks)) in
  _ ← clear_blocks (Z.to_nat total_blocks) 0;
  _ ← cache_modify 0 0 (fun _ : SuperBlock =>
        Ret (tt, SuperBlock_initialize total_blocks inode_bitmap_blocks inode_area_blocks
                   data_bitmap_blocks data_area_blocks));
  root ← alloc_inode efs;
  _ ← lift (rassert (root =? 0));
  let '(root_inode_block_id, root_inode_offset) := get_disk_inode_pos efs 0 in
  _ ← cache_modify root_inode_block_id root_inode_offset (fun di : DiskInode =>
        Ret (tt, DiskInode_initialize di Directory));
  _ ← sync_all;
  Ret efs.

(** [EasyFileSystem::open]: what the super block says, and reading it. *)
Definition efs_of_super (sb : SuperBlock) : EasyFileSystem :=
  let inode_total_blocks := u32 (inode_bitmap_blocks sb + inode_area_blocks sb) in
  mkEfs (Bitmap_new 1 (inode_bitmap_blocks sb))
        (Bitmap_new (u32 (1 + inode_total_blocks)) (data_bitmap_blocks sb))
        (u32 (1 + inode_bitmap_blocks sb))
        (u32 (u32 (1 + inode_total_blocks) + data_bitmap_blocks sb)).
Definition open_fs : prog EasyFileSystem :=
  cache_read 0 0 (fun sb : SuperBlock =>
    _ ← lift (rassert (is_valid sb));
    Ret (efs_of_super sb)).
