(* ===== verification/Vfs.v ===== *)
(** The virtual file system layer (easy-fs/src/vfs.rs): named files in a
    directory, read, written and cleared through their inode numbers. *)
From S2P Require Import Prelude ByteCodec BlockCache DiskLogic Bitmap Layout InodeMap InodeIO Efs.

(** [Inode]: where the disk inode is.  The file system is an argument of the
    operations: every [Inode] holds a reference to the same one. *)
Record Inode := Inode_new { vi_block_id : Z; vi_block_offset : Z }.

(** [read_disk_inode] and [modify_disk_inode]. *)
Definition read_disk_inode {V} (ino : Inode) (f : DiskInode -> prog V) : prog V :=
  cache_read (vi_block_id ino) (vi_block_offset ino) f.
Definition modify_disk_inode {V} (ino : Inode) (f : DiskInode -> prog (V * DiskInode)) : prog V :=
  cache_modify (vi_block_id ino) (vi_block_offset ino) f.

Definition Inode_of (fs : EasyFileSystem) (inode_id : Z) : Inode :=
  let '(block_id, block_offset) := get_disk_inode_pos fs inode_id in
  Inode_new block_id block_offset.

(** [EasyFileSystem::root_inode]. *)
Definition root_inode (fs : EasyFileSystem) : Inode := Inode_of fs 0.

(** The loop of [find_inode_id]: entries [i], [i + 1], ..., [n] of them; the
    same [dirent] is overwritten by each read. *)
Fixpoint find_loop (n : nat) (i : Z) (name : list Z) (di : DiskInode) (dirent : DirEntry)
    : prog (option Z) :=
  match n with
  | O => Ret None
  | S n =>
      '(len, buf) ← DiskInode_read_at di (DIRENT_SZ * i) (as_bytes dirent);
      let dirent := of_bytes buf in
      _ ← lift (rassert (len =? DIRENT_SZ));
      nm ← lift (DirEntry_name dirent);
      if decide (nm = name) then Ret (Some (inode_number dirent))
      else find_loop n (i + 1) name di dirent
  end.

Definition find_inode_id (name : list Z) (di : DiskInode) : prog (option Z) :=
  _ ← lift (rassert (is_dir di));
  let file_count := size di / DIRENT_SZ in
  find_loop (Z.to_nat file_count) 0 name di DirEntry_empty.

Definition Inode_find (fs : EasyFileSystem) (ino : Inode) (name : list Z) : prog (option Inode) :=
  read_disk_inode ino (fun di =>
    r ← find_inode_id name di;
    Ret (option_map (Inode_of fs) r)).

(** [for _ in 0..n { v.push(fs.alloc_data()) }]. *)
Fixpoint alloc_blocks (fs : EasyFileSystem) (n : nat) : prog (list Z) :=
  match n with
  | O => Ret []
  | S n => b ← alloc_data fs; v ← alloc_blocks fs n; Ret (b :: v)
  end.

(** [Inode::increase_size]. *)
Definition Inode_increase_size (fs : EasyFileSystem) (new_size : Z) (di : DiskInode) : prog DiskInode :=
  if new_size <? size di then Ret di else
  blocks_needed ← lift (blocks_num_needed di new_size);
  v ← alloc_blocks fs (Z.to_nat blocks_needed);
  DiskInode_increase_size di new_size v.

(** [Inode::create]. *)
Definition Inode_create (fs : EasyFileSystem) (ino : Inode) (name : list Z) : prog (option Inode) :=
  existing ← read_disk_inode ino (fun root_inode =>
               _ ← lift (rassert (is_dir root_inode));
               find_inode_id name root_inode);
  match existing with
  | Some _ => Ret None
  | None =>
      new_inode_id ← alloc_inode fs;
      let '(new_inode_block_id, new_inode_block_offset) := get_disk_inode_pos fs new_inode_id in
      _ ← cache_modify new_inode_block_id new_inode_block_offset (fun new_inode : DiskInode =>
            Ret (tt, DiskInode_initialize new_inode File));
      _ ← modify_disk_inode ino (fun root_inode =>
            let file_count := size root_inode / DIRENT_SZ in
            let new_size := (file_count + 1) * DIRENT_SZ in
            root_inode ← Inode_increase_size fs (u32 new_size) root_inode;
            dirent ← lift (DirEntry_new name new_inode_id);
            _ ← DiskInode_write_at root_inode (file_count * DIRENT_SZ) (as_bytes dirent);
            Ret (tt, root_inode));
      _ ← sync_all;
      Ret (Some (Inode_of fs new_inode_id))
  end.

(** The loop of [Inode::ls]. *)
Fixpoint ls_loop (n : nat) (i : Z) (di : DiskInode) : prog (list (list Z)) :=
  match n with
  | O => Ret []
  | S n =>
      '(len, buf) ← DiskInode_read_at di (i * DIRENT_SZ) (as_bytes DirEntry_empty);
      _ ← lift (rassert (len =? DIRENT_SZ));
      nm ← lift (DirEntry_name (of_bytes buf));
      rest ← ls_loop n (i + 1) di;
      Ret (nm :: rest)
  end.
Definition Inode_ls (ino : Inode) : prog (list (list Z)) :=
  read_disk_inode ino (fun di =>
    let file_count := size di / DIRENT_SZ in
    ls_loop (Z.to_nat file_count) 0 di).

Definition Inode_read_at (ino : Inode) (offset : Z) (buf : list Z) : prog (Z * list Z) :=
  read_disk_inode ino (fun di => DiskInode_read_at di offset buf).

Definition Inode_write_at (fs : EasyFileSystem) (ino : Inode) (offset : Z) (buf : list Z) : prog Z :=
  n ← modify_disk_inode ino (fun di =>
        di ← Inode_increase_size fs (u32 (usize (offset + Zlength buf))) di;
        n ← DiskInode_write_at di offset buf;
        Ret (n, di));
  _ ← sync_all;
  Ret n.

(** [for data_block in v { fs.dealloc_data(data_block) }]. *)
Fixpoint dealloc_blocks (fs : EasyFileSystem) (v : list Z) : prog unit :=
  match v with
  | [] => Ret tt
  | b :: v => _ ← dealloc_data fs b; dealloc_blocks fs v
  end.

Definition Inode_clear (fs : EasyFileSystem) (ino : Inode) : prog unit :=
  _ ← modify_disk_inode ino (fun di =>
        let size := size di in
        '(v, di) ← clear_size di;
        _ ← lift (rassert (Zlength v =? total_blocks size));
        _ ← dealloc_blocks fs v;
        Ret (tt, di));
  sync_all.
