(* ===== verification/FsInv.v ===== *)
(** The invariant of a mounted easy-fs, and what allocation and deallocation
    of data blocks do to it.

    A mounted file system is seen as a map from inode ids to [node]s; the
    abstract view [abs] of it maps every inode id to its type and bytes. *)
From S2P Require Import Prelude ByteCodec BlockCache DiskLogic Bitmap Layout InodeMap InodeIO Efs Vfs.

From Stdlib Require Import ZifyNat.
#[local] Ltac Zify.zify_post_hook ::= Z.to_euclidean_division_equations.

(** The areas of the disk follow each other: super block, inode bitmap,
    inodes (4 per block), data bitmap, [cap] data blocks. *)
Record geom (fs : EasyFileSystem) (cap : Z) (d : content) : Prop := {
  ge_ibm : start_block_id (inode_bitmap fs) = 1;
  ge_ibm_len : 0 <= blocks (inode_bitmap fs);
  ge_inodes : inode_area_start_block fs = 1 + blocks (inode_bitmap fs);
  ge_dbm : start_block_id (data_bitmap fs) =
           inode_area_start_block fs + maximum (inode_bitmap fs) / 4;
  ge_dbm_len : 0 <= blocks (data_bitmap fs);
  ge_data : data_area_start_block fs =
            start_block_id (data_bitmap fs) + blocks (data_bitmap fs);
  ge_cap : 0 <= cap <= maximum (data_bitmap fs);
  ge_max : data_area_start_block fs + cap <= 2 ^ 32;
  ge_imax : maximum (inode_bitmap fs) <= 2 ^ 32;
  ge_dom b : 0 <= b < data_area_start_block fs + cap -> b ∈ dom d;
}.

(** Which area a block is in. *)
Definition in_dbm (fs : EasyFileSystem) (b : Z) : Prop :=
  start_block_id (data_bitmap fs) <= b < data_area_start_block fs.
Definition in_data (fs : EasyFileSystem) (cap b : Z) : Prop :=
  data_area_start_block fs <= b < data_area_start_block fs + cap.
Definition in_inodes (fs : EasyFileSystem) (b : Z) : Prop :=
  inode_area_start_block fs <= b < start_block_id (data_bitmap fs).
Definition data_bit (fs : EasyFileSystem) (d : content) (k : Z) : bool :=
  bit_set d (data_bitmap fs) k.

(** ** Inodes on the disk *)

Definition inode_at (fs : EasyFileSystem) (d : content) (i : Z) : option DiskInode :=
  let '(b, off) := get_disk_inode_pos fs i in
  l ← d !! b; decode (slice l off (size_of DiskInode)).

Record node := mkNode { nd_inode : DiskInode; nd_blocks : list Z; nd_index : list Z }.
Definition owned (n : node) : list Z := nd_blocks n ++ nd_index n.

Abbreviation zeros n := (replicate n 0).

(** Node [n] is inode [i]: bytes past the file's size are zero. *)
Record node_ok (fs : EasyFileSystem) (cap : Z) (d : content) (i : Z) (n : node) : Prop := {
  no_inode : inode_at fs d i = Some (nd_inode n);
  no_file : file_ok ∅ d (nd_inode n) (nd_blocks n) (nd_index n);
  no_tail : Forall (.= 0) (drop (Z.to_nat (size (nd_inode n))) (data_of d (nd_blocks n)));
  no_area : Forall (in_data fs cap) (owned n);
}.

(** The super block describes the file system. *)
Definition super_ok (fs : EasyFileSystem) (d : content) : Prop :=
  exists l sb, d !! 0 = Some l /\ decode (slice l 0 (size_of SuperBlock)) = Some sb /\
    is_valid sb = true /\ efs_of_super sb = fs.

(** The bitmaps say exactly which inodes and data blocks are used, no block
    has two owners, and free data blocks are zero. *)
Record fs_inv (fs : EasyFileSystem) (cap : Z) (d : content) (N : gmap Z node) : Prop := {
  fi_geom : geom fs cap d;
  fi_disk : disk_ok d;
  fi_node i n : N !! i = Some n -> node_ok fs cap d i n;
  fi_ibit i : 0 <= i < maximum (inode_bitmap fs) ->
    bit_set d (inode_bitmap fs) i = true <-> i ∈ dom N;
  fi_idom i : i ∈ dom N -> 0 <= i < maximum (inode_bitmap fs);
  fi_dbit k : 0 <= k < maximum (data_bitmap fs) ->
    data_bit fs d k = true <-> exists i n, N !! i = Some n /\ data_area_start_block fs + k ∈ owned n;
  fi_disj i j n m b : N !! i = Some n -> N !! j = Some m -> b ∈ owned n -> b ∈ owned m -> i = j;
  fi_zero k : 0 <= k < cap -> data_bit fs d k = false ->
    d !! (data_area_start_block fs + k) = Some (zeros 512);
  fi_slot i : 0 <= i < maximum (inode_bitmap fs) -> is_Some (inode_at fs d i);
  fi_super : super_ok fs d;
}.

(** The abstract file system: type and bytes of every inode. *)
Definition abs (d : content) (N : gmap Z node) : gmap Z (DiskInodeType * list Z) :=
  (fun n => (type_ (nd_inode n), file_bytes d (nd_inode n) (nd_blocks n))) <$> N.

(** Free data blocks. *)
Definition free_set (fs : EasyFileSystem) (cap : Z) (d : content) : gset Z :=
  list_to_set (filter (fun k => data_bit fs d k = false) (seqZ 0 cap)).
Definition free_count (fs : EasyFileSystem) (cap : Z) (d : content) : Z :=
  Z.of_nat (base.size (free_set fs cap d)).

Lemma elem_of_free fs cap d k :
  k ∈ free_set fs cap d <-> 0 <= k < cap /\ data_bit fs d k = false.
Proof.
  unfold free_set. rewrite elem_of_list_to_set, list_elem_of_filter, elem_of_seqZ.
  rewrite Z.add_0_l. tauto.
Qed.

(** ** Allocating data blocks *)

(** The data bitmap can be used while [h] is locked. *)
Definition bitmap_free (fs : EasyFileSystem) (h : gset Z) : Prop :=
  forall b, in_dbm fs b -> b ∉ h.

Lemma bitmap_on_data fs cap h d : geom fs cap d -> bitmap_free fs h -> bitmap_on (data_bitmap fs) h d.
Proof.
  intros G Hh. pose proof G as [E1 H1 E2 E3 H3 E4 Hc Hm Him Hdom]. unfold maximum in *.
  change BLOCK_BITS with 4096 in *. split; [done| |].
  - intros n Hn. apply elem_of_dom, Hdom. lia.
  - intros n Hn. apply Hh. unfold in_dbm. lia.
Qed.

Lemma geom_dom fs cap d d' : geom fs cap d -> dom d' = dom d -> geom fs cap d'.
Proof. intros [] E. split; auto. intros b Hb. rewrite E. auto. Qed.

(** A data bit below [cap] lives in a bitmap block. *)
Lemma data_bit_block fs cap d k : geom fs cap d -> 0 <= k < maximum (data_bitmap fs) ->
  in_dbm fs (k / BLOCK_BITS + start_block_id (data_bitmap fs)).
Proof.
  intros [E1 H1 E2 E3 H3 E4 Hc Hm Him Hdom] Hk. unfold in_dbm, maximum in *.
  change BLOCK_BITS with 4096 in *. lia.
Qed.

Lemma geom_data_pos fs cap d : geom fs cap d -> 1 <= data_area_start_block fs.
Proof.
  intros [E1 H1 E2 E3 H3 E4 Hc Hm Him Hdom]. unfold maximum in *. change BLOCK_BITS with 4096 in *. lia.
Qed.

(** What allocating the blocks [v] does to the disk. *)
Record allocated (fs : EasyFileSystem) (cap : Z) (d : content) (v : list Z) (d' : content) : Prop := {
  al_nodup : NoDup v;
  al_area : Forall (in_data fs cap) v;
  al_free : Forall (fun b => data_bit fs d (b - data_area_start_block fs) = false) v;
  al_bits k : 0 <= k -> data_bit fs d' k = data_bit fs d k || bool_decide (data_area_start_block fs + k ∈ v);
  al_frame b : ~ in_dbm fs b -> d' !! b = d !! b;
  al_dom : dom d' = dom d;
  al_disk : disk_ok d';
}.

Lemma alloc_data_wp fs cap h d :
  geom fs cap d -> disk_ok d -> room h -> bitmap_free fs h -> 0 < free_count fs cap d ->
  wp h (alloc_data fs) d (fun b d' => allocated fs cap d [b] d' /\
    free_count fs cap d' = free_count fs cap d - 1).
Proof.
  intros G Hd Hroom Hh Hfree. unfold alloc_data. apply wp_bind.
  eapply wp_mono; [apply alloc_spec; [done|done|by eapply bitmap_on_data]|].
  pose proof G as [E1 H1 E2 E3 H3 E4 Hc Hm Him Hdom].
  destruct (set_choose_or_empty (free_set fs cap d)) as [[k0 Hk0]|Hemp].
  2:{ unfold free_count in Hfree. apply leibniz_equiv in Hemp. rewrite Hemp, size_empty in Hfree. lia. }
  apply elem_of_free in Hk0 as [Hk0 Hb0].
  intros [p|] d'; simpl.
  2:{ intros [_ Hfull]. unfold data_bit in Hb0. rewrite Hfull in Hb0 by lia. done. }
  intros (Hp & Hclear & Hlow & Hbits & Hframe & Hdom' & Hd').
  assert (p < cap).
  { destruct (decide (p < cap)); [done|]. unfold data_bit in Hb0. rewrite Hlow in Hb0 by lia. done. }
  apply wp_ret. pose proof (geom_data_pos _ _ _ G).
  rewrite (u32_small p), u32_small by lia. split.
  - split; [by apply NoDup_singleton| | | | |done|done].
    + constructor; [|done]. unfold in_data. lia.
    + constructor; [|done]. unfold data_bit. replace (p + _ - _) with p by lia. done.
    + intros k Hk. unfold data_bit. rewrite Hbits by done. f_equal.
      destruct (Z.eqb_spec p k); [rewrite bool_decide_true|rewrite bool_decide_false]; try done.
      * set_solver by lia.
      * rewrite list_elem_of_singleton. lia.
    + intros b Hb. apply Hframe. intros ->. apply Hb. eapply (data_bit_block fs cap d); [done|lia].
  - unfold free_count. assert (free_set fs cap d' = free_set fs cap d ∖ {[p]}) as ->.
    { apply set_eq. intros k. rewrite elem_of_difference, elem_of_singleton, !elem_of_free.
      split.
      - intros [Hk Hb]. unfold data_bit in *. rewrite Hbits in Hb by lia.
        apply orb_false_iff in Hb as [? ?%Z.eqb_neq]. split; [done|lia].
      - intros [[Hk Hb] Hne]. split; [done|]. unfold data_bit in *. rewrite Hbits, Hb by lia.
        simpl. apply Z.eqb_neq. lia. }
    rewrite size_difference, size_singleton.
    + assert (0 < base.size (free_set fs cap d))%nat by (unfold free_count in Hfree; lia). lia.
    + apply singleton_subseteq_l, elem_of_free. split; [lia|done].
Qed.

Lemma allocated_nil fs cap d : disk_ok d -> allocated fs cap d [] d.
Proof. intros. split; auto using NoDup_nil_2. intros k Hk. by rewrite bool_decide_false, orb_false_r by set_solver. Qed.

Lemma allocated_cons fs cap d b d1 v d2 :
  geom fs cap d -> allocated fs cap d [b] d1 -> allocated fs cap d1 v d2 -> allocated fs cap d (b :: v) d2.
Proof.
  intros G [N1 A1 F1 B1 R1 D1 K1] [N2 A2 F2 B2 R2 D2 K2]. inversion A1; inversion F1; subst.
  assert (forall x, x ∈ b :: v -> 0 <= x - data_area_start_block fs) as Hpos.
  { intros x [->|Hx]%elem_of_cons; [|rewrite Forall_forall in A2; specialize (A2 x Hx)];
      unfold in_data in *; lia. }
  assert (forall x, x ∈ v -> data_bit fs d (x - data_area_start_block fs) = false /\ x <> b) as Hv.
  { intros x Hx. rewrite Forall_forall in F2. specialize (F2 x Hx).
    rewrite B1 in F2 by (apply Hpos; set_solver). apply orb_false_iff in F2 as [? Hn%bool_decide_eq_false].
    split; [done|]. intros ->. apply Hn. replace (_ + _) with b by lia. set_solver. }
  split; [| | | | |congruence|done].
  - apply NoDup_cons. split; [|done]. intros Hb. by destruct (Hv b Hb).
  - by constructor.
  - constructor; [done|]. rewrite Forall_forall. intros x Hx. by apply Hv.
  - intros k Hk. rewrite B2, B1 by done. rewrite <- orb_assoc. f_equal.
    apply eq_iff_eq_true. rewrite orb_true_iff, !bool_decide_eq_true. set_solver.
  - intros x Hx. by rewrite R2, R1.
Qed.

Lemma alloc_blocks_wp fs cap h d n :
  geom fs cap d -> disk_ok d -> room h -> bitmap_free fs h -> Z.of_nat n <= free_count fs cap d ->
  wp h (alloc_blocks fs n) d (fun v d' => length v = n /\ allocated fs cap d v d').
Proof.
  intros G Hd Hroom Hh. revert d G Hd. induction n as [|n IH]; intros d G Hd Hn; cbn [alloc_blocks].
  - apply wp_ret. auto using allocated_nil.
  - apply wp_bind. eapply wp_mono; [by apply (alloc_data_wp fs cap); [..|lia]|].
    intros b d1 [A1 Hfc]. apply wp_bind. pose proof (geom_dom _ _ _ d1 G (al_dom _ _ _ _ _ A1)) as G1.
    eapply wp_mono; [apply IH; [done|apply A1|lia]|].
    intros v d2 [Hl A2]. apply wp_ret. split; [simpl; lia|]. by eapply allocated_cons.
Qed.

(** Fresh blocks are zero and nobody else's. *)
Lemma allocated_fresh fs cap d N v d' b :
  fs_inv fs cap d N -> allocated fs cap d v d' -> b ∈ v ->
  in_data fs cap b /\ d !! b = Some (zeros 512) /\ forall i n, N !! i = Some n -> b ∉ owned n.
Proof.
  intros I A Hb. pose proof (al_area _ _ _ _ _ A) as Ha. pose proof (al_free _ _ _ _ _ A) as Hf.
  rewrite Forall_forall in Ha, Hf. specialize (Ha b Hb). specialize (Hf b Hb). split; [done|].
  pose proof Ha as Ha'. unfold in_data in Ha'. pose proof (ge_cap _ _ _ (fi_geom _ _ _ _ I)) as Hc. split.
  - rewrite <- (fi_zero _ _ _ _ I (b - data_area_start_block fs)) by (done || lia). f_equal. lia.
  - intros i n Hn Hin. pose proof (fi_dbit _ _ _ _ I (b - data_area_start_block fs) ltac:(lia)) as [_ Hset].
    rewrite Hset in Hf; [done|]. exists i, n. split; [done|]. by replace (_ + _) with b by lia.
Qed.

(** ** Freeing data blocks *)

Record freed (fs : EasyFileSystem) (d : content) (v : list Z) (d' : content) : Prop := {
  fr_zero b : b ∈ v -> d' !! b = Some (zeros 512);
  fr_bits k : 0 <= k < maximum (data_bitmap fs) -> data_bit fs d' k =
     data_bit fs d k && negb (bool_decide (data_area_start_block fs + k ∈ v));
  fr_frame b : ~ in_dbm fs b -> b ∉ v -> d' !! b = d !! b;
  fr_dom : dom d' = dom d;
  fr_disk : disk_ok d';
}.

Lemma zeros_block : is_block (zeros 512).
Proof. split; [done|]. apply Forall_replicate. unfold is_byte. lia. Qed.

Lemma zero_block_wp h d b :
  room h -> disk_ok d -> b ∉ h -> b ∈ dom d ->
  wp h (zero_block b) d (fun _ d' => d' = <[b := zeros 512]> d).
Proof.
  intros Hroom Hd Hb [l Hl]%elem_of_dom. pose proof (disk_ok_lookup _ _ _ Hd Hl) as Hblk.
  eapply wp_modify_block; [done|done|done|exact Hl|done|done|]. apply wp_ret.
  cbn [data_bytes]. destruct Hblk as [Hll _]. replace (length l) with 512%nat by (unfold BLOCK_SZ in Hll; lia).
  split; [|done]. split; [done|apply zeros_block].
Qed.

Lemma dealloc_data_wp fs cap h d b :
  geom fs cap d -> disk_ok d -> room h -> bitmap_free fs h -> in_data fs cap b -> b ∉ h ->
  data_bit fs d (b - data_area_start_block fs) = true ->
  wp h (dealloc_data fs b) d (fun _ d' => freed fs d [b] d').
Proof.
  intros G Hd Hroom Hh Hb Hbh Hbit. pose proof G as [E1 H1 E2 E3 H3 E4 Hc Hm Him Hdom].
  pose proof (geom_data_pos _ _ _ G). unfold in_data in Hb. unfold dealloc_data. apply wp_bind.
  assert (b ∈ dom d) as Hbd by (apply Hdom; lia).
  eapply wp_mono; [by apply zero_block_wp|]. intros _ ? ->. rewrite u32_small by lia.
  set (d1 := <[b := zeros 512]> d). assert (dom d1 = dom d) as Ed by (by apply dom_insert_lookup_L, elem_of_dom).
  assert (disk_ok d1) as Hd1 by (apply disk_ok_insert; auto using zeros_block).
  pose proof (geom_dom _ _ _ d1 G Ed) as G1.
  assert (forall k, 0 <= k < maximum (data_bitmap fs) -> data_bit fs d1 k = data_bit fs d k) as Hsame.
  { intros k Hk. unfold data_bit. rewrite !bit_set_eq. unfold d1. rewrite lookup_insert_ne; [done|].
    pose proof (data_bit_block fs cap d k G Hk) as Hi. unfold in_dbm in Hi. lia. }
  eapply wp_mono; [apply dealloc_spec; [done|done|by eapply bitmap_on_data|lia|]|].
  { fold (data_bit fs d1 (b - data_area_start_block fs)). by rewrite Hsame by lia. }
  intros _ d2 (Hclr & Hframe & Hdom2 & Hd2).
  assert (forall x, ~ in_dbm fs x -> d2 !! x = d1 !! x) as Hfr.
  { intros x Hx. apply Hframe. intros ->. apply Hx. eapply (data_bit_block fs cap d); [done|lia]. }
  split; [| | |congruence|done].
  - intros x Hx%list_elem_of_singleton. subst x. rewrite Hfr by (unfold in_dbm; lia).
    apply lookup_insert_eq.
  - intros k Hk. rewrite <- Hsame by done. unfold data_bit. rewrite Hclr by lia. do 2 f_equal.
    apply eq_iff_eq_true. rewrite Z.eqb_eq, bool_decide_eq_true, list_elem_of_singleton. lia.
  - intros x Hx Hne. rewrite Hfr by done. apply lookup_insert_ne. set_solver.
Qed.

Lemma freed_cons fs d b d1 v d2 :
  ~ in_dbm fs b -> b ∉ v -> freed fs d [b] d1 -> freed fs d1 v d2 -> freed fs d (b :: v) d2.
Proof.
  intros Hb Hbv [Z1 B1 R1 D1 K1] [Z2 B2 R2 D2 K2]. split; [| | |congruence|done].
  - intros x [->|Hx]%elem_of_cons; [|by apply Z2]. rewrite R2 by done. apply Z1. by apply list_elem_of_singleton.
  - intros k Hk. rewrite B2, B1 by done. rewrite <- andb_assoc. f_equal. rewrite <- negb_orb. f_equal.
    apply eq_iff_eq_true. rewrite orb_true_iff, !bool_decide_eq_true, !elem_of_cons, elem_of_nil. tauto.
  - intros x Hx [Hn1 Hn2]%not_elem_of_cons. rewrite R2, R1; [done|done|by rewrite list_elem_of_singleton|done|done].
Qed.

Lemma dealloc_blocks_wp fs cap h d v :
  geom fs cap d -> disk_ok d -> room h -> bitmap_free fs h -> NoDup v ->
  Forall (fun b => in_data fs cap b /\ b ∉ h /\ data_bit fs d (b - data_area_start_block fs) = true) v ->
  wp h (dealloc_blocks fs v) d (fun _ d' => freed fs d v d').
Proof.
  intros G Hd Hroom Hh Hnd. revert d G Hd. induction Hnd as [|b v Hb Hnd IH]; intros d G Hd Hv; cbn [dealloc_blocks].
  - apply wp_ret. split; auto; [set_solver|]. intros k Hk. by rewrite bool_decide_false, andb_true_r by set_solver.
  - apply Forall_cons in Hv as [(Hin & Hbh & Hbit) Hv]. apply wp_bind.
    eapply wp_mono; [by apply (dealloc_data_wp fs cap)|]. intros u d1 F1.
    pose proof (geom_dom _ _ _ d1 G (fr_dom _ _ _ _ F1)) as G1.
    pose proof (ge_cap _ _ _ G) as Hc.
    eapply wp_mono; [apply IH; [done|apply F1|]|].
    + rewrite Forall_forall in Hv |- *. intros x Hx. destruct (Hv x Hx) as (Hxi & ? & Hxb).
      split_and!; [done|done|]. unfold in_data in Hxi. rewrite (fr_bits _ _ _ _ F1) by lia.
      rewrite Hxb, bool_decide_false; [done|]. replace (_ + _) with x by lia. set_solver.
    + intros u' d2 F2. apply (freed_cons fs d b d1 v d2); [|done..]. unfold in_dbm, in_data in *. lia.
Qed.

(** ** Inodes in their area *)

Definition inode_block (fs : EasyFileSystem) (i : Z) : Z := (get_disk_inode_pos fs i).1.

Lemma inode_pos fs cap d i :
  geom fs cap d -> 0 <= i < maximum (inode_bitmap fs) ->
  get_disk_inode_pos fs i = (inode_area_start_block fs + i / 4, i `mod` 4 * 128) /\
  inode_block fs i = inode_area_start_block fs + i / 4 /\ in_inodes fs (inode_block fs i).
Proof.
  intros G Hi. pose proof G as [E1 H1 E2 E3 H3 E4 Hc Hm Him Hdom].
  unfold inode_block, in_inodes, get_disk_inode_pos. change (BLOCK_SZ / size_of DiskInode) with 4.
  change (size_of DiskInode) with 128. unfold maximum in *. change BLOCK_BITS with 4096 in *.
  rewrite u32_small by lia. split_and!; [done|done| |]; simpl; lia.
Qed.

(** Inode [i] replaced on disk. *)
Definition put_inode (fs : EasyFileSystem) (i : Z) (di : DiskInode) (d : content) : content :=
  let '(b, off) := get_disk_inode_pos fs i in
  match d !! b with
  | Some l => <[b := splice l off (encode di (slice l off (size_of DiskInode)))]> d
  | None => d
  end.

Lemma slice_splice_other {A} (l l' : list A) o s n :
  0 <= o -> 0 <= s -> 0 <= n -> o + Zlength l' <= Zlength l -> s + n <= Zlength l ->
  s + n <= o \/ o + Zlength l' <= s -> slice (splice l o l') s n = slice l s n.
Proof.
  intros. pose proof (length_splice l l' o ltac:(lia) ltac:(lia)) as Hl.
  apply list_eq_same_length with (Z.to_nat n); [apply Nat2Z.inj; rewrite length_slice; lia..|].
  intros k x y Hk. rewrite !lookup_slice, lookup_splice_out by lia. congruence.
Qed.

Record put_ok (fs : EasyFileSystem) (i : Z) (di : DiskInode) (d d' : content) : Prop := {
  pu_at : inode_at fs d' i = Some di;
  pu_other j : 0 <= j < maximum (inode_bitmap fs) -> j <> i -> inode_at fs d' j = inode_at fs d j;
  pu_frame b : b <> inode_block fs i -> d' !! b = d !! b;
  pu_dom : dom d' = dom d;
  pu_disk : disk_ok d';
}.

Lemma put_inode_ok fs cap d i di :
  geom fs cap d -> 0 <= i < maximum (inode_bitmap fs) -> disk_ok d -> repr_ok di ->
  put_ok fs i di d (put_inode fs i di d).
Proof.
  intros G Hi Hd Hdi. destruct (inode_pos fs cap d i G Hi) as (Hpos & Hblk & Hin).
  pose proof (ge_dom _ _ _ G (inode_block fs i)) as Hbd. pose proof (geom_data_pos _ _ _ G).
  pose proof (ge_data _ _ _ G). pose proof (ge_cap _ _ _ G). pose proof (ge_dbm_len _ _ _ G).
  pose proof (ge_inodes _ _ _ G). pose proof (ge_ibm_len _ _ _ G).
  unfold in_inodes in Hin. specialize (Hbd ltac:(lia)). apply elem_of_dom in Hbd as [l Hl].
  pose proof (Hd _ _ Hl) as [Hll Hlb]. unfold BLOCK_SZ in Hll.
  unfold put_inode. rewrite Hpos, <- Hblk, Hl. change (size_of DiskInode) with 128.
  set (off := i mod 4 * 128). assert (0 <= off <= 384) as Hoff by lia.
  set (new := encode di (slice l off 128)).
  assert (Zlength (slice l off 128) = 128) as Hsl by (apply length_slice; lia).
  assert (Zlength new = 128) as Hnl by (exact (length_encode di _ Hsl Hdi)).
  assert (length (splice l off new) = length l) as Hspl by (apply length_splice; lia).
  split.
  - unfold inode_at. rewrite Hpos, <- Hblk, lookup_insert_eq. cbn [mbind option_bind].
    change (size_of DiskInode) with 128.
    pose proof (slice_splice_same l new off ltac:(lia) ltac:(lia)) as Es. rewrite Hnl in Es.
    fold off. rewrite Es.
    exact (decode_encode di _ Hsl Hdi).
  - intros j Hj Hne. destruct (inode_pos fs cap d j G Hj) as (Hposj & Hblkj & _).
    unfold inode_at. rewrite Hposj. change (size_of DiskInode) with 128.
    destruct (decide (inode_block fs i = inode_area_start_block fs + j / 4)) as [E|E].
    + rewrite <- E, lookup_insert_eq, Hl. cbn [mbind option_bind].
      rewrite slice_splice_other by lia. done.
    + by rewrite lookup_insert_ne.
  - intros b Hb. by apply lookup_insert_ne.
  - apply dom_insert_lookup_L. eauto.
  - apply disk_ok_insert; [done|]. split; [unfold BLOCK_SZ; lia|].
    apply splice_bytes_ok; [done|]. apply encode_ok; [by apply slice_bytes_ok|done].
Qed.

(** Reading and modifying inode [i] in place. *)
Lemma read_disk_inode_wp {V} fs cap h d i di (f : DiskInode -> prog V) Q :
  geom fs cap d -> 0 <= i < maximum (inode_bitmap fs) -> inode_at fs d i = Some di ->
  room h -> inode_block fs i ∉ h ->
  wp ({[inode_block fs i]} ∪ h) (f di) d Q -> wp h (read_disk_inode (Inode_of fs i) f) d Q.
Proof.
  intros G Hi Hat Hroom Hh Hf. destruct (inode_pos fs cap d i G Hi) as (Hpos & Hblk & Hin).
  unfold inode_at in Hat. rewrite Hpos, <- Hblk in Hat.
  apply bind_Some in Hat as (l & Hl & Hdec). unfold read_disk_inode, Inode_of.
  rewrite Hpos, <- Hblk. cbn [vi_block_id vi_block_offset].
  eapply wp_read; [done|done|exact Hl| |exact Hdec|done].
  change (size_of DiskInode) with 128. unfold BLOCK_SZ. lia.
Qed.

Lemma modify_disk_inode_wp {V} fs cap h d i di (f : DiskInode -> prog (V * DiskInode)) Q :
  geom fs cap d -> disk_ok d -> 0 <= i < maximum (inode_bitmap fs) -> inode_at fs d i = Some di ->
  room h -> inode_block fs i ∉ h ->
  wp ({[inode_block fs i]} ∪ h) (f di) d (fun '(v, di') d1 =>
    repr_ok di' /\ d1 !! inode_block fs i = d !! inode_block fs i /\ Q v (put_inode fs i di' d1)) ->
  wp h (modify_disk_inode (Inode_of fs i) f) d Q.
Proof.
  intros G Hd Hi Hat Hroom Hh Hf. destruct (inode_pos fs cap d i G Hi) as (Hpos & Hblk & Hin).
  unfold inode_at in Hat. rewrite Hpos, <- Hblk in Hat.
  apply bind_Some in Hat as (l & Hl & Hdec). unfold modify_disk_inode, Inode_of.
  rewrite Hpos, <- Hblk. cbn [vi_block_id vi_block_offset].
  eapply wp_modify; [done|done|exact Hl|by eapply disk_ok_lookup|lia| |exact Hdec|].
  - change (size_of DiskInode) with 128. unfold BLOCK_SZ. lia.
  - eapply wp_mono; [exact Hf|]. intros [v di'] d1 (Hr & Hsame & HQ). split; [done|].
    unfold put_inode in HQ. by rewrite Hpos, <- Hblk, Hsame, Hl in HQ.
Qed.

(** ** Changing one file

    [changed]: node [n] becomes [n'] while its inode block is locked; only
    blocks of the two, and the data bitmap, are touched. *)
Record changed (fs : EasyFileSystem) (cap : Z) (d : content) (n n' : node) (d1 : content) : Prop := {
  ch_disk : disk_ok d1;
  ch_dom : dom d1 = dom d;
  ch_frame b : ~ in_dbm fs b -> b ∉ owned n -> b ∉ owned n' -> d1 !! b = d !! b;
  ch_bits k : 0 <= k < maximum (data_bitmap fs) ->
    data_bit fs d1 k = true <->
    data_area_start_block fs + k ∈ owned n' \/
    (data_bit fs d k = true /\ data_area_start_block fs + k ∉ owned n);
  ch_new b : b ∈ owned n' -> b ∈ owned n \/ data_bit fs d (b - data_area_start_block fs) = false;
  ch_zero b : b ∈ owned n -> b ∉ owned n' -> d1 !! b = Some (zeros 512);
  ch_file : file_ok ∅ d1 (nd_inode n') (nd_blocks n') (nd_index n');
  ch_tail : Forall (.= 0) (drop (Z.to_nat (size (nd_inode n'))) (data_of d1 (nd_blocks n')));
  ch_area : Forall (in_data fs cap) (owned n');
}.

Lemma data_of_frame d d' bs : (forall b, b ∈ bs -> d' !! b = d !! b) -> data_of d' bs = data_of d bs.
Proof.
  intros E. unfold data_of. f_equal. apply list_fmap_ext. intros i b Hi. unfold block_at.
  rewrite E; [done|]. by eapply list_elem_of_lookup_2.
Qed.

Lemma file_ok_frame d d' di bs ix :
  file_ok ∅ d di bs ix -> disk_ok d' -> dom d' = dom d ->
  (forall b, b ∈ bs ++ ix -> d' !! b = d !! b) -> file_ok ∅ d' di bs ix.
Proof.
  intros [M K P B S] K' D E. split; auto.
  - eapply inode_map_frame; [done|]. intros b Hb. apply E. apply elem_of_app. auto.
  - by eapply pool_perm.
Qed.

(** A node none of whose blocks changed. *)
Lemma node_ok_frame fs cap d d' i n :
  node_ok fs cap d i n -> disk_ok d' -> dom d' = dom d -> inode_at fs d' i = inode_at fs d i ->
  (forall b, b ∈ owned n -> d' !! b = d !! b) ->
  node_ok fs cap d' i n /\
  file_bytes d' (nd_inode n) (nd_blocks n) = file_bytes d (nd_inode n) (nd_blocks n).
Proof.
  intros [A F T R] K D Ei E.
  assert (data_of d' (nd_blocks n) = data_of d (nd_blocks n)) as Ed.
  { apply data_of_frame. intros b Hb. apply E. apply elem_of_app. auto. }
  split; [|unfold file_bytes; by rewrite Ed]. split; [by rewrite Ei| |by rewrite Ed|done].
  by eapply file_ok_frame.
Qed.

Lemma inode_at_frame fs d d' i :
  d' !! inode_block fs i = d !! inode_block fs i -> inode_at fs d' i = inode_at fs d i.
Proof.
  unfold inode_at, inode_block. destruct (get_disk_inode_pos fs i) as [b off]. simpl. by intros ->.
Qed.

(** The areas do not overlap. *)
Lemma geom_areas fs cap d b : geom fs cap d ->
  (in_inodes fs b -> ~ in_dbm fs b /\ ~ in_data fs cap b) /\
  (in_dbm fs b -> ~ in_data fs cap b).
Proof.
  intros [E1 H1 E2 E3 H3 E4 Hc Hm Him Hdom]. unfold in_inodes, in_dbm, in_data. split; lia.
Qed.

Lemma super_block_area fs cap d : geom fs cap d ->
  ~ in_inodes fs 0 /\ ~ in_dbm fs 0 /\ ~ in_data fs cap 0.
Proof.
  intros [E1 H1 E2 E3 H3 E4 Hc Hm Him Hdom]. unfold in_inodes, in_dbm, in_data, maximum in *.
  change BLOCK_BITS with 4096 in *. lia.
Qed.

Lemma super_ok_frame fs d d' : super_ok fs d -> d' !! 0 = d !! 0 -> super_ok fs d'.
Proof. intros (l & sb & Hl & ?) E. exists l, sb. by rewrite E. Qed.

(** The block of bit [k] of the inode bitmap. *)
Lemma inode_bit_block fs cap d k b : geom fs cap d -> 0 <= k < maximum (inode_bitmap fs) ->
  b = k / BLOCK_BITS + start_block_id (inode_bitmap fs) ->
  ~ in_inodes fs b /\ ~ in_dbm fs b /\ ~ in_data fs cap b.
Proof.
  intros [E1 H1 E2 E3 H3 E4 Hc Hm Him Hdom] Hk ->. unfold in_inodes, in_dbm, in_data, maximum in *.
  change BLOCK_BITS with 4096 in *. lia.
Qed.

Lemma owned_area fs cap d N i n b :
  fs_inv fs cap d N -> N !! i = Some n -> b ∈ owned n -> in_data fs cap b.
Proof.
  intros I Hn Hb. pose proof (no_area _ _ _ _ _ (fi_node _ _ _ _ I _ _ Hn)) as Ha.
  rewrite Forall_forall in Ha. auto.
Qed.

(** Another file's blocks are not among the old or new blocks of [n]. *)
Lemma changed_other fs cap d N i n n' d1 j m b :
  fs_inv fs cap d N -> N !! i = Some n -> changed fs cap d n n' d1 ->
  N !! j = Some m -> j <> i -> b ∈ owned m -> b ∉ owned n /\ b ∉ owned n'.
Proof.
  intros I Hn C Hm Hne Hb. assert (b ∉ owned n) as Hnn.
  { intros Hb'. apply Hne. by eapply (fi_disj _ _ _ _ I). }
  split; [done|]. intros Hb'. destruct (ch_new _ _ _ _ _ _ C b Hb') as [?|Hfree]; [done|].
  pose proof (owned_area _ _ _ _ _ _ _ I Hm Hb) as Ha. unfold in_data in Ha.
  pose proof (ge_cap _ _ _ (fi_geom _ _ _ _ I)).
  destruct (fi_dbit _ _ _ _ I (b - data_area_start_block fs)) as [_ Hs]; [lia|].
  rewrite Hs in Hfree; [done|]. exists j, m. split; [done|]. by replace (_ + _) with b by lia.
Qed.

Section update.
Context (fs : EasyFileSystem) (cap : Z) (d : content) (N : gmap Z node) (i : Z) (n n' : node) (d1 : content).
Hypothesis (I : fs_inv fs cap d N) (Hn : N !! i = Some n) (C : changed fs cap d n n' d1).
Let d2 := put_inode fs i (nd_inode n') d1.

Lemma update_range : 0 <= i < maximum (inode_bitmap fs).
Proof. apply (fi_idom _ _ _ _ I). by apply elem_of_dom. Qed.

Lemma update_geom : geom fs cap d1.
Proof. eapply geom_dom; [apply I|apply C]. Qed.

Lemma update_put : put_ok fs i (nd_inode n') d1 d2.
Proof.
  apply (put_inode_ok fs cap); [apply update_geom|apply update_range|apply C|].
  apply (im_repr _ _ _ _ (fo_map _ _ _ _ _ (ch_file _ _ _ _ _ _ C))).
Qed.

(** Outside the inode area, the data bitmap and the file, nothing changed. *)
Lemma update_outside b : ~ in_inodes fs b -> d2 !! b = d1 !! b.
Proof.
  intros Hb. apply update_put. intros ->. apply Hb.
  apply (inode_pos fs cap d1 i update_geom update_range).
Qed.

Lemma update_inode_at j : 0 <= j < maximum (inode_bitmap fs) -> inode_at fs d1 j = inode_at fs d j.
Proof.
  intros Hj. apply inode_at_frame. destruct (inode_pos fs cap d1 j update_geom Hj) as (_ & _ & Hin).
  destruct (geom_areas fs cap d1 (inode_block fs j) update_geom) as [Ha _].
  destruct (Ha Hin) as [Hnd Hnb]. apply C; [done| |].
  - intros Hb. apply Hnb. by eapply owned_area.
  - intros Hb. apply Hnb. pose proof (ch_area _ _ _ _ _ _ C) as Har. rewrite Forall_forall in Har. auto.
Qed.

Lemma update_node j m : <[i := n']> N !! j = Some m ->
  node_ok fs cap d2 j m /\
  (j <> i -> file_bytes d2 (nd_inode m) (nd_blocks m) = file_bytes d (nd_inode m) (nd_blocks m)) /\
  (j = i -> file_bytes d2 (nd_inode m) (nd_blocks m) = file_bytes d1 (nd_inode m) (nd_blocks m)).
Proof.
  pose proof (pu_disk _ _ _ _ _ update_put) as K. pose proof (pu_dom _ _ _ _ _ update_put) as D.
  rewrite lookup_insert_Some. intros [[<- <-]|[Hne Hm]].
  - assert (forall b, b ∈ owned n' -> d2 !! b = d1 !! b) as E.
    { intros b Hb. apply update_outside. intros Hin.
      destruct (geom_areas fs cap d1 b update_geom) as [Ha _]. destruct (Ha Hin) as [_ Hnb].
      pose proof (ch_area _ _ _ _ _ _ C) as Har. rewrite Forall_forall in Har. auto. }
    assert (data_of d2 (nd_blocks n') = data_of d1 (nd_blocks n')) as Ed.
    { apply data_of_frame. intros b Hb. apply E. apply elem_of_app. auto. }
    split; [|split; [done|intros _; unfold file_bytes; by rewrite Ed]].
    split; [apply update_put| |rewrite Ed; apply C|apply C].
    eapply file_ok_frame; [apply C|done|done|done].
  - pose proof (fi_node _ _ _ _ I _ _ Hm) as Hok.
    assert (0 <= j < maximum (inode_bitmap fs)) as Hj
      by (apply (fi_idom _ _ _ _ I); by apply elem_of_dom).
    destruct (node_ok_frame fs cap d d2 j m Hok K) as [? ?].
    + rewrite D. apply C.
    + rewrite (pu_other _ _ _ _ _ update_put) by done. by apply update_inode_at.
    + intros b Hb. destruct (changed_other _ _ _ _ _ _ _ _ _ _ _ I Hn C Hm (not_eq_sym Hne) Hb) as [H1 H2].
      pose proof (owned_area _ _ _ _ _ _ _ I Hm Hb) as Ha.
      destruct (geom_areas fs cap d1 b update_geom) as [A1 A2].
      rewrite update_outside by naive_solver. apply C; naive_solver.
    + split; [done|]. split; [done|]. intros ->. done.
Qed.

Lemma update_ibit k : 0 <= k < maximum (inode_bitmap fs) ->
  bit_set d2 (inode_bitmap fs) k = bit_set d (inode_bitmap fs) k.
Proof.
  intros Hk. rewrite !bit_set_eq.
  destruct (inode_bit_block fs cap d k _ (fi_geom _ _ _ _ I) Hk eq_refl) as (H1 & H2 & H3).
  rewrite update_outside by done. rewrite (ch_frame _ _ _ _ _ _ C); [done|done| |].
  - intros Hb. apply H3. by eapply owned_area.
  - intros Hb. apply H3. pose proof (ch_area _ _ _ _ _ _ C) as Har. rewrite Forall_forall in Har. auto.
Qed.

Lemma update_dbit k : 0 <= k < maximum (data_bitmap fs) -> data_bit fs d2 k = data_bit fs d1 k.
Proof.
  intros Hk. unfold data_bit. rewrite !bit_set_eq. rewrite update_outside; [done|].
  pose proof (data_bit_block fs cap d k (fi_geom _ _ _ _ I) Hk) as Hb.
  intros Hin. destruct (proj1 (geom_areas fs cap d _ (fi_geom _ _ _ _ I)) Hin) as [Hx _]. by apply Hx.
Qed.

Lemma update_owner b :
  (exists j m, <[i := n']> N !! j = Some m /\ b ∈ owned m) <->
  b ∈ owned n' \/ ((exists j m, N !! j = Some m /\ b ∈ owned m) /\ b ∉ owned n).
Proof.
  split.
  - intros (j & m & Hm & Hb). apply lookup_insert_Some in Hm as [[<- <-]|[Hne Hm]]; [by left|].
    right. split; [eauto|]. by destruct (changed_other _ _ _ _ _ _ _ _ _ _ _ I Hn C Hm (not_eq_sym Hne) Hb).
  - intros [Hb|[(j & m & Hm & Hb) Hnb]].
    + exists i, n'. by rewrite lookup_insert_eq.
    + exists j, m. rewrite lookup_insert_ne; [done|]. intros <-. rewrite Hn in Hm. by simplify_eq.
Qed.

Lemma fs_inv_changed :
  fs_inv fs cap d2 (<[i := n']> N) /\
  abs d2 (<[i := n']> N) =
    <[i := (type_ (nd_inode n'), file_bytes d1 (nd_inode n') (nd_blocks n'))]> (abs d N).
Proof.
  assert (dom (<[i := n']> N) = dom N) as Edom by (apply dom_insert_lookup_L; eauto). split.
  - split.
    + eapply geom_dom; [apply update_geom|apply update_put].
    + apply update_put.
    + intros j m Hm. by apply update_node.
    + intros k Hk. rewrite update_ibit, Edom by done. by apply I.
    + rewrite Edom. apply I.
    + intros k Hk. rewrite update_dbit, (ch_bits _ _ _ _ _ _ C), update_owner by done.
      by rewrite (fi_dbit _ _ _ _ I k Hk).
    + intros j1 j2 m1 m2 b Hm1 Hm2 Hb1 Hb2.
      apply lookup_insert_Some in Hm1 as [[<- <-]|[Hne1 Hm1]];
        apply lookup_insert_Some in Hm2 as [[<- <-]|[Hne2 Hm2]]; [done| | |by eapply (fi_disj _ _ _ _ I)].
      * by destruct (changed_other _ _ _ _ _ _ _ _ _ _ _ I Hn C Hm2 (not_eq_sym Hne2) Hb2).
      * by destruct (changed_other _ _ _ _ _ _ _ _ _ _ _ I Hn C Hm1 (not_eq_sym Hne1) Hb1).
    + intros k Hk Hbit. pose proof (ge_cap _ _ _ (fi_geom _ _ _ _ I)) as Hc.
      assert (in_data fs cap (data_area_start_block fs + k)) as Hin by (unfold in_data; lia).
      destruct (geom_areas fs cap d (data_area_start_block fs + k) (fi_geom _ _ _ _ I)) as [A1 A2].
      rewrite update_dbit in Hbit by lia.
      rewrite update_outside by (intros ?; by destruct A1).
      pose proof (ch_bits _ _ _ _ _ _ C k ltac:(lia)) as [_ Hb]. rewrite Hbit in Hb.
      destruct (decide (data_area_start_block fs + k ∈ owned n')) as [|Hn']; [naive_solver|].
      destruct (decide (data_area_start_block fs + k ∈ owned n)) as [Ho|Hno].
      * by apply C.
      * rewrite (ch_frame _ _ _ _ _ _ C); [|naive_solver|done|done].
        apply I; [done|]. destruct (data_bit fs d k); naive_solver.
    + intros j Hj. destruct (decide (j = i)) as [->|Hne]; [rewrite (pu_at _ _ _ _ _ update_put); eauto|].
      rewrite (pu_other _ _ _ _ _ update_put), update_inode_at by done. by apply I.
    + destruct (super_block_area fs cap d (fi_geom _ _ _ _ I)) as (S1 & S2 & S3).
      eapply super_ok_frame; [apply I|]. rewrite update_outside by done. apply C; [done| |].
      * intros Ho. apply S3. by eapply owned_area.
      * intros Ho. apply S3. pose proof (ch_area _ _ _ _ _ _ C) as Har. rewrite Forall_forall in Har. auto.
  - apply map_eq. intros j. unfold abs. rewrite lookup_fmap.
    destruct (<[i:=n']> N !! j) as [m|] eqn:Hm; simpl.
    + destruct (update_node j m Hm) as (_ & Ho & Hs).
      apply lookup_insert_Some in Hm as [[<- <-]|[Hne Hm]].
      * by rewrite lookup_insert_eq, Hs.
      * by rewrite lookup_insert_ne, lookup_fmap, Hm, Ho by done.
    + apply lookup_insert_None in Hm as [Hm Hne]. by rewrite lookup_insert_ne, lookup_fmap, Hm.
Qed.
End update.

(** ** A new inode *)

Section new_inode.
Context (fs : EasyFileSystem) (cap : Z) (d : content) (N : gmap Z node) (i : Z) (d1 : content) (di : DiskInode).
Hypothesis (I : fs_inv fs cap d N) (A : alloc_post (inode_bitmap fs) 0 d (Some i) d1)
  (Hmap : forall dd, inode_map dd di [] []) (Hsz : size di = 0).
Let d2 := put_inode fs i di d1.
Let n := mkNode di [] [].

Lemma new_range : 0 <= i < maximum (inode_bitmap fs) /\ N !! i = None.
Proof.
  destruct A as (Hi & Hc & _). split; [done|]. apply not_elem_of_dom.
  intros Hin. apply (fi_ibit _ _ _ _ I i Hi) in Hin. congruence.
Qed.

Lemma new_alloc : dom d1 = dom d /\ disk_ok d1 /\
  forall b, in_inodes fs b \/ in_dbm fs b \/ in_data fs cap b -> d1 !! b = d !! b.
Proof.
  destruct A as (Hi & _ & _ & _ & Hfr & Hdom & Hok). split_and!; [done|done|].
  intros b Hb. apply Hfr. intros ->.
  destruct (inode_bit_block fs cap d i _ (fi_geom _ _ _ _ I) Hi eq_refl) as (? & ? & ?). tauto.
Qed.

Lemma new_geom : geom fs cap d1.
Proof. eapply geom_dom; [apply I|apply new_alloc]. Qed.

Lemma new_put : put_ok fs i di d1 d2.
Proof.
  apply (put_inode_ok fs cap); [apply new_geom|apply new_range|apply new_alloc|apply (Hmap ∅)].
Qed.

Lemma new_frame b : in_dbm fs b \/ in_data fs cap b -> d2 !! b = d !! b.
Proof.
  intros Hb. rewrite (pu_frame _ _ _ _ _ new_put); [apply new_alloc; tauto|]. intros ->.
  destruct (inode_pos fs cap d1 i new_geom (proj1 new_range)) as (_ & _ & Hin).
  apply (geom_areas fs cap d1) in Hin; [tauto|apply new_geom].
Qed.

Lemma new_inode_at j : 0 <= j < maximum (inode_bitmap fs) -> j <> i -> inode_at fs d2 j = inode_at fs d j.
Proof.
  intros Hj Hne. rewrite (pu_other _ _ _ _ _ new_put) by done. apply inode_at_frame.
  apply new_alloc. left. by apply (inode_pos fs cap d1 j new_geom).
Qed.

Lemma new_node j m : N !! j = Some m -> node_ok fs cap d2 j m /\
  file_bytes d2 (nd_inode m) (nd_blocks m) = file_bytes d (nd_inode m) (nd_blocks m).
Proof.
  intros Hm. assert (j <> i) as Hne by (intros ->; rewrite (proj2 new_range) in Hm; done).
  apply node_ok_frame; [by apply I|apply new_put| | |].
  - rewrite (pu_dom _ _ _ _ _ new_put). apply new_alloc.
  - apply new_inode_at; [|done]. apply (fi_idom _ _ _ _ I). by apply elem_of_dom.
  - intros b Hb. apply new_frame. right. by eapply owned_area.
Qed.

Lemma new_dbit k : 0 <= k < maximum (data_bitmap fs) -> data_bit fs d2 k = data_bit fs d k.
Proof.
  intros Hk. unfold data_bit. rewrite !bit_set_eq, new_frame; [done|].
  left. by apply (data_bit_block fs cap d k (fi_geom _ _ _ _ I)).
Qed.

Lemma new_ibit k : 0 <= k < maximum (inode_bitmap fs) ->
  bit_set d2 (inode_bitmap fs) k = bit_set d (inode_bitmap fs) k || (i =? k).
Proof.
  intros Hk. destruct A as (_ & _ & _ & Hbits & _). rewrite <- Hbits by lia.
  rewrite !bit_set_eq, (pu_frame _ _ _ _ _ new_put); [done|]. intros E.
  destruct (inode_bit_block fs cap d k _ (fi_geom _ _ _ _ I) Hk eq_refl) as (Hni & _).
  apply Hni. rewrite E. apply (inode_pos fs cap d1 i new_geom (proj1 new_range)).
Qed.

Lemma new_super : d2 !! 0 = d !! 0.
Proof.
  destruct (super_block_area fs cap d (fi_geom _ _ _ _ I)) as (S1 & S2 & S3).
  pose proof (fi_geom _ _ _ _ I) as [E1 H1 E2 E3 H3 E4 Hc Hm Him Hdom].
  rewrite (pu_frame _ _ _ _ _ new_put).
  - destruct A as (Hi & _ & _ & _ & Hfr & _). apply Hfr. change BLOCK_BITS with 4096. lia.
  - intros E. apply S1. rewrite E. apply (inode_pos fs cap d1 i new_geom (proj1 new_range)).
Qed.

Lemma new_node_ok : node_ok fs cap d2 i n.
Proof.
  split; [apply new_put| | |apply Forall_nil_2].
  2:{ change (data_of d2 (nd_blocks n)) with (@nil Z). by rewrite drop_nil. }
  split; [apply Hmap|apply new_put| |unfold data_blocks; cbn; by rewrite Hsz|cbn; by rewrite Hsz].
  split; [apply NoDup_nil_2|apply Forall_nil_2|apply Forall_nil_2].
Qed.

Lemma fs_inv_new_inode :
  fs_inv fs cap d2 (<[i := n]> N) /\ abs d2 (<[i := n]> N) = <[i := (type_ di, [])]> (abs d N) /\
  free_count fs cap d2 = free_count fs cap d.
Proof.
  pose proof new_range as [Hi Hnone]. pose proof (ge_cap _ _ _ (fi_geom _ _ _ _ I)) as Hc.
  assert (forall k, 0 <= k < cap -> data_bit fs d2 k = data_bit fs d k) as Hbit
    by (intros; apply new_dbit; lia).
  split_and!.
  - split.
    + eapply geom_dom; [apply new_geom|apply new_put].
    + apply new_put.
    + intros j m [[<- <-]|[Hne Hm]]%lookup_insert_Some; [apply new_node_ok|by apply new_node].
    + intros k Hk. rewrite new_ibit, orb_true_iff, Z.eqb_eq by done.
      rewrite (fi_ibit _ _ _ _ I k Hk), dom_insert_L, elem_of_union, elem_of_singleton.
      split; intros [?|?]; auto.
    + intros k. rewrite dom_insert_L, elem_of_union, elem_of_singleton.
      intros [->|Hk]; [done|by apply (fi_idom _ _ _ _ I)].
    + intros k Hk. rewrite new_dbit, (fi_dbit _ _ _ _ I k Hk) by done. split.
      * intros (j & m & Hm & Hb). exists j, m. rewrite lookup_insert_ne; [done|]. intros <-. congruence.
      * intros (j & m & [[<- <-]|[Hne Hm]]%lookup_insert_Some & Hb); [by apply elem_of_nil in Hb|eauto].
    + intros j1 j2 m1 m2 b [[<- <-]|[_ Hm1]]%lookup_insert_Some [[<- <-]|[_ Hm2]]%lookup_insert_Some Hb1 Hb2;
        [done|by apply elem_of_nil in Hb1|by apply elem_of_nil in Hb2|by eapply (fi_disj _ _ _ _ I)].
    + intros k Hk Hb. rewrite Hbit in Hb by done. rewrite new_frame; [by apply I|]. right. unfold in_data. lia.
    + intros j Hj. destruct (decide (j = i)) as [->|Hne]; [rewrite (pu_at _ _ _ _ _ new_put); eauto|].
      rewrite new_inode_at by done. by apply I.
    + eapply super_ok_frame; [apply I|apply new_super].
  - apply map_eq. intros j. unfold abs. rewrite lookup_fmap. destruct (decide (i = j)) as [<-|Hne].
    + rewrite !lookup_insert_eq. simpl. unfold file_bytes. change (data_of d2 []) with (@nil Z).
      by rewrite take_nil.
    + rewrite !lookup_insert_ne, lookup_fmap by done. destruct (N !! j) as [m|] eqn:Hm; [|done].
      simpl. by rewrite (proj2 (new_node j m Hm)).
  - unfold free_count. do 2 f_equal. apply set_eq. intros k. rewrite !elem_of_free.
    split; intros [Hk Hb]; (split; [done|]); [rewrite <- Hbit|rewrite Hbit]; done.
Qed.
End new_inode.
