(* ===== verification/VfsSpec.v ===== *)
(** The vfs operations (easy-fs/src/vfs.rs) implement the abstract file system:
    reading, writing and clearing files. *)
From S2P Require Import Prelude ByteCodec BlockCache DiskLogic Bitmap Layout InodeMap InodeIO Efs Vfs FsInv.

From Stdlib Require Import ZifyNat.
#[local] Ltac Zify.zify_post_hook ::= Z.to_euclidean_division_equations.

(** ** Working on a locked inode *)

Definition locking (fs : EasyFileSystem) (i : Z) : gset Z := {[inode_block fs i]} ∪ ∅.

Lemma locking_room fs i : Z.of_nat (base.size (locking fs i)) + 1 < BLOCK_CACHE_SIZE.
Proof.
  unfold locking, BLOCK_CACHE_SIZE. pose proof (size_union_1 (inode_block fs i) ∅) as H.
  rewrite size_empty in H. lia.
Qed.

Section locked.
Context (fs : EasyFileSystem) (cap : Z) (d : content) (N : gmap Z node) (i : Z) (n : node).
Hypothesis (I : fs_inv fs cap d N) (Hn : N !! i = Some n).
Let h := locking fs i.

Lemma inode_range : 0 <= i < maximum (inode_bitmap fs).
Proof. apply (fi_idom _ _ _ _ I). by apply elem_of_dom. Qed.

Lemma inode_block_in : in_inodes fs (inode_block fs i).
Proof. apply (inode_pos fs cap d i); [apply I|apply inode_range]. Qed.

Lemma data_unlocked b : in_data fs cap b -> b ∉ h.
Proof.
  intros Hb. unfold h, locking. rewrite union_empty_r_L, elem_of_singleton. intros ->.
  pose proof (geom_areas fs cap d (inode_block fs i) (fi_geom _ _ _ _ I)) as [Ha _].
  by destruct (Ha inode_block_in).
Qed.

Lemma bitmap_unlocked : bitmap_free fs h.
Proof.
  intros b Hb. unfold h, locking. rewrite union_empty_r_L, elem_of_singleton. intros ->.
  pose proof (geom_areas fs cap d (inode_block fs i) (fi_geom _ _ _ _ I)) as [Ha _].
  by destruct (Ha inode_block_in).
Qed.

Lemma pool_locked d' l : pool ∅ d' l -> Forall (in_data fs cap) l -> pool h d' l.
Proof.
  intros [Hnd Hu Hw] Ha. split; auto. unfold usable in *. rewrite Forall_forall in *.
  intros b Hb. split; [by apply data_unlocked, Ha|by apply Hu].
Qed.

Lemma pool_unlocked d' l : pool h d' l -> pool ∅ d' l.
Proof.
  intros [Hnd Hu Hw]. split; auto. unfold usable in *. eapply Forall_impl; [exact Hu|].
  intros b []. split; [apply not_elem_of_empty|done].
Qed.

Lemma file_ok_locked d' di bs ix :
  file_ok ∅ d' di bs ix -> Forall (in_data fs cap) (bs ++ ix) -> file_ok h d' di bs ix.
Proof. intros [M K P B S] Ha. split; auto. by apply pool_locked. Qed.

Lemma file_ok_unlocked d' di bs ix : file_ok h d' di bs ix -> file_ok ∅ d' di bs ix.
Proof. intros [M K P B S]. split; auto. by apply pool_unlocked. Qed.

(** The locked inode block is left alone until it is released. *)
Lemma inode_block_kept n' d1 :
  changed fs cap d n n' d1 -> d1 !! inode_block fs i = d !! inode_block fs i.
Proof.
  intros C. pose proof (proj1 (geom_areas fs cap d _ (fi_geom _ _ _ _ I)) inode_block_in) as [H1 H2].
  apply C; [done| |].
  - intros Ho. apply H2. by eapply owned_area.
  - intros Ho. apply H2. pose proof (ch_area _ _ _ _ _ _ C) as Har. rewrite Forall_forall in Har. auto.
Qed.

Lemma node_file : file_ok h d (nd_inode n) (nd_blocks n) (nd_index n).
Proof. destruct (fi_node _ _ _ _ I _ _ Hn). by apply file_ok_locked. Qed.
End locked.

(** ** Growing a file *)

(** Blocks to allocate so that a file of [old] bytes can hold [new]. *)
Definition needed (old new : Z) : Z :=
  if new <? old then 0 else total_blocks new - total_blocks old.

Lemma needed_blocks di s :
  0 <= size di <= s -> s <= MAX_SIZE ->
  blocks_num_needed di s = Ok (needed (size di) s) /\ 0 <= needed (size di) s.
Proof.
  intros H1 H2. unfold blocks_num_needed, needed. rewrite (proj2 (Z.leb_le _ _)) by lia.
  rewrite (proj2 (Z.ltb_ge _ _)) by lia. cbn [rassert mbind res_bind].
  destruct (Z_of_nat_complete (_data_blocks s)) as [t Ht]; [apply data_blocks_max; lia|].
  destruct (Z_of_nat_complete (_data_blocks (size di))) as [u Hu]; [apply data_blocks_max; lia|].
  rewrite (total_blocks_count s t), (total_blocks_count (size di) u) by (done || lia).
  pose proof (data_blocks_max s ltac:(lia)) as Hm. change INDIRECT2_BOUND with 16540 in Hm.
  rewrite data_blocks_eq in Ht, Hu, Hm by lia.
  assert (0 <= Z.of_nat (t + index_count t) - Z.of_nat (u + index_count u) < 2 ^ 32).
  { unfold index_count, sub_count. repeat case_decide; lia. }
  rewrite u32_small by lia. split; [done|lia].
Qed.

Lemma Forall_zero_replicate (l : list Z) : Forall (.= 0) l -> l = zeros (length l).
Proof. induction 1 as [|x l Hx _ IH]; simpl; [done|]. by rewrite Hx, <- IH. Qed.

Lemma data_of_zeros d bs :
  Forall (fun b => d !! b = Some (zeros 512)) bs -> data_of d bs = zeros (length bs * 512).
Proof.
  induction 1 as [|b bs Hb _ IH]; [done|]. unfold data_of in *. rewrite fmap_cons. cbn [concat].
  rewrite IH. unfold block_at. rewrite Hb. cbn [length default from_option id].
  by rewrite <- replicate_add.
Qed.

Section grow.
Context (fs : EasyFileSystem) (cap : Z) (d : content) (N : gmap Z node) (i : Z) (n : node).
Hypothesis (I : fs_inv fs cap d N) (Hn : N !! i = Some n).
Let h := locking fs i.
Let di := nd_inode n.
Let bs := nd_blocks n.
Let ix := nd_index n.

(** Allocated blocks can be added to the file. *)
Lemma allocated_pool v d1 :
  allocated fs cap d v d1 ->
  pool h d1 (bs ++ ix ++ v) /\ file_ok h d1 di bs ix /\ data_of d1 bs = data_of d bs /\
  (forall b, b ∈ owned n -> d1 !! b = d !! b).
Proof.
  intros A. pose proof (node_file _ _ _ _ _ _ I Hn) as [M K P B S].
  assert (forall b, b ∈ owned n -> d1 !! b = d !! b) as Hsame.
  { intros b Hb. apply A. intros Hin. apply (geom_areas fs cap d b (fi_geom _ _ _ _ I)) in Hin.
    apply Hin. by eapply owned_area. }
  assert (forall b, b ∈ v -> in_data fs cap b /\ d !! b = Some (zeros 512) /\ b ∉ owned n) as Hv.
  { intros b Hb. destruct (allocated_fresh _ _ _ _ _ _ _ I A Hb) as (? & ? & Hno). eauto. }
  assert (pool h d (bs ++ ix ++ v)) as Hp.
  { destruct P as [P1 P2 P3]. rewrite app_assoc. split.
    - apply NoDup_app. split_and!; [done| |apply A]. intros b Hb Hb'. by apply (Hv b Hb').
    - apply usable_app. split; [done|]. unfold usable. rewrite Forall_forall. intros b Hb.
      destruct (Hv b Hb) as (? & ? & _). split; [by eapply data_unlocked|]. by eapply elem_of_dom_2.
    - apply Forall_app. split; [done|]. rewrite Forall_forall. intros b Hb.
      destruct (Hv b Hb) as (Ha & _ & _). pose proof (ge_max _ _ _ (fi_geom _ _ _ _ I)).
      pose proof (geom_data_pos _ _ _ (fi_geom _ _ _ _ I)). unfold in_data in Ha. unfold is_word. simpl. lia. }
  assert (data_of d1 bs = data_of d bs) as Ed.
  { apply data_of_frame. intros b Hb. apply Hsame, elem_of_app. auto. }
  split_and!; [|split; auto|done|done].
  - eapply pool_perm; [done|apply A|done].
  - eapply inode_map_frame; [exact M|]. intros b Hb. apply Hsame, elem_of_app. auto.
  - apply A.
  - eapply pool_perm; [done|apply A|done].
Qed.

Lemma fresh_blocks v d1 : allocated fs cap d v d1 ->
  forall b, b ∈ v -> in_data fs cap b /\ d1 !! b = Some (zeros 512) /\ b ∉ owned n.
Proof.
  intros A b Hb. destruct (allocated_fresh _ _ _ _ _ _ _ I A Hb) as (Hin & Hz & Hno).
  split_and!; [done| |by eapply Hno]. rewrite (al_frame _ _ _ _ _ A); [done|].
  intros Hdbm. by apply (geom_areas fs cap d b (fi_geom _ _ _ _ I)) in Hdbm.
Qed.

Section resize.
Context (s : Z) (v : list Z) (d1 d2 : content) (di' : DiskInode) (bs' ix' : list Z).
Hypothesis (A : allocated fs cap d v d1) (Hs : size di <= s) (Hmax : s <= MAX_SIZE)
  (R : resized d1 di bs ix v s d2 di' bs' ix').

Lemma resized_owned b : b ∈ bs' ++ ix' <-> b ∈ owned n \/ b ∈ v.
Proof.
  rewrite (rs_perm _ _ _ _ _ _ _ _ _ _ R). unfold owned. fold bs ix. rewrite !elem_of_app. tauto.
Qed.

Lemma resized_ok : file_ok h d2 di' bs' ix'.
Proof.
  destruct (allocated_pool v d1 A) as (Hp & F1 & _).
  exact (resized_file_ok _ _ _ _ _ _ _ _ _ _ _ F1 Hp Hmax R).
Qed.

(** The new data blocks are zero. *)
Lemma resized_data : exists m, data_of d2 bs' = data_of d bs ++ zeros m.
Proof.
  destruct (allocated_pool v d1 A) as (_ & _ & Ed & _).
  pose proof (fo_pool _ _ _ _ _ resized_ok) as [Hnd _ _].
  pose proof R as [_ _ _ _ _ [k Ek] _ _ Rf Rix]. exists (length k * 512)%nat.
  pose proof resized_owned as Hown. rewrite Ek in *.
  rewrite <- app_assoc in Hnd. apply NoDup_app in Hnd as (_ & Hdb & (_ & Hdk & _)%NoDup_app).
  unfold data_of at 1. rewrite fmap_app, concat_app. f_equal.
  - fold (data_of d2 bs). rewrite <- Ed. apply data_of_frame. intros b Hb. apply Rf.
    intros Hin. apply (Hdb b Hb). apply elem_of_app. auto.
  - apply data_of_zeros. rewrite Forall_forall. intros b Hb.
    rewrite Rf by auto. apply (fresh_blocks v d1 A).
    destruct (proj1 (Hown b)) as [Hbo|]; [rewrite !elem_of_app; auto| |done].
    exfalso. apply elem_of_app in Hbo as [Hb'|Hb'].
    + apply (Hdb b Hb'). apply elem_of_app. auto.
    + apply (Hdk b Hb). by apply Rix.
Qed.

Lemma resized_bytes_zero :
  file_bytes d2 di' bs' = file_bytes d di bs ++ zeros (Z.to_nat (s - size di)) /\
  Forall (.= 0) (drop (Z.to_nat s) (data_of d2 bs')).
Proof.
  destruct resized_data as [m Em].
  destruct (fi_node _ _ _ _ I _ _ Hn) as [_ F T _]. fold di bs in T.
  pose proof (file_bytes_length _ _ _ _ _ F) as Hl. fold di bs in Hl.
  pose proof (file_bytes_length _ _ _ _ _ resized_ok) as Hl'.
  rewrite (rs_size _ _ _ _ _ _ _ _ _ _ R) in Hl'.
  unfold file_bytes in Hl' |- *. fold (file_bytes d di bs). rewrite (rs_size _ _ _ _ _ _ _ _ _ _ R), Em in *.
  assert (exists z, data_of d bs = file_bytes d di bs ++ zeros z) as [z Ez].
  { eexists. rewrite <- (Forall_zero_replicate _ T). unfold file_bytes. by rewrite take_drop. }
  rewrite Ez, <- app_assoc, <- replicate_add in *. set (f := file_bytes d di bs) in *.
  rewrite length_take, length_app, length_replicate in Hl'.
  rewrite take_app_ge, drop_app_ge by lia. rewrite take_replicate, drop_replicate. split.
  - do 2 f_equal. lia.
  - by apply Forall_replicate.
Qed.

Lemma resized_bits k : 0 <= k < maximum (data_bitmap fs) -> data_bit fs d2 k = data_bit fs d1 k.
Proof.
  intros Hk. unfold data_bit. rewrite !bit_set_eq, (rs_frame _ _ _ _ _ _ _ _ _ _ R); [done|].
  intros Hin. pose proof (data_bit_block fs cap d k (fi_geom _ _ _ _ I) Hk) as Hb.
  apply (geom_areas fs cap d _ (fi_geom _ _ _ _ I)) in Hb. apply Hb.
  destruct (proj1 (resized_owned (k / BLOCK_BITS + start_block_id (data_bitmap fs)))) as [Ho|Hv].
  - apply elem_of_app. by right.
  - by eapply owned_area.
  - by apply (fresh_blocks v d1 A).
Qed.

Lemma resized_changed : changed fs cap d n (mkNode di' bs' ix') d2.
Proof.
  split; cbn [nd_inode nd_blocks nd_index].
  - apply R.
  - rewrite (rs_dom _ _ _ _ _ _ _ _ _ _ R). apply A.
  - intros b Hb Ho Ho'. rewrite (rs_frame _ _ _ _ _ _ _ _ _ _ R); [by apply A|].
    intros Hin. apply Ho'. apply elem_of_app. by right.
  - intros k Hk. rewrite resized_bits, (al_bits _ _ _ _ _ A), orb_true_iff, bool_decide_eq_true by lia.
    change (owned (mkNode di' bs' ix')) with (bs' ++ ix'). rewrite resized_owned.
    pose proof (fi_dbit _ _ _ _ I k Hk) as Hd.
    destruct (decide (data_area_start_block fs + k ∈ owned n)); [|tauto].
    assert (data_bit fs d k = true) by (apply Hd; eauto). tauto.
  - intros b [Ho|Hv]%resized_owned; [by left|right]. pose proof (al_free _ _ _ _ _ A) as Hf.
    rewrite Forall_forall in Hf. auto.
  - intros b Ho []. apply resized_owned. auto.
  - eapply file_ok_unlocked. apply resized_ok.
  - rewrite (rs_size _ _ _ _ _ _ _ _ _ _ R). apply resized_bytes_zero.
  - rewrite Forall_forall. intros b [Ho|Hv]%resized_owned; [by eapply owned_area|].
    by apply (fresh_blocks v d1 A).
Qed.
End resize.
End grow.

(** [Inode::increase_size] under the lock: the file grows by zeros. *)
Lemma Inode_increase_size_wp fs cap d N i n s :
  fs_inv fs cap d N -> N !! i = Some n -> 0 <= s <= MAX_SIZE ->
  needed (size (nd_inode n)) s <= free_count fs cap d ->
  wp (locking fs i) (Inode_increase_size fs s (nd_inode n)) d (fun di' d' => exists bs' ix',
    changed fs cap d n (mkNode di' bs' ix') d' /\ type_ di' = type_ (nd_inode n) /\
    size di' = Z.max s (size (nd_inode n)) /\
    file_bytes d' di' bs' = file_bytes d (nd_inode n) (nd_blocks n) ++
      zeros (Z.to_nat (s - size (nd_inode n)))).
Proof.
  intros I Hn Hs Hfree. pose proof (fi_node _ _ _ _ I _ _ Hn) as [_ F T Ha].
  pose proof (repr_ok_words _ (im_repr _ _ _ _ (fo_map _ _ _ _ _ F))) as [Hsz _]. unfold is_word in Hsz.
  pose proof (locking_room fs i) as Hroom. unfold Inode_increase_size.
  destruct (Z.ltb_spec s (size (nd_inode n))) as [Hlt|Hge].
  - apply wp_ret. exists (nd_blocks n), (nd_index n). replace (mkNode _ _ _) with n by (by destruct n).
    split_and!; [|done|lia|replace (Z.to_nat _) with 0%nat by lia; by rewrite app_nil_r].
    split; auto; [apply I| |by intros; exfalso].
    intros k Hk. pose proof (fi_dbit _ _ _ _ I k Hk) as Hd.
    destruct (decide (data_area_start_block fs + k ∈ owned n)); [|tauto].
    assert (data_bit fs d k = true) by (apply Hd; eauto). tauto.
  - destruct (needed_blocks (nd_inode n) s) as [Hneed Hpos]; [lia|lia|].
    eapply wp_lift_bind; [exact Hneed|]. apply wp_bind.
    eapply wp_mono; [apply (alloc_blocks_wp fs cap); [apply I|apply I|lia|by eapply bitmap_unlocked|lia]|].
    intros v d1 [Hlv A]. destruct (allocated_pool _ _ _ _ _ _ I Hn v d1 A) as (Hp & F1 & _).
    eapply wp_mono.
    { apply increase_size_wp; [apply F1|apply F1|exact Hp|done|apply F1|lia|]. rewrite Hneed. f_equal. lia. }
    intros di' d2 (bs' & ix' & R). exists bs', ix'. split_and!.
    + eapply resized_changed; [done|done|exact A|done|lia|exact R].
    + apply R.
    + rewrite (rs_size _ _ _ _ _ _ _ _ _ _ R). lia.
    + eapply resized_bytes_zero; [done|done|exact A|done|lia|exact R].
Qed.

(** ** Writing *)

(** The abstract write: extend with zeros to the end of the written range,
    then overwrite. *)
Definition awrite (f : list Z) (offset : Z) (buf : list Z) : list Z :=
  splice (f ++ zeros (Z.to_nat (offset + Zlength buf - Zlength f))) offset buf.

Lemma drop_splice {A} (l l' : list A) s n :
  0 <= s -> s + Zlength l' <= Z.of_nat n -> (n <= length l)%nat -> drop n (splice l s l') = drop n l.
Proof.
  intros Hs Hn Hl. apply list_eq. intros i. rewrite !lookup_drop.
  rewrite lookup_splice_out by lia. done.
Qed.

Lemma changed_wrote fs cap d n n' d1 s new d2 :
  geom fs cap d -> changed fs cap d n n' d1 -> wrote d1 (nd_blocks n') s new d2 ->
  0 <= s -> s + Zlength new <= size (nd_inode n') -> changed fs cap d n n' d2.
Proof.
  intros G [K D F B W Z Fo T Ar] Wr Hs Hl.
  assert (forall b, ~ in_data fs cap b -> d2 !! b = d1 !! b) as Hfr.
  { intros b Hb. apply Wr. intros Hin. apply Hb. rewrite Forall_forall in Ar.
    apply Ar, elem_of_app. by left. }
  pose proof (fo_pool _ _ _ _ _ Fo) as [_ [Hu _]%usable_app _].
  pose proof (data_of_length _ _ _ K Hu) as Hdl. pose proof (file_bytes_length _ _ _ _ _ Fo) as Hfl.
  unfold file_bytes in Hfl. rewrite length_take in Hfl.
  split; auto.
  - apply Wr.
  - rewrite (wr_dom _ _ _ _ _ Wr). done.
  - intros b Hb Ho Ho'. rewrite (wr_frame _ _ _ _ _ Wr); [by apply F|].
    intros Hin. apply Ho', elem_of_app. by left.
  - intros k Hk. rewrite <- B by done. unfold data_bit. rewrite !bit_set_eq, Hfr; [done|].
    apply (geom_areas fs cap d). { done. } by eapply data_bit_block.
  - intros b Ho Ho'. rewrite (wr_frame _ _ _ _ _ Wr); [by apply Z|].
    intros Hin. apply Ho', elem_of_app. by left.
  - by eapply wrote_file_ok.
  - rewrite (wr_data _ _ _ _ _ Wr), drop_splice; [done|done|lia|lia].
Qed.

(** [write_at] on the locked inode, after it was grown. *)
Lemma locked_write_wp fs cap d N i n di' bs' ix' d1 offset buf :
  fs_inv fs cap d N -> N !! i = Some n -> changed fs cap d n (mkNode di' bs' ix') d1 ->
  bytes_ok buf -> 0 <= offset -> 0 < Zlength buf -> offset + Zlength buf <= size di' ->
  wp (locking fs i) (DiskInode_write_at di' offset buf) d1 (fun k d2 => k = Zlength buf /\
    changed fs cap d n (mkNode di' bs' ix') d2 /\
    file_bytes d2 di' bs' = splice (file_bytes d1 di' bs') offset buf).
Proof.
  intros I Hn C Hb Hoff Hlen Hsz. pose proof (locking_room fs i) as Hroom.
  pose proof (ch_file _ _ _ _ _ _ C) as F1. cbn [nd_inode nd_blocks nd_index] in F1.
  assert (file_ok (locking fs i) d1 di' bs' ix') as [M K P B S].
  { eapply file_ok_locked; [exact I|exact Hn|done|]. apply (ch_area _ _ _ _ _ _ C). }
  change MAX_SIZE with 8468480 in S. eapply wp_mono.
  { eapply write_at_wp; [exact M|done|lia|apply P|apply P|done|done|done|done| |]; lia. }
  cbn beta. rewrite Z.min_l, slice_full by lia. intros k d2 (-> & W & Hw).
  split_and!; [done| |done]. eapply changed_wrote; [apply I|exact C|exact W|done|simpl; lia].
Qed.

(** Releasing the inode block completes the update. *)
Lemma release_inode fs cap d N i n di' bs' ix' d1 (Q : content -> Prop) :
  fs_inv fs cap d N -> N !! i = Some n -> changed fs cap d n (mkNode di' bs' ix') d1 ->
  (forall d2 N', fs_inv fs cap d2 N' ->
     abs d2 N' = <[i := (type_ di', file_bytes d1 di' bs')]> (abs d N) -> Q d2) ->
  repr_ok di' /\ d1 !! inode_block fs i = d !! inode_block fs i /\ Q (put_inode fs i di' d1).
Proof.
  intros I Hn C HQ. split; [apply (fo_map _ _ _ _ _ (ch_file _ _ _ _ _ _ C))|].
  split; [by eapply inode_block_kept|].
  destruct (fs_inv_changed fs cap d N i n _ d1 I Hn C) as [I' Eabs].
  cbn [nd_inode nd_blocks] in I', Eabs. by eapply HQ.
Qed.

(** A file of the abstract view is a node. *)
Lemma abs_lookup fs cap d N i ty f :
  fs_inv fs cap d N -> abs d N !! i = Some (ty, f) -> exists n, N !! i = Some n /\
    type_ (nd_inode n) = ty /\ file_bytes d (nd_inode n) (nd_blocks n) = f /\
    Zlength f = size (nd_inode n) /\ inode_at fs d i = Some (nd_inode n).
Proof.
  intros I Hf. unfold abs in Hf. rewrite lookup_fmap in Hf.
  destruct (N !! i) as [n|] eqn:Hn; simplify_eq/=.
  pose proof (fi_node _ _ _ _ I _ _ Hn) as [Hat F _ _].
  exists n. split_and!; [done|done|done|by eapply file_bytes_length|done].
Qed.

Lemma Inode_read_at_wp fs cap d N i ty f offset buf :
  fs_inv fs cap d N -> abs d N !! i = Some (ty, f) ->
  0 <= offset -> offset + Zlength buf < 2 ^ 64 ->
  wp ∅ (Inode_read_at (Inode_of fs i) offset buf) d (fun '(k, buf') d' => d' = d /\
    let v := slice f offset (Zlength buf) in k = Zlength v /\ buf' = v ++ drop (length v) buf).
Proof.
  intros I (n & Hn & <- & <- & Hfl & Hat)%(abs_lookup fs cap) Hoff Hlen; [|done].
  pose proof (node_file _ _ _ _ _ _ I Hn) as [M K P B S].
  unfold Inode_read_at. eapply read_disk_inode_wp; [apply I|by eapply inode_range|exact Hat|done|set_solver|].
  pose proof (locking_room fs i). eapply read_at_wp; eauto; [unfold locking in *; lia|apply P].
Qed.

Lemma Inode_write_at_wp fs cap d N i ty f offset buf :
  fs_inv fs cap d N -> abs d N !! i = Some (ty, f) -> bytes_ok buf -> 0 <= offset ->
  0 < Zlength buf -> offset + Zlength buf <= MAX_SIZE ->
  needed (Zlength f) (offset + Zlength buf) <= free_count fs cap d ->
  wp ∅ (Inode_write_at fs (Inode_of fs i) offset buf) d (fun k d' => k = Zlength buf /\
    exists N', fs_inv fs cap d' N' /\ abs d' N' = <[i := (ty, awrite f offset buf)]> (abs d N)).
Proof.
  intros I (n & Hn & <- & <- & Hfl & Hat)%(abs_lookup fs cap) Hb Hoff Hlen Hmax Hfree; [|done].
  rewrite Hfl in Hfree. unfold Inode_write_at.
  rewrite u64_small, u32_small by (change MAX_SIZE with 8468480 in Hmax; lia). apply wp_bind.
  eapply modify_disk_inode_wp; [apply I|apply I|by eapply inode_range|exact Hat|done|set_solver|].
  apply wp_bind. eapply wp_mono; [apply (Inode_increase_size_wp fs cap d N i n); auto; lia|].
  intros di' d1 (bs' & ix' & C & Ht & Hsz & Hbytes). apply wp_bind.
  eapply wp_mono; [apply (locked_write_wp fs cap d N i n di' bs' ix'); auto; lia|].
  intros k d2 (-> & C2 & Hw). apply wp_ret.
  refine (release_inode _ _ _ _ _ _ _ _ _ _ (fun dd => wp ∅ _ dd _) I Hn C2 _).
  intros d3 N' I' Eabs. eapply wp_bind, wp_sync, wp_ret, wp_ret. split; [done|].
  exists N'. split; [done|]. rewrite Eabs, Ht, Hw, Hbytes. unfold awrite. by rewrite Hfl.
Qed.

(** ** Clearing *)

Lemma cleared_changed fs cap d N i n di' v d1 :
  fs_inv fs cap d N -> N !! i = Some n -> v ≡ₚ owned n -> size di' = 0 ->
  (forall dd, inode_map dd di' [] []) -> freed fs d v d1 -> changed fs cap d n (mkNode di' [] []) d1.
Proof.
  intros I Hn Hv Hsz M [Fz Fb Ff Fd Fk].
  split; cbn [nd_inode nd_blocks nd_index]; auto.
  - intros b Hb Ho _. apply Ff; [done|]. by rewrite Hv.
  - intros k Hk. rewrite Fb, andb_true_iff, negb_true_iff, bool_decide_eq_false, Hv by done.
    unfold owned at 2. simpl. rewrite elem_of_nil. tauto.
  - intros b Hb. by apply elem_of_nil in Hb.
  - intros b Hb _. apply Fz. by rewrite Hv.
  - split; [done|done| |unfold data_blocks; by rewrite Hsz|rewrite Hsz; done].
    split; [apply NoDup_nil_2|apply Forall_nil_2|apply Forall_nil_2].
  - change (data_of d1 []) with (@nil Z). by rewrite drop_nil.
Qed.

Lemma Inode_clear_wp fs cap d N i ty f :
  fs_inv fs cap d N -> abs d N !! i = Some (ty, f) ->
  wp ∅ (Inode_clear fs (Inode_of fs i)) d (fun _ d' =>
    exists N', fs_inv fs cap d' N' /\ abs d' N' = <[i := (ty, [])]> (abs d N)).
Proof.
  intros I (n & Hn & <- & <- & Hfl & Hat)%(abs_lookup fs cap); [|done].
  pose proof (node_file _ _ _ _ _ _ I Hn) as [M K P B S].
  pose proof (repr_ok_words _ (im_repr _ _ _ _ M)) as [Hsz _]. unfold is_word in Hsz.
  pose proof (locking_room fs i) as Hroom. pose proof (pool_app _ _ _ _ P) as [_ Pi].
  unfold Inode_clear. apply wp_bind.
  eapply modify_disk_inode_wp; [apply I|apply I|by eapply inode_range|exact Hat|done|set_solver|].
  apply wp_bind. eapply wp_mono; [by apply clear_size_wp|].
  intros [v di'] ? (-> & Hv & Hs0 & Ht & M'). fold (owned n) in Hv.
  assert (Zlength v = total_blocks (size (nd_inode n))) as Hlen.
  { rewrite (total_blocks_count _ (length (nd_blocks n))) by (done || lia).
    apply Permutation_length in Hv. rewrite Hv. unfold owned. rewrite length_app.
    rewrite (grown_index_length (locking fs i) _ _ _ _ [] M K); [done|]. by rewrite app_nil_r. }
  apply (wp_lift_bind _ _ tt); [by apply rassert_Ok, Z.eqb_eq|].
  apply wp_bind. eapply wp_mono.
  { apply (dealloc_blocks_wp fs cap); [apply I|done|unfold locking in *; lia|by eapply bitmap_unlocked| |].
    - rewrite Hv. apply P.
    - rewrite Hv. rewrite Forall_forall. intros b Hb.
      pose proof (owned_area _ _ _ _ _ _ _ I Hn Hb) as Hin. pose proof (ge_cap _ _ _ (fi_geom _ _ _ _ I)).
      split_and!; [done|by eapply data_unlocked|]. unfold in_data in Hin. apply I; [lia|].
      exists i, n. split; [done|]. by replace (_ + _) with b by lia. }
  intros u d1 Fr. apply wp_ret.
  assert (changed fs cap d n (mkNode di' [] []) d1) as C.
  { eapply cleared_changed; eauto. intros dd.
    eapply inode_map_frame; [exact M'|]. intros b Hb. by apply elem_of_nil in Hb. }
  refine (release_inode _ _ _ _ _ _ _ _ _ _ (fun dd => wp ∅ _ dd _) I Hn C _). intros d2 N' I' Eabs.
  apply wp_sync, wp_ret. exists N'. split; [done|].
  rewrite Eabs, Ht. unfold file_bytes. change (data_of d1 []) with (@nil Z). by rewrite take_nil.
Qed.
