(* ===== verification/Directory.v ===== *)
(** Directories: the entry format of easy-fs/src/layout.rs and the operations
    [find], [create] and [ls] of easy-fs/src/vfs.rs as operations on a list
    of (name, inode id) pairs. *)
From S2P Require Import Prelude ByteCodec BlockCache DiskLogic Bitmap Layout InodeMap InodeIO Efs Vfs FsInv VfsSpec.

From Stdlib Require Import ZifyNat.
#[local] Ltac Zify.zify_post_hook ::= Z.to_euclidean_division_equations.

(** A name that fits: at most 27 bytes, none of them zero, valid UTF-8. *)
Definition name_ok (nm : list Z) : Prop :=
  Zlength nm <= NAME_LENGTH_LIMIT /\ Forall (fun c => 0 < c < 256) nm /\ utf8_ok nm = true.

#[export] Instance name_ok_dec nm : Decision (name_ok nm).
Proof. unfold name_ok. apply _. Defined.

Definition entry_ok (e : list Z * Z) : Prop := name_ok e.1 /\ is_word 4 e.2.

(** The 32 bytes of an entry, and a directory's bytes. *)
Definition enc_entry (e : list Z * Z) : list Z :=
  e.1 ++ zeros (28 - length e.1) ++ le_bytes 4 e.2.
Definition dir_bytes (es : list (list Z * Z)) : list Z := concat (enc_entry <$> es).

(** The first entry called [nm]. *)
Definition dir_find (nm : list Z) (es : list (list Z * Z)) : option Z :=
  match find_index (fun e => bool_decide (e.1 = nm)) es with
  | Some (_, (_, id)) => Some id
  | None => None
  end.

(** ** One entry *)

Lemma enc_entry_length e : entry_ok e -> length (enc_entry e) = 32%nat.
Proof.
  intros [[Hl _] _]. unfold enc_entry, NAME_LENGTH_LIMIT in *.
  rewrite !length_app, length_replicate, length_le_bytes. lia.
Qed.

Lemma enc_entry_bytes e : entry_ok e -> bytes_ok (enc_entry e).
Proof.
  intros [(_ & Hc & _) _]. unfold enc_entry. rewrite !Forall_app. split_and!.
  - eapply Forall_impl; [exact Hc|]. unfold is_byte. lia.
  - apply Forall_replicate. unfold is_byte. lia.
  - apply le_bytes_ok.
Qed.

(** [DirEntry::new] builds exactly those bytes. *)
Lemma DirEntry_new_ok nm id : entry_ok (nm, id) ->
  exists e, DirEntry_new nm id = Ok e /\ as_bytes e = enc_entry (nm, id).
Proof.
  intros [[Hl _] _]. unfold NAME_LENGTH_LIMIT in Hl. simpl in Hl.
  unfold DirEntry_new, NAME_LENGTH_LIMIT. rewrite (proj2 (Z.leb_le _ _)) by lia.
  eexists. split; [done|]. unfold as_bytes, enc_entry, splice. cbn [de_name de_inode_number fst snd].
  rewrite take_0, drop_replicate. cbn [app]. by rewrite <- app_assoc.
Qed.

(** Reading them back gives the name and the number. *)
Lemma of_bytes_enc nm id : entry_ok (nm, id) ->
  length (de_name (of_bytes (enc_entry (nm, id)))) = 28%nat /\
  DirEntry_name (of_bytes (enc_entry (nm, id))) = Ok nm /\
  inode_number (of_bytes (enc_entry (nm, id))) = id.
Proof.
  intros [(Hl & Hc & Hu) Hid]. unfold NAME_LENGTH_LIMIT in *. cbn [fst snd] in *.
  unfold of_bytes, enc_entry, inode_number, DirEntry_name. cbn [de_name de_inode_number fst snd].
  rewrite app_assoc.
  rewrite take_app_length', drop_app_length' by (rewrite length_app, length_replicate; lia).
  split_and!; [rewrite length_app, length_replicate; lia| |by apply le_Z_le_bytes].
  destruct (28 - length nm)%nat as [|k] eqn:Ek; [lia|]. cbn [replicate].
  rewrite find_index_middle; [|eapply Forall_impl; [exact Hc|]; simpl; intros c ?; apply Z.eqb_neq; lia|done].
  cbn [unwrap mbind res_bind]. rewrite take_app_length'; [|done]. unfold from_utf8. by rewrite Hu.
Qed.

(** ** The entries of a directory *)

Lemma dir_bytes_length es : Forall entry_ok es -> Zlength (dir_bytes es) = Zlength es * 32.
Proof.
  intros H. unfold dir_bytes. rewrite (concat_length 32).
  - rewrite length_fmap. lia.
  - apply Forall_fmap. eapply Forall_impl; [exact H|]. intros e He. by apply enc_entry_length.
Qed.

Lemma dir_bytes_slice es k e : Forall entry_ok es -> es !! k = Some e ->
  slice (dir_bytes es) (32 * Z.of_nat k) 32 = enc_entry e.
Proof.
  intros Hes Hk. pose proof (dir_bytes_length es Hes) as Hl.
  pose proof (lookup_lt_Some _ _ _ Hk). rewrite Forall_forall in Hes.
  pose proof (enc_entry_length e) as He. specialize (He ltac:(apply Hes; by eapply list_elem_of_lookup_2)).
  apply list_eq_same_length with 32%nat; [done|apply Nat2Z.inj; rewrite length_slice; lia|].
  intros i x y Hi. rewrite lookup_slice by lia.
  replace (Z.to_nat (32 * Z.of_nat k) + i)%nat with (k * 32 + i)%nat by lia. unfold dir_bytes.
  rewrite (concat_lookup 32 _ _ (enc_entry e)); [congruence| |by rewrite list_lookup_fmap, Hk|lia].
  apply Forall_fmap, Forall_forall. intros e' He'. by apply enc_entry_length, Hes.
Qed.

Lemma dir_bytes_app es e : dir_bytes (es ++ [e]) = dir_bytes es ++ enc_entry e.
Proof. unfold dir_bytes. rewrite fmap_app, concat_app. simpl. by rewrite app_nil_r. Qed.

(** ** Searching and listing *)

Section locked_dir.
Context (fs : EasyFileSystem) (cap : Z) (d : content) (N : gmap Z node) (i : Z) (n : node).
Context (es : list (list Z * Z)).
Hypothesis (I : fs_inv fs cap d N) (Hn : N !! i = Some n).
Hypothesis (Hes : Forall entry_ok es)
  (Hdir : file_bytes d (nd_inode n) (nd_blocks n) = dir_bytes es).
Let h := locking fs i.

Lemma dir_size : size (nd_inode n) = Zlength es * 32 /\ Zlength es * 32 <= MAX_SIZE.
Proof.
  destruct (fi_node _ _ _ _ I _ _ Hn) as [_ F _ _].
  pose proof (file_bytes_length _ _ _ _ _ F) as Hl. rewrite Hdir, dir_bytes_length in Hl by done.
  pose proof (fo_size _ _ _ _ _ F). lia.
Qed.

(** Entry [k] read into a 32-byte buffer. *)
Lemma read_entry_wp k nm id buf :
  es !! k = Some (nm, id) -> length buf = 32%nat ->
  wp h (DiskInode_read_at (nd_inode n) (32 * Z.of_nat k) buf) d (fun r d' => d' = d /\
    r = (32, enc_entry (nm, id))).
Proof.
  intros Hk Hbuf. pose proof (node_file _ _ _ _ _ _ I Hn) as [M K P B S].
  pose proof (locking_room fs i). destruct dir_size as [Hsz Hmax].
  pose proof (lookup_lt_Some _ _ _ Hk). change MAX_SIZE with 8468480 in Hmax.
  assert (entry_ok (nm, id)) as He by (by eapply (Forall_lookup_1 _ _ _ _ Hes)).
  eapply wp_mono; [eapply read_at_wp; [exact M|done|unfold h; lia|apply P|done|done|lia|lia]|].
  intros [len b'] ? [-> Hr]. split; [done|]. cbn zeta in Hr. rewrite Hdir, Hbuf in Hr.
  change (Z.of_nat 32) with 32 in Hr. rewrite (dir_bytes_slice es k (nm, id)) in Hr by done.
  rewrite enc_entry_length in Hr by done. destruct Hr as [-> ->].
  rewrite (drop_ge buf), app_nil_r by lia. done.
Qed.

Lemma as_bytes_length e : length (de_name e) = 28%nat -> length (as_bytes e) = 32%nat.
Proof. intros H. unfold as_bytes. rewrite length_app, H, length_le_bytes. done. Qed.

Lemma find_loop_wp nm rest k e :
  drop k es = rest -> length (de_name e) = 28%nat ->
  wp h (find_loop (length rest) (Z.of_nat k) nm (nd_inode n) e) d
    (fun r d' => d' = d /\ r = dir_find nm rest).
Proof.
  revert k e. induction rest as [|[nm' id] rest IH]; intros k e Hrest He; cbn [find_loop length].
  { by apply wp_ret. }
  assert (es !! k = Some (nm', id)) as Hk.
  { rewrite <- (Nat.add_0_r k), <- lookup_drop, Hrest. done. }
  assert (entry_ok (nm', id)) as Hok by (by eapply (Forall_lookup_1 _ _ _ _ Hes)).
  destruct (of_bytes_enc nm' id Hok) as (Hl & Hname & Hid).
  apply wp_bind. change DIRENT_SZ with 32.
  eapply wp_mono; [apply (read_entry_wp k nm' id); auto using as_bytes_length|].
  intros ? ? [-> ->]. cbn beta iota zeta. eapply wp_lift_bind; [done|].
  eapply wp_lift_bind; [exact Hname|]. rewrite Hid. unfold dir_find. cbn [find_index fst snd].
  destruct (decide (nm' = nm)) as [->|Hne].
  - rewrite bool_decide_true by done. by apply wp_ret.
  - rewrite bool_decide_false by done. replace (Z.of_nat k + 1) with (Z.of_nat (S k)) by lia.
    eapply wp_mono; [apply IH; [|done]|].
    + replace (S k) with (k + 1)%nat by lia. by rewrite <- drop_drop, Hrest.
    + intros r ? [-> ->]. split; [done|]. unfold dir_find.
      by destruct (find_index _ rest) as [[? [? ?]]|].
Qed.

Lemma find_inode_id_wp nm : type_ (nd_inode n) = Directory ->
  wp h (find_inode_id nm (nd_inode n)) d (fun r d' => d' = d /\ r = dir_find nm es).
Proof.
  intros Ht. unfold find_inode_id, is_dir. destruct dir_size as [Hsz _].
  rewrite bool_decide_true by done. eapply wp_lift_bind; [done|].
  rewrite Hsz. change DIRENT_SZ with 32. replace (Z.to_nat _) with (length es) by lia.
  by apply (find_loop_wp nm es 0).
Qed.

Lemma ls_loop_wp rest k : drop k es = rest ->
  wp h (ls_loop (length rest) (Z.of_nat k) (nd_inode n)) d (fun r d' => d' = d /\ r = rest.*1).
Proof.
  revert k. induction rest as [|[nm' id] rest IH]; intros k Hrest; cbn [ls_loop length].
  { by apply wp_ret. }
  assert (es !! k = Some (nm', id)) as Hk.
  { rewrite <- (Nat.add_0_r k), <- lookup_drop, Hrest. done. }
  assert (entry_ok (nm', id)) as Hok by (by eapply (Forall_lookup_1 _ _ _ _ Hes)).
  destruct (of_bytes_enc nm' id Hok) as (Hl & Hname & Hid).
  apply wp_bind. change DIRENT_SZ with 32. rewrite Z.mul_comm.
  eapply wp_mono; [by apply (read_entry_wp k nm' id)|].
  intros ? ? [-> ->]. cbn beta iota zeta. eapply wp_lift_bind; [done|].
  eapply wp_lift_bind; [exact Hname|]. apply wp_bind.
  replace (Z.of_nat k + 1) with (Z.of_nat (S k)) by lia. eapply wp_mono; [apply IH|].
  - replace (S k) with (k + 1)%nat by lia. by rewrite <- drop_drop, Hrest.
  - intros r ? [-> ->]. by apply wp_ret.
Qed.
End locked_dir.

(** [Inode::find] and [Inode::ls]. *)
Lemma Inode_find_wp fs cap d N i es nm :
  fs_inv fs cap d N -> Forall entry_ok es -> abs d N !! i = Some (Directory, dir_bytes es) ->
  wp ∅ (Inode_find fs (Inode_of fs i) nm) d
    (fun r d' => d' = d /\ r = option_map (Inode_of fs) (dir_find nm es)).
Proof.
  intros I Hes (n & Hn & Ht & Hd & Hfl & Hat)%(abs_lookup fs cap); [|done]. unfold Inode_find.
  eapply read_disk_inode_wp; [apply I|by eapply inode_range|exact Hat|done|apply not_elem_of_empty|].
  apply wp_bind. eapply wp_mono; [by eapply find_inode_id_wp|]. intros r ? [-> ->]. by apply wp_ret.
Qed.

Lemma Inode_ls_wp fs cap d N i es :
  fs_inv fs cap d N -> Forall entry_ok es -> abs d N !! i = Some (Directory, dir_bytes es) ->
  wp ∅ (Inode_ls (Inode_of fs i)) d (fun r d' => d' = d /\ r = es.*1).
Proof.
  intros I Hes (n & Hn & Ht & Hd & Hfl & Hat)%(abs_lookup fs cap); [|done]. unfold Inode_ls.
  eapply read_disk_inode_wp; [apply I|by eapply inode_range|exact Hat|done|apply not_elem_of_empty|].
  destruct (dir_size _ _ _ _ _ _ es I Hn Hes Hd) as [Hsz _].
  rewrite Hsz. change DIRENT_SZ with 32. replace (Z.to_nat _) with (length es) by lia.
  by eapply (ls_loop_wp fs cap d N i n es I Hn Hes Hd es 0).
Qed.

(** ** Creating *)

Lemma alloc_inode_wp fs cap d N :
  fs_inv fs cap d N -> (exists k, 0 <= k < maximum (inode_bitmap fs) /\ k ∉ dom N) ->
  wp ∅ (alloc_inode fs) d (fun i d' => alloc_post (inode_bitmap fs) 0 d (Some i) d').
Proof.
  intros I (k & Hk & Hfree). pose proof (fi_geom _ _ _ _ I) as G.
  pose proof G as [E1 H1 E2 E3 H3 E4 Hc Hm Him Hdom].
  unfold alloc_inode. apply wp_bind. eapply wp_mono.
  { apply alloc_spec; [done|apply I|]. split; [done| |intros; apply not_elem_of_empty].
    intros m Hm'. apply elem_of_dom, Hdom. unfold maximum in *. change BLOCK_BITS with 4096 in *. lia. }
  intros [p|] d'.
  - intros A. apply wp_ret. rewrite u32_small; [done|]. destruct A as [Hp _]. lia.
  - intros [_ Hfull]. exfalso. apply Hfree. apply (fi_ibit _ _ _ _ I k Hk). by apply Hfull.
Qed.

(** Appending an entry to the locked directory. *)
Lemma append_entry_wp fs cap d N i n es nm id :
  fs_inv fs cap d N -> N !! i = Some n -> Forall entry_ok es ->
  file_bytes d (nd_inode n) (nd_blocks n) = dir_bytes es -> entry_ok (nm, id) ->
  (Zlength es + 1) * 32 <= MAX_SIZE ->
  needed (Zlength es * 32) ((Zlength es + 1) * 32) <= free_count fs cap d ->
  wp ∅ (modify_disk_inode (Inode_of fs i) (fun root_inode =>
          let file_count := size root_inode / DIRENT_SZ in
          let new_size := (file_count + 1) * DIRENT_SZ in
          root_inode ← Inode_increase_size fs (u32 new_size) root_inode;
          dirent ← lift (DirEntry_new nm id);
          _ ← DiskInode_write_at root_inode (file_count * DIRENT_SZ) (as_bytes dirent);
          Ret (tt, root_inode))) d
    (fun _ d' => exists N', fs_inv fs cap d' N' /\
       abs d' N' = <[i := (type_ (nd_inode n), dir_bytes (es ++ [(nm, id)]))]> (abs d N)).
Proof.
  intros I Hn Hes Hd He Hmax Hfree. destruct (dir_size _ _ _ _ _ _ es I Hn Hes Hd) as [Hsz _].
  pose proof (fi_node _ _ _ _ I _ _ Hn) as [Hat F _ _].
  destruct (DirEntry_new_ok nm id He) as (e & Hnew & Hbytes).
  pose proof (enc_entry_length _ He) as Hel. pose proof (dir_bytes_length es Hes) as Hdl.
  eapply modify_disk_inode_wp; [apply I|apply I|by eapply inode_range|exact Hat|done|apply not_elem_of_empty|].
  cbn zeta. rewrite Hsz. change DIRENT_SZ with 32. rewrite Z.div_mul by lia.
  rewrite u32_small by (change MAX_SIZE with 8468480 in *; lia). apply wp_bind.
  eapply wp_mono; [apply (Inode_increase_size_wp fs cap d N i n); auto; [lia|by rewrite Hsz]|].
  intros di' d1 (bs' & ix' & C & Ht & Hs' & Hb'). eapply wp_lift_bind; [exact Hnew|].
  apply wp_bind. rewrite Hbytes. eapply wp_mono.
  { apply (locked_write_wp fs cap d N i n di' bs' ix'); auto using enc_entry_bytes; [lia..|].
    rewrite Hel, Hs', Hsz. lia. }
  intros k d2 (_ & C2 & Hw). apply wp_ret.
  refine (release_inode _ _ _ _ _ _ _ _ _ _ 
    (fun dd => exists N', fs_inv fs cap dd N' /\ abs dd N' = _) I Hn C2 _).
  intros d3 N' I' Eabs. exists N'. split; [done|]. rewrite Eabs, Ht, Hw, Hb', Hsz, Hd, dir_bytes_app.
  do 3 f_equal. replace (Z.to_nat _) with 32%nat by lia. unfold splice.
  replace (Z.to_nat (Zlength es * 32)) with (length (dir_bytes es)) by lia.
  rewrite take_app_length, Hel, drop_ge, app_nil_r; [done|].
  rewrite length_app, length_replicate. lia.
Qed.

Lemma inode_at_repr fs cap d i di :
  geom fs cap d -> disk_ok d -> 0 <= i < maximum (inode_bitmap fs) -> inode_at fs d i = Some di ->
  repr_ok di.
Proof.
  intros G Hd Hi Hat. destruct (inode_pos fs cap d i G Hi) as (Hpos & _).
  unfold inode_at in Hat. rewrite Hpos in Hat. apply bind_Some in Hat as (l & Hl & Hdec).
  destruct (Hd _ _ Hl) as [Hll Hlb]. unfold BLOCK_SZ in Hll.
  eapply (encode_decode di); [|by apply slice_bytes_ok|exact Hdec].
  change (size_of DiskInode) with 128. apply length_slice; lia.
Qed.

Lemma initialize_map dd di t : repr_ok di -> inode_map dd (DiskInode_initialize di t) [] [].
Proof.
  intros [Hl _]. assert (is_word 4 0) by (unfold is_word; simpl; lia). split; try done.
  unfold DiskInode_initialize. rewrite Hl. split; [done|]. unfold inode_words.
  constructor; [done|]. apply Forall_app. split; [by apply Forall_replicate|auto].
Qed.

(** The new inode is initialised in place. *)
Lemma init_inode_wp fs cap d N id d1 t b off :
  fs_inv fs cap d N -> alloc_post (inode_bitmap fs) 0 d (Some id) d1 ->
  get_disk_inode_pos fs id = (b, off) ->
  wp ∅ (cache_modify b off (fun di : DiskInode => Ret (tt, DiskInode_initialize di t))) d1
    (fun _ d2 => exists n, let N2 := <[id := n]> N in
       fs_inv fs cap d2 N2 /\ abs d2 N2 = <[id := (t, [])]> (abs d N) /\
       free_count fs cap d2 = free_count fs cap d).
Proof.
  intros I A Hpos. pose proof (new_range fs cap d N id d1 I A) as [Hid Hnone].
  pose proof (new_alloc fs cap d N id d1 I A) as (Hdom1 & Hok1 & Hfr1).
  pose proof (new_geom fs cap d N id d1 I A) as G1.
  destruct (fi_slot _ _ _ _ I id Hid) as [di0 Hdi0].
  assert (inode_at fs d1 id = Some di0) as Hdi1.
  { rewrite <- Hdi0. apply inode_at_frame, Hfr1. left. apply (inode_pos fs cap d1 id G1 Hid). }
  pose proof (inode_at_repr fs cap d1 id di0 G1 Hok1 Hid Hdi1) as Hr.
  assert (Inode_of fs id = Inode_new b off) as Ei by (unfold Inode_of; by rewrite Hpos).
  change (cache_modify b off ?f) with (modify_disk_inode (Inode_new b off) f).
  rewrite <- Ei. eapply (modify_disk_inode_wp fs cap ∅ d1 id di0); auto;
    [done|apply not_elem_of_empty|].
  apply wp_ret. split; [apply (im_repr d1 _ [] []); by apply initialize_map|]. split; [done|].
  eexists. apply (fs_inv_new_inode fs cap d N id d1 (DiskInode_initialize di0 t) I A); [|done].
  intros dd. by apply initialize_map.
Qed.

(** [Inode::create] of a name the directory does not have. *)
Lemma Inode_create_wp fs cap d N i es nm :
  fs_inv fs cap d N -> Forall entry_ok es -> abs d N !! i = Some (Directory, dir_bytes es) ->
  dir_find nm es = None -> name_ok nm ->
  (exists k, 0 <= k < maximum (inode_bitmap fs) /\ k ∉ dom N) ->
  (Zlength es + 1) * 32 <= MAX_SIZE ->
  needed (Zlength es * 32) ((Zlength es + 1) * 32) <= free_count fs cap d ->
  wp ∅ (Inode_create fs (Inode_of fs i) nm) d (fun r d' => exists id N',
    r = Some (Inode_of fs id) /\ id ∉ dom N /\ (forall k, 0 <= k < id -> k ∈ dom N) /\
    fs_inv fs cap d' N' /\
    abs d' N' = <[i := (Directory, dir_bytes (es ++ [(nm, id)]))]> (<[id := (File, [])]> (abs d N))).
Proof.
  intros I Hes Hf Hfind Hname Hfree Hmax Hneed. pose proof Hf as Hf'.
  apply (abs_lookup fs cap) in Hf' as (n & Hn & Ht & Hd & Hfl & Hat); [|done]. unfold Inode_create.
  apply wp_bind.
  eapply read_disk_inode_wp; [apply I|by eapply inode_range|exact Hat|done|apply not_elem_of_empty|].
  unfold is_dir. rewrite bool_decide_true by done. eapply wp_lift_bind; [done|].
  eapply wp_mono; [by eapply find_inode_id_wp|]. intros r ? [-> ->]. rewrite Hfind.
  apply wp_bind. eapply wp_mono; [exact (alloc_inode_wp fs cap d N I Hfree)|]. intros id d1 A.
  pose proof (new_range fs cap d N id d1 I A) as [Hid Hnone].
  destruct (get_disk_inode_pos fs id) as [b off] eqn:Hpos.
  apply wp_bind. eapply wp_mono; [exact (init_inode_wp fs cap d N id d1 File b off I A Hpos)|].
  intros u d2 (n2 & I2 & Eabs2 & Hfc). pose proof (fi_geom _ _ _ _ I) as G.
  assert (id <> i) as Hne by (intros ->; congruence).
  assert (abs d2 (<[id := n2]> N) !! i = Some (Directory, dir_bytes es)) as Hf2.
  { by rewrite Eabs2, lookup_insert_ne. }
  apply (abs_lookup fs cap) in Hf2 as (m & Hm & Htm & Hdm & _); [|done].
  assert (entry_ok (nm, id)) as He.
  { split; [done|]. pose proof (ge_imax _ _ _ G). unfold is_word. simpl. lia. }
  apply wp_bind. eapply wp_mono.
  { eapply (append_entry_wp fs cap d2 (<[id := n2]> N) i m es nm id); auto. by rewrite Hfc. }
  intros u' d3 (N' & I' & Eabs'). apply wp_bind, wp_sync, wp_ret, wp_ret.
  exists id, N'. split_and!; [done|by apply not_elem_of_dom| |done|].
  - intros k Hk. destruct A as (_ & _ & Hlow & _). apply (fi_ibit _ _ _ _ I k); [lia|].
    apply Hlow. lia.
  - by rewrite Eabs', Htm, Eabs2.
Qed.

(** [Inode::create] of a name that is taken. *)
Lemma Inode_create_exists_wp fs cap d N i es nm id :
  fs_inv fs cap d N -> Forall entry_ok es -> abs d N !! i = Some (Directory, dir_bytes es) ->
  dir_find nm es = Some id ->
  wp ∅ (Inode_create fs (Inode_of fs i) nm) d (fun r d' => r = None /\ d' = d).
Proof.
  intros I Hes (n & Hn & Ht & Hd & Hfl & Hat)%(abs_lookup fs cap) Hfind; [|done]. unfold Inode_create.
  apply wp_bind.
  eapply read_disk_inode_wp; [apply I|by eapply inode_range|exact Hat|done|apply not_elem_of_empty|].
  unfold is_dir. rewrite bool_decide_true by done. eapply wp_lift_bind; [done|].
  eapply wp_mono; [by eapply find_inode_id_wp|]. intros r ? [-> ->]. rewrite Hfind. by apply wp_ret.
Qed.
