(* ===== verification/Format.v ===== *)
(** Formatting and mounting (easy-fs/src/efs.rs, [create] and [open]). *)
From S2P Require Import Prelude ByteCodec BlockCache DiskLogic Bitmap Layout InodeMap InodeIO Efs Vfs FsInv VfsSpec Directory.

From Stdlib Require Import ZifyNat.
#[local] Ltac Zify.zify_post_hook ::= Z.to_euclidean_division_equations.

(** The geometry [create_fs total ib] aims at. *)
Definition format_ia (ib : Z) : Z := ib * 1024.
Definition format_dbb (total ib : Z) : Z := (total - 1 - ib - format_ia ib + 4096) / 4097.
Definition format_cap (total ib : Z) : Z := total - 1 - ib - format_ia ib - format_dbb total ib.
Definition format_fs (total ib : Z) : EasyFileSystem :=
  mkEfs (Bitmap_new 1 ib) (Bitmap_new (1 + ib + format_ia ib) (format_dbb total ib))
    (1 + ib) (1 + ib + format_ia ib + format_dbb total ib).

(** The device is large enough for the inode area, ids fit in 32 bits, and
    rounding the number of data blocks up does not wrap. *)
Definition format_ok (total ib : Z) : Prop :=
  1 <= ib <= 2 ^ 20 /\ 1 + ib + format_ia ib <= total < 2 ^ 32 - 4096.

(** ** A zeroed disk *)

Lemma take_zeros k m : take k (zeros m) = zeros (k `min` m).
Proof. apply take_replicate. Qed.

Lemma le_Z_zeros m : le_Z (zeros m) = 0.
Proof. induction m as [|m IH]; [done|]. change (0 + 256 * le_Z (zeros m) = 0). rewrite IH. done. Qed.

Lemma words_zeros n k m : words n k (zeros m) = zeros k.
Proof.
  revert m. induction k as [|k IH]; intros m; [done|].
  change (le_Z (take n (zeros m)) :: words n k (drop n (zeros m)) = 0 :: zeros k).
  rewrite take_replicate, drop_replicate, le_Z_zeros, IH. done.
Qed.

Lemma bit_set_zero d bm k :
  d !! (k / BLOCK_BITS + start_block_id bm) = Some (zeros 512) -> bit_set d bm k = false.
Proof.
  intros E. rewrite bit_set_eq, E, words_zeros. unfold bit_in.
  destruct (zeros 64 !! _) as [w|] eqn:Ew; [|done].
  apply lookup_replicate in Ew as [-> _]. apply Z.bits_0.
Qed.

Lemma inode_zero o : 0 <= o <= 384 ->
  is_Some (decode (slice (zeros 512) o (size_of DiskInode)) : option DiskInode).
Proof.
  intros Ho. change (size_of DiskInode) with 128. unfold slice. rewrite drop_replicate, take_replicate.
  replace (Z.to_nat 128 `min` (512 - Z.to_nat o))%nat with 128%nat by lia.
  eexists. vm_compute. reflexivity.
Qed.

Lemma clear_blocks_wp n first d :
  disk_ok d -> (forall b, first <= b < first + Z.of_nat n -> b ∈ dom d) ->
  wp ∅ (clear_blocks n first) d (fun _ d' =>
    (forall b, d' !! b = if decide (first <= b < first + Z.of_nat n) then Some (zeros 512) else d !! b) /\
    dom d' = dom d /\ disk_ok d').
Proof.
  revert first d. induction n as [|n IH]; intros first d Hd Hdom; cbn [clear_blocks].
  - apply wp_ret. split; [|done]. intros b. by rewrite decide_False by lia.
  - apply wp_bind. eapply wp_mono; [apply zero_block_wp; [done|done|apply not_elem_of_empty|apply Hdom; lia]|].
    intros _ ? ->. assert (dom (<[first := zeros 512]> d) = dom d) as Ed.
    { apply dom_insert_lookup_L, elem_of_dom, Hdom. lia. }
    eapply wp_mono; [apply IH|].
    + apply disk_ok_insert; auto using zeros_block.
    + intros b Hb. rewrite Ed. apply Hdom. lia.
    + intros u d' (Hl & Hdom' & Hok). split_and!; [|congruence|done].
      intros b. rewrite Hl. destruct (decide (b = first)) as [->|Hne].
      * rewrite decide_False, decide_True by lia. apply lookup_insert_eq.
      * rewrite lookup_insert_ne by done. repeat case_decide; done || lia.
Qed.

Lemma format_geom total ib d :
  format_ok total ib -> (forall b, 0 <= b < total -> b ∈ dom d) ->
  geom (format_fs total ib) (format_cap total ib) d /\
  data_area_start_block (format_fs total ib) + format_cap total ib = total.
Proof.
  intros [Hib Htot] Hdom.
  unfold format_fs, format_cap, format_dbb, format_ia in *. split; [|simpl; lia].
  split; unfold maximum; change BLOCK_BITS with 4096; cbn [inode_bitmap data_bitmap start_block_id
    blocks inode_area_start_block data_area_start_block]; try lia.
  intros b Hb. apply Hdom. lia.
Qed.

Lemma formatted_inv total ib d :
  format_ok total ib -> disk_ok d -> 0 ∈ dom d ->
  (forall b, 1 <= b < total -> d !! b = Some (zeros 512)) -> super_ok (format_fs total ib) d ->
  fs_inv (format_fs total ib) (format_cap total ib) d ∅.
Proof.
  intros Hf Hd H0 Hz Hsup. destruct (format_geom total ib d Hf) as [G Htot].
  { intros b Hb. destruct (decide (b = 0)) as [->|]; [done|]. apply elem_of_dom. rewrite Hz by lia. eauto. }
  pose proof G as [E1 H1 E2 E3 H3 E4 Hc Hm Him Hdom].
  set (fs := format_fs total ib) in *. set (cap := format_cap total ib) in *.
  split; auto.
  - intros i n Hn. by rewrite lookup_empty in Hn.
  - intros i Hi. rewrite dom_empty_L. split; [|by intros ?%not_elem_of_empty].
    rewrite bit_set_zero; [done|]. apply Hz. unfold maximum in *. change BLOCK_BITS with 4096 in *. lia.
  - intros i Hi. rewrite dom_empty_L in Hi. by apply not_elem_of_empty in Hi.
  - intros k Hk. unfold data_bit. split.
    + rewrite bit_set_zero; [done|]. pose proof (data_bit_block fs cap d k G Hk) as Hb.
      unfold in_dbm in Hb. apply Hz. pose proof (geom_data_pos _ _ _ G).
      unfold maximum in *. change BLOCK_BITS with 4096 in *. lia.
    + intros (i & n & Hn & _). by rewrite lookup_empty in Hn.
  - intros i j n m b Hn. by rewrite lookup_empty in Hn.
  - intros k Hk _. apply Hz. pose proof (geom_data_pos _ _ _ G). lia.
  - intros i Hi. destruct (inode_pos fs cap d i G Hi) as (Hpos & _ & Hin).
    unfold inode_at. rewrite Hpos. unfold maximum in *. change BLOCK_BITS with 4096 in *.
    rewrite Hz by lia. cbn [mbind option_bind]. apply inode_zero. lia.
Qed.

(** The super block [create] writes. *)
Definition format_super (total ib : Z) : SuperBlock :=
  SuperBlock_initialize total ib (format_ia ib) (format_dbb total ib) (format_cap total ib).

Lemma format_super_ok total ib :
  format_ok total ib -> repr_ok (format_super total ib) /\
  efs_of_super (format_super total ib) = format_fs total ib.
Proof.
  intros [Hib Htot]. unfold format_cap, format_dbb, format_ia in *. split.
  - unfold format_super, SuperBlock_initialize, format_cap, format_dbb, format_ia.
    simpl. unfold is_word. change (256 ^ Z.of_nat 4) with (2 ^ 32). unfold EFS_MAGIC.
    repeat (apply Forall_cons; split); try apply Forall_nil_2; lia.
  - unfold efs_of_super, format_fs, format_super. simpl. unfold format_cap, format_dbb, format_ia.
    rewrite !u32_small by (rewrite ?u32_small by lia; lia). f_equal; [f_equal|]; lia.
Qed.

(** Writing the super block into the zeroed block 0. *)
Lemma super_written total ib d :
  format_ok total ib -> d !! 0 = Some (zeros 512) -> disk_ok d ->
  wp ∅ (cache_modify 0 0 (fun _ : SuperBlock => Ret (tt, format_super total ib))) d (fun _ d' =>
    super_ok (format_fs total ib) d' /\ disk_ok d' /\ dom d' = dom d /\
    forall b, b <> 0 -> d' !! b = d !! b).
Proof.
  intros Hf H0 Hd. destruct (format_super_ok total ib Hf) as [Hr Hefs].
  pose proof zeros_block as Hz. set (old := slice (zeros 512) 0 (size_of SuperBlock)).
  assert (Zlength old = size_of SuperBlock) as Hol by done.
  pose proof (length_encode (format_super total ib) old Hol Hr) as Hel.
  eapply wp_modify; [apply not_elem_of_empty|done|exact H0|done|done|done|by vm_compute|].
  apply wp_ret. split; [done|]. fold old.
  assert (is_block (splice (zeros 512) 0 (encode (format_super total ib) old))) as Hblk.
  { split.
    - rewrite length_splice; [done|done|]. rewrite Hel. done.
    - apply splice_bytes_ok; [apply Hz|]. apply encode_ok; [apply slice_bytes_ok, Hz|done]. }
  split_and!.
  - eexists _, (format_super total ib). rewrite lookup_insert_eq. split_and!; [done| |done|done].
    rewrite <- Hel, slice_splice_same; [|done|rewrite Hel; done]. by apply decode_encode.
  - by apply disk_ok_insert.
  - apply dom_insert_lookup_L. eauto.
  - intros b Hb. by apply lookup_insert_ne.
Qed.

(** The 32-bit arithmetic of [create] computes the intended geometry. *)
Lemma create_fs_eq total ib :
  format_ok total ib ->
  create_fs total ib =
    (_ ← clear_blocks (Z.to_nat total) 0;
     _ ← cache_modify 0 0 (fun _ : SuperBlock => Ret (tt, format_super total ib));
     root ← alloc_inode (format_fs total ib);
     _ ← lift (rassert (root =? 0));
     let '(b, off) := get_disk_inode_pos (format_fs total ib) 0 in
     _ ← cache_modify b off (fun di : DiskInode => Ret (tt, DiskInode_initialize di Directory));
     _ ← sync_all;
     Ret (format_fs total ib)).
Proof.
  intros [Hib Htot]. unfold create_fs. cbv zeta.
  assert (u32 ((maximum (Bitmap_new 1 ib) * size_of DiskInode + BLOCK_SZ - 1) / BLOCK_SZ) = format_ia ib)
    as ->.
  { unfold maximum. cbn [blocks]. change BLOCK_BITS with 4096. change (size_of DiskInode) with 128.
    unfold BLOCK_SZ, format_ia in *. rewrite u32_small; lia. }
  assert (0 <= format_ia ib) by (unfold format_ia; lia).
  rewrite (u32_small (ib + format_ia ib)), (u32_small (total - 1)) by lia.
  rewrite (u32_small (total - 1 - (ib + format_ia ib))) by lia.
  replace (total - 1 - (ib + format_ia ib)) with (total - 1 - ib - format_ia ib) by lia.
  assert (u32 (total - 1 - ib - format_ia ib + 4096) / 4097 = format_dbb total ib) as ->.
  { unfold format_dbb. by rewrite u32_small by lia. }
  assert (0 <= format_dbb total ib <= total - 1 - ib - format_ia ib) by (unfold format_dbb; lia).
  rewrite (u32_small (total - 1 - ib - format_ia ib - format_dbb total ib)) by lia.
  fold (format_cap total ib).
  rewrite (u32_small (1 + ib)), (u32_small (1 + ib + format_ia ib)), (u32_small (1 + (ib + format_ia ib))) by lia.
  rewrite (u32_small (1 + (ib + format_ia ib) + format_dbb total ib)) by lia.
  replace (1 + (ib + format_ia ib) + format_dbb total ib) with (1 + ib + format_ia ib + format_dbb total ib)
    by lia. done.
Qed.

Lemma create_fs_wp total ib d :
  format_ok total ib -> disk_ok d -> (forall b, 0 <= b < total -> b ∈ dom d) ->
  wp ∅ (create_fs total ib) d (fun fs d' => fs = format_fs total ib /\ exists N,
    fs_inv fs (format_cap total ib) d' N /\ abs d' N = {[ 0 := (Directory, []) ]}).
Proof.
  intros Hf Hd Hdom. rewrite create_fs_eq by done. pose proof Hf as [Hib Htot].
  assert (0 < total) as Hpos by (unfold format_ia in Htot; lia).
  apply wp_bind. eapply wp_mono; [apply clear_blocks_wp; [done|]|].
  { intros b Hb. apply Hdom. lia. }
  intros u d1 (Hl1 & Hdom1 & Hok1).
  apply wp_bind. eapply wp_mono; [apply super_written; [done| |done]|].
  { rewrite Hl1, decide_True by lia. done. }
  intros u' d2 (Hsup & Hok2 & Hdom2 & Hfr2).
  assert (fs_inv (format_fs total ib) (format_cap total ib) d2 ∅) as I.
  { apply formatted_inv; auto.
    - rewrite Hdom2, Hdom1. apply Hdom. lia.
    - intros b Hb. rewrite Hfr2, Hl1, decide_True by lia. done. }
  apply wp_bind. eapply wp_mono; [apply (alloc_inode_wp _ _ _ _ I)|].
  { exists 0. rewrite dom_empty_L. split; [|apply not_elem_of_empty].
    unfold maximum, format_fs. simpl. change BLOCK_BITS with 4096. lia. }
  intros root d3 A. assert (root = 0) as ->.
  { destruct A as (Hr & _ & Hlow & _). destruct (decide (root = 0)); [done|].
    assert (bit_set d2 (inode_bitmap (format_fs total ib)) 0 = true) as Hb by (apply Hlow; lia).
    apply (fi_ibit _ _ _ _ I) in Hb; [|lia]. rewrite dom_empty_L in Hb. by apply not_elem_of_empty in Hb. }
  eapply wp_lift_bind; [done|].
  destruct (get_disk_inode_pos (format_fs total ib) 0) as [b off] eqn:Hp.
  apply wp_bind. eapply wp_mono; [exact (init_inode_wp _ _ _ _ _ _ Directory b off I A Hp)|].
  intros u3 d4 (n & I4 & Eabs & _). apply wp_bind, wp_sync, wp_ret, wp_ret. split; [done|].
  exists (<[0 := n]> ∅). split; [done|]. rewrite Eabs. unfold abs. by rewrite fmap_empty.
Qed.

(** Mounting finds the file system. *)
Lemma open_fs_wp fs cap d N :
  fs_inv fs cap d N -> wp ∅ open_fs d (fun fs' d' => fs' = fs /\ d' = d).
Proof.
  intros I. destruct (fi_super _ _ _ _ I) as (l & sb & Hl & Hdec & Hv & He).
  eapply wp_read; [apply not_elem_of_empty|done|exact Hl|done|exact Hdec|].
  eapply wp_lift_bind; [by rewrite Hv|]. by apply wp_ret.
Qed.

(** A device that is no easy-fs is refused. *)
Lemma open_fs_invalid d l sb :
  d !! 0 = Some l -> decode (slice l 0 (size_of SuperBlock)) = Some sb -> is_valid sb = false ->
  run_disk open_fs (mkDisk d ∅) = Err Panic.
Proof.
  intros Hl Hdec Hv. unfold open_fs, cache_read. cbn [run_disk held dat].
  rewrite decide_False by apply not_elem_of_empty. rewrite Hl.
  change (BLOCK_CACHE_SIZE <=? Z.of_nat (base.size ∅)) with false.
  change (0 + size_of SuperBlock <=? BLOCK_SZ) with true.
  cbn [unwrap rassert lift mbind res_bind prog_bind prog_bind_def]. rewrite Hdec, Hv. done.
Qed.
