(* ===== verification/EasyFs.v ===== *)
(** The correctness of easy-fs as a whole: its operations implement an abstract
    file system, on the block cache and across a crash. *)
From S2P Require Import Prelude ByteCodec BlockCache DiskLogic Bitmap Layout InodeMap InodeIO Efs Vfs FsInv VfsSpec Directory Format.

(** ** A formatted file system to run examples on *)

(** When every file is empty, every data block is free. *)
Lemma free_count_empty fs cap d N :
  fs_inv fs cap d N -> (forall i ty f, abs d N !! i = Some (ty, f) -> f = []) ->
  free_count fs cap d = cap.
Proof.
  intros I Hemp. pose proof (ge_cap _ _ _ (fi_geom _ _ _ _ I)) as Hc.
  assert (free_set fs cap d = list_to_set (seqZ 0 cap)) as E.
  { apply set_eq. intros k. rewrite elem_of_free, elem_of_list_to_set, elem_of_seqZ, Z.add_0_l.
    split; [tauto|]. intros Hk. split; [done|]. apply not_true_is_false. intros Hb.
    apply (fi_dbit _ _ _ _ I) in Hb as (i & n & Hn & Ho); [|lia].
    pose proof (fi_node _ _ _ _ I _ _ Hn) as [_ F _ _].
    specialize (Hemp i (type_ (nd_inode n)) (file_bytes d (nd_inode n) (nd_blocks n))).
    unfold abs in Hemp. rewrite lookup_fmap, Hn in Hemp. specialize (Hemp eq_refl).
    pose proof (file_bytes_length _ _ _ _ _ F) as Hl. rewrite Hemp in Hl. simpl in Hl.
    destruct F as [[_ _ _ _ _ Hix] _ _ Hbl _]. unfold data_blocks in Hbl. rewrite <- Hl in Hbl.
    unfold owned in Ho.
    destruct (nd_blocks n); [|change (_data_blocks (Z.of_nat 0)) with 0 in Hbl; cbn [length] in Hbl; lia].
    rewrite Hix in Ho. by apply elem_of_nil in Ho. }
  unfold free_count. rewrite E, size_list_to_set by apply NoDup_seqZ. rewrite length_seqZ. lia.
Qed.

(** 1100 zeroed blocks, one of them for the inode bitmap. *)
Definition blank (n : nat) : content := gset_to_gmap (zeros 512) (list_to_set (seqZ 0 (Z.of_nat n))).

Lemma blank_ok n : disk_ok (blank n).
Proof. intros b l Hl. apply lookup_gset_to_gmap_Some in Hl as [_ <-]. apply zeros_block. Qed.

Lemma blank_dom n b : 0 <= b < Z.of_nat n -> b ∈ dom (blank n).
Proof. intros Hb. unfold blank. rewrite dom_gset_to_gmap, elem_of_list_to_set, elem_of_seqZ. lia. Qed.

Abbreviation demo_fs := (format_fs 1100 1).
Abbreviation demo_cap := (format_cap 1100 1).

Lemma demo_ok : format_ok 1100 1.
Proof. unfold format_ok, format_ia. lia. Qed.

Lemma demo_inv : exists d N, fs_inv demo_fs demo_cap d N /\ abs d N = {[ 0 := (Directory, []) ]} /\
  free_count demo_fs demo_cap d = demo_cap.
Proof.
  destruct (create_fs_wp 1100 1 (blank 1100) demo_ok (blank_ok 1100)) as (fs & d & _ & -> & N & I & E).
  { intros b Hb. by apply blank_dom. }
  exists d, N. split_and!; [done|done|]. eapply free_count_empty; [done|].
  intros i ty f. rewrite E. intros [_ [= _ ->]]%lookup_singleton_Some. done.
Qed.

(** ** From the abstract disk to the cache *)

Section on_cache.
Context {D : Type} `{BlockDeviceLaws D}.
Implicit Types (s : BlockCacheManager D).

Lemma run_cache_bind {A B} (p : prog A) (f : A -> prog B) s :
  run_cache (p ≫= f) s = '(v, s') ← run_cache p s; run_cache (f v) s'.
Proof.
  revert s. induction p as [v|e|b k IH|b w k IH|k IH]; intros s; simpl; auto.
  - destruct (get_block_cache s b) as [s1|]; [|done]. simpl.
    destruct (lock_slot s1 b) as [[l s2]|]; simpl; [apply IH|done].
  - destruct (release_slot s b w); simpl; [apply IH|done].
  - destruct (block_cache_sync_all s); simpl; [apply IH|done].
Qed.

(** What holds on the abstract disk holds on the cache. *)
Lemma wp_run_cache {A} (p : prog A) s d Q :
  cache_rel s (mkDisk d ∅) -> wp ∅ p d Q ->
  exists v d' s', run_cache p s = Ok (v, s') /\ cache_rel s' (mkDisk d' ∅) /\ Q v d'.
Proof.
  intros Hrel (v & d' & E & HQ). pose proof (run_refines p s _ Hrel) as Hag. rewrite E in Hag.
  unfold agree in Hag. destruct (run_cache p s) as [[v' s']|]; [|done].
  destruct Hag as [-> ?]. eauto 10.
Qed.

(** Losing the cache: what a machine that stops and starts again has. *)
Definition crash s : BlockCacheManager D := mkManager (dev s) [].

(** After a program that ends in [block_cache_sync_all], a crash loses
    nothing. *)
Lemma synced_crash {A} (p : prog A) s d Q :
  cache_rel s (mkDisk d ∅) -> wp ∅ (v ← p; SyncAll (Ret v)) d Q ->
  exists v d' s', run_cache (v ← p; SyncAll (Ret v)) s = Ok (v, s') /\
    cache_rel (crash s') (mkDisk d' ∅) /\ Q v d'.
Proof.
  intros Hrel (v & d' & E & HQ). rewrite run_disk_bind in E.
  destruct (run_disk p (mkDisk d ∅)) as [[v1 [d1 h1]]|] eqn:E1; [|done]. simpl in E.
  case_decide as Hh; simplify_eq/=. pose proof (run_refines p s _ Hrel) as Hag. rewrite E1 in Hag.
  unfold agree in Hag. rewrite run_cache_bind.
  destruct (run_cache p s) as [[v' s1]|]; [|done]. destruct Hag as [-> Hrel1]. simpl.
  destruct (sync_all_rel s1 _ Hrel1 eq_refl) as (s2 & -> & Hrel2 & Hdev). simpl.
  exists v, d', s2. split_and!; [done| |done]. pose proof (cr_dev _ _ Hrel2).
  split; simpl; auto; try done. apply NoDup_nil_2.
Qed.
End on_cache.

Lemma awrite_slice f offset buf :
  0 <= offset -> slice (awrite f offset buf) offset (Zlength buf) = buf.
Proof.
  intros Hoff. unfold awrite. apply slice_splice_same; [done|].
  rewrite length_app, length_replicate. lia.
Qed.

(** ** Files *)

(** C6: writing [buf] at [offset] of a file on a mounted easy-fs reports the
    full length and turns the file's bytes into exactly the old bytes,
    zero-extended if needed, overwritten at [offset]; every other file and
    the file's type are unchanged, and the file system is well formed
    again: bitmaps exact, no block with two owners, free blocks zero. *)
Theorem vfs_write_at fs cap d N i ty f offset buf :
  fs_inv fs cap d N -> abs d N !! i = Some (ty, f) -> bytes_ok buf -> 0 <= offset ->
  0 < Zlength buf -> offset + Zlength buf <= MAX_SIZE ->
  needed (Zlength f) (offset + Zlength buf) <= free_count fs cap d ->
  wp ∅ (Inode_write_at fs (Inode_of fs i) offset buf) d (fun k d' => k = Zlength buf /\
    exists N', fs_inv fs cap d' N' /\ abs d' N' = <[i := (ty, awrite f offset buf)]> (abs d N)).
Proof. apply Inode_write_at_wp. Qed.

Lemma vfs_write_at_witness : exists d N,
  wp ∅ (Inode_write_at demo_fs (Inode_of demo_fs 0) 600 [104; 105]) d (fun k d' => k = 2 /\
    exists N', fs_inv demo_fs demo_cap d' N' /\
      abs d' N' = <[0 := (Directory, awrite [] 600 [104; 105])]> (abs d N)).
Proof.
  destruct demo_inv as (d & N & I & E & Hfree). exists d, N.
  apply (vfs_write_at demo_fs demo_cap d N 0 Directory [] 600 [104; 105]).
  - exact I.
  - rewrite E. reflexivity.
  - repeat constructor; unfold is_byte; lia.
  - lia.
  - reflexivity.
  - vm_compute. discriminate.
  - rewrite Hfree. vm_compute. discriminate.
Defined.

(** Reading a file of a mounted easy-fs fills the buffer with the file's
    bytes from [offset], reports how many there were, leaves the rest of the
    buffer alone and changes nothing on the disk. *)
Theorem vfs_read_at fs cap d N i ty f offset buf :
  fs_inv fs cap d N -> abs d N !! i = Some (ty, f) ->
  0 <= offset -> offset + Zlength buf < 2 ^ 64 ->
  wp ∅ (Inode_read_at (Inode_of fs i) offset buf) d (fun '(k, buf') d' => d' = d /\
    let v := slice f offset (Zlength buf) in k = Zlength v /\ buf' = v ++ drop (length v) buf).
Proof. intros I Hf Hoff Hlen. by eapply Inode_read_at_wp. Qed.

Lemma vfs_read_at_witness : exists d,
  wp ∅ (Inode_read_at (Inode_of demo_fs 0) 0 [9; 9]) d (fun '(k, buf') d' => d' = d /\
    let v := slice [] 0 2 in k = Zlength v /\ buf' = v ++ drop (length v) [9; 9]).
Proof.
  destruct demo_inv as (d & N & I & E & _). exists d.
  apply (vfs_read_at demo_fs demo_cap d N 0 Directory [] 0 [9; 9]).
  - exact I.
  - rewrite E. reflexivity.
  - lia.
  - reflexivity.
Defined.

(** clearing a file empties it, gives every one of its data and index
    blocks back (zeroed) and touches no other file; its internal check that
    the number of freed blocks is [total_blocks] never fails. *)
Theorem vfs_clear fs cap d N i ty f :
  fs_inv fs cap d N -> abs d N !! i = Some (ty, f) ->
  wp ∅ (Inode_clear fs (Inode_of fs i)) d (fun _ d' =>
    exists N', fs_inv fs cap d' N' /\ abs d' N' = <[i := (ty, [])]> (abs d N)).
Proof. apply Inode_clear_wp. Qed.

Lemma vfs_clear_witness : exists d N,
  wp ∅ (Inode_clear demo_fs (Inode_of demo_fs 0)) d (fun _ d' =>
    exists N', fs_inv demo_fs demo_cap d' N' /\ abs d' N' = <[0 := (Directory, [])]> (abs d N)).
Proof.
  destruct demo_inv as (d & N & I & E & _). exists d, N.
  apply (vfs_clear demo_fs demo_cap d N 0 Directory []); [exact I|]. rewrite E. reflexivity.
Defined.

(** ** Directories *)


Lemma demo_dom d N : abs d N = {[ 0 := (Directory, []) ]} -> dom N = {[ 0 ]}.
Proof. intros E. rewrite <- (dom_fmap_L (fun n => (type_ (nd_inode n), file_bytes d (nd_inode n) (nd_blocks n))) N).
  fold (abs d N). rewrite E. apply dom_singleton_L. Qed.


(** Looking a name up returns the inode of the first entry with that name,
    or nothing when there is none; creating a name that exists returns
    nothing and changes nothing; listing returns the names in order. *)
Theorem vfs_lookup fs cap d N i es nm :
  fs_inv fs cap d N -> Forall entry_ok es -> abs d N !! i = Some (Directory, dir_bytes es) ->
  wp ∅ (Inode_find fs (Inode_of fs i) nm) d
    (fun r d' => d' = d /\ r = option_map (Inode_of fs) (dir_find nm es)) /\
  wp ∅ (Inode_ls (Inode_of fs i)) d (fun r d' => d' = d /\ r = es.*1) /\
  (dir_find nm es <> None ->
   wp ∅ (Inode_create fs (Inode_of fs i) nm) d (fun r d' => r = None /\ d' = d)).
Proof.
  intros I Hes Hf. split_and!; [by eapply Inode_find_wp|by eapply Inode_ls_wp|].
  intros Hfind. destruct (dir_find nm es) eqn:E; [|done]. by eapply Inode_create_exists_wp.
Qed.

Lemma vfs_lookup_witness : exists d,
  wp ∅ (Inode_find demo_fs (Inode_of demo_fs 0) [97]) d (fun r d' => d' = d /\ r = None).
Proof.
  destruct demo_inv as (d & N & I & E & _). exists d.
  refine (proj1 (vfs_lookup demo_fs demo_cap d N 0 [] [97] I (Forall_nil_2 _) _)).
  rewrite E. reflexivity.
Defined.

(** An entry written by [DirEntry::new] for a name of at most 27 non-zero
    UTF-8 bytes reads back, through its 32 bytes, as the same name and inode
    number. *)
Theorem dirent_roundtrip nm id :
  entry_ok (nm, id) -> exists e, DirEntry_new nm id = Ok e /\ Zlength (as_bytes e) = DIRENT_SZ /\
    DirEntry_name (of_bytes (as_bytes e)) = Ok nm /\ inode_number (of_bytes (as_bytes e)) = id.
Proof.
  intros He. destruct (DirEntry_new_ok nm id He) as (e & Hnew & Hb). exists e.
  rewrite Hb, enc_entry_length by done. destruct (of_bytes_enc nm id He) as (_ & ? & ?). auto.
Qed.

Lemma dirent_roundtrip_witness : exists e, DirEntry_new [115; 104] 7 = Ok e /\
  Zlength (as_bytes e) = DIRENT_SZ /\ DirEntry_name (of_bytes (as_bytes e)) = Ok [115; 104] /\
  inode_number (of_bytes (as_bytes e)) = 7.
Proof.
  apply dirent_roundtrip. split; [apply (bool_decide_unpack _); vm_compute; exact Logic.I|].
  unfold is_word. simpl. lia.
Defined.

(** A 28-byte name is accepted and its entry can then not be read: [name]
    runs off the array, so every later lookup in the directory panics. *)
(** [DirEntry::new] accepts a name of 28 non-zero bytes, one more than
    [NAME_LENGTH_LIMIT], and [DirEntry::name] of the resulting entry panics. *)
Theorem dirent_28_panics nm id :
  Zlength nm = NAME_LENGTH_LIMIT + 1 -> Forall (fun c => 0 < c < 256) nm ->
  exists e, DirEntry_new nm id = Ok e /\ DirEntry_name (of_bytes (as_bytes e)) = Err Panic.
Proof.
  change (NAME_LENGTH_LIMIT + 1) with 28. intros Hl Hc. unfold DirEntry_new.
  change (NAME_LENGTH_LIMIT + 1) with 28. rewrite Hl. eexists. split; [done|].
  rewrite splice_full by (rewrite length_replicate; lia). unfold as_bytes, of_bytes, DirEntry_name.
  cbn [de_name de_inode_number]. rewrite take_app_length' by lia.
  replace (find_index (fun c => c =? 0) nm) with (@None (nat * Z)); [done|].
  symmetry. apply find_index_None. eapply Forall_impl; [exact Hc|]. simpl. intros c ?. apply Z.eqb_neq. lia.
Qed.

Lemma dirent_28_panics_witness :
  exists e, DirEntry_new (replicate 28 97) 3 = Ok e /\ DirEntry_name (of_bytes (as_bytes e)) = Err Panic.
Proof. apply dirent_28_panics; [reflexivity|]. apply Forall_replicate. lia. Defined.

(** ** Format, mount, crash *)

(** C26: formatting a large enough device never panics, lays the areas out
    without overlap inside the device, and leaves an empty root directory;
    mounting the result, or any later well-formed state of it, yields the
    same file system. *)
Theorem format_then_mount total ib d :
  format_ok total ib -> disk_ok d -> (forall b, 0 <= b < total -> b ∈ dom d) ->
  wp ∅ (create_fs total ib) d (fun fs d' => exists N,
    fs_inv fs (format_cap total ib) d' N /\ abs d' N = {[ 0 := (Directory, []) ]} /\
    data_area_start_block fs + format_cap total ib = total) /\
  forall cap d' N', fs_inv (format_fs total ib) cap d' N' ->
    wp ∅ open_fs d' (fun fs' d'' => fs' = format_fs total ib /\ d'' = d').
Proof.
  intros Hf Hd Hdom. split; [|intros cap d' N' I; by eapply open_fs_wp].
  eapply wp_mono; [by apply create_fs_wp|]. intros fs d' (-> & N & I & E). exists N.
  split_and!; [done|done|]. by apply (format_geom total ib d).
Qed.

Lemma format_then_mount_witness :
  wp ∅ (create_fs 1100 1) (blank 1100) (fun fs d' => exists N,
    fs_inv fs demo_cap d' N /\ abs d' N = {[ 0 := (Directory, []) ]} /\
    data_area_start_block fs + demo_cap = 1100).
Proof.
  refine (proj1 (format_then_mount 1100 1 (blank 1100) demo_ok (blank_ok 1100) _)).
  intros b Hb. apply blank_dom. lia.
Defined.

(** Reading with a fresh cache after a crash. *)
Lemma remount_read {D} `{BlockDeviceLaws D} (s : BlockCacheManager D) fs cap d N i ty f offset n :
  cache_rel s (mkDisk d ∅) -> fs_inv fs cap d N -> abs d N !! i = Some (ty, f) ->
  0 <= offset -> offset + Z.of_nat n <= Zlength f -> Zlength f < 2 ^ 64 ->
  exists s', run_cache (fs' ← open_fs; Inode_read_at (Inode_of fs' i) offset (zeros n)) s =
    Ok ((Z.of_nat n, slice f offset (Z.of_nat n)), s').
Proof.
  intros Hrel I Hf Hoff Hlen Hmax.
  assert (wp ∅ (fs' ← open_fs; Inode_read_at (Inode_of fs' i) offset (zeros n)) d
    (fun r _ => r = (Z.of_nat n, slice f offset (Z.of_nat n)))) as Hwp.
  { apply wp_bind. eapply wp_mono; [by eapply open_fs_wp|]. intros ? ? [-> ->].
    eapply wp_mono; [eapply Inode_read_at_wp; eauto; rewrite length_replicate; lia|].
    intros [k b] ? [-> [-> ->]]. rewrite length_replicate.
    assert (Zlength (slice f offset (Z.of_nat n)) = Z.of_nat n) as El by (apply length_slice; lia).
    rewrite El, drop_ge, app_nil_r; [done|]. rewrite length_replicate. lia. }
  destruct (wp_run_cache _ s d _ Hrel Hwp) as (v & d' & s' & E & _ & ->). eauto.
Qed.

Lemma awrite_length f offset buf :
  0 <= offset -> Zlength (awrite f offset buf) = Z.max (Zlength f) (offset + Zlength buf).
Proof.
  intros Hoff. unfold awrite. rewrite length_splice; rewrite ?length_app, ?length_replicate; lia.
Qed.

(** C27: when a write through the 16-slot cache has returned, the bytes are on
    the device: dropping the cache without writing anything back, mounting
    the device again with an empty cache and reading returns them. *)
Theorem write_survives_crash {D} `{BlockDeviceLaws D} (s : BlockCacheManager D)
    fs cap d N i ty f offset buf :
  cache_rel s (mkDisk d ∅) -> fs_inv fs cap d N -> abs d N !! i = Some (ty, f) ->
  bytes_ok buf -> 0 <= offset -> 0 < Zlength buf -> offset + Zlength buf <= MAX_SIZE ->
  needed (Zlength f) (offset + Zlength buf) <= free_count fs cap d ->
  exists s', run_cache (Inode_write_at fs (Inode_of fs i) offset buf) s = Ok (Zlength buf, s') /\
  exists s'', run_cache (fs' ← open_fs; Inode_read_at (Inode_of fs' i) offset (zeros (length buf)))
                (crash s') = Ok ((Zlength buf, buf), s'').
Proof.
  intros Hrel I Hf Hb Hoff Hlen Hmax Hfree.
  pose proof (Inode_write_at_wp fs cap d N i ty f offset buf I Hf Hb Hoff Hlen Hmax Hfree) as Hwp.
  destruct (synced_crash _ s d _ Hrel Hwp) as (v & d' & s' & E & Hrel' & -> & N' & I' & Eabs).
  exists s'. split; [exact E|].
  assert (Zlength f <= MAX_SIZE) as Hfs.
  { destruct (abs_lookup fs cap d N i ty f I Hf) as (n & Hn & _ & <- & Hfl & _).
    rewrite Hfl. apply (no_file _ _ _ _ _ (fi_node _ _ _ _ I _ _ Hn)). }
  pose proof (awrite_length f offset buf Hoff) as Hal. change MAX_SIZE with 8468480 in *.
  destruct (remount_read (crash s') fs cap d' N' i ty (awrite f offset buf) offset (length buf) Hrel' I')
    as [s'' E']; [by rewrite Eabs, lookup_insert_eq|done|lia|lia|].
  exists s''. rewrite E'. by rewrite awrite_slice.
Qed.

(** A device of zeroed blocks. *)
Definition zero_image (n : nat) : BlockFile := mkFile (zeros (n * 512)).

Lemma zero_image_rel n : let d := disk_of (zero_image n) n in
  cache_rel (mkManager (zero_image n) []) (mkDisk d ∅) /\ disk_ok d /\ forall b, 0 <= b < Z.of_nat n -> b ∈ dom d.
Proof.
  assert (Zlength (file (zero_image n)) = Z.of_nat n * 512) as Hl.
  { unfold zero_image. cbn [file]. rewrite length_replicate. lia. }
  pose proof (file_read_Ok (zero_image n)) as Hr. unfold BLOCK_SZ in Hr.
  assert (bytes_ok (file (zero_image n))) as Hb by (apply Forall_replicate; unfold is_byte; lia).
  assert (forall b l, read_block (zero_image n) b = Ok l -> 0 <= b < Z.of_nat n) as Hn.
  { intros b l (? & ? & _)%Hr. lia. }
  assert (forall b l, disk_of (zero_image n) n !! b = Some l <->
    0 <= b < Z.of_nat n /\ l = slice (file (zero_image n)) (b * 512) 512) as Hd.
  { intros b l. rewrite disk_of_lookup by exact Hn. unfold device_view. split.
    - destruct (read_block (zero_image n) b) as [l0|] eqn:E; [|done]. intros [= <-].
      apply Hr in E as (? & ? & ->). split; [lia|done].
    - intros [Hb' ->]. replace (read_block (zero_image n) b) with (Ok (slice (file (zero_image n)) (b * 512) 512));
        [done|]. symmetry. apply Hr. split_and!; [lia|lia|done]. }
  cbn zeta. split_and!.
  - apply cache_rel_start; [exact Hb|done].
  - intros b l [Hb' ->]%Hd. split; [rewrite length_slice; unfold BLOCK_SZ; lia|]. by apply slice_bytes_ok.
  - intros b Hb'. apply elem_of_dom. eexists. by apply Hd.
Qed.

Lemma demo_cached : exists (s : BlockCacheManager BlockFile) d N,
  cache_rel s (mkDisk d ∅) /\ fs_inv demo_fs demo_cap d N /\ abs d N = {[ 0 := (Directory, []) ]} /\
  free_count demo_fs demo_cap d = demo_cap.
Proof.
  destruct (zero_image_rel 1100) as (Hrel & Hok & Hdom). set (d0 := disk_of (zero_image 1100) 1100) in *.
  destruct (wp_run_cache (create_fs 1100 1) _ d0 _ Hrel (create_fs_wp 1100 1 d0 demo_ok Hok Hdom))
    as (fs & d & s & _ & Hrel' & -> & N & I & E).
  exists s, d, N. split_and!; [done|done|done|]. eapply free_count_empty; [done|].
  intros i ty g. rewrite E. intros [_ [= _ ->]]%lookup_singleton_Some. done.
Qed.

Lemma write_survives_crash_witness : exists s : BlockCacheManager BlockFile, exists s',
  run_cache (Inode_write_at demo_fs (Inode_of demo_fs 0) 600 [104; 105]) s = Ok (2, s') /\
  exists s'', run_cache (fs' ← open_fs; Inode_read_at (Inode_of fs' 0) 600 (zeros 2)) (crash s') =
    Ok ((2, [104; 105]), s'').
Proof.
  destruct demo_cached as (s & d & N & Hrel & I & E & Hfree). exists s.
  apply (write_survives_crash s demo_fs demo_cap d N 0 Directory [] 600 [104; 105] Hrel I).
  - rewrite E. reflexivity.
  - repeat constructor; unfold is_byte; lia.
  - lia.
  - reflexivity.
  - vm_compute. discriminate.
  - rewrite Hfree. vm_compute. discriminate.
Defined.

(** The data bitmap can have more bits than there are data blocks, and
    [alloc_data] does not check: once every data block is in use it returns
    a block id past the end of the data area. *)
Theorem alloc_data_overrun fs cap d N :
  fs_inv fs cap d N -> free_count fs cap d = 0 -> cap < maximum (data_bitmap fs) ->
  data_area_start_block fs + maximum (data_bitmap fs) < 2 ^ 32 ->
  wp ∅ (alloc_data fs) d (fun b _ => b = data_area_start_block fs + cap).
Proof.
  intros I Hfull Hcap Hmax. pose proof (fi_geom _ _ _ _ I) as G. pose proof (ge_cap _ _ _ G) as Hc.
  pose proof (geom_data_pos _ _ _ G). unfold alloc_data. apply wp_bind.
  assert (forall k, 0 <= k < cap -> data_bit fs d k = true) as Hset.
  { intros k Hk. apply not_false_is_true. intros Hb.
    assert (k ∈ free_set fs cap d) as Hin by (by apply elem_of_free).
    unfold free_count in Hfull. assert (base.size (free_set fs cap d) = 0%nat) as Hs by lia.
    apply size_empty_iff in Hs. by apply Hs in Hin. }
  eapply wp_mono.
  { apply alloc_spec; [done|apply I|]. eapply bitmap_on_data; [done|]. intros b _. apply not_elem_of_empty. }
  assert (data_bit fs d cap = false) as Hclear.
  { apply not_true_is_false. intros Hb. apply (fi_dbit _ _ _ _ I) in Hb as (i & n & Hn & Ho); [|lia].
    pose proof (owned_area _ _ _ _ _ _ _ I Hn Ho) as Ha. unfold in_data in Ha. lia. }
  unfold data_bit in *. intros [p|] d'.
  - intros (Hp & Hbit & Hlow & _). apply wp_ret. assert (p = cap) as ->.
    { destruct (Z.lt_trichotomy p cap) as [Hlt|[?|Hgt]]; [|done|].
      - rewrite Hset in Hbit by lia. done.
      - rewrite Hlow in Hclear by lia. done. }
    rewrite (u32_small cap), u32_small by lia. lia.
  - intros [_ Hall]. rewrite Hall in Hclear by lia. done.
Qed.

(** A device of 1027 blocks: one data block in all, taken by the bitmap. *)
Lemma alloc_data_overrun_witness : exists d,
  wp ∅ (alloc_data (format_fs 1027 1)) d (fun b _ => b = 1027).
Proof.
  assert (format_ok 1027 1) as Hok by (unfold format_ok, format_ia; lia).
  destruct (create_fs_wp 1027 1 (blank 1027) Hok (blank_ok 1027)) as (fs & d & _ & -> & N & I & E).
  { intros b Hb. by apply blank_dom. }
  exists d. apply (alloc_data_overrun (format_fs 1027 1) (format_cap 1027 1) d N I).
  - change (format_cap 1027 1) with 0 in *. eapply free_count_empty; [exact I|].
    intros i ty f. rewrite E. intros [_ [= _ ->]]%lookup_singleton_Some. done.
  - vm_compute. reflexivity.
  - vm_compute. reflexivity.
Defined.
