(* ===== verification/Allocator.v ===== *)
(** The free-list allocator of os/src/utils/allocator.rs, used for physical
    frames: it implements a finite set of outstanding numbers. *)
From S2P Require Import Prelude.

(** [range] is [range_start .. range_end]; [free_list] is a [Vec], popped and
    pushed at its end. *)
Record FreeListAllocator := mkFree {
  range_start : Z;
  range_end : Z;
  next_available : Z;
  free_list : list Z;
}.

Definition FreeList_empty : FreeListAllocator := mkFree 0 0 0 [].

(** [init]: the free list is left as it is. *)
Definition FreeList_init (a : FreeListAllocator) (start end_ : Z) : FreeListAllocator :=
  mkFree start end_ start (free_list a).

Definition available_space (a : FreeListAllocator) : Z :=
  usize (usize (Zlength (free_list a) + range_end a) - next_available a).

(** [Vec::pop]. *)
Definition vec_pop {A} (l : list A) : option (A * list A) :=
  match last l with
  | Some x => Some (x, take (length l - 1) l)
  | None => None
  end.

Definition FreeList_alloc (a : FreeListAllocator) : option Z * FreeListAllocator :=
  match vec_pop (free_list a) with
  | Some (value, rest) => (Some value, mkFree (range_start a) (range_end a) (next_available a) rest)
  | None =>
      if range_end a <=? next_available a then (None, a)
      else (Some (next_available a),
            mkFree (range_start a) (range_end a) (next_available a + 1) (free_list a))
  end.

Definition FreeList_dealloc (a : FreeListAllocator) (value : Z) : res FreeListAllocator :=
  _ ← rassert (range_start a <=? value);
  _ ← rassert (value <? next_available a);
  _ ← rassert (negb (bool_decide (value ∈ free_list a)));
  Ok (mkFree (range_start a) (range_end a) (next_available a) (free_list a ++ [value])).

(** ** The set of outstanding numbers *)

Definition outstanding (a : FreeListAllocator) : gset Z :=
  list_to_set (filter (fun v => v ∉ free_list a)
    (seqZ (range_start a) (next_available a - range_start a))).

Record free_ok (a : FreeListAllocator) : Prop := {
  fk_range : 0 <= range_start a <= next_available a;
  fk_end : next_available a <= range_end a < 2 ^ 64;
  fk_nodup : NoDup (free_list a);
  fk_free : Forall (fun v => range_start a <= v < next_available a) (free_list a);
}.

Lemma elem_of_outstanding a v :
  v ∈ outstanding a <-> range_start a <= v < next_available a /\ v ∉ free_list a.
Proof.
  unfold outstanding. rewrite elem_of_list_to_set, list_elem_of_filter, elem_of_seqZ.
  split; intros [? ?]; split; try done; lia.
Qed.

Lemma vec_pop_Some {A} (l : list A) x r : vec_pop l = Some (x, r) -> l = r ++ [x].
Proof.
  unfold vec_pop. destruct (last l) as [y|] eqn:E; [|done]. intros [= -> <-].
  apply last_Some in E as [l' ->]. rewrite length_app. simpl.
  replace (length l' + 1 - 1)%nat with (length l') by lia. by rewrite take_app_length.
Qed.

Lemma vec_pop_None {A} (l : list A) : vec_pop l = None -> l = [].
Proof.
  unfold vec_pop. destruct (last l) as [y|] eqn:E; [done|]. intros _. by apply last_None in E.
Qed.

Lemma FreeList_alloc_spec a :
  free_ok a ->
  match FreeList_alloc a with
  | (Some v, a') => free_ok a' /\ v ∉ outstanding a /\ outstanding a' = {[v]} ∪ outstanding a /\
      range_start a <= v < range_end a /\ range_start a' = range_start a /\ range_end a' = range_end a
  | (None, a') => a' = a /\ forall v, range_start a <= v < range_end a -> v ∈ outstanding a
  end.
Proof.
  intros [H1 H2 Hnd Hf]. unfold FreeList_alloc.
  destruct (vec_pop (free_list a)) as [[v r]|] eqn:E.
  - apply vec_pop_Some in E. rewrite E in *. apply NoDup_app in Hnd as (Hnr & Hd & _).
    apply Forall_app in Hf as [Hfr Hfv]. apply Forall_cons in Hfv as [Hfv _].
    assert (v ∉ r) by (intros Hv; apply (Hd v Hv); set_solver).
    split_and!; [by split|rewrite elem_of_outstanding, E; set_solver| |lia|lia|done|done].
    apply set_eq. intros w. rewrite elem_of_union, elem_of_singleton, !elem_of_outstanding, E. simpl.
    rewrite elem_of_app, list_elem_of_singleton. destruct (decide (w = v)) as [->|]; [|tauto].
    split; [by left|]. intros _. split; [lia|done].
  - apply vec_pop_None in E. rewrite E in *. destruct (Z.leb_spec (range_end a) (next_available a)).
    + split; [done|]. intros v Hv. rewrite elem_of_outstanding, E. split; [lia|set_solver].
    + split_and!; [split; simpl; rewrite ?E; auto; lia| | |lia|lia|done|done].
      * rewrite elem_of_outstanding. lia.
      * apply set_eq. intros w. rewrite elem_of_union, elem_of_singleton, !elem_of_outstanding, E. simpl.
        split; [intros [? ?]; destruct (decide (w = next_available a)); [by left|right; split; [lia|done]]|].
        intros [->|[? ?]]; (split; [lia|set_solver]).
Qed.

Lemma FreeList_dealloc_spec a v :
  free_ok a ->
  if decide (v ∈ outstanding a) then
    exists a', FreeList_dealloc a v = Ok a' /\ free_ok a' /\ outstanding a' = outstanding a ∖ {[v]} /\
      range_start a' = range_start a /\ range_end a' = range_end a
  else FreeList_dealloc a v = Err Panic.
Proof.
  intros [H1 H2 Hnd Hf]. unfold FreeList_dealloc. case_decide as Hv; rewrite elem_of_outstanding in Hv.
  - destruct Hv as [Hr Hn]. rewrite (proj2 (Z.leb_le _ _)), (proj2 (Z.ltb_lt _ _)) by lia.
    rewrite bool_decide_false by done. eexists. split; [done|]. split_and!; [|  |done|done].
    + split; simpl; auto.
      * apply NoDup_app. split_and!; [done| |apply NoDup_singleton]. set_solver.
      * apply Forall_app. split; [done|]. by apply Forall_singleton.
    + apply set_eq. intros w. rewrite elem_of_difference, elem_of_singleton, !elem_of_outstanding. simpl.
      rewrite elem_of_app, list_elem_of_singleton. tauto.
  - destruct (Z.leb_spec (range_start a) v); [|done]. simpl. destruct (Z.ltb_spec v (next_available a)); [|done].
    simpl. rewrite bool_decide_true; [done|]. destruct (decide (v ∈ free_list a)); [done|]. tauto.
Qed.

(** How many numbers are left. *)
Definition avail (a : FreeListAllocator) : Z :=
  Zlength (free_list a) + range_end a - next_available a.

Lemma available_space_eq a : free_ok a -> Zlength (free_list a) + range_end a < 2 ^ 64 ->
  available_space a = avail a.
Proof.
  intros [H1 H2 _ _] H3. unfold available_space, avail. rewrite (u64_small (_ + _)) by lia.
  apply u64_small. lia.
Qed.

Lemma FreeList_alloc_avail a :
  free_ok a ->
  match FreeList_alloc a with
  | (Some _, a') => avail a' = avail a - 1
  | (None, _) => avail a = 0
  end.
Proof.
  intros [H1 H2 _ _]. unfold FreeList_alloc, avail.
  destruct (vec_pop (free_list a)) as [[v r]|] eqn:E.
  - apply vec_pop_Some in E. rewrite E, length_app. simpl. lia.
  - apply vec_pop_None in E. rewrite E in *. destruct (Z.leb_spec (range_end a) (next_available a)).
    + simpl. lia.
    + simpl. lia.
Qed.

Lemma FreeList_dealloc_avail a v a' : FreeList_dealloc a v = Ok a' -> avail a' = avail a + 1.
Proof.
  unfold FreeList_dealloc, avail. repeat (intros (? & _ & H)%bind_Ok; revert H).
  intros [= <-]. simpl. rewrite length_app. simpl. lia.
Qed.

(** ** The claims *)

(** The free-list allocator is a set allocator: [alloc] hands out a number
    of the range that is not outstanding and records it, and fails only when
    the whole range is outstanding; [dealloc] takes an outstanding number
    back and panics on any other, so a double free is always caught. *)
Theorem freelist_is_set_allocator a v :
  free_ok a ->
  (match FreeList_alloc a with
   | (Some w, a') => free_ok a' /\ w ∉ outstanding a /\ range_start a <= w < range_end a /\
       outstanding a' = {[w]} ∪ outstanding a
   | (None, a') => a' = a /\ forall w, range_start a <= w < range_end a -> w ∈ outstanding a
   end) /\
  (if decide (v ∈ outstanding a) then
     exists a', FreeList_dealloc a v = Ok a' /\ free_ok a' /\ outstanding a' = outstanding a ∖ {[v]}
   else FreeList_dealloc a v = Err Panic).
Proof.
  intros Ha. pose proof (FreeList_alloc_spec a Ha) as H1. pose proof (FreeList_dealloc_spec a v Ha) as H2.
  split.
  - destruct (FreeList_alloc a) as [[w|] a']; [|done]. naive_solver.
  - case_decide; [|done]. naive_solver.
Qed.

(** Five frames taken, the second given back. *)
Definition demo_free : FreeListAllocator := mkFree 3 10 8 [4].

Lemma demo_free_ok : free_ok demo_free.
Proof.
  split; simpl; try lia; [apply NoDup_singleton|]. apply Forall_singleton. lia.
Qed.

Lemma freelist_is_set_allocator_witness :
  FreeList_alloc demo_free = (Some 4, mkFree 3 10 8 []) /\ 4 ∉ outstanding demo_free /\
  FreeList_dealloc demo_free 4 = Err Panic.
Proof.
  destruct (freelist_is_set_allocator demo_free 4 demo_free_ok) as [H1 H2].
  split_and!; [reflexivity|apply H1|].
  rewrite decide_False in H2; [exact H2|]. apply H1.
Defined.
