(* ===== verification/Address.v ===== *)
(** Physical and virtual addresses (os/src/mm/address.rs, os/src/config.rs): the
    bit operations and what they mean as arithmetic. *)
From S2P Require Import Prelude.

From Stdlib Require Import ZifyNat.
#[local] Ltac Zify.zify_post_hook ::= Z.to_euclidean_division_equations.

Definition PAGE_SIZE : Z := 0x1000.
Definition PA_1TB_BITS : Z := 40.
Definition VA_MAX_BITS : Z := 48.
Definition PHYS_VIRT_OFFSET : Z := 0xffff000000000000.
Definition MEMORY_START : Z := 0x40000000.
Definition MEMORY_END : Z := MEMORY_START + 0x8000000.
Definition USER_STACK_SIZE : Z := 4096 * 4.
Definition USER_STACK_TOP : Z := 0x800000000000.
Definition KERNEL_STACK_SIZE : Z := 4096 * 4.

(** [!x] on [usize]. *)
Definition usize_not (x : Z) : Z := Z.lxor x (2 ^ 64 - 1).

Definition phys_to_virt (paddr : Z) : Z := usize (paddr + PHYS_VIRT_OFFSET).
Definition virt_to_phys (vaddr : Z) : Z := usize (vaddr - PHYS_VIRT_OFFSET).

Definition align_down (addr page_size : Z) : Z := Z.land addr (usize_not (page_size - 1)).
Definition align_up (addr page_size : Z) : Z :=
  Z.land (usize (addr + page_size - 1)) (usize_not (page_size - 1)).
Definition page_offset (addr page_size : Z) : Z := Z.land addr (page_size - 1).
Definition is_aligned (addr page_size : Z) : bool := page_offset addr page_size =? 0.

(** [PhysAddr::new] and [VirtAddr::new]. *)
Definition PA_MAX : Z := Z.shiftl 1 PA_1TB_BITS - 1.
Definition PhysAddr_new (pa : Z) : Z := Z.land pa PA_MAX.
Definition VirtAddr_new (va : Z) : res Z :=
  let top_bits := Z.shiftr va VA_MAX_BITS in
  if negb (top_bits =? 0) && negb (top_bits =? 0xffff) then Err Panic else Ok va.
Definition into_kvaddr (pa : Z) : res Z := VirtAddr_new (phys_to_virt pa).

(** ** Arithmetic meaning *)

Lemma align_down_eq a : 0 <= a < 2 ^ 64 -> align_down a PAGE_SIZE = a / 4096 * 4096.
Proof.
  intros Ha. unfold align_down, usize_not, PAGE_SIZE.
  change (Z.lxor (0x1000 - 1) (2 ^ 64 - 1)) with (Z.shiftl (Z.ones 52) 12).
  change 4096 with (2 ^ 12). rewrite <- Z.shiftl_mul_pow2, <- Z.shiftr_div_pow2 by lia.
  apply Z.bits_inj'. intros n Hn. rewrite Z.land_spec, !Z.shiftl_spec by lia.
  destruct (decide (n < 12)).
  - rewrite !(Z.testbit_neg_r _ (n - 12)) by lia. by rewrite andb_false_r.
  - rewrite Z.shiftr_spec by lia. replace (n - 12 + 12) with n by lia.
    destruct (decide (n < 64)); [rewrite Z.ones_spec_low by lia; apply andb_true_r|].
    rewrite (Z.bits_above_log2 a n); [done|lia|].
    destruct (decide (a = 0)) as [->|]; [simpl; lia|].
    assert (Z.log2 a < 64) by (apply Z.log2_lt_pow2; lia). lia.
Qed.

Lemma page_offset_eq a : 0 <= a -> page_offset a PAGE_SIZE = a `mod` 4096.
Proof.
  intros Ha. unfold page_offset, PAGE_SIZE. change (0x1000 - 1) with (Z.ones 12).
  by rewrite Z.land_ones by lia.
Qed.

Lemma align_up_eq a : 0 <= a <= 2 ^ 64 - 4096 -> align_up a PAGE_SIZE = (a + 4095) / 4096 * 4096.
Proof.
  intros Ha. unfold align_up. replace (a + PAGE_SIZE - 1) with (a + 4095) by (unfold PAGE_SIZE; lia).
  rewrite u64_small by lia. apply align_down_eq. lia.
Qed.

Lemma is_aligned_eq a : 0 <= a -> is_aligned a PAGE_SIZE = (a `mod` 4096 =? 0).
Proof. intros. unfold is_aligned. by rewrite page_offset_eq. Qed.

Lemma PhysAddr_new_eq a : 0 <= a < 2 ^ 40 -> PhysAddr_new a = a.
Proof.
  intros. unfold PhysAddr_new. change PA_MAX with (Z.ones 40). rewrite Z.land_ones by lia.
  apply Z.mod_small. lia.
Qed.

Lemma PhysAddr_new_range a : 0 <= PhysAddr_new a < 2 ^ 40.
Proof.
  unfold PhysAddr_new. change PA_MAX with (Z.ones 40). rewrite Z.land_ones by lia.
  apply Z.mod_pos_bound. lia.
Qed.

(** The valid virtual addresses: the lower and the upper 2^48 bytes. *)
Lemma VirtAddr_new_eq a : 0 <= a < 2 ^ 64 ->
  VirtAddr_new a = if (a <? 2 ^ 48) || (0xffff000000000000 <=? a) then Ok a else Err Panic.
Proof.
  intros Ha. unfold VirtAddr_new, VA_MAX_BITS. rewrite Z.shiftr_div_pow2 by lia.
  destruct (Z.eqb_spec (a / 2 ^ 48) 0), (Z.eqb_spec (a / 2 ^ 48) 0xffff), (Z.ltb_spec a (2 ^ 48)),
    (Z.leb_spec 0xffff000000000000 a); simpl; try done; lia.
Qed.

(** Physical addresses reach the kernel through the linear map, both ways. *)
Lemma into_kvaddr_ok pa : 0 <= pa < 2 ^ 40 ->
  into_kvaddr pa = Ok (pa + PHYS_VIRT_OFFSET) /\ virt_to_phys (pa + PHYS_VIRT_OFFSET) = pa.
Proof.
  intros Hpa. unfold into_kvaddr, phys_to_virt, virt_to_phys, PHYS_VIRT_OFFSET.
  rewrite (u64_small (pa + _)) by lia. rewrite VirtAddr_new_eq by lia.
  rewrite (proj2 (Z.leb_le _ _)), orb_true_r by lia. split; [done|]. rewrite u64_small; lia.
Qed.

(** Page alignment, page offset and the linear map mean what their names
    say: rounding down and up to 4096, the remainder, and an address-space
    translation that never panics and is undone by [virt_to_phys]. *)
Theorem address_arithmetic a pa :
  0 <= a <= 2 ^ 64 - 4096 -> 0 <= pa < 2 ^ 40 ->
  align_down a PAGE_SIZE = a / 4096 * 4096 /\
  align_up a PAGE_SIZE = (a + 4095) / 4096 * 4096 /\
  align_down a PAGE_SIZE + page_offset a PAGE_SIZE = a /\
  is_aligned (align_down a PAGE_SIZE) PAGE_SIZE = true /\
  PhysAddr_new pa = pa /\
  exists kva, into_kvaddr pa = Ok kva /\ virt_to_phys kva = pa.
Proof.
  intros Ha Hpa. rewrite align_down_eq, align_up_eq, page_offset_eq by lia.
  rewrite is_aligned_eq, PhysAddr_new_eq by lia.
  split_and!; [done|done|lia|apply Z.eqb_eq; lia|done|]. eexists. by apply into_kvaddr_ok.
Qed.

Lemma address_arithmetic_witness :
  align_down 0x40080123 PAGE_SIZE = 0x40080000 /\ align_up 0x40080123 PAGE_SIZE = 0x40081000.
Proof.
  destruct (address_arithmetic 0x40080123 0x40080123 ltac:(lia) ltac:(lia)) as (H1 & H2 & _).
  rewrite H1, H2. split; reflexivity.
Defined.
