(* ===== verification/State.v ===== *)
(** Kernel code that changes state: a state monad over outcomes, and
    total-correctness reasoning for it. *)
From S2P Require Import Prelude.

Definition st (S A : Type) : Type := S -> res (A * S).

#[export] Instance st_ret {S} : MRet (st S) := fun A a s => Ok (a, s).
#[export] Instance st_bind {S} : MBind (st S) := fun A B f m s =>
  match m s with Ok (a, s') => f a s' | Err e => Err e end.

Definition sget {S} : st S S := fun s => Ok (s, s).
Definition sput {S} (s : S) : st S unit := fun _ => Ok (tt, s).
Definition slift {S A} (r : res A) : st S A := fun s =>
  match r with Ok a => Ok (a, s) | Err e => Err e end.
Definition sret {S A} (a : A) : st S A := mret a.

(** [swp m s Q]: [m] run in [s] returns, and its value and the new state
    satisfy [Q]. *)
Definition swp {S A} (m : st S A) (s : S) (Q : A -> S -> Prop) : Prop :=
  exists a s', m s = Ok (a, s') /\ Q a s'.

(** The two halves of a sequence that returned. *)
Lemma st_bind_Ok {S A B} (m : st S A) (f : A -> st S B) s b s2 : (m ≫= f) s = Ok (b, s2) ->
  exists a s1, m s = Ok (a, s1) /\ f a s1 = Ok (b, s2).
Proof. unfold mbind, st_bind. destruct (m s) as [[a s1]|]; [eauto|done]. Qed.

(** One step of a sequence, whatever its outcome. *)
Lemma st_bind_step {S A B} (m : st S A) (f : A -> st S B) s a s1 r : m s = Ok (a, s1) -> f a s1 = r -> (m ≫= f) s = r.
Proof. unfold mbind, st_bind. by intros ->. Qed.

Section rules.
Context {S : Type}.

Lemma swp_ret {A} (a : A) (s : S) (Q : A -> S -> Prop) : Q a s -> swp (mret a) s Q.
Proof. intros. by exists a, s. Qed.

Lemma swp_bind {A B} (m : st S A) (f : A -> st S B) s Q :
  swp m s (fun a s' => swp (f a) s' Q) -> swp (m ≫= f) s Q.
Proof.
  intros (a & s' & E & b & s'' & E' & HQ). exists b, s''.
  unfold mbind, st_bind. by rewrite E.
Qed.

(** The first two of three steps taken together. *)
Lemma swp_bind_assoc {A B C} (m : st S A) (f : A -> st S B) (g : B -> st S C) s Q :
  swp (m ≫= f) s (fun b s' => swp (g b) s' Q) -> swp (m ≫= fun a => f a ≫= g) s Q.
Proof.
  intros (b & s1 & E & H). unfold swp, mbind, st_bind in *.
  destruct (m s) as [[a s0]|]; [|done]. by rewrite E.
Qed.

Lemma swp_mono {A} (m : st S A) s (Q Q' : A -> S -> Prop) :
  swp m s Q -> (forall a s', Q a s' -> Q' a s') -> swp m s Q'.
Proof. intros (a & s' & E & HQ) Himp. exists a, s'. auto. Qed.

Lemma swp_ext {A} (m m' : st S A) s (Q : A -> S -> Prop) : m s = m' s -> swp m' s Q -> swp m s Q.
Proof. intros E (a & s' & E' & H). exists a, s'. by rewrite E. Qed.

Lemma swp_get (s : S) (Q : S -> S -> Prop) : Q s s -> swp sget s Q.
Proof. intros. by exists s, s. Qed.

Lemma swp_get_bind {B} (f : S -> st S B) s Q : swp (f s) s Q -> swp (sget ≫= f) s Q.
Proof. intros. apply swp_bind, swp_get. done. Qed.

Lemma swp_put (s s' : S) (Q : unit -> S -> Prop) : Q tt s' -> swp (sput s') s Q.
Proof. intros. by exists tt, s'. Qed.

Lemma swp_put_bind {B} (f : unit -> st S B) s s' Q : swp (f tt) s' Q -> swp (sput s' ≫= f) s Q.
Proof. intros. apply swp_bind, swp_put. done. Qed.

Lemma swp_lift {A} (r : res A) a s (Q : A -> S -> Prop) : r = Ok a -> Q a s -> swp (slift r) s Q.
Proof. intros -> HQ. by exists a, s. Qed.

Lemma swp_lift_bind {A B} (r : res A) a (f : A -> st S B) s Q :
  r = Ok a -> swp (f a) s Q -> swp (slift r ≫= f) s Q.
Proof. intros Hr HQ. apply swp_bind. by eapply swp_lift. Qed.
End rules.
