(* ===== verification/PageEntry.v ===== *)
(** Page table entries (os/src/mm/page_table.rs, os/src/mm/mod.rs): [MemFlags],
    the VMSAv8-64 descriptor attributes and the entry codec. *)
From S2P Require Import Prelude Address.

(** ** Flags

    A bitflags type is its bits. *)
Module MemFlags.
Definition READ : Z := Z.shiftl 1 0.
Definition WRITE : Z := Z.shiftl 1 1.
Definition EXECUTE : Z := Z.shiftl 1 2.
Definition USER : Z := Z.shiftl 1 3.
Definition DEVICE : Z := Z.shiftl 1 4.
Definition empty : Z := 0.
End MemFlags.

Module DescriptorAttr.
Definition VALID : Z := Z.shiftl 1 0.
Definition NON_BLOCK : Z := Z.shiftl 1 1.
Definition ATTR_INDX : Z := Z.shiftl 7 2.
Definition NS : Z := Z.shiftl 1 5.
Definition AP_EL0 : Z := Z.shiftl 1 6.
Definition AP_RO : Z := Z.shiftl 1 7.
Definition INNER : Z := Z.shiftl 1 8.
Definition SHAREABLE : Z := Z.shiftl 1 9.
Definition AF : Z := Z.shiftl 1 10.
Definition NG : Z := Z.shiftl 1 11.
Definition CONTIGUOUS : Z := Z.shiftl 1 52.
Definition PXN : Z := Z.shiftl 1 53.
Definition UXN : Z := Z.shiftl 1 54.
Definition PXN_TABLE : Z := Z.shiftl 1 59.
Definition XN_TABLE : Z := Z.shiftl 1 60.
Definition AP_NO_EL0_TABLE : Z := Z.shiftl 1 61.
Definition AP_NO_WRITE_TABLE : Z := Z.shiftl 1 62.
Definition NS_TABLE : Z := Z.shiftl 1 63.

(** All declared bits, and [from_bits_truncate]. *)
Definition all : Z :=
  foldr Z.lor 0 [VALID; NON_BLOCK; ATTR_INDX; NS; AP_EL0; AP_RO; INNER; SHAREABLE; AF; NG;
    CONTIGUOUS; PXN; UXN; PXN_TABLE; XN_TABLE; AP_NO_EL0_TABLE; AP_NO_WRITE_TABLE; NS_TABLE].
Definition from_bits_truncate (bits : Z) : Z := Z.land bits all.
End DescriptorAttr.

(** [contains] and [intersects] of bitflags. *)
Definition contains (flags f : Z) : bool := Z.land flags f =? f.
Definition intersects (flags f : Z) : bool := negb (Z.land flags f =? 0).

Inductive MemType := Device | Normal.
#[export] Instance MemType_eq_dec : EqDecision MemType.
Proof. solve_decision. Defined.
Definition MemType_bits (t : MemType) : Z := match t with Device => 0 | Normal => 1 end.

Import DescriptorAttr.

Definition ATTR_INDEX_MASK : Z := 0x1c.
Definition from_mem_type (t : MemType) : Z :=
  let bits := Z.shiftl (MemType_bits t) 2 in
  let bits := match t with Normal => Z.lor bits (Z.lor INNER SHAREABLE) | Device => bits end in
  from_bits_truncate bits.
Definition mem_type (attr : Z) : res MemType :=
  let idx := Z.shiftr (Z.land attr ATTR_INDEX_MASK) 2 in
  if idx =? 0 then Ok Device else if idx =? 1 then Ok Normal else Err Panic.

(** [MemFlags::from(DescriptorAttr)]. *)
Definition flags_of_attr (attr : Z) : res Z :=
  let flags := MemFlags.empty in
  let flags := if contains attr VALID then Z.lor flags MemFlags.READ else flags in
  let flags := if contains attr AP_RO then flags else Z.lor flags MemFlags.WRITE in
  let flags :=
    if contains attr AP_EL0 then
      let flags := Z.lor flags MemFlags.USER in
      if contains attr UXN then flags else Z.lor flags MemFlags.EXECUTE
    else if intersects attr PXN then flags else Z.lor flags MemFlags.EXECUTE in
  t ← mem_type attr;
  Ok (if decide (t = Device) then Z.lor flags MemFlags.DEVICE else flags).

(** [DescriptorAttr::from(MemFlags)]. *)
Definition attr_of_flags (flags : Z) : Z :=
  let attr := if contains flags MemFlags.DEVICE then from_mem_type Device
              else from_mem_type Normal in
  let attr := if contains flags MemFlags.READ then Z.lor attr VALID else attr in
  let attr := if contains flags MemFlags.WRITE then attr else Z.lor attr AP_RO in
  if contains flags MemFlags.USER then
    let attr := Z.lor attr (Z.lor AP_EL0 PXN) in
    if contains flags MemFlags.EXECUTE then attr else Z.lor attr UXN
  else
    let attr := Z.lor attr UXN in
    if contains flags MemFlags.EXECUTE then attr else Z.lor attr PXN.

(** ** Entries *)

Definition PHYS_ADDR_MASK : Z := Z.land PA_MAX (usize_not (PAGE_SIZE - 1)).
Definition pte_new_page (paddr flags : Z) (is_block : bool) : Z :=
  let attr := Z.lor (attr_of_flags flags) AF in
  let attr := if is_block then attr else Z.lor attr NON_BLOCK in
  Z.lor attr (Z.land paddr PHYS_ADDR_MASK).
Definition pte_new_table (paddr : Z) : Z :=
  Z.lor (Z.lor NON_BLOCK VALID) (Z.land paddr PHYS_ADDR_MASK).
Definition pte_paddr (e : Z) : Z := PhysAddr_new (Z.land e PHYS_ADDR_MASK).
Definition pte_flags (e : Z) : res Z := flags_of_attr (from_bits_truncate e).
Definition is_unused (e : Z) : bool := e =? 0.
Definition is_present (e : Z) : bool := contains (from_bits_truncate e) VALID.
Definition is_block (e : Z) : bool := negb (contains (from_bits_truncate e) NON_BLOCK).

(** ** The codec is lossless *)

(** The attribute bits and the address bits are disjoint. *)
Lemma masks_disjoint : Z.land all PHYS_ADDR_MASK = 0.
Proof. reflexivity. Qed.

Lemma pte_attr attr paddr :
  Z.land attr all = attr ->
  from_bits_truncate (Z.lor attr (Z.land paddr PHYS_ADDR_MASK)) = attr /\
  Z.land (Z.lor attr (Z.land paddr PHYS_ADDR_MASK)) PHYS_ADDR_MASK = Z.land paddr PHYS_ADDR_MASK.
Proof.
  intros Ha. unfold from_bits_truncate. rewrite !Z.land_lor_distr_l, Ha. split.
  - rewrite <- Z.land_assoc, (Z.land_comm PHYS_ADDR_MASK), masks_disjoint, Z.land_0_r. apply Z.lor_0_r.
  - rewrite <- Ha, <- (Z.land_assoc attr), masks_disjoint, Z.land_0_r, Z.lor_0_l.
    by rewrite <- Z.land_assoc, Z.land_diag.
Qed.

Lemma phys_mask_eq pa : 0 <= pa < 2 ^ 40 -> pa `mod` 4096 = 0 ->
  Z.land pa PHYS_ADDR_MASK = pa /\ PhysAddr_new pa = pa.
Proof.
  intros Hpa Hm. split; [|by apply PhysAddr_new_eq].
  unfold PHYS_ADDR_MASK. rewrite Z.land_assoc. fold (PhysAddr_new pa). rewrite PhysAddr_new_eq by done.
  change (align_down pa PAGE_SIZE = pa). rewrite align_down_eq by lia.
  pose proof (Z.div_mod pa 4096). lia.
Qed.

(** The 32 combinations of flags. *)
Definition is_flags (f : Z) : Prop := 0 <= f < 32.

Lemma flags_cases (P : Z -> Prop) :
  Forall P (Z.of_nat <$> seq 0 32) -> forall f, is_flags f -> P f.
Proof.
  intros H f Hf. rewrite Forall_forall in H. apply H. unfold is_flags in Hf.
  apply list_elem_of_fmap. exists (Z.to_nat f). rewrite elem_of_seq. lia.
Qed.

Definition page_attr (flags : Z) (block : bool) : Z :=
  let attr := Z.lor (attr_of_flags flags) AF in if block then attr else Z.lor attr NON_BLOCK.

Lemma page_attr_ok flags block : is_flags flags ->
  Z.land (page_attr flags block) all = page_attr flags block /\
  flags_of_attr (page_attr flags block) = Ok flags /\
  contains (page_attr flags block) VALID = contains flags MemFlags.READ /\
  contains (page_attr flags block) NON_BLOCK = negb block /\ Z.testbit (page_attr flags block) 10 = true.
Proof.
  revert flags. apply flags_cases. destruct block; repeat constructor.
Qed.

Lemma pte_page flags paddr :
  is_flags flags -> 0 <= paddr < 2 ^ 40 -> paddr `mod` 4096 = 0 ->
  let e := pte_new_page paddr flags false in
  pte_flags e = Ok flags /\ pte_paddr e = paddr /\ is_unused e = false /\ is_block e = false /\
  is_present e = contains flags MemFlags.READ.
Proof.
  intros Hf Hp Hm e. destruct (page_attr_ok flags false Hf) as (Ha & Hfl & Hv & Hb & Hbit).
  destruct (phys_mask_eq paddr Hp Hm) as [Hmask Hnew].
  assert (e = Z.lor (page_attr flags false) (Z.land paddr PHYS_ADDR_MASK)) as Ee by done.
  destruct (pte_attr (page_attr flags false) paddr Ha) as [H1 H2]. rewrite <- Ee in H1, H2.
  unfold pte_flags, pte_paddr, is_block, is_present, is_unused. rewrite H1, H2, Hmask, Hnew, Hv, Hb.
  split_and!; try done. apply Z.eqb_neq. intros E0. rewrite Ee in E0.
  apply (f_equal (fun z => Z.testbit z 10)) in E0. rewrite Z.lor_spec, Hbit in E0. done.
Qed.

Lemma pte_table paddr :
  0 <= paddr < 2 ^ 40 -> paddr `mod` 4096 = 0 ->
  let e := pte_new_table paddr in
  is_unused e = false /\ is_present e = true /\ is_block e = false /\ pte_paddr e = paddr /\ 0 <= e < 2 ^ 64.
Proof.
  intros Hp Hm e. destruct (phys_mask_eq paddr Hp Hm) as [Hmask Hnew].
  assert (e = Z.lor 3 (Z.land paddr PHYS_ADDR_MASK)) as Ee by done.
  destruct (pte_attr 3 paddr eq_refl) as [H1 H2]. rewrite <- Ee in H1, H2.
  unfold is_unused, is_present, is_block, pte_paddr. rewrite H1, H2, Hmask, Hnew. rewrite Hmask in Ee.
  assert (0 <= e) by (rewrite Ee; apply Z.lor_nonneg; lia).
  split_and!; try done.
  - apply Z.eqb_neq. intros E0. rewrite Ee in E0. apply Z.lor_eq_0_iff in E0. lia.
  - apply Z.log2_lt_cancel. rewrite Ee, Z.log2_lor, Z.log2_pow2 by lia.
    destruct (decide (paddr = 0)) as [->|]; [simpl; lia|].
    assert (Z.log2 paddr < 64) by (apply Z.log2_lt_pow2; lia). simpl. lia.
Qed.

Lemma pte_page_range flags paddr :
  is_flags flags -> 0 <= paddr < 2 ^ 40 -> 0 <= pte_new_page paddr flags false < 2 ^ 64.
Proof.
  intros Hf Hp. change (pte_new_page paddr flags false) with
    (Z.lor (page_attr flags false) (Z.land paddr PHYS_ADDR_MASK)).
  assert (0 <= page_attr flags false < 2 ^ 64) as Ha.
  { revert flags Hf. apply flags_cases. repeat constructor; vm_compute; congruence. }
  assert (0 <= Z.land paddr PHYS_ADDR_MASK < 2 ^ 64) as Hb.
  { unfold PHYS_ADDR_MASK. rewrite Z.land_assoc. fold (PhysAddr_new paddr). rewrite PhysAddr_new_eq by done.
    change (0 <= align_down paddr PAGE_SIZE < 2 ^ 64). rewrite align_down_eq by lia.
    pose proof (Z.div_mod paddr 4096). pose proof (Z.mod_pos_bound paddr 4096). lia. }
  split; [apply Z.lor_nonneg; lia|].
  set (x := page_attr flags false) in *. set (y := Z.land paddr PHYS_ADDR_MASK) in *.
  apply Z.log2_lt_cancel. rewrite Z.log2_lor, Z.log2_pow2 by lia.
  destruct (decide (x = 0)) as [->|], (decide (y = 0)) as [->|]; simpl; try lia;
    repeat match goal with H : ?z <> 0 |- _ =>
      assert (Z.log2 z < 64) by (apply Z.log2_lt_pow2; lia); clear H end; lia.
Qed.

(** A page table entry is a lossless encoding: for every combination of
    the five memory flags and every page-aligned 40-bit address, the entry
    [new_page] builds gives back the same flags and address, is in use, is
    no block, and is valid for the hardware exactly when [READ] is among the
    flags; a table entry gives its address back and is present. *)
Theorem page_entry_roundtrip flags paddr :
  is_flags flags -> 0 <= paddr < 2 ^ 40 -> paddr `mod` 4096 = 0 ->
  let e := pte_new_page paddr flags false in
  let t := pte_new_table paddr in
  pte_flags e = Ok flags /\ pte_paddr e = paddr /\ is_unused e = false /\ is_block e = false /\
  is_present e = contains flags MemFlags.READ /\ 0 <= e < 2 ^ 64 /\
  pte_paddr t = paddr /\ is_present t = true /\ is_block t = false /\ 0 <= t < 2 ^ 64.
Proof.
  intros Hf Hp Hm e t. destruct (pte_page flags paddr Hf Hp Hm) as (? & ? & ? & ? & ?).
  destruct (pte_table paddr Hp Hm) as (? & ? & ? & ? & ?).
  pose proof (pte_page_range flags paddr Hf Hp). auto 20.
Qed.

Lemma page_entry_roundtrip_witness :
  pte_flags (pte_new_page 0x40090000 11 false) = Ok 11 /\
  pte_paddr (pte_new_page 0x40090000 11 false) = 0x40090000.
Proof.
  destruct (page_entry_roundtrip 11 0x40090000) as (H1 & H2 & _);
    [split; reflexivity || discriminate|split; reflexivity || discriminate|reflexivity|].
  split; [exact H1|exact H2].
Defined.
