(* ===== verification/PageTable.v ===== *)
(** Page tables (os/src/mm/page_table.rs) in physical memory, and the physical
    frames they are made of (os/src/mm/frame_allocator.rs).

    Memory is a map from frame numbers to the 4096 bytes of the frame; a
    table is a frame read as 512 little-endian 64-bit words.  The invariant
    [pt_inv] describes the tables as a tree: [T] maps a path of indices from
    the root to the frame of the table it leads to.  The tree makes the
    four-level walk a map from pages to entries. *)
From S2P Require Import Prelude ByteCodec Address Allocator State PageEntry.

From Stdlib Require Import ZifyNat.
#[local] Ltac Zify.zify_post_hook ::= Z.to_euclidean_division_equations.

Definition ENTRY_COUNT : Z := 512.

Record Mem := mkMem {
  frames : FreeListAllocator;
  ram : gmap Z (list Z);
}.

(** ** Physical frames

    A [PhysFrame] is its start address. *)
Definition frame_alloc : st Mem (option Z) := fun m =>
  let '(o, a) := FreeList_alloc (frames m) in
  Ok (option_map (fun value => PhysAddr_new (value * PAGE_SIZE)) o, mkMem a (ram m)).

(** Access to a whole frame through the linear map. *)
Definition read_frame (pa : Z) : st Mem (list Z) := fun m =>
  _ ← into_kvaddr pa;
  match ram m !! (pa / PAGE_SIZE) with
  | Some l => Ok (l, m)
  | None => Err Undefined
  end.
Definition write_frame (pa : Z) (l : list Z) : st Mem unit := fun m =>
  _ ← into_kvaddr pa;
  match ram m !! (pa / PAGE_SIZE) with
  | Some _ => Ok (tt, mkMem (frames m) (<[pa / PAGE_SIZE := l]> (ram m)))
  | None => Err Undefined
  end.

Definition frame_alloc_zero : st Mem (option Z) :=
  o ← frame_alloc;
  match o with
  | Some pa => _ ← write_frame pa (replicate (Z.to_nat PAGE_SIZE) 0); mret (Some pa)
  | None => mret None
  end.

(** [Drop for PhysFrame]. *)
Definition frame_drop (pa : Z) : st Mem unit := fun m =>
  a ← FreeList_dealloc (frames m) (pa / PAGE_SIZE);
  Ok (tt, mkMem a (ram m)).

(** ** Tables *)

Record PageTable := mkPT { root_paddr : Z; intrm_tables : list Z }.

Definition p4_index (va : Z) : Z := Z.land (Z.shiftr va (12 + 27)) (ENTRY_COUNT - 1).
Definition p3_index (va : Z) : Z := Z.land (Z.shiftr va (12 + 18)) (ENTRY_COUNT - 1).
Definition p2_index (va : Z) : Z := Z.land (Z.shiftr va (12 + 9)) (ENTRY_COUNT - 1).
Definition p1_index (va : Z) : Z := Z.land (Z.shiftr va 12) (ENTRY_COUNT - 1).

(** [table_of(pa)[i]] and [table_of_mut(pa)[i] = e]. *)
Definition read_entry (pa i : Z) : st Mem Z :=
  l ← read_frame pa;
  slift (vget (words 8 512 l) i).
Definition write_entry (pa i e : Z) : st Mem unit :=
  l ← read_frame pa;
  ws ← slift (vset (words 8 512 l) i e);
  write_frame pa (unwords 8 ws).

(** The address of the table an entry points to. *)
Definition next_table_mut (e : Z) : res (option Z) :=
  if negb (is_present e) then Ok None else
  _ ← rassert (negb (is_block e));
  Ok (Some (pte_paddr e)).

Definition alloc_intrm_table (pt : PageTable) : st Mem (Z * PageTable) :=
  o ← frame_alloc_zero;
  paddr ← slift (unwrap o);
  mret (paddr, mkPT (root_paddr pt) (intrm_tables pt ++ [paddr])).

(** The entry is entry [i] of the table at [pa]. *)
Definition next_table_mut_or_create (pt : PageTable) (pa i : Z) : st Mem (option Z * PageTable) :=
  e ← read_entry pa i;
  if is_unused e then
    '(paddr, pt) ← alloc_intrm_table pt;
    _ ← write_entry pa i (pte_new_table paddr);
    mret (Some paddr, pt)
  else
    o ← slift (next_table_mut e);
    mret (o, pt).

Definition PageTable_new : st Mem PageTable :=
  o ← frame_alloc_zero;
  root_frame ← slift (unwrap o);
  mret (mkPT root_frame [root_frame]).

(** The location of the last-level entry: table address and index. *)
Definition get_entry_mut (pt : PageTable) (va : Z) : st Mem (option (Z * Z)) :=
  p4e ← read_entry (root_paddr pt) (p4_index va);
  o3 ← slift (next_table_mut p4e);
  match o3 with
  | None => mret None
  | Some p3 =>
      p3e ← read_entry p3 (p3_index va);
      o2 ← slift (next_table_mut p3e);
      match o2 with
      | None => mret None
      | Some p2 =>
          p2e ← read_entry p2 (p2_index va);
          o1 ← slift (next_table_mut p2e);
          match o1 with
          | None => mret None
          | Some p1 => mret (Some (p1, p1_index va))
          end
      end
  end.

Definition get_entry_mut_or_create (pt : PageTable) (va : Z) : st Mem (option (Z * Z) * PageTable) :=
  '(o3, pt) ← next_table_mut_or_create pt (root_paddr pt) (p4_index va);
  match o3 with
  | None => mret (None, pt)
  | Some p3 =>
      '(o2, pt) ← next_table_mut_or_create pt p3 (p3_index va);
      match o2 with
      | None => mret (None, pt)
      | Some p2 =>
          '(o1, pt) ← next_table_mut_or_create pt p2 (p2_index va);
          match o1 with
          | None => mret (None, pt)
          | Some p1 => mret (Some (p1, p1_index va), pt)
          end
      end
  end.

Definition PageTable_map (pt : PageTable) (va pa flags : Z) : st Mem PageTable :=
  '(o, pt) ← get_entry_mut_or_create pt va;
  '(t, i) ← slift (unwrap o);
  e ← read_entry t i;
  if negb (is_unused e) then slift (Err Panic) else
  _ ← write_entry t i (pte_new_page (align_down pa PAGE_SIZE) flags false);
  mret pt.

Definition PageTable_unmap (pt : PageTable) (va : Z) : st Mem unit :=
  o ← get_entry_mut pt va;
  '(t, i) ← slift (unwrap o);
  e ← read_entry t i;
  if is_unused e then slift (Err Panic) else write_entry t i 0.

Definition PageTable_query (pt : PageTable) (va : Z) : st Mem (option (Z * Z)) :=
  o ← get_entry_mut pt va;
  match o with
  | None => mret None
  | Some (t, i) =>
      e ← read_entry t i;
      if is_unused e then mret None else
      let off := page_offset va PAGE_SIZE in
      flags ← slift (pte_flags e);
      mret (Some (PhysAddr_new (pte_paddr e + off), flags))
  end.

(** Dropping the table drops its frames in order. *)
Fixpoint drop_frames (l : list Z) : st Mem unit :=
  match l with
  | [] => mret tt
  | pa :: l => _ ← frame_drop pa; drop_frames l
  end.
Definition PageTable_drop (pt : PageTable) : st Mem unit := drop_frames (intrm_tables pt).

(** ** Frames of memory *)

Definition is_page (l : list Z) : Prop := Zlength l = PAGE_SIZE /\ bytes_ok l.
Abbreviation zero_page := (replicate 4096 0).

Record mem_ok (m : Mem) : Prop := {
  mo_free : free_ok (frames m);
  mo_range : range_end (frames m) <= 2 ^ 28;
  mo_ram f : range_start (frames m) <= f < range_end (frames m) -> is_Some (ram m !! f);
  mo_page : map_Forall (fun _ => is_page) (ram m);
}.

Abbreviation used m := (outstanding (frames m)).
Abbreviation spare m := (avail (frames m)).

Lemma used_frame m f : mem_ok m -> f ∈ used m -> 0 <= f < 2 ^ 28 /\ exists l, ram m !! f = Some l /\ is_page l.
Proof.
  intros [Hf Hr Hram Hp] Hin. apply elem_of_outstanding in Hin as [Hin _]. destruct Hf as [H1 H2 _ _].
  split; [lia|]. destruct (Hram f) as [l Hl]; [lia|]. exists l. split; [done|]. by apply (Hp f).
Qed.

Lemma zero_page_ok : is_page zero_page.
Proof. split; [done|]. apply Forall_replicate. unfold is_byte. lia. Qed.

(** [m'] is [m] with the fresh frame [f] taken and filled with [l]. *)
Record took (m : Mem) (f : Z) (l : list Z) (m' : Mem) : Prop := {
  tk_fresh : f ∉ used m;
  tk_used : used m' = {[f]} ∪ used m;
  tk_left : spare m' = spare m - 1;
  tk_ok : mem_ok m';
  tk_ram : ram m' = <[f := l]> (ram m);
}.

Lemma frame_addr f : 0 <= f < 2 ^ 28 -> PhysAddr_new (f * PAGE_SIZE) = f * 4096 /\ f * 4096 / 4096 = f /\
  exists kv, into_kvaddr (f * 4096) = Ok kv.
Proof.
  intros Hf. unfold PAGE_SIZE. rewrite PhysAddr_new_eq by lia. split_and!; [done|lia|].
  eexists. apply into_kvaddr_ok. lia.
Qed.

Lemma write_frame_spec m f l l0 : 0 <= f < 2 ^ 28 -> ram m !! f = Some l0 ->
  write_frame (f * 4096) l m = Ok (tt, mkMem (frames m) (<[f := l]> (ram m))).
Proof.
  intros Hf Hl. destruct (frame_addr f Hf) as (_ & E & kv & Hkv). unfold write_frame.
  rewrite Hkv. cbn [mbind res_bind]. unfold PAGE_SIZE. by rewrite E, Hl.
Qed.

Lemma read_frame_spec m f l : 0 <= f < 2 ^ 28 -> ram m !! f = Some l ->
  read_frame (f * 4096) m = Ok (l, m).
Proof.
  intros Hf Hl. destruct (frame_addr f Hf) as (_ & E & kv & Hkv). unfold read_frame.
  rewrite Hkv. cbn [mbind res_bind]. unfold PAGE_SIZE. by rewrite E, Hl.
Qed.

Lemma frame_alloc_spec m : mem_ok m -> 0 < spare m ->
  swp frame_alloc m (fun o m' => exists f l, o = Some (f * 4096) /\ 0 <= f < 2 ^ 28 /\
    ram m !! f = Some l /\ took m f l m').
Proof.
  intros [Hf Hr Hram Hp] Hleft. unfold swp, frame_alloc.
  pose proof (FreeList_alloc_spec _ Hf) as Hs. pose proof (FreeList_alloc_avail _ Hf) as Ha.
  destruct (FreeList_alloc (frames m)) as [[f|] a]; [|lia].
  destruct Hs as (Hf' & Hfresh & Hout & Hrange & Es & Ee). destruct (Hram f Hrange) as [l Hl].
  assert (0 <= f < 2 ^ 28) as Hfr by (destruct Hf; lia).
  destruct (frame_addr f Hfr) as (Eaddr & _). cbn [option_map]. rewrite Eaddr.
  eexists _, _. split; [done|]. exists f, l. split_and!; [done|lia|lia|done|].
  split; cbn [frames ram]; auto.
  - split; cbn [frames ram]; auto; rewrite ?Es, ?Ee; auto.
  - symmetry. by apply insert_id.
Qed.

(** Filling a frame just taken. *)
Lemma took_fill m f l l' m' : took m f l m' -> is_page l' ->
  took m f l' (mkMem (frames m') (<[f := l']> (ram m'))).
Proof.
  intros [H1 H2 H3 [F R Ra P] H5] Hl'. split; cbn [frames ram]; auto.
  - split; cbn [frames ram]; auto.
    + intros g Hg. destruct (decide (g = f)) as [->|]; [rewrite lookup_insert_eq; eauto|].
      rewrite lookup_insert_ne by done. auto.
    + by apply map_Forall_insert_2.
  - by rewrite H5, insert_insert_eq.
Qed.

Lemma frame_alloc_zero_spec m : mem_ok m -> 0 < spare m ->
  swp frame_alloc_zero m (fun o m' => exists f, o = Some (f * 4096) /\ 0 <= f < 2 ^ 28 /\
    took m f zero_page m').
Proof.
  intros Hm Hleft. apply swp_bind. eapply swp_mono; [by apply frame_alloc_spec|].
  intros o m1 (f & l & -> & Hf & Hl & Ht). cbn beta iota.
  assert (ram m1 !! f = Some l) as Hl1 by (rewrite (tk_ram _ _ _ _ Ht); apply lookup_insert_eq).
  apply swp_bind. exists tt. eexists. split; [by eapply write_frame_spec|].
  apply swp_ret. exists f. split_and!; [done|lia|lia|]. by eapply took_fill, zero_page_ok.
Qed.

(** ** Entries of tables *)

Definition entry_of (m : Mem) (f i : Z) : option Z :=
  l ← ram m !! f; words 8 512 l !! Z.to_nat i.

Definition set_entry (m : Mem) (f i e : Z) : Mem :=
  match ram m !! f with
  | Some l => mkMem (frames m) (<[f := unwords 8 (<[Z.to_nat i := e]> (words 8 512 l))]> (ram m))
  | None => m
  end.

Lemma page_words l : is_page l -> length (words 8 512 l) = 512%nat /\ words_ok 8 (words 8 512 l).
Proof.
  intros [Hl Hb]. split; [apply length_words|]. apply words_words_ok; [done|]. unfold PAGE_SIZE in Hl. lia.
Qed.

Lemma read_entry_spec m f i e (Q : Z -> Mem -> Prop) :
  0 <= f < 2 ^ 28 -> entry_of m f i = Some e -> Q e m -> swp (read_entry (f * 4096) i) m Q.
Proof.
  intros Hf He HQ. unfold entry_of in He. apply bind_Some in He as (l & Hl & He).
  apply swp_bind. exists l, m. split; [by apply read_frame_spec|]. eapply swp_lift; [by apply vget_Ok|done].
Qed.

Lemma unwords_page ws : length ws = 512%nat -> is_page (unwords 8 ws).
Proof. intros Hl. split; [by rewrite length_unwords, Hl|apply unwords_ok]. Qed.

Lemma write_entry_spec m f i e l (Q : unit -> Mem -> Prop) :
  0 <= f < 2 ^ 28 -> ram m !! f = Some l -> 0 <= i < 512 -> Q tt (set_entry m f i e) ->
  swp (write_entry (f * 4096) i e) m Q.
Proof.
  intros Hf Hl Hi HQ. apply swp_bind. exists l, m. split; [by apply read_frame_spec|].
  eapply swp_lift_bind; [apply vset_lt; rewrite length_words; lia|].
  eexists tt, _. split; [by eapply write_frame_spec|]. unfold set_entry in HQ. by rewrite Hl in HQ.
Qed.

Lemma entry_of_set m f i e f' i' l :
  ram m !! f = Some l -> is_page l -> 0 <= i < 512 -> 0 <= i' -> is_word 8 e ->
  entry_of (set_entry m f i e) f' i' =
  if decide (f' = f /\ i' = i) then Some e else entry_of m f' i'.
Proof.
  intros Hl Hp Hi Hi' He. destruct (page_words l Hp) as [Hlen Hok].
  unfold entry_of, set_entry. rewrite Hl. cbn [ram]. destruct (decide (f' = f)) as [->|Hne].
  - rewrite lookup_insert_eq, Hl. cbn [mbind option_bind].
    rewrite words_unwords_exact; [|by rewrite length_insert|by apply Forall_insert].
    destruct (decide (i' = i)) as [->|Hni].
    + rewrite decide_True by done. apply list_lookup_insert_eq. lia.
    + rewrite decide_False by tauto. apply list_lookup_insert_ne. lia.
  - rewrite decide_False by tauto. by rewrite lookup_insert_ne.
Qed.

Lemma set_entry_ok m f i e l :
  mem_ok m -> ram m !! f = Some l -> mem_ok (set_entry m f i e) /\
  frames (set_entry m f i e) = frames m /\
  (forall g, g <> f -> ram (set_entry m f i e) !! g = ram m !! g) /\
  exists l', ram (set_entry m f i e) !! f = Some l' /\ is_page l'.
Proof.
  intros [F R Ra P] Hl. unfold set_entry. rewrite Hl. cbn [frames ram].
  assert (is_page (unwords 8 (<[Z.to_nat i := e]> (words 8 512 l)))) as Hpg.
  { apply unwords_page. rewrite length_insert. apply length_words. }
  split_and!; [|done| |].
  - split; cbn [frames ram]; auto.
    + intros g Hg. destruct (decide (g = f)) as [->|]; [rewrite lookup_insert_eq; eauto|].
      rewrite lookup_insert_ne by done. auto.
    + by apply map_Forall_insert_2.
  - intros g Hg. by rewrite lookup_insert_ne.
  - eexists. rewrite lookup_insert_eq. split; [done|exact Hpg].
Qed.

Lemma zero_page_entry m f i :
  ram m !! f = Some zero_page -> 0 <= i < 512 -> entry_of m f i = Some 0.
Proof.
  intros Hl Hi. unfold entry_of. rewrite Hl. cbn [mbind option_bind].
  assert (words 8 512 zero_page = replicate 512 0) as -> by (by vm_compute).
  apply lookup_replicate_2. lia.
Qed.

(** ** The tree of tables *)

Definition vpath (va : Z) : list Z := [p4_index va; p3_index va; p2_index va].

Abbreviation tree := (gmap (list Z) Z).

(** What entry [i] of the table at path [p] must be. *)
Definition table_entry (T : tree) (p : list Z) (i : Z) : Z :=
  match T !! (p ++ [i]) with Some g => pte_new_table (g * 4096) | None => 0 end.

Record pt_inv (m : Mem) (pt : PageTable) (T : tree) : Prop := {
  pi_root : exists r, T !! [] = Some r /\ root_paddr pt = r * 4096;
  pi_path p f : T !! p = Some f -> (length p <= 3)%nat /\ f ∈ used m;
  pi_entry p f i : T !! p = Some f -> (length p < 3)%nat -> 0 <= i < 512 ->
    entry_of m f i = Some (table_entry T p i);
  pi_inj p q f : T !! p = Some f -> T !! q = Some f -> p = q;
  pi_closed p i : is_Some (T !! (p ++ [i])) -> is_Some (T !! p);
  pi_tables : intrm_tables pt ≡ₚ (fun f => f * 4096) <$> (map_to_list T).*2;
}.

(** The last-level entry of [va]: zero when a table on the way is missing. *)
Definition leaf (m : Mem) (T : tree) (va : Z) : Z :=
  match T !! vpath va with
  | Some f => default 0 (entry_of m f (p1_index va))
  | None => 0
  end.

Lemma index_range va :
  0 <= p4_index va < 512 /\ 0 <= p3_index va < 512 /\ 0 <= p2_index va < 512 /\ 0 <= p1_index va < 512.
Proof.
  unfold p4_index, p3_index, p2_index, p1_index. change (ENTRY_COUNT - 1) with (Z.ones 9).
  rewrite !Z.land_ones by lia. change (2 ^ 9) with 512. lia.
Qed.

(** Virtual page numbers are what the four indices hold. *)
Definition vpn (va : Z) : Z := (va / 4096) `mod` 2 ^ 36.

Lemma index_eq va : 0 <= va ->
  p4_index va = (va / 4096 / 2 ^ 27) `mod` 512 /\ p3_index va = (va / 4096 / 2 ^ 18) `mod` 512 /\
  p2_index va = (va / 4096 / 512) `mod` 512 /\ p1_index va = (va / 4096) `mod` 512.
Proof.
  intros Hva. unfold p4_index, p3_index, p2_index, p1_index. change (ENTRY_COUNT - 1) with (Z.ones 9).
  rewrite !Z.land_ones, !Z.shiftr_div_pow2 by lia. change (2 ^ 9) with 512.
  rewrite (Z.div_div va 4096 (2 ^ 27)), (Z.div_div va 4096 (2 ^ 18)), (Z.div_div va 4096 512) by done. done.
Qed.

Lemma same_page va va' : 0 <= va -> 0 <= va' ->
  (vpath va = vpath va' /\ p1_index va = p1_index va') <-> vpn va = vpn va'.
Proof.
  intros H1 H2. unfold vpath, vpn. destruct (index_eq va H1) as (-> & -> & -> & ->).
  destruct (index_eq va' H2) as (-> & -> & -> & ->).
  generalize (va / 4096) (va' / 4096). clear. intros x y. split.
  - intros [[= E4 E3 E2] E1]. rewrite <- !Z.land_ones by lia. apply Z.bits_inj'. intros n Hn.
    rewrite !Z.land_spec. destruct (decide (n < 36)).
    2:{ rewrite Z.ones_spec_high by lia. by rewrite !andb_false_r. }
    rewrite Z.ones_spec_low, !andb_true_r by lia.
    assert (forall k, (x / 2 ^ k) `mod` 512 = (y / 2 ^ k) `mod` 512 -> 0 <= k <= n -> n < k + 9 ->
      Z.testbit x n = Z.testbit y n) as Hk.
    { intros k Ek Hk1 Hk2. change 512 with (2 ^ 9) in Ek.
      rewrite <- !Z.shiftr_div_pow2, <- !Z.land_ones in Ek by lia.
      apply (f_equal (fun z => Z.testbit z (n - k))) in Ek.
      rewrite !Z.land_spec, !Z.shiftr_spec, Z.ones_spec_low, !andb_true_r in Ek by lia.
      by replace (n - k + k) with n in Ek by lia. }
    destruct (decide (n < 9)), (decide (n < 18)), (decide (n < 27)); try lia.
    + apply (Hk 0); [|lia|lia]. by rewrite !Z.div_1_r.
    + by apply (Hk 9); [|lia|lia].
    + by apply (Hk 18); [|lia|lia].
    + by apply (Hk 27); [|lia|lia].
  - intros E. assert (forall k, 0 <= k <= 27 -> (x / 2 ^ k) `mod` 512 = (y / 2 ^ k) `mod` 512) as Hk.
    { intros k Hk. change 512 with (2 ^ 9). rewrite <- !Z.shiftr_div_pow2, <- !Z.land_ones by lia.
      rewrite <- !Z.land_ones in E by lia. apply Z.bits_inj'. intros n Hn.
      rewrite !Z.land_spec, !Z.shiftr_spec by lia. destruct (decide (n < 9)).
      - apply (f_equal (fun z => Z.testbit z (n + k))) in E. rewrite !Z.land_spec in E.
        rewrite Z.ones_spec_low in E by lia. rewrite !andb_true_r in E. by rewrite E.
      - rewrite Z.ones_spec_high by lia. by rewrite !andb_false_r. }
    pose proof (Hk 27 ltac:(lia)). pose proof (Hk 18 ltac:(lia)). pose proof (Hk 9 ltac:(lia)).
    pose proof (Hk 0 ltac:(lia)) as Hk0. rewrite !Z.div_1_r in Hk0. change (2 ^ 9) with 512 in *.
    split; [congruence|done].
Qed.

Section walk.
Context (m : Mem) (pt : PageTable) (T : tree).
Hypothesis (Hm : mem_ok m) (I : pt_inv m pt T).

(** Following one entry. *)
Lemma walk_step p f i :
  T !! p = Some f -> (length p < 3)%nat -> 0 <= i < 512 ->
  swp (read_entry (f * 4096) i) m (fun e m' => m' = m /\
    next_table_mut e = Ok ((fun g => g * 4096) <$> T !! (p ++ [i]))).
Proof.
  intros Hp Hlen Hi. destruct (pi_path _ _ _ I _ _ Hp) as [_ Hu].
  destruct (used_frame m f Hm Hu) as [Hf _].
  eapply read_entry_spec; [done|by apply I|]. split; [done|]. unfold table_entry.
  destruct (T !! (p ++ [i])) as [g|] eqn:Hg; [|done].
  destruct (used_frame m g Hm) as [Hgr _]; [by eapply (pi_path _ _ _ I)|].
  destruct (pte_table (g * 4096)) as (_ & Hpres & Hblk & Hpa & _); [lia|lia|].
  unfold next_table_mut. rewrite Hpres, Hblk. cbn. by rewrite Hpa.
Qed.

Lemma get_entry_mut_spec va :
  swp (get_entry_mut pt va) m (fun r m' => m' = m /\
    r = (fun f => (f * 4096, p1_index va)) <$> T !! vpath va).
Proof.
  destruct (index_range va) as (R4 & R3 & R2 & _). destruct (pi_root _ _ _ I) as (r & Hr & Er).
  unfold get_entry_mut. rewrite Er. unfold vpath.
  assert (forall p i j, T !! (p ++ [i]) = None -> T !! ((p ++ [i]) ++ [j]) = None) as Hnone.
  { intros p i j H0. apply eq_None_not_Some. intros Hs%(pi_closed _ _ _ I). rewrite H0 in Hs. by destruct Hs. }
  apply swp_bind. eapply swp_mono; [apply (walk_step [] r); [done|simpl; lia|done]|]. intros e4 ? [-> E4].
  eapply swp_lift_bind; [exact E4|]. simpl app.
  destruct (T !! [p4_index va]) as [f3|] eqn:H3; cbn [fmap option_fmap option_map].
  2:{ apply swp_ret. assert (T !! [p4_index va; p3_index va; p2_index va] = None) as ->; [|done].
      exact (Hnone [p4_index va] _ _ (Hnone [] _ _ H3)). }
  apply swp_bind. eapply swp_mono; [apply (walk_step [p4_index va] f3); [done|simpl; lia|done]|].
  intros e3 ? [-> E3]. eapply swp_lift_bind; [exact E3|]. simpl app.
  destruct (T !! [p4_index va; p3_index va]) as [f2|] eqn:H2; cbn [fmap option_fmap option_map].
  2:{ apply swp_ret. assert (T !! [p4_index va; p3_index va; p2_index va] = None) as ->; [|done].
      exact (Hnone [p4_index va] _ _ H2). }
  apply swp_bind. eapply swp_mono; [apply (walk_step [p4_index va; p3_index va] f2); [done|simpl; lia|done]|].
  intros e2 ? [-> E2]. eapply swp_lift_bind; [exact E2|]. simpl app.
  by destruct (T !! [p4_index va; p3_index va; p2_index va]) as [f1|] eqn:H1; apply swp_ret.
Qed.
End walk.

(** ** Growing the tree *)

(** [T] grew to [T'] by fresh zeroed tables; no mapping changed. *)
Record pt_ext (m : Mem) (pt : PageTable) (T : tree) (m' : Mem) (pt' : PageTable) (T' : tree) : Prop := {
  px_inv : pt_inv m' pt' T';
  px_ok : mem_ok m';
  px_sub : T ⊆ T';
  px_leaf va : leaf m' T' va = leaf m T va;
  px_used f : f ∈ used m' <-> f ∈ used m \/ exists p, T' !! p = Some f;
  px_ram f : f ∈ used m -> (forall p, T !! p <> Some f) -> ram m' !! f = ram m !! f;
  px_fresh p f : T' !! p = Some f -> f ∈ used m -> T !! p = Some f;
  px_spare : spare m' + Z.of_nat (size T') = spare m + Z.of_nat (size T);
  px_root : root_paddr pt' = root_paddr pt;
}.

Lemma pt_ext_refl m pt T : pt_inv m pt T -> mem_ok m -> pt_ext m pt T m pt T.
Proof.
  intros I Hm. split; auto. intros f. split; [by left|]. intros [?|[p Hp]]; [done|]. by apply (pi_path _ _ _ I p).
Qed.

Lemma pt_ext_trans m pt T m1 pt1 T1 m2 pt2 T2 :
  pt_ext m pt T m1 pt1 T1 -> pt_ext m1 pt1 T1 m2 pt2 T2 -> pt_ext m pt T m2 pt2 T2.
Proof.
  intros [I1 O1 S1 L1 U1 R1 F1 P1 E1] [I2 O2 S2 L2 U2 R2 F2 P2 E2].
  split; auto; try congruence; try lia.
  - by etrans.
  - intros f. rewrite U2, U1. split; [|naive_solver].
    intros [[?|[p Hp]]|[p Hp]]; [by left| |by right; exists p].
    right. exists p. by eapply lookup_weaken.
  - intros f Hf Hn. rewrite R2; [by apply R1|apply U1; by left|].
    intros p Hp. apply (Hn p). by apply F1.
  - intros p f Hp Hf. apply F1; [|done]. apply F2; [done|]. apply U1. by left.
Qed.

Section add_table.
Context (m m1 : Mem) (pt : PageTable) (T : tree) (p : list Z) (f i g : Z).
Hypothesis (Hm : mem_ok m) (I : pt_inv m pt T) (Hp : T !! p = Some f) (Hlen : (length p < 3)%nat)
  (Hi : 0 <= i < 512) (Hnone : T !! (p ++ [i]) = None) (Hg : 0 <= g < 2 ^ 28) (Hto : took m g zero_page m1).
Let e := pte_new_table (g * 4096).
Let m2 := set_entry m1 f i e.
Let T' := <[p ++ [i] := g]> T.
Let pt' := mkPT (root_paddr pt) (intrm_tables pt ++ [g * 4096]).

Lemma add_fresh q h : T !! q = Some h -> h <> g /\ ram m1 !! h = ram m !! h.
Proof.
  intros Hq. assert (h <> g) as Hne.
  { intros ->. apply (tk_fresh _ _ _ _ Hto). by apply (pi_path _ _ _ I q). }
  split; [done|]. rewrite (tk_ram _ _ _ _ Hto). by apply lookup_insert_ne.
Qed.

Lemma add_entry h j : 0 <= j -> entry_of m2 h j = if decide (h = f /\ j = i) then Some e else entry_of m1 h j.
Proof.
  intros Hj. destruct (used_frame m f Hm) as (Hf & l & Hl & Hpg); [by eapply (pi_path _ _ _ I)|].
  destruct (pte_table (g * 4096)) as (_ & _ & _ & _ & He); [lia|lia|].
  apply (entry_of_set m1 f i e h j l); auto. by rewrite (proj2 (add_fresh p f Hp)).
Qed.

Lemma add_mem : mem_ok m2 /\ frames m2 = frames m1 /\ (forall h, h <> f -> ram m2 !! h = ram m1 !! h).
Proof.
  destruct (used_frame m f Hm) as (Hf & l & Hl & Hpg); [by eapply (pi_path _ _ _ I)|].
  destruct (set_entry_ok m1 f i e l (tk_ok _ _ _ _ Hto)) as (? & ? & ? & _); [|done].
  by rewrite (proj2 (add_fresh p f Hp)).
Qed.

Lemma add_used : used m2 = {[g]} ∪ used m.
Proof. rewrite (proj1 (proj2 add_mem)). apply Hto. Qed.

(** Entries of tables other than the one changed. *)
Lemma add_entry_other q h j : T !! q = Some h -> (q <> p \/ j <> i) -> 0 <= j ->
  entry_of m2 h j = entry_of m h j.
Proof.
  intros Hq Hne Hj. rewrite add_entry by done. destruct (add_fresh q h Hq) as [_ E].
  rewrite decide_False; [unfold entry_of; by rewrite E|]. intros [-> ->].
  destruct Hne as [Hne|]; [|done]. apply Hne. by eapply (pi_inj _ _ _ I).
Qed.

Lemma add_entry_new j : 0 <= j < 512 -> entry_of m2 g j = Some 0.
Proof.
  intros Hj. rewrite add_entry by lia. destruct (add_fresh p f Hp) as [Hne _].
  rewrite decide_False by (intros [E _]; by apply Hne). apply zero_page_entry; [|done].
  rewrite (tk_ram _ _ _ _ Hto). apply lookup_insert_eq.
Qed.

Lemma add_inv : pt_inv m2 pt' T'.
Proof.
  pose proof I as [Hr Hpa He Hin Hcl Htab]. split.
  - destruct Hr as (r & Hr & Er). exists r. split; [|done]. unfold T'. rewrite lookup_insert_ne; [done|].
    intros [_ ?]%app_nil. done.
  - intros q h [[<- <-]|[Hne Hq]]%lookup_insert_Some; rewrite add_used.
    + rewrite length_app. simpl. split; [lia|]. by apply elem_of_union_l, elem_of_singleton.
    + destruct (Hpa q h Hq). split; [done|]. by apply elem_of_union_r.
  - intros q h j [[<- <-]|[Hne Hq]]%lookup_insert_Some Hql Hj; unfold table_entry, T'.
    + rewrite add_entry_new by done. rewrite lookup_insert_ne.
      * assert (T !! ((p ++ [i]) ++ [j]) = None) as ->; [|done].
        apply eq_None_not_Some. intros Hs%Hcl. rewrite Hnone in Hs. by destruct Hs.
      * intros E. apply (f_equal length) in E. rewrite !length_app in E. simpl in E. lia.
    + destruct (decide (q = p /\ j = i)) as [[-> ->]|Hother].
      * rewrite lookup_insert_eq, add_entry by lia. rewrite Hp in Hq. simplify_eq. by rewrite decide_True.
      * assert (q <> p \/ j <> i) as Hor.
        { destruct (decide (q = p)); [|by left]. right. intros ->. by apply Hother. }
        rewrite (add_entry_other q h j Hq Hor) by lia.
        rewrite (He q h j Hq Hql Hj). unfold table_entry. rewrite lookup_insert_ne; [done|].
        intros [Ep [= Ej]]%app_inj_2; [|done]. apply Hother. by rewrite Ep, Ej.
  - intros q1 q2 h [[<- <-]|[Hne1 Hq1]]%lookup_insert_Some [[<- E]|[Hne2 Hq2]]%lookup_insert_Some; auto.
    + by destruct (add_fresh q2 g Hq2).
    + subst h. by destruct (add_fresh q1 g Hq1).
    + by eapply Hin.
  - intros q j. unfold T'. rewrite !lookup_insert_is_Some. intros [E|[Hne Hs]].
    + apply app_inj_2 in E as [<- _]; [|done]. right. split; [|eauto].
      intros E. apply (f_equal length) in E. rewrite length_app in E. simpl in E. lia.
    + destruct (decide (p ++ [i] = q)) as [E|]; [by left|]. right. split; [done|]. exact (Hcl q j Hs).
  - change (intrm_tables pt') with (intrm_tables pt ++ [g * 4096]). unfold T'. rewrite Htab, map_to_list_insert by done.
    rewrite !fmap_cons. by rewrite Permutation_app_comm.
Qed.

Lemma add_ext : pt_ext m pt T m2 pt' T'.
Proof.
  destruct add_mem as (Hok & Hfr & Hram). split; auto.
  - apply add_inv.
  - by apply insert_subseteq.
  - intros va. unfold leaf, T'. destruct (index_range va) as (_ & _ & _ & R1).
    destruct (decide (p ++ [i] = vpath va)) as [E|E].
    + rewrite <- E, lookup_insert_eq, Hnone, add_entry_new by done. done.
    + rewrite lookup_insert_ne by done. destruct (T !! vpath va) as [h|] eqn:Hh; [|done].
      rewrite (add_entry_other (vpath va) h) by (done || lia || (left; intros Ep; rewrite <- Ep in Hlen; simpl in Hlen; lia)).
      done.
  - intros h. rewrite add_used, elem_of_union, elem_of_singleton. unfold T'. split.
    + intros [->|Hh]; [right; exists (p ++ [i]); apply lookup_insert_eq|by left].
    + intros [Hh|(q & [[_ <-]|[_ Hq]]%lookup_insert_Some)]; [by right|by left|].
      right. by apply (pi_path _ _ _ I q).
  - intros h Hh Hn. rewrite Hram by (intros ->; by apply (Hn p)).
    rewrite (tk_ram _ _ _ _ Hto). apply lookup_insert_ne. intros <-. by apply (tk_fresh _ _ _ _ Hto).
  - intros q h [[_ <-]|[_ Hq]]%lookup_insert_Some Hh; [|done]. by destruct (tk_fresh _ _ _ _ Hto).
  - rewrite Hfr, (tk_left _ _ _ _ Hto). unfold T'. rewrite map_size_insert_None by done. lia.
Qed.
End add_table.

Lemma next_create_spec m pt T p f i :
  mem_ok m -> pt_inv m pt T -> T !! p = Some f -> (length p < 3)%nat -> 0 <= i < 512 -> 0 < spare m ->
  swp (next_table_mut_or_create pt (f * 4096) i) m (fun '(r, pt') m' => exists g T',
    r = Some (g * 4096) /\ T' !! (p ++ [i]) = Some g /\ spare m - 1 <= spare m' /\
    (forall q, is_Some (T' !! q) -> is_Some (T !! q) \/ q = p ++ [i]) /\ pt_ext m pt T m' pt' T').
Proof.
  intros Hm I Hp Hlen Hi Hspare.
  destruct (used_frame m f Hm) as (Hf & l & Hl & Hpg); [by eapply (pi_path _ _ _ I)|].
  apply swp_bind. eapply read_entry_spec; [done|by apply (pi_entry _ _ _ I p)|].
  unfold table_entry. destruct (T !! (p ++ [i])) as [g|] eqn:Hg.
  - destruct (used_frame m g Hm) as (Hgr & _); [by eapply (pi_path _ _ _ I)|].
    destruct (pte_table (g * 4096)) as (Hu & Hpres & Hblk & Hpa & _); [lia|lia|].
    rewrite Hu. eapply swp_lift_bind; [unfold next_table_mut; by rewrite Hpres, Hblk|].
    apply swp_ret. rewrite Hpa. exists g, T. split_and!; [done|done|lia|by left|]. by apply pt_ext_refl.
  - change (is_unused 0) with true. cbn iota. apply swp_bind. apply swp_bind.
    eapply swp_mono; [by apply frame_alloc_zero_spec|]. intros o m1 (g & -> & Hgr & Hto).
    eapply swp_lift_bind; [done|]. apply swp_ret.
    assert (ram m1 !! f = Some l) as Hl1 by (by rewrite (proj2 (add_fresh m m1 pt T g I Hto p f Hp))).
    apply swp_bind. eapply write_entry_spec; [done|exact Hl1|done|]. apply swp_ret.
    exists g, (<[p ++ [i] := g]> T). split_and!; [done|by rewrite lookup_insert_eq| | |by apply add_ext].
    2: { intros q [<-|[_ ?]]%lookup_insert_is_Some; auto. }
    pose proof (add_mem m m1 pt T p f i g Hm I Hp Hto) as (_ & -> & _).
    rewrite (tk_left _ _ _ _ Hto). lia.
Qed.

Lemma get_or_create_spec m pt T va :
  mem_ok m -> pt_inv m pt T -> 3 <= spare m ->
  swp (get_entry_mut_or_create pt va) m (fun '(r, pt') m' => exists f T',
    r = Some (f * 4096, p1_index va) /\ T' !! vpath va = Some f /\ spare m - 3 <= spare m' /\
    (forall q, is_Some (T' !! q) -> is_Some (T !! q) \/ q `prefix_of` vpath va) /\ pt_ext m pt T m' pt' T').
Proof.
  intros Hm I Hsp. destruct (index_range va) as (R4 & R3 & R2 & _).
  destruct (pi_root _ _ _ I) as (r & Hr & Er). unfold get_entry_mut_or_create. rewrite Er.
  apply swp_bind. eapply swp_mono; [apply (next_create_spec m pt T [] r); auto; simpl; lia|].
  intros [o3 pt1] m1 (f3 & T1 & -> & H3 & Hs1 & N1 & X1). cbn beta iota.
  apply swp_bind. eapply swp_mono.
  { apply (next_create_spec m1 pt1 T1 [p4_index va] f3); [apply X1|apply X1|done|simpl; lia|done|lia]. }
  intros [o2 pt2] m2 (f2 & T2 & -> & H2 & Hs2 & N2 & X2). cbn beta iota.
  apply swp_bind. eapply swp_mono.
  { apply (next_create_spec m2 pt2 T2 [p4_index va; p3_index va] f2); [apply X2|apply X2|done|simpl; lia|done|lia]. }
  intros [o1 pt3] m3 (f1 & T3 & -> & H1 & Hs3 & N3 & X3). cbn beta iota. apply swp_ret.
  exists f1, T3. split_and!; [done|done|lia| |eapply pt_ext_trans; [exact X1|]; by eapply pt_ext_trans].
  intros q [[[Hq| ->]%N1| ->]%N2| ->]%N3; [by left| | |]; right; unfold vpath.
  - by exists [p3_index va; p2_index va].
  - by exists [p2_index va].
  - done.
Qed.

(** ** A page table is a map from virtual page numbers *)

(** Page-aligned 40-bit address and flags of a mapping. *)
Definition mapping_ok (x : Z * Z) : Prop :=
  0 <= x.1 < 2 ^ 40 /\ x.1 `mod` 4096 = 0 /\ is_flags x.2.
Definition entry_for (o : option (Z * Z)) : Z :=
  match o with Some (pa, flags) => pte_new_page pa flags false | None => 0 end.

Record pt_rel (m : Mem) (pt : PageTable) (T : tree) (A : gmap Z (Z * Z)) : Prop := {
  pr_inv : pt_inv m pt T;
  pr_leaf va : 0 <= va -> leaf m T va = entry_for (A !! vpn va);
  pr_ok : map_Forall (fun _ => mapping_ok) A;
}.

Lemma entry_for_ok (A : gmap Z (Z * Z)) k : map_Forall (fun _ => mapping_ok) A ->
  is_unused (entry_for (A !! k)) = bool_decide (A !! k = None) /\ is_word 8 (entry_for (A !! k)).
Proof.
  intros HA. destruct (A !! k) as [[pa fl]|] eqn:E; [|split; [done|unfold is_word; simpl; lia]].
  destruct (HA _ _ E) as (H1 & H2 & H3). simpl in *.
  destruct (pte_page fl pa H3 H1 H2) as (_ & _ & Hu & _). rewrite Hu.
  split; [done|]. by apply pte_page_range.
Qed.

(** Writing a last-level entry. *)
Lemma set_leaf m pt T va f e :
  mem_ok m -> pt_inv m pt T -> T !! vpath va = Some f -> is_word 8 e ->
  let m' := set_entry m f (p1_index va) e in
  pt_inv m' pt T /\ mem_ok m' /\ frames m' = frames m /\
  (forall g, g <> f -> ram m' !! g = ram m !! g) /\
  forall va', leaf m' T va' =
    if decide (vpath va' = vpath va /\ p1_index va' = p1_index va) then e else leaf m T va'.
Proof.
  intros Hm I Hf He m'. destruct (pi_path _ _ _ I _ _ Hf) as [_ Hu].
  destruct (used_frame m f Hm Hu) as (Hfr & l & Hl & Hpg).
  destruct (index_range va) as (_ & _ & _ & R1).
  destruct (set_entry_ok m f (p1_index va) e l Hm Hl) as (Hok & Hframes & Hram & _).
  assert (forall g j, 0 <= j -> entry_of m' g j =
    if decide (g = f /\ j = p1_index va) then Some e else entry_of m g j) as Hent.
  { intros g j Hj. by apply (entry_of_set m f (p1_index va) e g j l). }
  split_and!; [|done|done|done|].
  - pose proof I as [Hr Hpa Hen Hin Hcl Htab]. split; auto.
    + intros p g Hp. unfold m'. rewrite Hframes. auto.
    + intros p g i Hp Hlen Hi. rewrite Hent by lia. rewrite decide_False; [by apply (Hen p)|].
      intros [-> _]. rewrite (Hin _ _ _ Hp Hf) in Hlen. simpl in Hlen. lia.
  - intros va'. unfold leaf. destruct (index_range va') as (_ & _ & _ & R1').
    destruct (T !! vpath va') as [g|] eqn:Hg.
    + rewrite Hent by lia. destruct (decide (vpath va' = vpath va /\ p1_index va' = p1_index va)) as [[E1 E2]|Hn].
      * rewrite E1, Hf in Hg. simplify_eq. by rewrite decide_True.
      * rewrite decide_False; [done|]. intros [-> E2]. apply Hn. split; [|done]. by eapply (pi_inj _ _ _ I).
    + rewrite decide_False; [done|]. intros [E _]. by rewrite E, Hf in Hg.
Qed.

Lemma leaf_entry m pt T va f :
  mem_ok m -> pt_inv m pt T -> T !! vpath va = Some f -> 0 <= f < 2 ^ 28 /\
  entry_of m f (p1_index va) = Some (leaf m T va) /\ exists l, ram m !! f = Some l.
Proof.
  intros Hm I Hf. destruct (pi_path _ _ _ I _ _ Hf) as [_ Hu].
  destruct (used_frame m f Hm Hu) as (Hfr & l & Hl & Hpg). split_and!; [lia|lia| |eauto].
  unfold leaf. rewrite Hf. destruct (index_range va) as (_ & _ & _ & R1).
  unfold entry_of. rewrite Hl. cbn [mbind option_bind].
  destruct (lookup_lt_is_Some_2 (words 8 512 l) (Z.to_nat (p1_index va))) as [e He].
  { rewrite length_words. lia. } by rewrite He.
Qed.

(** What one operation keeps of the rest of memory: frames that are no table
    of this page table are untouched. *)
Record pt_keeps (m : Mem) (T : tree) (m' : Mem) (T' : tree) : Prop := {
  pk_ok : mem_ok m';
  pk_sub : T ⊆ T';
  pk_used f : f ∈ used m' <-> f ∈ used m \/ exists p, T' !! p = Some f;
  pk_ram f : f ∈ used m -> (forall p, T !! p <> Some f) -> ram m' !! f = ram m !! f;
  pk_fresh p f : T' !! p = Some f -> f ∈ used m -> T !! p = Some f;
  pk_spare : spare m' + Z.of_nat (size T') = spare m + Z.of_nat (size T);
}.

Lemma PageTable_map_spec m pt T A va pa flags :
  mem_ok m -> pt_rel m pt T A -> 3 <= spare m -> 0 <= va -> 0 <= pa < 2 ^ 40 -> is_flags flags ->
  A !! vpn va = None ->
  swp (PageTable_map pt va pa flags) m (fun pt' m' => exists T',
    pt_rel m' pt' T' (<[vpn va := (align_down pa PAGE_SIZE, flags)]> A) /\
    root_paddr pt' = root_paddr pt /\ spare m - 3 <= spare m' /\
    (forall q, is_Some (T' !! q) -> is_Some (T !! q) \/ q `prefix_of` vpath va) /\ pt_keeps m T m' T').
Proof.
  intros Hm [I L OK] Hsp Hva Hpa Hfl HA. apply swp_bind.
  eapply swp_mono; [by apply (get_or_create_spec m pt T)|].
  intros [r pt1] m1 (f & T1 & -> & Hf & Hs & HN & X). pose proof X as [I1 O1 S1 L1 U1 R1 F1 P1 E1].
  cbn beta iota. eapply swp_lift_bind; [done|]. cbn beta iota.
  destruct (leaf_entry m1 pt1 T1 va f O1 I1 Hf) as (Hfr & He & l & Hl).
  apply swp_bind. eapply read_entry_spec; [done|exact He|].
  rewrite L1, L, HA by done. change (is_unused (entry_for None)) with true. cbn [negb].
  assert (align_down pa PAGE_SIZE = pa / 4096 * 4096) as Ead by (apply align_down_eq; lia).
  assert (mapping_ok (align_down pa PAGE_SIZE, flags)) as Hmo.
  { rewrite Ead. split_and!; [simpl; lia|simpl; lia|simpl; lia|done]. }
  set (e := pte_new_page (align_down pa PAGE_SIZE) flags false).
  assert (is_word 8 e) as Hew by (apply pte_page_range; [done|apply Hmo]).
  destruct (index_range va) as (_ & _ & _ & Rp1).
  destruct (set_leaf m1 pt1 T1 va f e O1 I1 Hf Hew) as (I2 & O2 & Hfr2 & Hram2 & L2).
  apply swp_bind. eapply write_entry_spec; [done|exact Hl|done|]. apply swp_ret. exists T1. split_and!; auto.
  - split; auto.
    + intros va' Hva'. rewrite L2. destruct (decide (vpn va' = vpn va)) as [E|E].
      * rewrite decide_True by (by apply same_page). by rewrite E, lookup_insert_eq.
      * rewrite decide_False by (by rewrite same_page). rewrite lookup_insert_ne by done. by rewrite L1, L.
    + by apply map_Forall_insert_2.
  - by rewrite Hfr2.
  - split; auto; rewrite ?Hfr2; auto. intros g Hg Hn. rewrite Hram2; [by apply R1|].
    intros ->. apply (Hn (vpath va)). by apply F1.
Qed.

Lemma PageTable_map_twice m pt T A va pa flags x :
  mem_ok m -> pt_rel m pt T A -> 3 <= spare m -> 0 <= va -> A !! vpn va = Some x ->
  PageTable_map pt va pa flags m = Err Panic.
Proof.
  intros Hm [I L OK] Hsp Hva HA.
  destruct (get_or_create_spec m pt T va Hm I Hsp) as ([r pt1] & m1 & E & f & T1 & -> & Hf & _ & _ & X).
  destruct (leaf_entry m1 pt1 T1 va f (px_ok _ _ _ _ _ _ X) (px_inv _ _ _ _ _ _ X) Hf) as (Hfr & He & _).
  unfold PageTable_map, mbind, st_bind. rewrite E. cbn [slift unwrap].
  destruct (read_entry_spec m1 f (p1_index va) _ (fun e m' => e = leaf m1 T1 va /\ m' = m1) Hfr He) as (? & ? & Er & -> & ->);
    [done|]. unfold mbind, st_bind in Er. rewrite Er.
  rewrite (px_leaf _ _ _ _ _ _ X), L by done. destruct (entry_for_ok A (vpn va) OK) as [Hu _].
  by rewrite Hu, HA.
Qed.

Lemma leaf_table m pt T A va x : pt_rel m pt T A -> 0 <= va -> A !! vpn va = Some x ->
  exists f, T !! vpath va = Some f.
Proof.
  intros [I L OK] Hva HA. specialize (L va Hva). unfold leaf in L. rewrite HA in L.
  destruct (T !! vpath va) as [f|]; [eauto|].
  destruct (entry_for_ok A (vpn va) OK) as [Hu _]. rewrite HA, <- L in Hu. done.
Qed.

Lemma PageTable_unmap_spec m pt T A va x :
  mem_ok m -> pt_rel m pt T A -> 0 <= va -> A !! vpn va = Some x ->
  swp (PageTable_unmap pt va) m (fun _ m' =>
    pt_rel m' pt T (delete (vpn va) A) /\ mem_ok m' /\ frames m' = frames m /\
    forall f, (forall p, T !! p <> Some f) -> ram m' !! f = ram m !! f).
Proof.
  intros Hm Hrel Hva HA. destruct (leaf_table m pt T A va x Hrel Hva HA) as [f Hf].
  destruct Hrel as [I L OK]. destruct (leaf_entry m pt T va f Hm I Hf) as (Hfr & He & l & Hl).
  apply swp_bind. eapply swp_mono; [by eapply get_entry_mut_spec|]. intros r ? [-> ->]. rewrite Hf.
  cbn [fmap option_fmap option_map]. eapply swp_lift_bind; [done|]. cbn beta iota.
  apply swp_bind. eapply read_entry_spec; [done|exact He|].
  destruct (entry_for_ok A (vpn va) OK) as [Hu _]. rewrite L, Hu, HA by done. cbn iota.
  destruct (index_range va) as (_ & _ & _ & R1).
  assert (is_word 8 0) as H0 by (unfold is_word; simpl; lia).
  destruct (set_leaf m pt T va f 0 Hm I Hf H0) as (I2 & O2 & Hfr2 & Hram2 & L2).
  eapply write_entry_spec; [done|exact Hl|done|]. split_and!; auto.
  - split; auto.
    + intros va' Hva'. rewrite L2. destruct (decide (vpn va' = vpn va)) as [E|E].
      * rewrite decide_True by (by apply same_page). by rewrite E, lookup_delete_eq.
      * rewrite decide_False by (by rewrite same_page). rewrite lookup_delete_ne by done. by rewrite L.
    + by apply map_Forall_delete.
  - intros g Hn. apply Hram2. intros ->. by apply (Hn (vpath va)).
Qed.

Lemma PageTable_unmap_none m pt T A va :
  mem_ok m -> pt_rel m pt T A -> 0 <= va -> A !! vpn va = None ->
  PageTable_unmap pt va m = Err Panic.
Proof.
  intros Hm [I L OK] Hva HA. destruct (get_entry_mut_spec m pt T Hm I va) as (r & ? & E & -> & ->).
  unfold PageTable_unmap, mbind, st_bind. rewrite E.
  destruct (T !! vpath va) as [f|] eqn:Hf; cbn [fmap option_fmap option_map slift unwrap]; [|done].
  destruct (leaf_entry m pt T va f Hm I Hf) as (Hfr & He & _).
  destruct (read_entry_spec m f (p1_index va) _ (fun e m' => e = leaf m T va /\ m' = m) Hfr He) as (? & ? & Er & -> & ->);
    [done|]. unfold mbind, st_bind in Er. rewrite Er. rewrite L, HA by done. done.
Qed.

Lemma PageTable_query_spec m pt T A va :
  mem_ok m -> pt_rel m pt T A -> 0 <= va ->
  swp (PageTable_query pt va) m (fun r m' => m' = m /\
    r = (fun x => (x.1 + va `mod` 4096, x.2)) <$> A !! vpn va).
Proof.
  intros Hm [I L OK] Hva. apply swp_bind.
  eapply swp_mono; [by eapply get_entry_mut_spec|]. intros r ? [-> ->].
  pose proof (L va Hva) as Lva. destruct (T !! vpath va) as [f|] eqn:Hf; cbn [fmap option_fmap option_map].
  - destruct (leaf_entry m pt T va f Hm I Hf) as (Hfr & He & l & Hl).
    apply swp_bind. eapply read_entry_spec; [done|exact He|]. rewrite Lva.
    destruct (entry_for_ok A (vpn va) OK) as [Hu _]. rewrite Hu.
    destruct (A !! vpn va) as [[pa fl]|] eqn:HA; [|by apply swp_ret].
    rewrite bool_decide_false by done. destruct (OK _ _ HA) as (H1 & H2 & H3). simpl in *.
    destruct (pte_page fl pa H3 H1 H2) as (Hfl & Hpa & _).
    eapply swp_lift_bind; [exact Hfl|]. apply swp_ret. split; [done|].
    rewrite Hpa, page_offset_eq, PhysAddr_new_eq by lia. done.
  - unfold leaf in Lva. rewrite Hf in Lva. apply swp_ret. split; [done|].
    destruct (entry_for_ok A (vpn va) OK) as [Hu _]. rewrite <- Lva in Hu.
    by destruct (A !! vpn va).
Qed.

Lemma PageTable_new_spec m : mem_ok m -> 0 < spare m ->
  swp PageTable_new m (fun pt m' => exists r, 0 <= r < 2 ^ 28 /\ pt = mkPT (r * 4096) [r * 4096] /\
    took m r zero_page m' /\ pt_rel m' pt {[ [] := r ]} ∅).
Proof.
  intros Hm Hsp. apply swp_bind. eapply swp_mono; [by apply frame_alloc_zero_spec|].
  intros o m' (r & -> & Hr & Hto). eapply swp_lift_bind; [done|]. apply swp_ret.
  exists r. split_and!; [lia|lia|done|done|].
  assert (ram m' !! r = Some zero_page) as Hram by (rewrite (tk_ram _ _ _ _ Hto); apply lookup_insert_eq).
  split; [|intros va Hva|apply map_Forall_empty].
  - split.
    + exists r. by rewrite lookup_singleton_eq.
    + intros p f [<- <-]%lookup_singleton_Some. split; [simpl; lia|]. rewrite (tk_used _ _ _ _ Hto).
      by apply elem_of_union_l, elem_of_singleton.
    + intros p f i [<- <-]%lookup_singleton_Some _ Hi. rewrite (zero_page_entry m' r i Hram Hi).
      unfold table_entry. by rewrite lookup_singleton_ne.
    + by intros p q f [<- <-]%lookup_singleton_Some [<- _]%lookup_singleton_Some.
    + intros p i [x [E _]%lookup_singleton_Some]. by destruct p.
    + cbn [intrm_tables]. by rewrite map_to_list_singleton.
  - unfold leaf. rewrite lookup_singleton_ne by done. by rewrite lookup_empty.
Qed.

(** Giving frames back. *)
Lemma drop_frames_spec fs m :
  mem_ok m -> NoDup fs -> Forall (fun f => f ∈ used m) fs ->
  swp (drop_frames ((fun f => f * 4096) <$> fs)) m (fun _ m' =>
    mem_ok m' /\ used m' = used m ∖ list_to_set fs /\ ram m' = ram m /\
    spare m' = spare m + Zlength fs).
Proof.
  intros Hm Hnd. revert m Hm. induction Hnd as [|f fs Hf Hnd IH]; intros m Hm Hu.
  - apply swp_ret. split_and!; [done|cbn [list_to_set]; by rewrite difference_empty_L|done|simpl; lia].
  - apply Forall_cons in Hu as [Hfu Hu]. rewrite fmap_cons. cbn [drop_frames].
    destruct (used_frame m f Hm Hfu) as [Hfr _]. destruct (frame_addr f Hfr) as (_ & Ediv & _).
    pose proof (FreeList_dealloc_spec (frames m) f (mo_free _ Hm)) as Hde.
    rewrite decide_True in Hde by done. destruct Hde as (a & Ea & Hok & Hout & Es & Ee).
    apply swp_bind. exists tt, (mkMem a (ram m)). split.
    { unfold frame_drop, PAGE_SIZE. by rewrite Ediv, Ea. }
    destruct Hm as [_ Hr Hram Hp].
    eapply swp_mono; [apply IH|].
    + split; cbn [frames ram]; auto; rewrite ?Es, ?Ee; auto.
    + cbn [frames]. rewrite Hout. rewrite Forall_forall in Hu |- *. intros g Hg.
      apply elem_of_difference. split; [auto|]. intros ->%elem_of_singleton. done.
    + intros u m' (? & Hus & ? & Hs). cbn [frames ram] in *. split_and!; [done| |done|].
      * rewrite Hus, Hout. cbn [list_to_set]. by rewrite difference_difference_l_L.
      * rewrite Hs, (FreeList_dealloc_avail _ _ _ Ea). simpl. lia.
Qed.

Definition table_frames (T : tree) : gset Z := list_to_set (map_to_list T).*2.

Lemma elem_of_table_frames T f : f ∈ table_frames T <-> exists p, T !! p = Some f.
Proof.
  unfold table_frames. rewrite elem_of_list_to_set, list_elem_of_fmap. split.
  - intros ([p g] & -> & H%elem_of_map_to_list). eauto.
  - intros [p Hp]. exists (p, f). split; [done|]. by apply elem_of_map_to_list.
Qed.

Lemma tree_nodup m pt T : pt_inv m pt T -> NoDup (map_to_list T).*2.
Proof.
  intros I. apply NoDup_fmap_2_strong; [|apply NoDup_map_to_list].
  intros [p f] [q g] Hp%elem_of_map_to_list Hq%elem_of_map_to_list. simpl. intros ->.
  f_equal. by eapply (pi_inj _ _ _ I).
Qed.

Lemma PageTable_drop_spec m pt T :
  mem_ok m -> pt_inv m pt T ->
  swp (PageTable_drop pt) m (fun _ m' => mem_ok m' /\ used m' = used m ∖ table_frames T /\
    ram m' = ram m /\ spare m' = spare m + Z.of_nat (size T)).
Proof.
  intros Hm I. pose proof (pi_tables _ _ _ I) as Ht.
  apply Permutation_map_inv in Ht as (fs & E & Hperm). unfold PageTable_drop. rewrite E.
  eapply swp_mono; [apply (drop_frames_spec fs m Hm)|].
  - rewrite <- Hperm. by eapply tree_nodup.
  - rewrite Forall_forall. intros f Hf. rewrite <- Hperm in Hf.
    apply (elem_of_list_to_set (C := gset Z)), elem_of_table_frames in Hf as [p Hp].
    by apply (pi_path _ _ _ I p).
  - intros u m' (? & Hus & ? & Hs). split_and!; [done| |done|].
    + rewrite Hus. f_equal. unfold table_frames. apply set_eq. intros x.
      rewrite !elem_of_list_to_set. by rewrite Hperm.
    + rewrite Hs. apply Permutation_length in Hperm. rewrite length_fmap in Hperm.
      rewrite length_map_to_list in Hperm. lia.
Qed.

(** ** The claims *)

(** C13: on an untouched page, [map] adds exactly the mapping of that page to
    the table (address rounded down to the page) and changes no other one,
    creating missing tables from fresh zeroed frames; frames that are not
    tables keep their content.  A page that is mapped already panics. *)
Theorem page_table_map m pt T A va pa flags :
  mem_ok m -> pt_rel m pt T A -> 3 <= spare m -> 0 <= va -> 0 <= pa < 2 ^ 40 -> is_flags flags ->
  match A !! vpn va with
  | None => swp (PageTable_map pt va pa flags) m (fun pt' m' => exists T',
      pt_rel m' pt' T' (<[vpn va := (align_down pa PAGE_SIZE, flags)]> A) /\ pt_keeps m T m' T')
  | Some _ => PageTable_map pt va pa flags m = Err Panic
  end.
Proof.
  intros Hm Hrel Hsp Hva Hpa Hfl. destruct (A !! vpn va) eqn:E; [by eapply PageTable_map_twice|].
  eapply swp_mono; [by eapply PageTable_map_spec|]. intros pt' m' (T' & ? & _ & _ & _ & ?). eauto.
Qed.

(** [unmap] removes exactly the mapping of its page and panics when there
    is none; [query] reports the physical address of every byte of a mapped
    page with the flags it was mapped with, and nothing for other pages. *)
Theorem page_table_unmap_query m pt T A va :
  mem_ok m -> pt_rel m pt T A -> 0 <= va ->
  match A !! vpn va with
  | Some _ => swp (PageTable_unmap pt va) m (fun _ m' =>
      pt_rel m' pt T (delete (vpn va) A) /\ mem_ok m' /\ frames m' = frames m /\
      forall f, (forall p, T !! p <> Some f) -> ram m' !! f = ram m !! f)
  | None => PageTable_unmap pt va m = Err Panic
  end /\
  swp (PageTable_query pt va) m (fun r m' => m' = m /\
    r = (fun x => (x.1 + va `mod` 4096, x.2)) <$> A !! vpn va).
Proof.
  intros Hm Hrel Hva. split; [|by eapply PageTable_query_spec].
  destruct (A !! vpn va) eqn:E; [|by eapply PageTable_unmap_none].
  by eapply PageTable_unmap_spec.
Qed.

(** [n] free frames of memory. *)
Definition fresh_mem (n : Z) : Mem :=
  mkMem (mkFree 64 (64 + n) 64 []) (gset_to_gmap zero_page (list_to_set (seqZ 64 n))).

Lemma fresh_mem_ok n : 0 <= n < 2 ^ 27 -> mem_ok (fresh_mem n).
Proof.
  intros Hn. split; cbn [frames ram fresh_mem].
  - split; cbn [range_start range_end next_available free_list]; try lia; [apply NoDup_nil_2|apply Forall_nil_2].
  - cbn [range_end]. lia.
  - cbn [range_start range_end]. intros f Hf. exists zero_page. apply lookup_gset_to_gmap_Some. split; [|done].
    apply elem_of_list_to_set, elem_of_seqZ. lia.
  - intros f l [_ <-]%lookup_gset_to_gmap_Some. apply zero_page_ok.
Qed.

Lemma demo_pt : exists m pt T, mem_ok m /\ pt_rel m pt T ∅ /\ spare m = 7.
Proof.
  destruct (PageTable_new_spec (fresh_mem 8) (fresh_mem_ok 8 ltac:(lia)) ltac:(reflexivity)) as (pt & m & _ & r & _ & -> & Hto & Hrel).
  exists m, (mkPT (r * 4096) [r * 4096]), {[ [] := r ]}. split_and!; [apply Hto|done|].
  rewrite (tk_left _ _ _ _ Hto). reflexivity.
Qed.

Lemma page_table_map_witness : exists m pt T,
  swp (PageTable_map pt 0x400000 0x40090123 11) m (fun pt' m' => exists T',
    pt_rel m' pt' T' {[ 1024 := (0x40090000, 11) ]} /\ pt_keeps m T m' T').
Proof.
  destruct demo_pt as (m & pt & T & Hm & Hrel & Hsp). exists m, pt, T.
  pose proof (page_table_map m pt T ∅ 0x400000 0x40090123 11 Hm Hrel) as H.
  rewrite Hsp in H. apply H; [lia|lia|lia|split; lia].
Defined.

Lemma page_table_unmap_query_witness : exists m pt,
  PageTable_unmap pt 0x400000 m = Err Panic /\
  swp (PageTable_query pt 0x400000) m (fun r m' => m' = m /\ r = None).
Proof.
  destruct demo_pt as (m & pt & T & Hm & Hrel & _). exists m, pt.
  exact (page_table_unmap_query m pt T ∅ 0x400000 Hm Hrel ltac:(lia)).
Defined.
