(* ===== verification/BTree.v ===== *)
(** [BTreeMap] with integer keys (the maps of os/src/mm/memory_set.rs): an
    association list in ascending key order, which is the order the source
    iterates and drops in. *)
From stdpp Require Import sorting.
From S2P Require Import Prelude.

Section btree.
Context {V : Type}.
Implicit Types (l : list (Z * V)) (k : Z) (v : V).

Fixpoint bt_lookup k l : option V :=
  match l with
  | [] => None
  | (k', v) :: l => if k =? k' then Some v else bt_lookup k l
  end.

(** [insert]: a present key keeps its place and gets the new value. *)
Fixpoint bt_insert k v l : list (Z * V) :=
  match l with
  | [] => [(k, v)]
  | (k', v') :: l' =>
      if k <? k' then (k, v) :: l
      else if k =? k' then (k, v) :: l'
      else (k', v') :: bt_insert k v l'
  end.

(** [remove]: the removed value and the rest. *)
Fixpoint bt_remove k l : option V * list (Z * V) :=
  match l with
  | [] => (None, [])
  | (k', v) :: l =>
      if k =? k' then (Some v, l)
      else let '(o, l) := bt_remove k l in (o, (k', v) :: l)
  end.

Definition bt_ok l : Prop := StronglySorted Z.lt l.*1.

Lemma bt_ok_nil : bt_ok [].
Proof. apply SSorted_nil. Qed.

Lemma bt_ok_cons k v l : bt_ok ((k, v) :: l) <-> Forall (fun x => k < x.1) l /\ bt_ok l.
Proof.
  unfold bt_ok. rewrite fmap_cons. simpl. split.
  - intros [? ?]%StronglySorted_inv. by rewrite Forall_fmap in *.
  - intros [? ?]. apply SSorted_cons; [done|]. by rewrite Forall_fmap.
Qed.

Lemma bt_lookup_elem k v l : bt_ok l -> bt_lookup k l = Some v <-> (k, v) ∈ l.
Proof.
  induction l as [|[k' v'] l IH]; cbn [bt_lookup].
  - intros _. split; [done|]. by intros ?%elem_of_nil.
  - intros [Hlt Hok]%bt_ok_cons. rewrite elem_of_cons. destruct (Z.eqb_spec k k') as [->|Hne].
    + split; [intros [= ->]; by left|]. intros [[= ->]|Hin]; [done|].
      rewrite Forall_forall in Hlt. specialize (Hlt _ Hin). simpl in Hlt. lia.
    + rewrite IH by done. split; [by right|]. intros [[= -> _]|]; done.
Qed.

Lemma bt_lookup_None k l : bt_lookup k l = None <-> k ∉ l.*1.
Proof.
  induction l as [|[k' v'] l IH]; cbn [bt_lookup].
  - split; [by intros _ ?%elem_of_nil|done].
  - rewrite fmap_cons, not_elem_of_cons. destruct (Z.eqb_spec k k') as [->|Hne]; simpl.
    + split; [done|]. by intros [? _].
    + rewrite IH. tauto.
Qed.

Lemma bt_lookup_insert k v l k' : bt_ok l ->
  bt_lookup k' (bt_insert k v l) = if k' =? k then Some v else bt_lookup k' l.
Proof.
  induction l as [|[k1 v1] l IH]; cbn [bt_lookup bt_insert]; [done|].
  intros [Hlt Hok]%bt_ok_cons. destruct (Z.ltb_spec k k1); [done|].
  destruct (Z.eqb_spec k k1) as [->|Hne]; cbn [bt_lookup].
  - by destruct (Z.eqb_spec k' k1).
  - rewrite IH by done. destruct (Z.eqb_spec k' k1) as [->|]; [|done].
    by destruct (Z.eqb_spec k1 k) as [->|].
Qed.

Lemma bt_insert_perm k v l : bt_lookup k l = None -> bt_insert k v l ≡ₚ (k, v) :: l.
Proof.
  induction l as [|[k1 v1] l IH]; cbn [bt_lookup bt_insert]; [done|].
  destruct (Z.eqb_spec k k1) as [->|]; [done|]. intros Hn.
  destruct (Z.ltb_spec k k1); [done|]. rewrite IH by done. apply Permutation_swap.
Qed.

Lemma bt_insert_ok k v l : bt_ok l -> bt_ok (bt_insert k v l).
Proof.
  induction l as [|[k1 v1] l IH]; cbn [bt_insert].
  - intros _. apply bt_ok_cons. split; [done|apply bt_ok_nil].
  - intros [Hlt Hok]%bt_ok_cons. destruct (Z.ltb_spec k k1); [|destruct (Z.eqb_spec k k1) as [->|]].
    + apply bt_ok_cons. split; [|by apply bt_ok_cons]. apply Forall_cons. split; [done|].
      eapply Forall_impl; [done|]. simpl. lia.
    + by apply bt_ok_cons.
    + apply bt_ok_cons. split; [|auto]. assert (bt_ok l) as Hl by done. clear IH Hok.
      induction l as [|[k2 v2] l IH]; cbn [bt_insert]; [apply Forall_cons; simpl; split; [lia|done]|].
      apply Forall_cons in Hlt as [H1 H2]. apply bt_ok_cons in Hl as [_ Hl]. simpl in H1.
      destruct (Z.ltb_spec k k2); [|destruct (Z.eqb_spec k k2) as [->|]]; repeat (apply Forall_cons; split); simpl; try lia; auto.
Qed.

Lemma bt_remove_spec k v l : bt_ok l -> bt_lookup k l = Some v ->
  exists l', bt_remove k l = (Some v, l') /\ l ≡ₚ (k, v) :: l' /\ bt_ok l' /\
    forall k', bt_lookup k' l' = if k' =? k then None else bt_lookup k' l.
Proof.
  induction l as [|[k1 v1] l IH]; cbn [bt_lookup bt_remove]; [done|].
  intros [Hlt Hok]%bt_ok_cons Hl. destruct (Z.eqb_spec k k1) as [->|Hne].
  - simplify_eq. exists l. split_and!; [done|done|done|]. intros k'.
    destruct (Z.eqb_spec k' k1) as [->|]; [|done]. apply bt_lookup_None. intros Hin.
    rewrite <- (Forall_fmap fst (fun z => k1 < z)), Forall_forall in Hlt. specialize (Hlt _ Hin). lia.
  - destruct (IH Hok Hl) as (l' & -> & Hp & Hok' & Hlook). exists ((k1, v1) :: l'). split_and!; [done| | |].
    + rewrite Hp. apply Permutation_swap.
    + apply bt_ok_cons. split; [|done]. rewrite Hp in Hlt. by apply Forall_cons in Hlt as [_ ?].
    + intros k'. cbn [bt_lookup]. rewrite Hlook. destruct (Z.eqb_spec k' k1) as [->|]; [|done].
      by destruct (Z.eqb_spec k1 k) as [->|].
Qed.

Lemma bt_insert_keys k v v0 l : bt_ok l -> bt_lookup k l = Some v0 -> (bt_insert k v l).*1 = l.*1.
Proof.
  induction l as [|[k1 v1] l IH]; cbn [bt_lookup bt_insert]; [done|]. intros [Hlt Hok]%bt_ok_cons Hl.
  destruct (Z.eqb_spec k k1) as [->|Hne]; [by rewrite Z.ltb_irrefl|]. destruct (Z.ltb_spec k k1) as [Hk|].
  - apply bt_lookup_elem, list_elem_of_lookup in Hl as [i Hi]; [|done].
    apply (Forall_lookup_1 _ _ _ _ Hlt) in Hi. simpl in Hi. lia.
  - rewrite !fmap_cons. simpl. f_equal. by apply IH.
Qed.

Lemma bt_insert_same k v v' l : bt_insert k v (bt_insert k v' l) = bt_insert k v l.
Proof.
  induction l as [|[k1 v1] l IH]; cbn [bt_insert].
  - by rewrite Z.ltb_irrefl, Z.eqb_refl.
  - destruct (Z.ltb_spec k k1) as [Hk|Hk]; cbn [bt_insert]; [by rewrite Z.ltb_irrefl, Z.eqb_refl|].
    destruct (Z.eqb_spec k k1) as [->|Hne]; cbn [bt_insert]; [by rewrite Z.ltb_irrefl, Z.eqb_refl|].
    rewrite (proj2 (Z.ltb_ge _ _)) by done. by rewrite (proj2 (Z.eqb_neq _ _)), IH.
Qed.

Lemma bt_insert_last k v l : Forall (fun x => x.1 < k) l -> bt_insert k v l = l ++ [(k, v)].
Proof.
  induction l as [|[k1 v1] l IH]; cbn [bt_insert]; [done|].
  intros [H1 H2]%Forall_cons. simpl in H1. destruct (Z.ltb_spec k k1); [lia|].
  destruct (Z.eqb_spec k k1); [lia|]. by rewrite IH.
Qed.
Lemma bt_ok_middle k v l1 l2 : bt_ok (l1 ++ (k, v) :: l2) -> Forall (fun x => x.1 < k) l1.
Proof.
  unfold bt_ok. rewrite fmap_app, fmap_cons. intros H. apply Forall_forall. intros x Hx.
  apply (StronglySorted_app_1_elem_of _ _ _ x.1 k H); [by apply list_elem_of_fmap_2|].
  by apply elem_of_cons; left.
Qed.
Lemma bt_ok_app_l l1 l2 : bt_ok (l1 ++ l2) -> bt_ok l1.
Proof. unfold bt_ok. rewrite fmap_app. apply StronglySorted_app_1_l. Qed.
End btree.
