(* ===== verification/MemorySet.v ===== *)
(** Address spaces (os/src/mm/memory_set.rs): areas of virtual memory backed by
    a linear offset or by frames of their own, mapped in a page table. *)
From S2P Require Import Prelude ByteCodec Address Allocator State PageEntry PageTable BTree.

From Stdlib Require Import ZifyNat.
#[local] Ltac Zify.zify_post_hook ::= Z.to_euclidean_division_equations.

(** A [PhysFrame] owned by the area is its start address. *)
Inductive Mapper :=
  | Offset (offset : Z)
  | Framed (frames : list (Z * Z)).

Record MapArea := mkArea { start : Z; area_size : Z; flags : Z; mapper : Mapper }.
Record MemorySet := mkMS { pt : PageTable; areas : list (Z * MapArea) }.

Definition set_mapper (a : MapArea) (mp : Mapper) : MapArea :=
  mkArea (start a) (area_size a) (flags a) mp.

(** ** Areas *)

Definition new_offset (start_vaddr start_paddr size flags : Z) : res MapArea :=
  _ ← rassert (is_aligned start_vaddr PAGE_SIZE);
  _ ← rassert (is_aligned start_paddr PAGE_SIZE);
  _ ← rassert (is_aligned size PAGE_SIZE);
  Ok (mkArea start_vaddr size flags (Offset (usize (start_vaddr - start_paddr)))).

Definition new_framed (start_vaddr size flags : Z) : res MapArea :=
  _ ← rassert (is_aligned start_vaddr PAGE_SIZE);
  _ ← rassert (is_aligned size PAGE_SIZE);
  Ok (mkArea start_vaddr size flags (Framed [])).

(** The loop of [MapArea::clone], [new_frames] so far. *)
Fixpoint clone_frames (orig_frames new_frames : list (Z * Z)) : st Mem (list (Z * Z)) :=
  match orig_frames with
  | [] => mret new_frames
  | (vaddr, orig_frame) :: orig_frames =>
      o ← frame_alloc;
      new_frame ← slift (unwrap o);
      data ← read_frame orig_frame;
      _ ← write_frame new_frame data;
      clone_frames orig_frames (bt_insert vaddr new_frame new_frames)
  end.
Definition MapArea_clone (a : MapArea) : st Mem MapArea :=
  match mapper a with
  | Offset off => mret (set_mapper a (Offset off))
  | Framed orig_frames =>
      new_frames ← clone_frames orig_frames [];
      mret (set_mapper a (Framed new_frames))
  end.

Definition MapArea_map (a : MapArea) (vaddr : Z) : st Mem (Z * MapArea) :=
  _ ← slift (rassert (is_aligned vaddr PAGE_SIZE));
  match mapper a with
  | Offset off => mret (PhysAddr_new (usize (vaddr - off)), a)
  | Framed frames =>
      match bt_lookup vaddr frames with
      | Some frame => mret (frame, a)
      | None =>
          o ← frame_alloc_zero;
          frame ← slift (unwrap o);
          mret (frame, set_mapper a (Framed (bt_insert vaddr frame frames)))
      end
  end.

(** Removing a frame from the map drops it. *)
Definition MapArea_unmap (a : MapArea) (vaddr : Z) : st Mem MapArea :=
  match mapper a with
  | Offset _ => mret a
  | Framed frames =>
      let '(o, frames) := bt_remove vaddr frames in
      _ ← match o with Some frame => frame_drop frame | None => mret tt end;
      mret (set_mapper a (Framed frames))
  end.

(** Copying [data] into the frame at [paddr] from [pgoff] on. *)
Definition copy_to_frame (paddr pgoff : Z) (data : list Z) : st Mem unit :=
  l ← read_frame paddr;
  write_frame paddr (splice l pgoff data).

(** The loop of [write_data]; [data] is what is left from [processed] on. *)
Fixpoint write_data_loop (fuel : nat) (a : MapArea) (pos : Z) (data : list Z) : st Mem MapArea :=
  match fuel with
  | O => slift (Err NoFuel)
  | S fuel =>
      if 0 <? Zlength data then
        let start_align := align_down pos PAGE_SIZE in
        let pgoff := usize (pos - start_align) in
        let n := Z.min (usize (PAGE_SIZE - pgoff)) (Zlength data) in
        vaddr ← slift (VirtAddr_new (usize (start a + start_align)));
        '(paddr, a) ← MapArea_map a vaddr;
        _ ← copy_to_frame paddr pgoff (take (Z.to_nat n) data);
        write_data_loop fuel a (usize (pos + n)) (drop (Z.to_nat n) data)
      else mret a
  end.
Definition write_data (a : MapArea) (offset : Z) (data : list Z) : st Mem MapArea :=
  _ ← slift (rassert (offset <? area_size a));
  _ ← slift (rassert (usize (offset + Zlength data) <=? area_size a));
  write_data_loop (S (length data)) a offset data.

(** ** Areas in a page table (os/src/mm/page_table.rs) *)

Fixpoint map_area_loop (fuel : nat) (p : PageTable) (a : MapArea) (vaddr end_ : Z) : st Mem (PageTable * MapArea) :=
  match fuel with
  | O => slift (Err NoFuel)
  | S fuel =>
      if vaddr <? end_ then
        va ← slift (VirtAddr_new vaddr);
        '(paddr, a) ← MapArea_map a va;
        p ← PageTable_map p va paddr (flags a);
        map_area_loop fuel p a (usize (vaddr + PAGE_SIZE)) end_
      else mret (p, a)
  end.
Definition area_fuel (a : MapArea) : nat := Z.to_nat (area_size a / PAGE_SIZE + 2).
Definition map_area (p : PageTable) (a : MapArea) : st Mem (PageTable * MapArea) :=
  map_area_loop (area_fuel a) p a (start a) (usize (start a + area_size a)).

Fixpoint unmap_area_loop (fuel : nat) (p : PageTable) (a : MapArea) (vaddr end_ : Z) : st Mem MapArea :=
  match fuel with
  | O => slift (Err NoFuel)
  | S fuel =>
      if vaddr <? end_ then
        va ← slift (VirtAddr_new vaddr);
        a ← MapArea_unmap a va;
        _ ← PageTable_unmap p va;
        unmap_area_loop fuel p a (usize (vaddr + PAGE_SIZE)) end_
      else mret a
  end.
Definition unmap_area (p : PageTable) (a : MapArea) : st Mem MapArea :=
  unmap_area_loop (area_fuel a) p a (start a) (usize (start a + area_size a)).

(** ** Address spaces *)

Definition MemorySet_new : st Mem MemorySet :=
  p ← PageTable_new;
  mret (mkMS p []).

(** The guard is [!area.size > 0] with [!] the bitwise complement. *)
Definition MemorySet_insert (ms : MemorySet) (area : MapArea) : st Mem MemorySet :=
  if 0 <? usize_not (area_size area) then
    match bt_lookup (start area) (areas ms) with
    | None =>
        '(p, a) ← map_area (pt ms) area;
        mret (mkMS p (bt_insert (start area) a (areas ms)))
    | Some _ => slift (Err Panic)
    end
  else mret ms.

(** What [area] still owns when it is dropped. *)
Definition MapArea_drop (a : MapArea) : st Mem unit :=
  match mapper a with
  | Offset _ => mret tt
  | Framed frames => drop_frames frames.*2
  end.

Fixpoint unmap_areas (p : PageTable) (l : list (Z * MapArea)) : st Mem (list (Z * MapArea)) :=
  match l with
  | [] => mret []
  | (k, a) :: l =>
      a ← unmap_area p a;
      l ← unmap_areas p l;
      mret ((k, a) :: l)
  end.
Fixpoint drop_areas (l : list (Z * MapArea)) : st Mem unit :=
  match l with
  | [] => mret tt
  | (_, a) :: l => _ ← MapArea_drop a; drop_areas l
  end.
Definition MemorySet_clear (ms : MemorySet) : st Mem MemorySet :=
  l ← unmap_areas (pt ms) (areas ms);
  _ ← drop_areas l;
  mret (mkMS (pt ms) []).

(** [Drop for MemorySet], then the drop of its fields. *)
Definition MemorySet_drop (ms : MemorySet) : st Mem unit :=
  ms ← MemorySet_clear ms;
  _ ← PageTable_drop (pt ms);
  drop_areas (areas ms).

Fixpoint clone_areas (l : list (Z * MapArea)) (ms : MemorySet) : st Mem MemorySet :=
  match l with
  | [] => mret ms
  | (_, area) :: l =>
      a ← MapArea_clone area;
      ms ← MemorySet_insert ms a;
      clone_areas l ms
  end.
Definition MemorySet_clone (self : MemorySet) : st Mem MemorySet :=
  ms ← MemorySet_new;
  clone_areas (areas self) ms.

(** ** Loading a program

    The ELF parser is the xmas-elf package: [parse] stands for [ElfFile::new]
    with the accessors the code calls on its result.  [seg_data] is [None]
    when [get_data] fails or is not raw data. *)
Record ProgramHeader := mkPH {
  ph_load : bool; ph_vaddr : Z; ph_mem_size : Z;
  ph_read : bool; ph_write : bool; ph_execute : bool;
  ph_data : option (list Z);
}.
Record ElfFile := mkElf {
  elf_64 : bool; elf_exec : bool; elf_aarch64 : bool;
  elf_ph : list ProgramHeader; elf_entry : Z;
}.

Definition ph_flags (ph : ProgramHeader) : Z :=
  let ret := MemFlags.USER in
  let ret := if ph_read ph then Z.lor ret MemFlags.READ else ret in
  let ret := if ph_write ph then Z.lor ret MemFlags.WRITE else ret in
  if ph_execute ph then Z.lor ret MemFlags.EXECUTE else ret.

Definition load_segment (ms : MemorySet) (ph : ProgramHeader) : st Mem MemorySet :=
  if ph_load ph then
    vaddr ← slift (VirtAddr_new (ph_vaddr ph));
    let offset := page_offset vaddr PAGE_SIZE in
    let area_start := align_down vaddr PAGE_SIZE in
    end_ ← slift (VirtAddr_new (usize (ph_vaddr ph + ph_mem_size ph)));
    let area_end := align_up end_ PAGE_SIZE in
    data ← slift (unwrap (ph_data ph));
    area ← slift (new_framed area_start (usize (area_end - area_start)) (ph_flags ph));
    area ← write_data area offset data;
    MemorySet_insert ms area
  else mret ms.

Fixpoint load_segments (ms : MemorySet) (l : list ProgramHeader) : st Mem MemorySet :=
  match l with
  | [] => mret ms
  | ph :: l => ms ← load_segment ms ph; load_segments ms l
  end.

Definition load_user (parse : list Z -> option ElfFile) (ms : MemorySet) (elf_data : list Z) :
    st Mem ((Z * Z) * MemorySet) :=
  elf ← slift (unwrap (parse elf_data));
  _ ← slift (rassert (elf_64 elf));
  _ ← slift (rassert (elf_exec elf));
  _ ← slift (rassert (elf_aarch64 elf));
  ms ← load_segments ms (elf_ph elf);
  sp ← slift (VirtAddr_new (USER_STACK_TOP - USER_STACK_SIZE));
  stack ← slift (new_framed sp USER_STACK_SIZE
    (Z.lor (Z.lor MemFlags.READ MemFlags.WRITE) MemFlags.USER));
  ms ← MemorySet_insert ms stack;
  mret ((elf_entry elf, USER_STACK_TOP), ms).
