(* ===== verification/AddressSpace.v ===== *)
(** User address spaces: what the operations of [MemorySet] do to the frames
    they own and to the memory a process sees.

    [grows] is the frame accounting every operation satisfies: the set of
    owned frames grows by frames that were free, nothing else is touched and
    nothing is lost. *)
From S2P Require Import Prelude ByteCodec Address Allocator State PageEntry PageTable BTree MemorySet.

From Stdlib Require Import ZifyNat.
#[local] Ltac Zify.zify_post_hook ::= Z.to_euclidean_division_equations.

(** ** Frame accounting *)

Record grows (m : Mem) (O : gset Z) (m' : Mem) (O' : gset Z) : Prop := {
  gr_ok : mem_ok m';
  gr_sub : O ⊆ O';
  gr_used f : f ∈ used m' <-> f ∈ used m \/ f ∈ O';
  gr_fresh f : f ∈ O' -> f ∈ used m -> f ∈ O;
  gr_ram f : f ∈ used m -> f ∉ O -> ram m' !! f = ram m !! f;
  gr_spare : spare m' + Z.of_nat (size O') = spare m + Z.of_nat (size O);
}.

Lemma grows_refl m O : mem_ok m -> O ⊆ used m -> grows m O m O.
Proof. intros Hm Ho. split; auto. intros f. split; [by left|]. intros [|?]; auto. Qed.

Lemma grows_trans m O m1 O1 m2 O2 : grows m O m1 O1 -> grows m1 O1 m2 O2 -> grows m O m2 O2.
Proof.
  intros [K1 S1 U1 F1 R1 P1] [K2 S2 U2 F2 R2 P2]. split; auto; [by etrans| | | |lia].
  - intros f. rewrite U2, U1. split; [|tauto]. intros [[?|?]|?]; auto.
  - intros f Hf Hu. apply F1; [|done]. apply F2; [done|]. apply U1. by left.
  - intros f Hu Hn. rewrite R2; [by apply R1|apply U1; by left|]. intros Ho. by apply Hn, F1.
Qed.

Lemma grows_owned m O m' O' : grows m O m' O' -> O' ⊆ used m'.
Proof. intros G f Hf. apply (gr_used _ _ _ _ G). by right. Qed.

(** The frame rule. *)
Lemma grows_apart m O m' O' X : grows m O m' O' -> X ⊆ used m -> X ## O -> X ## O'.
Proof.
  intros G HX Hd f Hf Ho. apply (Hd f Hf). apply (gr_fresh _ _ _ _ G); auto.
Qed.

Lemma grows_frame m O m' O' X : grows m O m' O' -> X ⊆ used m -> X ## O -> grows m (X ∪ O) m' (X ∪ O').
Proof.
  intros G HX Hd. pose proof (grows_apart _ _ _ _ _ G HX Hd) as Hd'. destruct G as [K S U F R P].
  split; auto.
  - by apply union_mono_l.
  - intros f. rewrite elem_of_union, U. split; [tauto|]. intros [?|[?|?]]; auto.
  - intros f. rewrite !elem_of_union. intros [?|?] ?; auto.
  - intros f Hu Hn. rewrite elem_of_union in Hn. apply R; tauto.
  - rewrite !size_union by done. lia.
Qed.

Lemma grows_took m O f l m' : took m f l m' -> O ⊆ used m -> grows m O m' ({[f]} ∪ O).
Proof.
  intros [Hf Hu Hl Hok Hr] HO. split; auto.
  - apply union_subseteq_r.
  - intros g. rewrite Hu, !elem_of_union, elem_of_singleton. split; [tauto|]. intros [?|[?|?]]; auto.
  - intros g. rewrite elem_of_union, elem_of_singleton. intros [->|?]; done.
  - intros g Hg _. rewrite Hr. apply lookup_insert_ne. intros ->. done.
  - rewrite size_union, size_singleton; [lia|]. intros g ->%elem_of_singleton Hg. auto.
Qed.

Lemma table_frames_used m p T : pt_inv m p T -> table_frames T ⊆ used m.
Proof. intros I f [q Hq]%elem_of_table_frames. by apply (pi_path _ _ _ I q). Qed.

Lemma table_frames_size m p T : pt_inv m p T -> size (table_frames T) = size T.
Proof.
  intros I. unfold table_frames. rewrite size_list_to_set by (by eapply tree_nodup).
  by rewrite length_fmap, length_map_to_list.
Qed.

Lemma grows_keeps m p T m' p' T' : pt_inv m p T -> pt_inv m' p' T' -> pt_keeps m T m' T' ->
  grows m (table_frames T) m' (table_frames T').
Proof.
  intros I I' [K S U R F P]. split; auto.
  - intros f [q Hq]%elem_of_table_frames. apply elem_of_table_frames. exists q. by eapply lookup_weaken.
  - intros f. by rewrite U, elem_of_table_frames.
  - intros f [q Hq]%elem_of_table_frames Hu. apply elem_of_table_frames. exists q. auto.
  - intros f Hu Hn. apply R; [done|]. intros q Hq. apply Hn, elem_of_table_frames. eauto.
  - by rewrite (table_frames_size _ _ _ I), (table_frames_size _ _ _ I').
Qed.

(** A page table is not affected by what happens outside its frames. *)
Lemma pt_rel_frame m m' p T A : pt_rel m p T A ->
  table_frames T ⊆ used m' -> (forall f, f ∈ table_frames T -> ram m' !! f = ram m !! f) ->
  pt_rel m' p T A.
Proof.
  intros [I L OK] Hu Hr.
  assert (forall q f i, T !! q = Some f -> entry_of m' f i = entry_of m f i) as He.
  { intros q f i Hq. unfold entry_of. rewrite Hr; [done|]. apply elem_of_table_frames. eauto. }
  split; auto.
  - destruct I as [Hroot Hpath Hent Hinj Hcl Ht]. split; auto.
    + intros q f Hq. split; [by eapply Hpath|]. apply Hu, elem_of_table_frames. eauto.
    + intros q f i Hq Hlen Hi. rewrite (He q) by done. auto.
  - intros va Hva. rewrite <- L by done. unfold leaf. destruct (T !! vpath va) eqn:E; [|done].
    by rewrite (He (vpath va)).
Qed.

(** ** Areas and the frames they hold *)

Record area_shape (a : MapArea) : Prop := {
  as_start : 0 <= start a /\ start a `mod` 4096 = 0;
  as_size : 0 <= area_size a /\ area_size a `mod` 4096 = 0;
  as_end : start a + area_size a <= 2 ^ 48;
  as_flags : is_flags (flags a);
}.

Definition page_of (a : MapArea) (va : Z) : Prop :=
  start a <= va < start a + area_size a /\ va `mod` 4096 = 0.

Definition frame_nums (l : list (Z * Z)) : list Z := (fun x => x.2 / 4096) <$> l.
Definition fset (l : list (Z * Z)) : gset Z := list_to_set (frame_nums l).

Record fr_ok (m : Mem) (a : MapArea) (l : list (Z * Z)) : Prop := {
  fo_bt : bt_ok l;
  fo_page va pa : bt_lookup va l = Some pa -> page_of a va;
  fo_addr va pa : bt_lookup va l = Some pa -> pa `mod` 4096 = 0;
  fo_used : fset l ⊆ used m;
  fo_nodup : NoDup (frame_nums l);
}.

(** The bytes of a page; a page without frame reads as zeros once mapped. *)
Definition pcont (m : Mem) (l : list (Z * Z)) (va : Z) : option (list Z) :=
  match bt_lookup va l with Some pa => ram m !! (pa / 4096) | None => Some zero_page end.

Lemma elem_of_fset l f : bt_ok l -> f ∈ fset l <-> exists va pa, bt_lookup va l = Some pa /\ f = pa / 4096.
Proof.
  intros Hok. unfold fset, frame_nums. rewrite elem_of_list_to_set, list_elem_of_fmap. split.
  - intros ([va pa] & -> & Hin). exists va, pa. split; [by apply bt_lookup_elem|done].
  - intros (va & pa & Hl & ->). exists (va, pa). split; [done|]. by apply bt_lookup_elem.
Qed.

Lemma fr_ok_frame m m' a l : fr_ok m a l -> fset l ⊆ used m' -> fr_ok m' a l.
Proof. intros [? ? ? ? ?] ?. by split. Qed.

Lemma pcont_frame m m' l va : bt_ok l -> (forall f, f ∈ fset l -> ram m' !! f = ram m !! f) ->
  pcont m' l va = pcont m l va.
Proof.
  intros Hok Hr. unfold pcont. destruct (bt_lookup va l) as [pa|] eqn:E; [|done].
  apply Hr, elem_of_fset; eauto.
Qed.

Lemma fset_insert l va pa : bt_lookup va l = None -> fset (bt_insert va pa l) = {[pa / 4096]} ∪ fset l.
Proof.
  intros Hn. unfold fset, frame_nums. apply set_eq. intros f.
  rewrite elem_of_union, elem_of_singleton, !elem_of_list_to_set.
  rewrite (bt_insert_perm va pa l Hn), fmap_cons, elem_of_cons. done.
Qed.

(** Giving page [va] the fresh frame [f]. *)
Lemma fr_ok_insert m m' a l va f c :
  fr_ok m a l -> page_of a va -> bt_lookup va l = None -> took m f c m' ->
  fr_ok m' a (bt_insert va (f * 4096) l).
Proof.
  intros [Hbt Hp Ha Hu Hnd] Hva Hn Hto. assert (f * 4096 / 4096 = f) as Ef by lia. split.
  - by apply bt_insert_ok.
  - intros va' pa'. rewrite bt_lookup_insert by done. destruct (Z.eqb_spec va' va) as [->|]; [done|apply Hp].
  - intros va' pa'. rewrite bt_lookup_insert by done. destruct (Z.eqb_spec va' va) as [->|]; [|apply Ha].
    intros [= <-]. lia.
  - rewrite fset_insert by done. rewrite Ef, (tk_used _ _ _ _ Hto). by apply union_mono_l.
  - unfold frame_nums. rewrite (bt_insert_perm va (f * 4096) l Hn), fmap_cons. simpl. rewrite Ef.
    apply NoDup_cons. split; [|done]. intros Hin. apply (tk_fresh _ _ _ _ Hto), Hu.
    by apply elem_of_list_to_set.
Qed.

Lemma MapArea_map_spec m a l va :
  mem_ok m -> mapper a = Framed l -> fr_ok m a l -> page_of a va -> 0 <= va -> 0 < spare m ->
  swp (MapArea_map a va) m (fun '(pa, a') m' => exists l', a' = set_mapper a (Framed l') /\
    fr_ok m' a l' /\ grows m (fset l) m' (fset l') /\ spare m - 1 <= spare m' /\
    bt_lookup va l' = Some pa /\ (forall v, v <> va -> bt_lookup v l' = bt_lookup v l) /\
    (forall v pa', bt_lookup v l = Some pa' -> bt_lookup v l' = Some pa') /\
    (forall f, f ∈ used m -> ram m' !! f = ram m !! f) /\ forall v, pcont m' l' v = pcont m l v).
Proof.
  intros Hm Hl Hfr Hva H0 Hsp. pose proof Hva as [_ Hal].
  eapply swp_lift_bind; [rewrite is_aligned_eq, Hal by done; done|]. rewrite Hl.
  destruct (bt_lookup va l) as [pa|] eqn:E.
  - apply swp_ret. exists l. split_and!; auto; [|by apply grows_refl, Hfr|lia].
    destruct a. simpl in Hl. by rewrite Hl.
  - apply swp_bind. eapply swp_mono; [by apply frame_alloc_zero_spec|].
    intros o m' (f & -> & Hf & Hto). eapply swp_lift_bind; [done|]. apply swp_ret.
    exists (bt_insert va (f * 4096) l). pose proof (fo_bt _ _ _ Hfr) as Hbt. split_and!.
    + done.
    + by eapply fr_ok_insert.
    + rewrite fset_insert by done. replace (f * 4096 / 4096) with f by lia.
      eapply grows_took; [done|apply Hfr].
    + rewrite (tk_left _ _ _ _ Hto). lia.
    + by rewrite bt_lookup_insert, Z.eqb_refl.
    + intros v Hv. rewrite bt_lookup_insert by done. by destruct (Z.eqb_spec v va).
    + intros v pa' Hv. rewrite bt_lookup_insert by done. destruct (Z.eqb_spec v va) as [->|]; [congruence|done].
    + intros g Hg. rewrite (tk_ram _ _ _ _ Hto). apply lookup_insert_ne. intros <-. by apply (tk_fresh _ _ _ _ Hto).
    + intros v. unfold pcont. rewrite bt_lookup_insert by done. rewrite (tk_ram _ _ _ _ Hto).
      destruct (Z.eqb_spec v va) as [->|Hne].
      * rewrite E. replace (f * 4096 / 4096) with f by lia. by rewrite lookup_insert_eq.
      * destruct (bt_lookup v l) as [pa|] eqn:E2; [|done]. apply lookup_insert_ne. intros ->.
        apply (tk_fresh _ _ _ _ Hto), (fo_used _ _ _ Hfr). apply elem_of_fset; eauto.
Qed.

(** ** Mapping an area *)

Record area_in (m : Mem) (p : PageTable) (T : tree) (A : gmap Z (Z * Z)) (a : MapArea) (l : list (Z * Z)) : Prop := {
  ai_mem : mem_ok m;
  ai_pt : pt_rel m p T A;
  ai_fr : fr_ok m a l;
  ai_disj : table_frames T ## fset l;
}.

Abbreviation area_own T l := (table_frames T ∪ fset l).

(** What mapping pages of [a] does, from [(m, T, l)] to [(m', T', l')]. *)
Record map_effect (m : Mem) (T : tree) (l : list (Z * Z)) (m' : Mem) (T' : tree) (l' : list (Z * Z)) : Prop := {
  me_grows : grows m (area_own T l) m' (area_own T' l');
  me_ram f : f ∈ used m -> f ∉ table_frames T -> ram m' !! f = ram m !! f;
  me_cont v : pcont m' l' v = pcont m l v;
  me_keep v pa : bt_lookup v l = Some pa -> bt_lookup v l' = Some pa;
}.

Lemma area_own_used m p T A a l : area_in m p T A a l -> area_own T l ⊆ used m.
Proof.
  intros [Hm Hpt Hfr _]. apply union_subseteq. split; [|apply Hfr].
  eapply table_frames_used, Hpt.
Qed.

Lemma map_effect_refl m p T A a l : area_in m p T A a l -> map_effect m T l m T l.
Proof. intros H. split; auto. apply grows_refl; [apply H|by eapply area_own_used]. Qed.

Lemma map_effect_trans m p T A a l m1 p1 T1 A1 l1 m2 T2 l2 :
  area_in m p T A a l -> area_in m1 p1 T1 A1 a l1 ->
  map_effect m T l m1 T1 l1 -> map_effect m1 T1 l1 m2 T2 l2 -> map_effect m T l m2 T2 l2.
Proof.
  intros I0 I1 [G1 R1 C1 K1] [G2 R2 C2 K2]. split; auto.
  - by eapply grows_trans.
  - intros f Hu Hn. rewrite R2; [by apply R1|apply (gr_used _ _ _ _ G1); by left|].
    intros Ht. pose proof (gr_fresh _ _ _ _ G1 f) as Hf. rewrite !elem_of_union in Hf.
    destruct Hf as [?|Hl]; [by left|done|done|]. apply (ai_disj _ _ _ _ _ _ I1 f Ht).
    apply elem_of_fset in Hl as (v & pa & Hv & ->); [|apply I0].
    apply elem_of_fset; [apply I1|eauto].
  - intros v. by rewrite C2.
Qed.

Lemma vpn_user va : 0 <= va < 2 ^ 48 -> vpn va = va / 4096.
Proof. intros H. unfold vpn. apply Z.mod_small. lia. Qed.

Lemma page_user a va : area_shape a -> page_of a va -> 0 <= va /\ va + 4096 <= 2 ^ 48 /\ vpn va = va / 4096.
Proof. intros [? ? ? _] [? ?]. split_and!; [lia|lia|]. apply vpn_user. lia. Qed.

Lemma fr_ok_addr m a l va pa : mem_ok m -> fr_ok m a l -> bt_lookup va l = Some pa ->
  0 <= pa < 2 ^ 40 /\ align_down pa PAGE_SIZE = pa /\ pa / 4096 ∈ fset l.
Proof.
  intros Hm Hfr Hl. pose proof (fo_addr _ _ _ Hfr va pa Hl) as Ha.
  assert (pa / 4096 ∈ fset l) as Hin by (apply elem_of_fset; [apply Hfr|eauto]).
  destruct (used_frame m (pa / 4096) Hm (fo_used _ _ _ Hfr _ Hin)) as [Hr _].
  split_and!; [lia|lia| |done]. rewrite align_down_eq by lia. lia.
Qed.

(** One page: a frame for it if it has none, then the mapping. *)
Lemma map_page_spec m p T A a l va B (K : PageTable -> MapArea -> st Mem B) Q :
  area_in m p T A a l -> area_shape a -> page_of a va -> A !! (va / 4096) = None -> 4 <= spare m ->
  (forall p' T' pa l' m', area_in m' p' T' (<[va / 4096 := (pa, flags a)]> A) a l' ->
     map_effect m T l m' T' l' -> bt_lookup va l' = Some pa ->
     (forall v, v <> va -> bt_lookup v l' = bt_lookup v l) -> spare m - 4 <= spare m' ->
     swp (K p' (set_mapper a (Framed l'))) m' Q) ->
  swp ('(paddr, a') ← MapArea_map (set_mapper a (Framed l)) va;
       p' ← PageTable_map p va paddr (flags a'); K p' a') m Q.
Proof.
  intros I Hsh Hpg HA Hsp HK. destruct (page_user a va Hsh Hpg) as (H0 & Hmax & Hvpn).
  pose proof I as [Hm Hpt Hfr Hd].
  assert (table_frames T ⊆ used m) as Htu by (eapply table_frames_used, Hpt).
  apply swp_bind. eapply swp_mono.
  { apply (MapArea_map_spec m (set_mapper a (Framed l)) l va); [done|done| |done|done|lia].
    destruct Hfr as [? Hp ? ? ?]. by split. }
  intros [pa a'] m1 (l1 & -> & Hfr1' & G1 & Hs1 & Hl1 & Hne1 & Hk1 & R1 & C1). cbn beta iota.
  change (set_mapper (set_mapper a (Framed l)) (Framed l1)) with (set_mapper a (Framed l1)).
  assert (fr_ok m1 a l1) as Hfr1 by (destruct Hfr1' as [? Hp ? ? ?]; by split).
  assert (table_frames T ## fset l1) as Hd1 by (by eapply grows_apart).
  assert (pt_rel m1 p T A) as Hpt1.
  { eapply pt_rel_frame; [exact Hpt| |intros f Hf; apply R1; auto].
    intros f Hf. apply (gr_used _ _ _ _ G1). left. auto. }
  destruct (fr_ok_addr m1 a l1 va pa (gr_ok _ _ _ _ G1) Hfr1 Hl1) as (Hpar & Had & Hpin).
  apply swp_bind. eapply swp_mono.
  { apply (PageTable_map_spec m1 p T A va pa (flags a)); [apply G1|done|lia|done|done|apply Hsh|by rewrite Hvpn]. }
  intros p2 m2 (T2 & Hpt2 & _ & Hs2 & _ & Hk). rewrite Had, Hvpn in Hpt2.
  pose proof (grows_keeps m1 p T m2 p2 T2 (pr_inv _ _ _ _ Hpt1) (pr_inv _ _ _ _ Hpt2) Hk) as G2.
  assert (fset l1 ## table_frames T) as Hd1' by done.
  pose proof (grows_apart _ _ _ _ _ G2 (fo_used _ _ _ Hfr1) Hd1') as Hd2.
  assert (forall f, f ∈ fset l1 -> ram m2 !! f = ram m1 !! f) as R2.
  { intros f Hf. apply (gr_ram _ _ _ _ G2); [by apply (fo_used _ _ _ Hfr1)|]. exact (Hd1' f Hf). }
  apply (HK p2 T2 pa l1 m2); auto; [| |lia].
  - split; [apply Hk|done| |done]. eapply fr_ok_frame; [exact Hfr1|].
    intros f Hf. apply (gr_used _ _ _ _ G2). left. by apply (fo_used _ _ _ Hfr1).
  - split.
    + eapply grows_trans; [by apply (grows_frame _ _ _ _ (table_frames T) G1)|].
      rewrite !(union_comm_L _ (fset l1)). by apply grows_frame; [|apply Hfr1|].
    + intros f Hu Hn. rewrite (gr_ram _ _ _ _ G2); [by apply R1|apply (gr_used _ _ _ _ G1); by left|done].
    + intros v. rewrite <- C1. apply pcont_frame; [apply Hfr1|done].
    + exact Hk1.
Qed.

#[export] Instance page_of_dec a va : Decision (page_of a va).
Proof. unfold page_of. apply _. Defined.

Definition complete (a : MapArea) (l : list (Z * Z)) : Prop :=
  forall v, page_of a v -> is_Some (bt_lookup v l).

Lemma map_area_loop_spec a k : area_shape a -> forall fuel m p T A l va,
  (k < fuel)%nat -> area_in m p T A a l -> start a <= va -> va `mod` 4096 = 0 ->
  va + Z.of_nat k * 4096 = start a + area_size a ->
  (forall v, page_of a v -> va <= v -> A !! (v / 4096) = None) -> 4 * Z.of_nat k <= spare m ->
  swp (map_area_loop fuel p (set_mapper a (Framed l)) va (start a + area_size a)) m
    (fun '(p', a') m' => exists T' A' l', a' = set_mapper a (Framed l') /\
      area_in m' p' T' A' a l' /\ map_effect m T l m' T' l' /\ spare m - 4 * Z.of_nat k <= spare m' /\
      (forall v, page_of a v -> va <= v -> is_Some (bt_lookup v l')) /\
      forall key, A' !! key = if decide (page_of a (key * 4096) /\ va <= key * 4096)
        then (fun pa => (pa, flags a)) <$> bt_lookup (key * 4096) l' else A !! key).
Proof.
  intros Hsh. induction k as [|k IH]; intros fuel m p T A l va Hfuel I Hs Hal Hk Hnone Hsp;
    (destruct fuel as [|fuel]; [lia|]); cbn [map_area_loop].
  - rewrite (proj2 (Z.ltb_ge _ _)) by lia. apply swp_ret. exists T, A, l. split_and!; auto.
    + by eapply map_effect_refl.
    + lia.
    + intros v [? ?]. lia.
    + intros key. rewrite decide_False; [done|]. unfold page_of. lia.
  - rewrite (proj2 (Z.ltb_lt _ _)) by lia.
    assert (page_of a va) as Hpg by (split; lia). destruct (page_user a va Hsh Hpg) as (H0 & Hmax & Hvpn).
    eapply swp_lift_bind.
    { rewrite VirtAddr_new_eq by lia. by rewrite (proj2 (Z.ltb_lt _ _)) by lia. }
    eapply map_page_spec; [exact I|done|done|by apply Hnone|lia|].
    intros p1 T1 pa l1 m1 I1 E1 Hpa Hne Hs1. rewrite u64_small by (unfold PAGE_SIZE; lia). unfold PAGE_SIZE.
    eapply swp_mono; [apply (IH fuel m1 p1 T1 (<[va / 4096 := (pa, flags a)]> A) l1 (va + 0x1000))|]; [lia|exact I1|lia|lia|lia| |lia|].
    { intros v Hv Hge. rewrite lookup_insert_ne; [apply Hnone; [done|lia]|]. destruct Hv. lia. }
    intros [p2 a2] m2 (T2 & A2 & l2 & -> & I2 & E2 & Hs2 & Hc2 & HA2). exists T2, A2, l2.
    assert (bt_lookup va l2 = Some pa) as Hpa2 by (by apply (me_keep _ _ _ _ _ _ E2)).
    split_and!; [done|done| |lia| |].
    + eapply (map_effect_trans m p T A a l m1 p1 T1 _ l1); [exact I|exact I1|exact E1|exact E2].
    + intros v Hv Hge. destruct (decide (v = va)) as [->|]; [eauto|]. apply Hc2; [done|]. destruct Hv. lia.
    + intros key. rewrite HA2. destruct (decide (page_of a (key * 4096) /\ va + 0x1000 <= key * 4096)) as [[H1 H2]|Hn].
      * rewrite decide_True by (split; [done|lia]). done.
      * destruct (decide (key = va / 4096)) as [->|Hkey].
        -- replace (va / 4096 * 4096) with va by lia. rewrite decide_True by (split; [done|lia]).
           rewrite Hpa2, lookup_insert_eq. done.
        -- rewrite lookup_insert_ne by done. rewrite decide_False; [done|].
           intros [H1 H2]. apply Hn. split; [done|]. lia.
Qed.


(** ** Unmapping an area *)

Lemma frame_drop_spec m f : mem_ok m -> f ∈ used m ->
  swp (frame_drop (f * 4096)) m (fun _ m' =>
    mem_ok m' /\ used m' = used m ∖ {[f]} /\ ram m' = ram m /\ spare m' = spare m + 1).
Proof.
  intros Hm Hf. destruct (drop_frames_spec [f] m Hm) as (u & m' & E & H1 & H2 & H3 & H4).
  { apply NoDup_singleton. } { by apply Forall_cons. }
  cbn [fmap list_fmap drop_frames] in E. unfold mbind, st_bind in E.
  destruct (frame_drop (f * 4096) m) as [[u' m1]|] eqn:E1; [|done].
  injection E as _ <-. exists u', m1. split; [done|]. split_and!; [done| |done|done].
  rewrite H2. simpl. by rewrite union_empty_r_L.
Qed.

Lemma fset_perm l va pa l' : l ≡ₚ (va, pa) :: l' -> NoDup (frame_nums l) ->
  fset l = {[pa / 4096]} ∪ fset l' /\ pa / 4096 ∉ fset l' /\ NoDup (frame_nums l').
Proof.
  intros Hp Hnd. unfold frame_nums in Hnd. rewrite Hp, fmap_cons in Hnd. simpl in Hnd.
  apply NoDup_cons in Hnd as [Hn Hnd]. split_and!; [|unfold fset; by rewrite elem_of_list_to_set|done].
  apply set_eq. intros f. unfold fset, frame_nums.
  rewrite elem_of_union, elem_of_singleton, !elem_of_list_to_set, Hp, fmap_cons, elem_of_cons. done.
Qed.

(** What unmapping [l] leaves of memory. *)
Record gives (m : Mem) (O : gset Z) (m' : Mem) : Prop := {
  gv_ok : mem_ok m';
  gv_used : used m' = used m ∖ O;
  gv_spare : spare m' = spare m + Z.of_nat (size O);
}.

Lemma gives_trans m O1 m1 O2 m2 : O1 ## O2 -> gives m O1 m1 -> gives m1 O2 m2 -> gives m (O1 ∪ O2) m2.
Proof.
  intros Hd [_ U1 P1] [K2 U2 P2]. split; [done| |rewrite size_union by done; lia].
  rewrite U2, U1. apply difference_difference_l_L.
Qed.

Lemma gives_nil m m' : mem_ok m' -> frames m' = frames m -> gives m ∅ m'.
Proof. intros Hm E. split; [done| |rewrite size_empty, E; lia]. rewrite E. by rewrite difference_empty_L. Qed.

Lemma unmap_page_spec m p T A a l va pa B (K : MapArea -> st Mem B) Q :
  area_in m p T A a l -> area_shape a -> bt_lookup va l = Some pa -> is_Some (A !! (va / 4096)) ->
  (forall l' m', area_in m' p T (delete (va / 4096) A) a l' ->
     gives m {[pa / 4096]} m' -> fset l = {[pa / 4096]} ∪ fset l' -> pa / 4096 ∉ fset l' ->
     (forall v, bt_lookup v l' = if v =? va then None else bt_lookup v l) ->
     (forall f, f ∉ table_frames T -> ram m' !! f = ram m !! f) ->
     swp (K (set_mapper a (Framed l'))) m' Q) ->
  swp (a' ← MapArea_unmap (set_mapper a (Framed l)) va;
       _ ← PageTable_unmap p va; K a') m Q.
Proof.
  intros I Hsh Hl [x HA] HK. pose proof I as [Hm Hpt Hfr Hd]. pose proof (fo_page _ _ _ Hfr va pa Hl) as Hpg.
  destruct (page_user a va Hsh Hpg) as (H0 & Hmax & Hvpn).
  destruct (bt_remove_spec va pa l (fo_bt _ _ _ Hfr) Hl) as (l' & Er & Hperm & Hok' & Hlook).
  destruct (fset_perm l va pa l' Hperm (fo_nodup _ _ _ Hfr)) as (Hfs & Hnin & Hnd').
  destruct (fr_ok_addr m a l va pa Hm Hfr Hl) as (Hpar & Had & Hpin).
  assert (pa = pa / 4096 * 4096) as Epa by (pose proof (fo_addr _ _ _ Hfr va pa Hl); lia).
  apply swp_bind. unfold MapArea_unmap. cbn [mapper set_mapper]. rewrite Er.
  apply swp_bind. rewrite Epa. eapply swp_mono; [apply frame_drop_spec; [done|by apply (fo_used _ _ _ Hfr)]|].
  intros _ m1 (Hm1 & U1 & R1 & P1). apply swp_ret. apply swp_bind.
  change (set_mapper (set_mapper a (Framed l)) (Framed l')) with (set_mapper a (Framed l')).
  assert (table_frames T ⊆ used m1) as Ht1.
  { intros f Hf. rewrite U1. apply elem_of_difference. split; [by eapply table_frames_used, Hf; apply Hpt|].
    intros ->%elem_of_singleton. by apply (Hd _ Hf). }
  assert (pt_rel m1 p T A) as Hpt1 by (eapply pt_rel_frame; [exact Hpt|done|by rewrite R1]).
  eapply swp_mono; [apply (PageTable_unmap_spec m1 p T A va x Hm1 Hpt1 H0); by rewrite Hvpn|].
  intros _ m2 (Hpt2 & Hm2 & Hf2 & R2). rewrite Hvpn in Hpt2. apply HK; auto.
  - split; auto.
    + split; auto.
      * intros v pa' Hv. rewrite Hlook in Hv. destruct (Z.eqb_spec v va); [done|]. by apply (fo_page _ _ _ Hfr v pa').
      * intros v pa' Hv. rewrite Hlook in Hv. destruct (Z.eqb_spec v va); [done|]. by apply (fo_addr _ _ _ Hfr v pa').
      * rewrite Hf2, U1. intros f Hf. apply elem_of_difference. split.
        -- apply (fo_used _ _ _ Hfr). rewrite Hfs. by apply elem_of_union_r.
        -- intros ->%elem_of_singleton. done.
    + intros f Hf Hf'. apply (Hd f Hf). rewrite Hfs. by apply elem_of_union_r.
  - split; [done|by rewrite Hf2|rewrite Hf2, size_singleton; lia].
  - intros f Hf. rewrite R2, R1; [done|]. intros q Hq. apply Hf, elem_of_table_frames. eauto.
Qed.

Lemma unmap_area_loop_spec a k : area_shape a -> forall fuel m p T A l va,
  (k < fuel)%nat -> area_in m p T A a l -> start a <= va -> va `mod` 4096 = 0 ->
  va + Z.of_nat k * 4096 = start a + area_size a ->
  (forall v, page_of a v -> va <= v -> is_Some (bt_lookup v l) /\ is_Some (A !! (v / 4096))) ->
  (forall v pa, bt_lookup v l = Some pa -> va <= v) ->
  swp (unmap_area_loop fuel p (set_mapper a (Framed l)) va (start a + area_size a)) m
    (fun a' m' => exists A', a' = set_mapper a (Framed []) /\ pt_rel m' p T A' /\
      gives m (fset l) m' /\ (forall f, f ∉ table_frames T -> ram m' !! f = ram m !! f) /\
      forall key, A' !! key = if decide (page_of a (key * 4096) /\ va <= key * 4096) then None else A !! key).
Proof.
  intros Hsh. induction k as [|k IH]; intros fuel m p T A l va Hfuel I Hs Hal Hk Hin Hlow;
    (destruct fuel as [|fuel]; [lia|]); cbn [unmap_area_loop].
  - rewrite (proj2 (Z.ltb_ge _ _)) by lia. apply swp_ret. exists A.
    assert (l = []) as ->.
    { destruct l as [|[v pa] l]; [done|]. exfalso.
      assert (bt_lookup v ((v, pa) :: l) = Some pa) as Hv by (cbn [bt_lookup]; by rewrite Z.eqb_refl).
      destruct (fo_page _ _ _ (ai_fr _ _ _ _ _ _ I) v pa Hv) as [? _]. specialize (Hlow v pa Hv). lia. }
    split_and!; [done|apply I|apply gives_nil; [apply I|done]|done|].
    intros key. rewrite decide_False; [done|]. unfold page_of. lia.
  - rewrite (proj2 (Z.ltb_lt _ _)) by lia.
    assert (page_of a va) as Hpg by (split; lia). destruct (page_user a va Hsh Hpg) as (H0 & Hmax & Hvpn).
    eapply swp_lift_bind.
    { rewrite VirtAddr_new_eq by lia. by rewrite (proj2 (Z.ltb_lt _ _)) by lia. }
    destruct (Hin va Hpg ltac:(lia)) as [[pa Hpa] HA].
    eapply unmap_page_spec; [exact I|done|exact Hpa|exact HA|].
    intros l1 m1 I1 V1 Hfs Hnin Hlook R1. rewrite u64_small by (unfold PAGE_SIZE; lia). unfold PAGE_SIZE.
    eapply swp_mono; [apply (IH fuel m1 p T (delete (va / 4096) A) l1 (va + 0x1000))|]; [lia|exact I1|lia|lia|lia| | |].
    { intros v Hv Hge. rewrite Hlook. destruct (Z.eqb_spec v va); [lia|]. destruct (Hin v Hv ltac:(lia)) as [? ?].
      split; [done|]. rewrite lookup_delete_ne; [done|]. destruct Hv. lia. }
    { intros v pa' Hv. rewrite Hlook in Hv. destruct (Z.eqb_spec v va); [done|].
      pose proof (Hlow v pa' Hv). destruct (fo_page _ _ _ (ai_fr _ _ _ _ _ _ I) v pa' Hv). lia. }
    intros a2 m2 (A2 & -> & Hpt2 & V2 & R2 & HA2). exists A2. split_and!; [done|done| | |].
    + rewrite Hfs. eapply gives_trans; [|exact V1|exact V2]. by apply disjoint_singleton_l.
    + intros f Hf. by rewrite R2, R1.
    + intros key. rewrite HA2. destruct (decide (page_of a (key * 4096) /\ va + 0x1000 <= key * 4096)) as [[H1 H2]|Hn].
      * rewrite decide_True by (split; [done|lia]). done.
      * destruct (decide (key = va / 4096)) as [->|Hkey].
        -- replace (va / 4096 * 4096) with va by lia. rewrite decide_True by (split; [done|lia]).
           by rewrite lookup_delete_eq.
        -- rewrite lookup_delete_ne by done. rewrite decide_False; [done|].
           intros [H1 H2]. apply Hn. split; [done|]. lia.
Qed.
