(* ===== verification/UserSpace.v ===== *)
(** Whole user address spaces: the invariant of [MemorySet], and insertion,
    duplication and destruction of address spaces. *)
From S2P Require Import Prelude ByteCodec Address Allocator State PageEntry PageTable BTree MemorySet AddressSpace.

From Stdlib Require Import ZifyNat.
#[local] Ltac Zify.zify_post_hook ::= Z.to_euclidean_division_equations.

(** ** The invariant *)

Record area_ok (m : Mem) (a : MapArea) (l : list (Z * Z)) : Prop := {
  ao_shape : area_shape a;
  ao_mapper : mapper a = Framed l;
  ao_fr : fr_ok m a l;
  ao_complete : complete a l;
}.

Definition area_frames (a : MapArea) : list Z :=
  match mapper a with Offset _ => [] | Framed l => frame_nums l end.
Definition ms_frames (L : list (Z * MapArea)) : list Z := L ≫= (fun x => area_frames x.2).
Definition ms_set (L : list (Z * MapArea)) : gset Z := list_to_set (ms_frames L).
Abbreviation own T L := (table_frames T ∪ ms_set L).

Definition apart (a b : MapArea) : Prop := forall v, page_of a v -> page_of b v -> False.

(** The page table maps exactly the pages the areas hold. *)
Definition ms_maps (L : list (Z * MapArea)) (A : gmap Z (Z * Z)) : Prop :=
  forall key x, A !! key = Some x <->
    exists k a l pa, (k, a) ∈ L /\ mapper a = Framed l /\ bt_lookup (key * 4096) l = Some pa /\ x = (pa, flags a).

Record areas_ok (m : Mem) (L : list (Z * MapArea)) : Prop := {
  ak_bt : bt_ok L;
  ak_area k a : (k, a) ∈ L -> k = start a /\ exists l, area_ok m a l;
  ak_apart k a k' a' : (k, a) ∈ L -> (k', a') ∈ L -> k <> k' -> apart a a';
  ak_nodup : NoDup (ms_frames L);
}.

Record space_inv (m : Mem) (p : PageTable) (T : tree) (A : gmap Z (Z * Z)) (L : list (Z * MapArea)) : Prop := {
  si_mem : mem_ok m;
  si_pt : pt_rel m p T A;
  si_areas : areas_ok m L;
  si_maps : ms_maps L A;
  si_disj : table_frames T ## ms_set L;
}.

(** What a process finds at a page: its bytes and its access flags. *)
Definition view (m : Mem) (A : gmap Z (Z * Z)) (key : Z) : option (list Z * Z) :=
  x ← A !! key;
  c ← ram m !! (x.1 / 4096);
  Some (c, x.2).

Definition npages (a : MapArea) : Z := area_size a / 4096.
Definition pages (L : list (Z * MapArea)) : Z := foldr (fun x n => npages x.2 + n) 0 L.

(** ** Frames of areas *)

Lemma elem_of_ms_set L f : f ∈ ms_set L <-> exists k a, (k, a) ∈ L /\ f ∈ area_frames a.
Proof.
  unfold ms_set, ms_frames. rewrite elem_of_list_to_set, list_elem_of_bind. split.
  - intros ([k a] & Hf & Hin). eauto.
  - intros (k & a & Hin & Hf). by exists (k, a).
Qed.

Lemma ms_set_used m L : areas_ok m L -> ms_set L ⊆ used m.
Proof.
  intros K f (k & a & Hin & Hf)%elem_of_ms_set. destruct (ak_area _ _ K k a Hin) as (_ & l & Ho).
  apply (fo_used _ _ _ (ao_fr _ _ _ Ho)). unfold area_frames in Hf. rewrite (ao_mapper _ _ _ Ho) in Hf.
  by apply elem_of_list_to_set.
Qed.

Lemma area_frames_sub L k a l : (k, a) ∈ L -> mapper a = Framed l -> fset l ⊆ ms_set L.
Proof.
  intros Hin Hm f Hf%elem_of_list_to_set. apply elem_of_ms_set. exists k, a. split; [done|].
  unfold area_frames. by rewrite Hm.
Qed.

Lemma own_used m p T A L : space_inv m p T A L -> own T L ⊆ used m.
Proof.
  intros I. apply union_subseteq. split; [eapply table_frames_used, I|apply ms_set_used, I].
Qed.

Lemma area_ok_frame m m' a l : area_ok m a l -> fset l ⊆ used m' -> area_ok m' a l.
Proof. intros [? ? ? ?] ?. split; auto. by eapply fr_ok_frame. Qed.

Lemma areas_ok_frame m m' L : areas_ok m L -> ms_set L ⊆ used m' -> areas_ok m' L.
Proof.
  intros [B K P N] Hu. split; auto. intros k a Hin. destruct (K k a Hin) as (-> & l & Ho).
  split; [done|]. exists l. eapply area_ok_frame; [done|]. etrans; [|done].
  eapply area_frames_sub; [done|apply Ho].
Qed.

(** The frame rule for address spaces. *)
Lemma space_inv_frame m m' p T A L : space_inv m p T A L -> mem_ok m' ->
  own T L ⊆ used m' -> (forall f, f ∈ own T L -> ram m' !! f = ram m !! f) -> space_inv m' p T A L.
Proof.
  intros [Hm Hpt K M D] Hm' Hu Hr. apply union_subseteq in Hu as [Hu1 Hu2]. split; auto.
  - eapply pt_rel_frame; [done|done|]. intros f Hf. apply Hr. by apply elem_of_union_l.
  - by eapply areas_ok_frame.
Qed.

Lemma ms_frames_cons k a L : ms_frames ((k, a) :: L) = area_frames a ++ ms_frames L.
Proof. done. Qed.

Lemma ms_set_cons k a l L : mapper a = Framed l -> ms_set ((k, a) :: L) = fset l ∪ ms_set L.
Proof.
  intros Hm. unfold ms_set. rewrite ms_frames_cons, list_to_set_app_L. unfold area_frames. by rewrite Hm.
Qed.

Lemma areas_ok_cons m k a l L : areas_ok m ((k, a) :: L) -> mapper a = Framed l ->
  areas_ok m L /\ area_ok m a l /\ k = start a /\ fset l ## ms_set L /\
  forall k' b, (k', b) ∈ L -> apart a b.
Proof.
  intros [B K P N] Hm. rewrite ms_frames_cons in N. apply NoDup_app in N as (_ & Nd & N).
  apply bt_ok_cons in B as [Hlt B]. split_and!.
  - split; auto; intros; [apply K; by apply elem_of_cons; right|].
    eapply P; [apply elem_of_cons; by right|apply elem_of_cons; by right|done].
  - destruct (K k a) as (_ & l' & Ho); [by apply elem_of_cons; left|].
    rewrite (ao_mapper _ _ _ Ho) in Hm. by simplify_eq.
  - apply K. by apply elem_of_cons; left.
  - intros f Hf%elem_of_list_to_set Hf'%elem_of_list_to_set. apply (Nd f); [|done].
    unfold area_frames. by rewrite Hm.
  - intros k' b Hin. apply (P k a k' b); [by apply elem_of_cons; left|by apply elem_of_cons; right|].
    rewrite Forall_forall in Hlt. specialize (Hlt _ Hin). simpl in Hlt. lia.
Qed.

(** Adding an area at a fresh key. *)
Lemma areas_ok_insert m a l L :
  areas_ok m L -> area_ok m a l -> bt_lookup (start a) L = None -> fset l ## ms_set L ->
  (forall k b, (k, b) ∈ L -> apart a b) -> areas_ok m (bt_insert (start a) a L).
Proof.
  intros [B K P N] Ho Hn Hd Hap. pose proof (bt_insert_perm (start a) a L Hn) as Hp. split.
  - by apply bt_insert_ok.
  - intros k b. rewrite Hp, elem_of_cons. intros [[= -> ->]|?]; eauto.
  - intros k b k' b'. rewrite Hp, !elem_of_cons. intros [[= -> ->]|H1] [[= -> ->]|H2] Hne; [done|by eapply Hap| |by eapply P].
    intros v Hv Hv'. by apply (Hap k b H1 v).
  - unfold ms_frames. rewrite Hp, bind_cons. apply NoDup_app. split_and!; [| |done].
    + unfold area_frames. simpl. rewrite (ao_mapper _ _ _ Ho). apply Ho.
    + intros f Hf Hf'. unfold area_frames in Hf. simpl in Hf. rewrite (ao_mapper _ _ _ Ho) in Hf.
      apply (Hd f); by apply elem_of_list_to_set.
Qed.

Lemma ms_set_insert a l L : bt_lookup (start a) L = None -> mapper a = Framed l ->
  ms_set (bt_insert (start a) a L) = fset l ∪ ms_set L.
Proof.
  intros Hn Hm. rewrite <- (ms_set_cons (start a) a l L Hm). apply set_eq. intros f.
  rewrite !elem_of_ms_set. split; intros (k & b & Hin & Hf); exists k, b; (split; [|done]).
  - by rewrite <- (bt_insert_perm (start a) a L Hn).
  - by rewrite (bt_insert_perm (start a) a L Hn).
Qed.

(** ** Insertion *)

Lemma usize_not_pos x : 0 <= x < 2 ^ 63 -> 0 < usize_not x.
Proof.
  intros Hx. unfold usize_not. assert (Z.lxor x (2 ^ 64 - 1) <> 0) by (intros ?%Z.lxor_eq; lia).
  assert (0 <= Z.lxor x (2 ^ 64 - 1)) by (apply Z.lxor_nonneg; lia). lia.
Qed.

Lemma map_area_spec m p T A a l :
  area_shape a -> mapper a = Framed l -> area_in m p T A a l ->
  (forall v, page_of a v -> A !! (v / 4096) = None) -> 4 * npages a <= spare m ->
  swp (map_area p a) m (fun '(p', a') m' => exists T' A' l', a' = set_mapper a (Framed l') /\
    area_in m' p' T' A' a l' /\ map_effect m T l m' T' l' /\ spare m - 4 * npages a <= spare m' /\ complete a l' /\
    forall key, A' !! key = if decide (page_of a (key * 4096))
      then (fun pa => (pa, flags a)) <$> bt_lookup (key * 4096) l' else A !! key).
Proof.
  intros Hsh Hl I Hnone Hsp. pose proof Hsh as [Hst Hsz Hend _].
  assert (a = set_mapper a (Framed l)) as Ea by (destruct a; simpl in *; by rewrite Hl).
  unfold map_area. rewrite u64_small by lia. rewrite Ea at 2. unfold npages in *.
  eapply swp_mono; [apply (map_area_loop_spec a (Z.to_nat (npages a)) Hsh (area_fuel a) m p T A l (start a))|];
    unfold npages, area_fuel, PAGE_SIZE; [lia|done|lia|lia|lia|by auto|lia|].
  intros [p' a'] m' (T' & A' & l' & -> & I' & E & Hs & Hc & HA). exists T', A', l'.
  split_and!; [done|done|done|lia| |].
  - intros v Hv. apply Hc; [done|]. destruct Hv. lia.
  - intros key. rewrite HA. destruct (decide (page_of a (key * 4096))) as [Hp|Hp].
    + rewrite decide_True; [done|]. split; [done|]. destruct Hp. lia.
    + rewrite decide_False; [done|]. tauto.
Qed.

Lemma ms_maps_page m L A v : areas_ok m L -> ms_maps L A -> v `mod` 4096 = 0 -> is_Some (A !! (v / 4096)) ->
  exists k a, (k, a) ∈ L /\ page_of a v.
Proof.
  intros K M Hv [x Hx]. apply M in Hx as (k & a & l & pa & Hin & Hm & Hl & _).
  replace (v / 4096 * 4096) with v in Hl by lia. exists k, a. split; [done|].
  destruct (ak_area _ _ K k a Hin) as (_ & l' & Ho). rewrite (ao_mapper _ _ _ Ho) in Hm. simplify_eq.
  by apply (fo_page _ _ _ (ao_fr _ _ _ Ho) v pa).
Qed.

Lemma ms_maps_insert m a l L A A' :
  areas_ok m L -> ms_maps L A -> bt_lookup (start a) L = None -> mapper a = Framed l -> fr_ok m a l ->
  (forall k b, (k, b) ∈ L -> apart a b) ->
  (forall key, A' !! key = if decide (page_of a (key * 4096))
     then (fun pa => (pa, flags a)) <$> bt_lookup (key * 4096) l else A !! key) ->
  ms_maps (bt_insert (start a) a L) A'.
Proof.
  intros K M Hn Hm Hfr Hap HA key x. rewrite HA.
  pose proof (bt_insert_perm (start a) a L Hn) as Hp. case_decide as Hpg.
  - rewrite fmap_Some. split.
    + intros (pa & Hl & ->). exists (start a), a, l, pa. split_and!; auto. rewrite Hp. by apply elem_of_cons; left.
    + intros (k & b & lb & pa & Hin & Hmb & Hl & ->). rewrite Hp, elem_of_cons in Hin.
      destruct Hin as [[= -> ->]|Hin]; [rewrite Hm in Hmb; simplify_eq; eauto|]. exfalso.
      destruct (ak_area _ _ K k b Hin) as (_ & l' & Ho). rewrite (ao_mapper _ _ _ Ho) in Hmb. simplify_eq.
      apply (Hap k b Hin (key * 4096)); [done|]. by apply (fo_page _ _ _ (ao_fr _ _ _ Ho) _ pa).
  - rewrite (M key x). split.
    + intros (k & b & lb & pa & Hin & Hr). exists k, b, lb, pa. split; [|done]. rewrite Hp. by apply elem_of_cons; right.
    + intros (k & b & lb & pa & Hin & Hmb & Hl & ->). rewrite Hp, elem_of_cons in Hin.
      destruct Hin as [[= -> ->]|Hin]; [|eauto 10]. rewrite Hm in Hmb. simplify_eq.
      by apply (fo_page _ _ _ Hfr) in Hl.
Qed.

(** An area ready to be inserted into an address space that owns [O]. *)
Record area_ready (m : Mem) (a : MapArea) (l : list (Z * Z)) (L : list (Z * MapArea)) : Prop := {
  ar_shape : area_shape a;
  ar_mapper : mapper a = Framed l;
  ar_fr : fr_ok m a l;
  ar_new : bt_lookup (start a) L = None;
  ar_apart k b : (k, b) ∈ L -> apart a b;
}.

(** What insertion does: the area gets all its frames, the pages keep their
    bytes (zeros where there was no frame), frames that are no tables of this
    address space keep theirs. *)
Record inserted (m : Mem) (T : tree) (L : list (Z * MapArea)) (a : MapArea) (l : list (Z * Z))
    (m' : Mem) (T' : tree) (L' : list (Z * MapArea)) (l' : list (Z * Z)) : Prop := {
  in_areas : L' = bt_insert (start a) (set_mapper a (Framed l')) L;
  in_grows : grows m (own T L ∪ fset l) m' (own T' L');
  in_ram f : f ∈ used m -> f ∉ table_frames T -> ram m' !! f = ram m !! f;
  in_cont v : pcont m' l' v = pcont m l v;
  in_spare : spare m - 4 * npages a <= spare m';
}.

Lemma MemorySet_insert_spec m ms T A a l :
  space_inv m (pt ms) T A (areas ms) -> area_ready m a l (areas ms) -> fset l ## own T (areas ms) ->
  4 * npages a <= spare m ->
  swp (MemorySet_insert ms a) m (fun ms' m' => exists T' A' l',
    space_inv m' (pt ms') T' A' (areas ms') /\ inserted m T (areas ms) a l m' T' (areas ms') l').
Proof.
  intros I [Hsh Hm Hfr Hn Hap] Hd Hsp. pose proof I as [Hmem Hpt K M D]. set (L := areas ms) in *.
  assert (fset l ## ms_set L /\ table_frames T ## fset l) as [Hd1 Hd2].
  { split; [intros f H1 H2; apply (Hd f H1); by apply elem_of_union_r|].
    intros f H1 H2. apply (Hd f H2). by apply elem_of_union_l. }
  assert (area_in m (pt ms) T A a l) as Ia by (by split).
  unfold MemorySet_insert. pose proof Hsh as [Hst Hsz Hend Hfl].
  rewrite (proj2 (Z.ltb_lt _ _)) by (apply usize_not_pos; lia). fold L. rewrite Hn.
  apply swp_bind. eapply swp_mono; [apply (map_area_spec m (pt ms) T A a l Hsh Hm Ia); [|done]|].
  { intros v Hv. apply eq_None_not_Some. intros Hs. destruct (ms_maps_page m L A v K M (proj2 Hv) Hs) as (k & b & Hin & Hb).
    by apply (Hap k b Hin v). }
  intros [p' a'] m' (T' & A' & l' & -> & I' & E & Hs & Hc & HA). apply swp_ret.
  cbn [pt areas]. set (a' := set_mapper a (Framed l')).
  assert (ms_set L ## area_own T l) as Hx.
  { intros f H1 [H2|H2]%elem_of_union; [by apply (D f)|by apply (Hd1 f)]. }
  pose proof (ms_set_used m L K) as Hxu.
  pose proof (grows_apart _ _ _ _ _ (me_grows _ _ _ _ _ _ E) Hxu Hx) as Hx'.
  assert (ms_set L ⊆ used m') as Hxu'.
  { intros f Hf. apply (gr_used _ _ _ _ (me_grows _ _ _ _ _ _ E)). left. by apply Hxu. }
  assert (fr_ok m' a' l') as Hfr' by (destruct (ai_fr _ _ _ _ _ _ I'); by split).
  pose proof (ms_set_insert a' l' L Hn eq_refl) as Hset. change (start a') with (start a) in Hset.
  exists T', A', l'. split; [split|split].
  - apply I'.
  - apply I'.
  - apply (areas_ok_insert m' a' l'); [by eapply areas_ok_frame| |done| |done].
    + split; [destruct Hsh; by split|done|done|exact Hc].
    + intros f H1 H2. apply (Hx' f H2). by apply elem_of_union_r.
  - apply (ms_maps_insert m' a' l' L A A'); auto. by eapply areas_ok_frame.
  - rewrite Hset. intros f H1 [H2|H2]%elem_of_union; [by apply (ai_disj _ _ _ _ _ _ I' f)|].
    apply (Hx' f H2). by apply elem_of_union_l.
  - done.
  - replace (own T L ∪ fset l) with (ms_set L ∪ area_own T l) by (set_solver).
    replace (own T' _) with (ms_set L ∪ area_own T' l') by (rewrite Hset; set_solver).
    by apply grows_frame; [apply E| |].
  - apply E.
  - apply E.
  - done.
Qed.

(** ** Destruction *)

Lemma unmap_area_spec m p T A a l L :
  space_inv m p T A ((start a, a) :: L) -> mapper a = Framed l ->
  swp (unmap_area p a) m (fun a' m' => exists A', a' = set_mapper a (Framed []) /\
    space_inv m' p T A' L /\ gives m (fset l) m' /\
    forall f, f ∉ table_frames T -> ram m' !! f = ram m !! f).
Proof.
  intros [Hmem Hpt K M D] Hm. destruct (areas_ok_cons m (start a) a l L K Hm) as (K' & Ho & _ & Hdl & Hap).
  pose proof Ho as [Hsh _ Hfr Hc]. pose proof Hsh as [Hst Hsz Hend _]. rewrite (ms_set_cons _ a l L Hm) in D.
  assert (area_in m p T A a l) as Ia.
  { split; auto. intros f H1 H2. apply (D f H1). by apply elem_of_union_l. }
  assert (a = set_mapper a (Framed l)) as Ea by (destruct a; simpl in *; by rewrite Hm).
  unfold unmap_area. rewrite u64_small by lia. rewrite Ea at 2.
  eapply swp_mono; [apply (unmap_area_loop_spec a (Z.to_nat (npages a)) Hsh (area_fuel a) m p T A l (start a))|];
    unfold npages, area_fuel, PAGE_SIZE; [lia|done|lia|lia|lia| | |].
  { intros v Hv _. destruct (Hc v Hv) as [pa Hpa]. split; [eauto|]. exists (pa, flags a). apply M.
    exists (start a), a, l, pa. replace (v / 4096 * 4096) with v by (destruct Hv; lia).
    split_and!; auto. by apply elem_of_cons; left. }
  { intros v pa Hv. destruct (fo_page _ _ _ Hfr v pa Hv). lia. }
  intros a' m' (A' & -> & Hpt' & V & R & HA). exists A'. split_and!; [done| |done|done].
  assert (ms_set L ⊆ used m') as Hu.
  { intros f Hf. rewrite (gv_used _ _ _ V). apply elem_of_difference. split; [by apply (ms_set_used m L K')|].
    intros Hf'. by apply (Hdl f). }
  split; [apply V|done|by eapply areas_ok_frame| |].
  - intros key x. rewrite HA.
    assert (page_of a (key * 4096) /\ start a <= key * 4096 <-> page_of a (key * 4096)) as Hiff.
    { split; [tauto|]. intros Hp. split; [done|]. destruct Hp. lia. }
    destruct (decide _) as [Hp|Hp]; rewrite Hiff in Hp.
    + split; [done|]. intros (k & b & lb & pa & Hin & Hmb & Hl & ->). exfalso.
      destruct (ak_area _ _ K' k b Hin) as (_ & l' & Hob). rewrite (ao_mapper _ _ _ Hob) in Hmb. simplify_eq.
      apply (Hap k b Hin (key * 4096) Hp). by apply (fo_page _ _ _ (ao_fr _ _ _ Hob) _ pa).
    + rewrite (M key x). split; [|intros (k & b & lb & pa & Hin & Hr); exists k, b, lb, pa; split; [by apply elem_of_cons; right|done]].
      intros (k & b & lb & pa & [[= -> ->]|Hin]%elem_of_cons & Hmb & Hl & ->); [|eauto 10].
      rewrite Hm in Hmb. simplify_eq. by apply (fo_page _ _ _ Hfr) in Hl.
  - intros f H1 H2. apply (D f H1). by apply elem_of_union_r.
Qed.

Lemma unmap_areas_spec p T L : forall m A, space_inv m p T A L ->
  swp (unmap_areas p L) m (fun L' m' => L' = (fun x => (x.1, set_mapper x.2 (Framed []))) <$> L /\
    space_inv m' p T ∅ [] /\ gives m (ms_set L) m' /\
    forall f, f ∉ table_frames T -> ram m' !! f = ram m !! f).
Proof.
  induction L as [|[k a] L IH]; intros m A I; cbn [unmap_areas].
  - apply swp_ret. assert (A = ∅) as ->.
    { apply map_empty. intros key. apply eq_None_not_Some. intros [x Hx].
      apply (si_maps _ _ _ _ _ I) in Hx as (? & ? & ? & ? & Hin & _). by apply elem_of_nil in Hin. }
    split_and!; [done|done|apply gives_nil; [apply I|done]|done].
  - destruct (ak_area _ _ (si_areas _ _ _ _ _ I) k a) as (-> & l & Ho); [by apply elem_of_cons; left|].
    pose proof (ao_mapper _ _ _ Ho) as Hm.
    destruct (areas_ok_cons m _ a l L (si_areas _ _ _ _ _ I) Hm) as (_ & _ & _ & Hd & _).
    apply swp_bind. eapply swp_mono; [by eapply unmap_area_spec|]. intros a' m1 (A1 & -> & I1 & V1 & R1).
    apply swp_bind. eapply swp_mono; [by eapply IH|]. intros L' m2 (-> & I2 & V2 & R2). apply swp_ret.
    split_and!; [done|done| |].
    + rewrite (ms_set_cons _ a l L Hm). by eapply gives_trans.
    + intros f Hf. by rewrite R2, R1.
Qed.

Lemma drop_areas_empty L m : drop_areas ((fun x => (x.1, set_mapper x.2 (Framed []))) <$> L) m = Ok (tt, m).
Proof. induction L as [|[k a] L IH]; [done|]. cbn. unfold mbind, st_bind. cbn. exact IH. Qed.

Lemma MemorySet_drop_spec m ms T A :
  space_inv m (pt ms) T A (areas ms) ->
  swp (MemorySet_drop ms) m (fun _ m' => gives m (own T (areas ms)) m' /\
    forall f, f ∉ table_frames T -> ram m' !! f = ram m !! f).
Proof.
  intros I. apply swp_bind, swp_bind. eapply swp_mono; [by apply (unmap_areas_spec (pt ms) T (areas ms) m A)|].
  intros L' m1 (-> & I1 & V1 & R1). apply swp_bind.
  eexists tt, m1. split; [apply drop_areas_empty|]. apply swp_ret. cbn [pt areas drop_areas].
  apply swp_bind. eapply swp_mono; [eapply PageTable_drop_spec; [apply I1|apply (pr_inv _ _ _ _ (si_pt _ _ _ _ _ I1))]|].
  intros _ m2 (Hm2 & U2 & R2 & P2). apply swp_ret. split; [|intros f Hf; by rewrite R2, R1].
  rewrite union_comm_L. eapply gives_trans; [|exact V1|].
  - intros f H1 H2. by apply (si_disj _ _ _ _ _ I f).
  - split; [done|done|]. rewrite P2. rewrite (table_frames_size m1 (pt ms) T); [done|].
    apply (pr_inv _ _ _ _ (si_pt _ _ _ _ _ I1)).
Qed.

(** ** Duplication *)

(** [y] has the key of [x] and a fresh frame with the bytes of its frame. *)
Definition frame_copy (m : Mem) (x y : Z * Z) : Prop :=
  y.1 = x.1 /\ y.2 `mod` 4096 = 0 /\ ram m !! (y.2 / 4096) = ram m !! (x.2 / 4096).

Lemma clone_frames_spec : forall l new m,
  mem_ok m -> bt_ok l -> Forall (fun x => x.2 `mod` 4096 = 0 /\ x.2 / 4096 ∈ used m) l ->
  (forall x y, x ∈ new -> y ∈ l -> x.1 < y.1) -> Zlength l <= spare m ->
  swp (clone_frames l new) m (fun new' m' => exists l', new' = new ++ l' /\
    Forall2 (frame_copy m') l l' /\ NoDup (frame_nums l') /\ grows m ∅ m' (fset l') /\
    spare m - Zlength l <= spare m').
Proof.
  induction l as [|[va pa] l IH]; intros new m Hm Hbt Hl Hlt Hsp; cbn [clone_frames].
  - apply swp_ret. exists []. split_and!; [by rewrite app_nil_r|done|apply NoDup_nil_2|by apply grows_refl|lia].
  - apply Forall_cons in Hl as [[Hal Hu] Hl]. apply bt_ok_cons in Hbt as [Hlow Hbt]. simpl in Hal, Hu, Hsp.
    destruct (used_frame m (pa / 4096) Hm Hu) as (Hpr & c & Hc & Hpg).
    apply swp_bind. eapply swp_mono; [apply frame_alloc_spec; [done|lia]|].
    intros o m1 (f & c0 & -> & Hf & Hc0 & Hto). eapply swp_lift_bind; [done|].
    assert (f <> pa / 4096) as Hne by (intros ->; by apply (tk_fresh _ _ _ _ Hto)).
    assert (ram m1 !! (pa / 4096) = Some c) as Hc1 by (rewrite (tk_ram _ _ _ _ Hto); by rewrite lookup_insert_ne).
    assert (ram m1 !! f = Some c0) as Hc2 by (rewrite (tk_ram _ _ _ _ Hto); apply lookup_insert_eq).
    apply swp_bind. exists c, m1. split; [replace pa with (pa / 4096 * 4096) by lia; by apply read_frame_spec|].
    apply swp_bind. eexists tt, _. split; [by eapply write_frame_spec|].
    pose proof (took_fill m f c0 c m1 Hto Hpg) as Hto2. set (m2 := mkMem _ _) in *.
    pose proof (grows_took m ∅ f c m2 Hto2 (empty_subseteq _)) as G. rewrite union_empty_r_L in G.
    assert (forall x, x ∈ new -> x.1 < va) as Hnv.
    { intros x Hx. apply (Hlt x (va, pa)); [done|by apply elem_of_cons; left]. }
    rewrite bt_insert_last by (by apply Forall_forall).
    eapply swp_mono; [apply (IH (new ++ [(va, f * 4096)]) m2)|].
    + apply Hto2.
    + done.
    + eapply Forall_impl; [exact Hl|]. intros x [? ?]. split; [done|]. apply (gr_used _ _ _ _ G). by left.
    + intros x y [Hx| ->%list_elem_of_singleton]%elem_of_app Hy; [apply Hlt; [done|by apply elem_of_cons; right]|].
      rewrite Forall_forall in Hlow. by apply Hlow.
    + rewrite (tk_left _ _ _ _ Hto2). simpl. lia.
    + intros new' m' (l' & -> & Hcp & Hnd & G' & Hs'). exists ((va, f * 4096) :: l').
      assert (f * 4096 / 4096 = f) as Ef by lia.
      assert (f ∈ used m2) as Hfu by (apply (gr_used _ _ _ _ G); right; by apply elem_of_singleton).
      assert (fset ((va, f * 4096) :: l') = {[f]} ∪ fset l') as Hfs.
      { unfold fset, frame_nums. rewrite fmap_cons. simpl. by rewrite Ef. }
      assert ({[f]} ## fset l') as Hdf.
      { apply disjoint_singleton_l. intros Hin. by apply (gr_fresh _ _ _ _ G') in Hin. }
      split_and!; [by rewrite <- app_assoc| | | |].
      * constructor; [|exact Hcp]. split_and!; [done|simpl; lia|]. simpl.
        rewrite Ef, !(gr_ram _ _ _ _ G') by (done || apply not_elem_of_empty || (apply (gr_used _ _ _ _ G); by left)).
        rewrite (tk_ram _ _ _ _ Hto2), lookup_insert_eq. by rewrite lookup_insert_ne.
      * unfold frame_nums. rewrite fmap_cons. simpl. rewrite Ef. apply NoDup_cons. split; [|done].
        intros Hin. apply (Hdf f); [by apply elem_of_singleton|by apply elem_of_list_to_set].
      * rewrite Hfs. eapply grows_trans; [exact G|].
        replace {[f]} with ({[f]} ∪ (∅ : gset Z)) at 1 by (by rewrite union_empty_r_L).
        apply grows_frame; [done| |apply disjoint_empty_r]. by intros g ->%elem_of_singleton.
      * rewrite (tk_left _ _ _ _ Hto2) in Hs'. simpl. lia.
Qed.

Lemma frame_copy_lookup m l l' v : Forall2 (frame_copy m) l l' ->
  match bt_lookup v l, bt_lookup v l' with
  | Some pa, Some pa' => pa' `mod` 4096 = 0 /\ ram m !! (pa' / 4096) = ram m !! (pa / 4096)
  | None, None => True
  | _, _ => False
  end.
Proof.
  induction 1 as [|[k pa] [k' pa'] l l' (E & Hal & Hr) _ IH]; cbn [bt_lookup]; [done|].
  simpl in E, Hal, Hr. subst k'. by destruct (v =? k).
Qed.

Lemma frame_copy_keys m l l' : Forall2 (frame_copy m) l l' -> l'.*1 = l.*1.
Proof. induction 1 as [|x y l l' (E & _) _ IH]; [done|]. rewrite !fmap_cons. by rewrite E, IH. Qed.

Lemma MapArea_clone_spec m a l :
  mem_ok m -> area_ok m a l -> Zlength l <= spare m ->
  swp (MapArea_clone a) m (fun a' m' => exists l', a' = set_mapper a (Framed l') /\
    area_ok m' a' l' /\ grows m ∅ m' (fset l') /\ (forall v, pcont m' l' v = pcont m' l v) /\
    spare m - Zlength l <= spare m').
Proof.
  intros Hm [Hsh Hmp Hfr Hc] Hsp. unfold MapArea_clone. rewrite Hmp. apply swp_bind.
  eapply swp_mono; [apply (clone_frames_spec l [] m Hm (fo_bt _ _ _ Hfr)); [|by intros x y ?%elem_of_nil|done]|].
  { apply Forall_forall. intros [va pa] Hin. apply bt_lookup_elem in Hin; [|apply Hfr].
    split; [by apply (fo_addr _ _ _ Hfr va)|]. apply (fo_used _ _ _ Hfr), elem_of_fset; [apply Hfr|eauto]. }
  intros new m' (l' & -> & Hcp & Hnd & G & Hs). simpl app. apply swp_ret. exists l'.
  assert (bt_ok l') as Hbt by (unfold bt_ok; rewrite (frame_copy_keys m' l l' Hcp); apply Hfr).
  assert (forall v pa', bt_lookup v l' = Some pa' -> pa' `mod` 4096 = 0 /\ exists pa, bt_lookup v l = Some pa) as Hback.
  { intros v pa' Hv. pose proof (frame_copy_lookup m' l l' v Hcp) as H. rewrite Hv in H.
    destruct (bt_lookup v l); [|done]. split; [apply H|eauto]. }
  split_and!; [done| |done| |done].
  - split; [destruct Hsh; by split|done| |].
    + split; [done| | |by eapply grows_owned|done].
      * intros v pa' (_ & pa & Hv)%Hback. by apply (fo_page _ _ _ Hfr v pa).
      * intros v pa' (? & _)%Hback. done.
    + intros v Hv. destruct (Hc v Hv) as [pa Hpa]. pose proof (frame_copy_lookup m' l l' v Hcp) as H.
      rewrite Hpa in H. by destruct (bt_lookup v l').
  - intros v. unfold pcont. pose proof (frame_copy_lookup m' l l' v Hcp) as H.
    destruct (bt_lookup v l), (bt_lookup v l'); try done. apply H.
Qed.

(** [a'] holds the same bytes as [a] in frames of its own. *)
Record area_copy (m : Mem) (a a' : MapArea) : Prop := {
  ac_start : start a' = start a;
  ac_size : area_size a' = area_size a;
  ac_flags : flags a' = flags a;
  ac_cont l l' v : mapper a = Framed l -> mapper a' = Framed l' -> pcont m l' v = pcont m l v;
}.
Definition copies (m : Mem) : list (Z * MapArea) -> list (Z * MapArea) -> Prop :=
  Forall2 (fun x y => y.1 = x.1 /\ area_copy m x.2 y.2).

Lemma copies_sym m L L' : copies m L L' -> copies m L' L.
Proof.
  intros H. apply Forall2_flip. eapply Forall2_impl; [exact H|]. intros x y [E [? ? ? Hc]].
  split; [done|]. split; auto. intros l l' v H1 H2. symmetry. by apply Hc.
Qed.

Lemma copies_frame m m' L L' : areas_ok m L -> areas_ok m L' -> copies m L L' ->
  (forall f, f ∈ ms_set L ∪ ms_set L' -> ram m' !! f = ram m !! f) -> copies m' L L'.
Proof.
  intros K K' H Hr. apply Forall2_same_length_lookup. split; [by eapply Forall2_length|].
  intros i [k a] [k' a'] Hx Hy. destruct (Forall2_lookup_lr _ _ _ _ _ _ H Hx Hy) as [E [? ? ? Hc]]. simpl in *.
  apply list_elem_of_lookup_2 in Hx, Hy.
  destruct (ak_area _ _ K k a Hx) as (_ & l0 & Ho), (ak_area _ _ K' k' a' Hy) as (_ & l0' & Ho').
  split; [done|]. split; auto. intros l l' v Hl Hl'.
  rewrite (ao_mapper _ _ _ Ho) in Hl. rewrite (ao_mapper _ _ _ Ho') in Hl'. simplify_eq.
  rewrite !(pcont_frame m m'); [by apply Hc; apply ao_mapper with m|apply Ho| |apply Ho'|];
    intros f Hf; apply Hr, elem_of_union.
  - left. eapply area_frames_sub; [exact Hx|apply Ho|done].
  - right. eapply area_frames_sub; [exact Hy|apply Ho'|done].
Qed.

Lemma copies_lookup m p T A L p' T' A' L' key x :
  space_inv m p T A L -> space_inv m p' T' A' L' -> copies m L L' -> A !! key = Some x ->
  exists y, A' !! key = Some y /\ y.2 = x.2 /\ ram m !! (y.1 / 4096) = ram m !! (x.1 / 4096).
Proof.
  intros I I' Hcp HA. apply (si_maps _ _ _ _ _ I) in HA as (k & a & l & pa & Hin & Hm & Hl & ->).
  apply list_elem_of_lookup in Hin as [i Hi]. destruct (Forall2_lookup_l _ _ _ _ _ Hcp Hi) as ([k' a'] & Hi' & E & [Es Esz Ef Hc]).
  simpl in *. apply list_elem_of_lookup_2 in Hi, Hi'.
  destruct (ak_area _ _ (si_areas _ _ _ _ _ I) k a Hi) as (_ & l0 & Ho).
  destruct (ak_area _ _ (si_areas _ _ _ _ _ I') k' a' Hi') as (_ & l' & Ho').
  rewrite (ao_mapper _ _ _ Ho) in Hm. simplify_eq.
  destruct (ao_complete _ _ _ Ho' (key * 4096)) as [pa' Hpa'].
  { destruct (fo_page _ _ _ (ao_fr _ _ _ Ho) _ _ Hl). split; [|done]. by rewrite Es, Esz. }
  exists (pa', flags a'). split_and!; [|done|].
  - apply (si_maps _ _ _ _ _ I'). exists k, a', l', pa'. split_and!; auto. apply Ho'.
  - simpl. specialize (Hc l l' (key * 4096) (ao_mapper _ _ _ Ho) (ao_mapper _ _ _ Ho')).
    unfold pcont in Hc. by rewrite Hl, Hpa' in Hc.
Qed.

Lemma copies_view m p T A L p' T' A' L' key :
  space_inv m p T A L -> space_inv m p' T' A' L' -> copies m L L' -> view m A' key = view m A key.
Proof.
  intros I I' Hcp. unfold view. destruct (A !! key) as [x|] eqn:E.
  - destruct (copies_lookup m p T A L p' T' A' L' key x I I' Hcp E) as (y & -> & E2 & Hr). simpl. by rewrite Hr, E2.
  - destruct (A' !! key) as [y|] eqn:E'; [|done].
    destruct (copies_lookup m p' T' A' L' p T A L key y I' I (copies_sym _ _ _ Hcp) E') as (x & Hx & _). congruence.
Qed.

(** Source and copy, side by side. *)
Record forked (m : Mem) (p : PageTable) (T : tree) (A : gmap Z (Z * Z)) (L : list (Z * MapArea))
    (ms : MemorySet) (T' : tree) (A' : gmap Z (Z * Z)) (P : list (Z * MapArea)) : Prop := {
  fk_src : space_inv m p T A L;
  fk_new : space_inv m (pt ms) T' A' (areas ms);
  fk_apart : own T L ## own T' (areas ms);
  fk_copy : copies m P (areas ms);
}.

Lemma copies_bound m k L L' : copies m L L' -> Forall (fun x => x.1 < k) L -> Forall (fun x => x.1 < k) L'.
Proof. induction 1 as [|x y L L' [E _] _ IH]; [done|]. intros [? ?]%Forall_cons. apply Forall_cons. rewrite E. auto. Qed.

Lemma copies_back m L L' k' b' : copies m L L' -> (k', b') ∈ L' -> exists b, (k', b) ∈ L /\ area_copy m b b'.
Proof.
  intros Hc [i Hi]%list_elem_of_lookup. destruct (Forall2_lookup_r _ _ _ _ _ Hc Hi) as ([k b] & Hb & E & Hab).
  simpl in *. subst k. exists b. split; [by eapply list_elem_of_lookup_2|done].
Qed.

(** The frame rule for the pair: an operation on the copy leaves the source. *)
Lemma src_frame m p T A L ms T' m' O' X :
  space_inv m p T A L -> grows m (own T' (areas ms) ∪ X) m' O' ->
  own T L ## own T' (areas ms) -> own T L ## X ->
  space_inv m' p T A L /\ own T L ## O'.
Proof.
  intros I G Hd HX. pose proof (own_used _ _ _ _ _ I) as Hu.
  assert (own T L ## own T' (areas ms) ∪ X) as Hd'.
  { intros f H1 [H2|H2]%elem_of_union; [by apply (Hd f)|by apply (HX f)]. }
  split; [|by eapply grows_apart].
  eapply space_inv_frame; [done|apply G| |].
  - intros f Hf. apply (gr_used _ _ _ _ G). left. auto.
  - intros f Hf. apply (gr_ram _ _ _ _ G); [auto|]. exact (Hd' f Hf).
Qed.

(** The copy of the next area fits into the copies made so far. *)
Lemma clone_ready m a l1 L P L' m1 :
  areas_ok m (P ++ (start a, a) :: L) -> copies m P L' -> area_ok m1 (set_mapper a (Framed l1)) l1 ->
  Forall (fun x => x.1 < start a) L' /\ area_ready m1 (set_mapper a (Framed l1)) l1 L'.
Proof.
  intros K Hcp Ho1. assert (Forall (fun x => x.1 < start a) L') as Hlow.
  { eapply copies_bound; [exact Hcp|]. eapply bt_ok_middle, K. }
  split; [done|]. rewrite Forall_forall in Hlow. split; [apply Ho1|done|apply Ho1| |].
  - apply bt_lookup_None. intros (x & E & Hx)%list_elem_of_fmap. specialize (Hlow x Hx). simpl in E. lia.
  - intros k' b' Hb'. destruct (copies_back m P L' k' b' Hcp Hb') as (b & Hb & [Es Esz _ _]).
    assert (k' <> start a) as Hne by (specialize (Hlow _ Hb'); simpl in Hlow; lia).
    assert (apart b a) as Hap.
    { eapply (ak_apart _ _ K k' b (start a) a); [apply elem_of_app; by left| |done].
      apply elem_of_app; right; by apply elem_of_cons; left. }
    intros v [Hv1 Hv2] [Hv3 _]. apply (Hap v); split; auto. by rewrite Es, Esz in Hv3.
Qed.

(** Nothing a first step does outside the copy matters to either space. *)
Lemma forked_alloc m p T A L ms T' A' P m1 O : forked m p T A L ms T' A' P -> grows m ∅ m1 O ->
  areas_ok m P -> ms_set P ⊆ ms_set L -> forked m1 p T A L ms T' A' P /\ own T L ## O /\ own T' (areas ms) ## O.
Proof.
  intros [I I' Hd Hcp] G KP HP.
  assert (forall f, f ∈ used m -> ram m1 !! f = ram m !! f) as R.
  { intros f Hf. apply (gr_ram _ _ _ _ G); [done|apply not_elem_of_empty]. }
  assert (used m ⊆ used m1) as U by (intros f Hf; apply (gr_used _ _ _ _ G); by left).
  assert (forall X, X ⊆ used m -> X ## O) as D.
  { intros X HX. eapply grows_apart; [exact G|done|apply disjoint_empty_r]. }
  pose proof (own_used _ _ _ _ _ I) as HuS. pose proof (own_used _ _ _ _ _ I') as HuN.
  split_and!; [|by apply D|by apply D]. split; [| |done|].
  - eapply space_inv_frame; [exact I|apply G|by etrans|]. auto.
  - eapply space_inv_frame; [exact I'|apply G|by etrans|]. auto.
  - eapply copies_frame; [exact KP|apply I'|done|]. intros f [Hf|Hf]%elem_of_union; apply R.
    + apply HuS, elem_of_union_r. auto.
    + by apply HuN, elem_of_union_r.
Qed.

(** A prefix of well-formed areas. *)
Lemma areas_ok_prefix m P L : areas_ok m (P ++ L) -> areas_ok m P /\ ms_set P ⊆ ms_set (P ++ L).
Proof.
  intros [B K Ap N]. assert (forall x, x ∈ P -> x ∈ P ++ L) as Hsub by (intros x Hx; apply elem_of_app; by left).
  split; [split|].
  - by eapply bt_ok_app_l.
  - intros k a Hin. apply K. auto.
  - intros k a k' a' H1 H2. apply (Ap k a k' a'); auto.
  - unfold ms_frames in N. rewrite bind_app in N. by apply NoDup_app in N as (? & _ & _).
  - intros f (k & a & Hin & Hf)%elem_of_ms_set. apply elem_of_ms_set. exists k, a. auto.
Qed.

Lemma clone_area_step m p T A a l L P ms T' A' :
  forked m p T A (P ++ (start a, a) :: L) ms T' A' P -> area_ok m a l -> Zlength l + 4 * npages a <= spare m ->
  swp (a' ← MapArea_clone a; MemorySet_insert ms a') m (fun ms2 m2 => exists T2 A2,
    forked m2 p T A (P ++ (start a, a) :: L) ms2 T2 A2 (P ++ [(start a, a)]) /\
    grows m (own T' (areas ms)) m2 (own T2 (areas ms2)) /\
    (forall f, f ∈ used m -> f ∉ table_frames T' -> ram m2 !! f = ram m !! f) /\
    spare m - (Zlength l + 4 * npages a) <= spare m2).
Proof.
  intros F Ho Hsp. set (S := P ++ (start a, a) :: L) in *. pose proof F as [I I' Hd Hcp].
  pose proof (si_areas _ _ _ _ _ I) as K. pose proof (areas_ok_prefix _ _ _ K) as [KP HP].
  pose proof (ao_shape _ _ _ Ho) as [_ [Hsz _] _ _]. assert (0 <= npages a) as Hnp by (unfold npages; lia).
  apply swp_bind. eapply swp_mono; [apply (MapArea_clone_spec m a l (si_mem _ _ _ _ _ I) Ho); lia|].
  intros a1 m1 (l1 & -> & Ho1 & G1 & C1 & Hs1).
  destruct (forked_alloc _ _ _ _ _ _ _ _ _ _ _ F G1 KP HP) as ([I1 I1' _ Hcp1] & DS & DN).
  destruct (clone_ready m a l1 L P (areas ms) m1 K Hcp Ho1) as [Hlow Hready].
  eapply swp_mono; [apply (MemorySet_insert_spec m1 ms T' A' _ l1 I1' Hready); [done|]|].
  { change (npages (set_mapper a (Framed l1))) with (npages a). lia. }
  intros ms2 m2 (T2 & A2 & l2 & I2 & [Ea G2 R2 C2 Hs2]). exists T2, A2.
  change (npages (set_mapper a (Framed l1))) with (npages a) in Hs2.
  destruct (src_frame m1 p T A S ms T' m2 _ _ I1 G2 Hd DS) as [IS DS2].
  assert (forall f, f ∈ ms_set S ∪ ms_set (areas ms) -> ram m2 !! f = ram m1 !! f) as RS.
  { intros f [Hf|Hf]%elem_of_union; (apply R2; [|intros Ht]).
    - by apply (own_used _ _ _ _ _ I1), elem_of_union_r.
    - apply (Hd f); [by apply elem_of_union_r|by apply elem_of_union_l].
    - by apply (own_used _ _ _ _ _ I1'), elem_of_union_r.
    - by apply (si_disj _ _ _ _ _ I' f). }
  split_and!; [split; [done|done|done|]| | |lia].
  - rewrite Ea. cbn [start set_mapper]. rewrite bt_insert_last by done. apply Forall2_app.
    + eapply copies_frame; [apply (areas_ok_prefix _ _ _ (si_areas _ _ _ _ _ I1))|apply I1'|done|].
      intros f [Hf|Hf]%elem_of_union; apply RS, elem_of_union; [left; by apply HP|by right].
    + constructor; [|constructor]. split; [done|]. split; [done..|]. intros l0 l0' v Hl0 [= <-].
      simpl in Hl0. rewrite (ao_mapper _ _ _ Ho) in Hl0. simplify_eq. rewrite C2, C1. symmetry.
      apply pcont_frame; [apply Ho|]. intros f Hf. apply RS, elem_of_union_l.
      eapply area_frames_sub; [|apply Ho|done]. unfold S. apply elem_of_app; right; by apply elem_of_cons; left.
  - eapply grows_trans; [|exact G2].
    replace (own T' (areas ms)) with (own T' (areas ms) ∪ ∅) at 1 by (by rewrite union_empty_r_L).
    apply grows_frame; [done|by eapply own_used|apply disjoint_empty_r].
  - intros f Hf Hn. rewrite R2; [|apply (gr_used _ _ _ _ G1); by left|done].
    apply (gr_ram _ _ _ _ G1); [done|apply not_elem_of_empty].
Qed.

Definition clone_cost (L : list (Z * MapArea)) : Z := Zlength (ms_frames L) + 4 * pages L.

Lemma pages_nonneg m P L : areas_ok m (P ++ L) -> 0 <= pages L.
Proof.
  intros K. assert (Forall (fun x => 0 <= npages x.2) L) as H.
  { apply Forall_forall. intros [k b] Hin. destruct (ak_area _ _ K k b) as (_ & lb & Hob); [apply elem_of_app; by right|].
    pose proof (as_size _ (ao_shape _ _ _ Hob)). unfold npages. simpl. lia. }
  clear K. induction H as [|x L H _ IH]; [done|]. cbn [pages foldr]. fold (pages L). lia.
Qed.

Lemma clone_cost_cons k a l L : mapper a = Framed l ->
  clone_cost ((k, a) :: L) = Zlength l + 4 * npages a + clone_cost L.
Proof.
  intros Hm. unfold clone_cost. rewrite ms_frames_cons. cbn [pages foldr snd]. fold (pages L).
  unfold area_frames. rewrite Hm, length_app. unfold frame_nums. rewrite length_fmap. lia.
Qed.

Lemma clone_areas_spec p T A L : forall P m ms T' A',
  forked m p T A (P ++ L) ms T' A' P -> clone_cost L <= spare m ->
  swp (clone_areas L ms) m (fun ms2 m2 => exists T2 A2,
    forked m2 p T A (P ++ L) ms2 T2 A2 (P ++ L) /\
    grows m (own T' (areas ms)) m2 (own T2 (areas ms2))).
Proof.
  induction L as [|[k a] L IH]; intros P m ms T' A' F Hsp; cbn [clone_areas].
  - apply swp_ret. exists T', A'. rewrite app_nil_r in *. split; [done|].
    apply grows_refl; [apply (fk_src _ _ _ _ _ _ _ _ _ F)|]. eapply own_used, (fk_new _ _ _ _ _ _ _ _ _ F).
  - pose proof (si_areas _ _ _ _ _ (fk_src _ _ _ _ _ _ _ _ _ F)) as K.
    destruct (ak_area _ _ K k a) as (-> & l & Ho); [apply elem_of_app; right; by apply elem_of_cons; left|].
    rewrite (clone_cost_cons _ a l L (ao_mapper _ _ _ Ho)) in Hsp.
    assert (0 <= clone_cost L) as Hpos.
    { rewrite (cons_middle (start a, a) P L), app_assoc in K. pose proof (pages_nonneg _ _ _ K). unfold clone_cost. lia. }
    apply swp_bind_assoc. eapply swp_mono; [apply (clone_area_step m p T A a l L P ms T' A' F Ho); lia|].
    intros ms1 m1 (T1 & A1 & F1 & G1 & _ & Hs1).
    rewrite (cons_middle (start a, a) P L), app_assoc in F1 |- *.
    eapply swp_mono; [apply (IH (P ++ [(start a, a)]) m1 ms1 T1 A1 F1); lia|].
    intros ms2 m2 (T2 & A2 & F2 & G2). exists T2, A2. split; [done|]. by eapply grows_trans.
Qed.

Lemma space_inv_empty m p T : mem_ok m -> pt_rel m p T ∅ -> space_inv m p T ∅ [].
Proof.
  intros Hm Hpt. split; [done|done| | |apply disjoint_empty_r].
  - split; [apply bt_ok_nil| | |apply NoDup_nil_2]; intros *; by intros ?%elem_of_nil.
  - intros key x. rewrite lookup_empty. split; [done|]. by intros (? & ? & ? & ? & ?%elem_of_nil & _).
Qed.

Lemma MemorySet_new_spec m : mem_ok m -> 0 < spare m ->
  swp MemorySet_new m (fun ms m' => exists T, areas ms = [] /\ space_inv m' (pt ms) T ∅ [] /\
    grows m ∅ m' (own T []) /\ spare m' = spare m - 1).
Proof.
  intros Hm Hsp. apply swp_bind. eapply swp_mono; [by apply PageTable_new_spec|].
  intros p m' (r & Hr & -> & Hto & Hpt). apply swp_ret. exists {[ [] := r ]}.
  pose proof (grows_took m ∅ r _ m' Hto (empty_subseteq _)) as G. rewrite union_empty_r_L in G.
  split_and!; [done|apply space_inv_empty; [apply G|done]| |apply (tk_left _ _ _ _ Hto)].
  unfold table_frames. rewrite map_to_list_singleton. unfold ms_set.
  cbn [fmap list_fmap list_to_set snd ms_frames mbind list_bind]. by rewrite !union_empty_r_L.
Qed.

Lemma MemorySet_clone_spec m ms T A :
  space_inv m (pt ms) T A (areas ms) -> 1 + clone_cost (areas ms) <= spare m ->
  swp (MemorySet_clone ms) m (fun ms' m' => exists T' A',
    forked m' (pt ms) T A (areas ms) ms' T' A' (areas ms) /\ grows m ∅ m' (own T' (areas ms'))).
Proof.
  intros I Hsp. pose proof (pages_nonneg m [] (areas ms) (si_areas _ _ _ _ _ I)) as Hp.
  assert (0 <= clone_cost (areas ms)) as Hc by (unfold clone_cost; lia).
  apply swp_bind. eapply swp_mono; [apply MemorySet_new_spec; [apply I|lia]|].
  intros ms1 m1 (T1 & Ea & I1 & G1 & Hs1). pose proof (own_used _ _ _ _ _ I) as Hu.
  eapply swp_mono; [apply (clone_areas_spec (pt ms) T A (areas ms) [] m1 ms1 T1 ∅)|].
  - split; rewrite ?Ea; [|done| |constructor].
    + eapply space_inv_frame; [exact I|apply G1| |].
      * intros f Hf. apply (gr_used _ _ _ _ G1). left. auto.
      * intros f Hf. apply (gr_ram _ _ _ _ G1); [auto|apply not_elem_of_empty].
    + eapply grows_apart; [exact G1|done|apply disjoint_empty_r].
  - lia.
  - intros ms2 m2 (T2 & A2 & F2 & G2). exists T2, A2. split; [done|].
    eapply grows_trans; [exact G1|]. by rewrite Ea in G2.
Qed.
