(* ===== verification/LoadUser.v ===== *)
(** Building a process image: [MapArea::write_data], [MemorySet::load_user], and
    the claims about address spaces. *)
From S2P Require Import Prelude ByteCodec Address Allocator State PageEntry PageTable BTree MemorySet AddressSpace UserSpace.

From Stdlib Require Import ZifyNat.
#[local] Ltac Zify.zify_post_hook ::= Z.to_euclidean_division_equations.

(** ** [write_data] *)

(** Byte [o] of the area. *)
Definition abyte (m : Mem) (a : MapArea) (l : list (Z * Z)) (o : Z) : option Z :=
  c ← pcont m l (start a + o / 4096 * 4096);
  c !! Z.to_nat (o `mod` 4096).

(** [b'] is [b] with [data] written over the bytes from [pos] on. *)
Definition patched (b b' : Z -> option Z) (pos : Z) (data : list Z) (lim : Z) : Prop :=
  forall o, 0 <= o < lim ->
    b' o = if decide (pos <= o < pos + Zlength data) then data !! Z.to_nat (o - pos) else b o.

Lemma patched_nil b pos lim : patched b b pos [] lim.
Proof. intros o Ho. rewrite decide_False; [done|]. simpl. lia. Qed.

Lemma patched_app b b1 b2 pos d1 d2 lim :
  patched b b1 pos d1 lim -> patched b1 b2 (pos + Zlength d1) d2 lim -> patched b b2 pos (d1 ++ d2) lim.
Proof.
  intros H1 H2 o Ho. rewrite H2, H1 by done. rewrite length_app.
  destruct (decide (pos <= o < pos + Zlength d1)), (decide (pos + Zlength d1 <= o < pos + Zlength d1 + Zlength d2));
    try lia.
  - rewrite decide_True by lia. by rewrite lookup_app_l by lia.
  - rewrite decide_True by lia. rewrite lookup_app_r by lia. f_equal. lia.
  - by rewrite decide_False by lia.
Qed.

Lemma copy_to_frame_spec m pa pgoff data c :
  mem_ok m -> pa `mod` 4096 = 0 -> pa / 4096 ∈ used m -> ram m !! (pa / 4096) = Some c ->
  0 <= pgoff -> pgoff + Zlength data <= 4096 -> bytes_ok data ->
  swp (copy_to_frame pa pgoff data) m (fun _ m' => mem_ok m' /\ frames m' = frames m /\
    ram m' = <[pa / 4096 := splice c pgoff data]> (ram m)).
Proof.
  intros Hm Hal Hu Hc Ho Hlen Hb. destruct (used_frame m _ Hm Hu) as (Hr & c' & Hc' & Hpg). simplify_eq.
  replace pa with (pa / 4096 * 4096) at 1 by lia.
  apply swp_bind. exists c, m. split; [by apply read_frame_spec|].
  eexists tt, _. split; [by eapply write_frame_spec|]. split_and!; [|done|done].
  destruct Hpg as [Hcl Hcb]. unfold PAGE_SIZE in Hcl.
  assert (is_page (splice c pgoff data)) as Hpg'.
  { split; [rewrite length_splice by lia; done|by apply splice_bytes_ok]. }
  destruct Hm as [F R Ra P]. split; cbn [frames ram]; auto.
  - intros g Hg. destruct (decide (g = pa / 4096)) as [->|]; [rewrite lookup_insert_eq; eauto|].
    rewrite lookup_insert_ne by done. auto.
  - by apply map_Forall_insert_2.
Qed.

(** The bytes of the area when one page of it changes. *)
Lemma abyte_write m m' a l va pa c pgoff data lim :
  fr_ok m a l -> bt_lookup va l = Some pa -> ram m !! (pa / 4096) = Some c -> Zlength c = 4096 ->
  ram m' = <[pa / 4096 := splice c pgoff data]> (ram m) -> 0 <= pgoff -> pgoff + Zlength data <= 4096 ->
  start a `mod` 4096 = 0 -> patched (abyte m a l) (abyte m' a l) (va - start a + pgoff) data lim.
Proof.
  intros Hfr Hva Hc Hlen Hr Ho Hd Hst o Hlim. destruct (fo_page _ _ _ Hfr va pa Hva) as [Hpg Hal].
  unfold abyte, pcont. rewrite Hr.
  destruct (decide (start a + o / 4096 * 4096 = va)) as [E|E].
  - rewrite E, Hva, lookup_insert_eq, Hc. cbn [mbind option_bind].
    destruct (decide (va - start a + pgoff <= o < va - start a + pgoff + Zlength data)).
    + rewrite lookup_splice_in by lia. f_equal. lia.
    + by rewrite lookup_splice_out by lia.
  - rewrite decide_False by lia. destruct (bt_lookup (start a + o / 4096 * 4096) l) as [pa'|] eqn:E'; [|done].
    rewrite lookup_insert_ne; [done|]. intros Epa.
    assert (va = start a + o / 4096 * 4096); [|done].
    pose proof (fo_nodup _ _ _ Hfr) as Hnd. apply bt_lookup_elem in E', Hva; try apply Hfr.
    apply list_elem_of_lookup in E' as [i Hi], Hva as [j Hj].
    assert (j = i) as ->.
    { eapply (NoDup_lookup (frame_nums l)); [done| |].
      - unfold frame_nums. rewrite list_lookup_fmap, Hj. done.
      - unfold frame_nums. rewrite list_lookup_fmap, Hi. simpl. by rewrite Epa. }
    congruence.
Qed.

(** How many pages the loop touches. *)
Definition touched (pos n : Z) : Z := if n =? 0 then 0 else (pos `mod` 4096 + n + 4095) / 4096.

(** What writing into an area does. *)
Record wrote_area (m : Mem) (a : MapArea) (l : list (Z * Z)) (pos : Z) (data : list Z)
    (m' : Mem) (l' : list (Z * Z)) : Prop := {
  wa_fr : fr_ok m' a l';
  wa_grows : grows m (fset l) m' (fset l');
  wa_bytes : patched (abyte m a l) (abyte m' a l') pos data (area_size a);
  wa_spare : spare m - touched pos (Zlength data) <= spare m';
}.

Lemma write_page_spec m a l pos data B (K : MapArea -> st Mem B) Q :
  mem_ok m -> area_shape a -> fr_ok m a l -> 0 <= pos -> data <> [] -> bytes_ok data ->
  pos `mod` 4096 + Zlength data <= 4096 -> pos + Zlength data <= area_size a -> 0 < spare m ->
  (forall m' l', wrote_area m a l pos data m' l' -> spare m - 1 <= spare m' -> swp (K (set_mapper a (Framed l'))) m' Q) ->
  swp ('(paddr, a') ← MapArea_map (set_mapper a (Framed l)) (start a + pos / 4096 * 4096);
       _ ← copy_to_frame paddr (pos `mod` 4096) data; K a') m Q.
Proof.
  intros Hm Hsh Hfr Hpos Hne Hb Hfit Hlim Hsp HK. pose proof Hsh as [Hst Hsz Hend _].
  assert (0 < Zlength data) as Hlen by (destruct data; [done|simpl; lia]).
  set (va := start a + pos / 4096 * 4096). assert (page_of a va) as Hpg by (split; lia).
  apply swp_bind. eapply swp_mono.
  { apply (MapArea_map_spec m (set_mapper a (Framed l)) l va); [done|done| |done|lia|lia].
    destruct Hfr as [? Hp ? ? ?]. by split. }
  intros [pa a'] m1 (l1 & -> & Hfr1' & G1 & Hs1 & Hl1 & Hne1 & Hk1 & R1 & C1). cbn beta iota.
  change (set_mapper (set_mapper a (Framed l)) (Framed l1)) with (set_mapper a (Framed l1)).
  assert (fr_ok m1 a l1) as Hfr1 by (destruct Hfr1' as [? Hp ? ? ?]; by split).
  destruct (fr_ok_addr m1 a l1 va pa (gr_ok _ _ _ _ G1) Hfr1 Hl1) as (_ & _ & Hpin).
  assert (pa / 4096 ∈ used m1) as Hpu by (by apply (fo_used _ _ _ Hfr1)).
  destruct (used_frame m1 _ (gr_ok _ _ _ _ G1) Hpu) as (_ & c & Hc & [Hcl _]).
  apply swp_bind. eapply swp_mono.
  { apply (copy_to_frame_spec m1 pa (pos `mod` 4096) data c); auto; [apply G1|by eapply fo_addr|lia]. }
  intros _ m2 (Hm2 & Hf2 & Hr2). apply HK; [|by rewrite Hf2]. split.
  - eapply fr_ok_frame; [exact Hfr1|]. rewrite Hf2. apply Hfr1.
  - destruct G1 as [K1 S1 U1 F1 GR1 P1]. split; rewrite ?Hf2; auto. intros f Hu Hn. rewrite Hr2, lookup_insert_ne; [auto|].
    intros <-. auto.
  - intros o Ho. rewrite (abyte_write m1 m2 a l1 va pa c (pos `mod` 4096) data (area_size a)) by (auto; lia).
    replace (va - start a + pos `mod` 4096) with pos by (unfold va; lia).
    case_decide; [done|]. unfold abyte. by rewrite C1.
  - rewrite Hf2. unfold touched. rewrite (proj2 (Z.eqb_neq _ _)) by lia.
    pose proof (Z.div_le_mono 4096 (pos `mod` 4096 + Zlength data + 4095) 4096). lia.
Qed.

Lemma write_data_loop_spec a : area_shape a -> forall fuel m l pos data,
  (length data < fuel)%nat -> mem_ok m -> fr_ok m a l -> 0 <= pos -> bytes_ok data ->
  pos + Zlength data <= area_size a -> touched pos (Zlength data) <= spare m ->
  swp (write_data_loop fuel (set_mapper a (Framed l)) pos data) m (fun a' m' => exists l',
    a' = set_mapper a (Framed l') /\ wrote_area m a l pos data m' l').
Proof.
  intros Hsh. pose proof Hsh as [Hst Hsz Hend _].
  induction fuel as [|fuel IH]; intros m l pos data Hfuel Hm Hfr Hpos Hb Hlim Hsp; [lia|]. cbn [write_data_loop].
  destruct (Z.ltb_spec 0 (Zlength data)) as [Hlen|Hlen].
  - rewrite align_down_eq, (u64_small (pos - _)), (u64_small (PAGE_SIZE - _)), (u64_small (_ + pos / 4096 * 4096))
      by (unfold PAGE_SIZE; cbn [start set_mapper]; lia).
    replace (pos - pos / 4096 * 4096) with (pos `mod` 4096) by lia. cbn [start set_mapper].
    eapply swp_lift_bind.
    { rewrite VirtAddr_new_eq by lia. by rewrite (proj2 (Z.ltb_lt _ _)) by lia. }
    set (n := Z.min (PAGE_SIZE - pos `mod` 4096) (Zlength data)).
    assert (0 < n <= Zlength data /\ pos `mod` 4096 + n <= 4096) as Hn by (unfold n, PAGE_SIZE; lia).
    set (d1 := take (Z.to_nat n) data). set (d2 := drop (Z.to_nat n) data).
    assert (Zlength d1 = n) as H1 by (unfold d1; rewrite length_take; lia).
    assert (Zlength d2 = Zlength data - n) as H2 by (unfold d2; rewrite length_drop; lia).
    assert (data = d1 ++ d2) as E by (symmetry; apply take_drop).
    rewrite E in Hb. apply Forall_app in Hb as [Hb1 Hb2].
    assert (touched (pos + n) (Zlength d2) + 1 <= touched pos (Zlength data)) as Ht.
    { unfold touched. rewrite H2, (proj2 (Z.eqb_neq (Zlength data) 0)) by lia. unfold n, PAGE_SIZE in *.
      destruct (Z.eqb_spec (Zlength data - Z.min (0x1000 - pos `mod` 4096) (Zlength data)) 0); lia. }
    assert (0 <= touched (pos + n) (Zlength d2)) as Ht0.
    { unfold touched. destruct (Z.eqb_spec (Zlength d2) 0); [lia|]. apply Z.div_pos; lia. }
    eapply write_page_spec; auto; [intros ->; simpl in H1; lia|lia|lia|lia|].
    intros m1 l1 [Hfr1 G1 Hp1 _] Hs1. rewrite u64_small by lia.
    eapply swp_mono; [apply (IH m1 l1 (pos + n) d2)|]; [lia|apply G1|done|lia|done|lia|lia|].
    intros a' m' (l' & -> & [Hfr' G' Hp' Hs']). exists l'. split; [done|]. split; [done|by eapply grows_trans| |lia].
    rewrite E. eapply patched_app; [exact Hp1|]. by rewrite H1.
  - destruct data; [|simpl in Hlen; lia]. apply swp_ret. exists l. split; [done|].
    split; [done|by apply grows_refl, Hfr|apply patched_nil|unfold touched; simpl; lia].
Qed.

Lemma write_data_spec m a l pos data :
  mem_ok m -> area_shape a -> mapper a = Framed l -> fr_ok m a l -> 0 <= pos < area_size a -> bytes_ok data ->
  pos + Zlength data <= area_size a -> touched pos (Zlength data) <= spare m ->
  swp (write_data a pos data) m (fun a' m' => exists l',
    a' = set_mapper a (Framed l') /\ wrote_area m a l pos data m' l').
Proof.
  intros Hm Hsh Hmp Hfr Hpos Hb Hlim Hsp. pose proof Hsh as [Hst Hsz Hend _].
  assert (a = set_mapper a (Framed l)) as Ea by (destruct a; simpl in *; by rewrite Hmp).
  unfold write_data. rewrite u64_small by lia.
  eapply swp_lift_bind; [by rewrite (proj2 (Z.ltb_lt _ _)) by lia|].
  eapply swp_lift_bind; [by rewrite (proj2 (Z.leb_le _ _)) by lia|].
  rewrite Ea at 1. apply write_data_loop_spec; auto; lia.
Qed.

(** ** What a process sees after an insertion *)

Lemma mapped_frame m p T A L key x : space_inv m p T A L -> A !! key = Some x -> x.1 / 4096 ∈ ms_set L.
Proof.
  intros I Hx. apply (si_maps _ _ _ _ _ I) in Hx as (k & b & lb & pa & Hb & Hmb & Hl & ->).
  destruct (ak_area _ _ (si_areas _ _ _ _ _ I) k b Hb) as (_ & lb' & Ho).
  rewrite (ao_mapper _ _ _ Ho) in Hmb. simplify_eq.
  eapply area_frames_sub; [exact Hb|apply Ho|]. apply elem_of_fset; [apply Ho|]. eauto.
Qed.

Lemma inserted_view m ms T A a l m' p' T' A' L' l' key :
  space_inv m (pt ms) T A (areas ms) -> area_ready m a l (areas ms) ->
  inserted m T (areas ms) a l m' T' L' l' -> space_inv m' p' T' A' L' ->
  view m' A' key = if decide (page_of a (key * 4096))
    then (fun c => (c, flags a)) <$> pcont m l (key * 4096) else view m A key.
Proof.
  intros I [Hsh Hmp Hfr Hn Hap] [Ea G R C Hs] I'. set (L := areas ms) in *. set (a' := set_mapper a (Framed l')) in *.
  pose proof (bt_insert_perm (start a) a' L Hn) as Hp. rewrite <- Ea in Hp.
  assert ((start a, a') ∈ L') as Hin by (rewrite Hp; by apply elem_of_cons; left).
  destruct (ak_area _ _ (si_areas _ _ _ _ _ I') _ _ Hin) as (_ & l0 & [_ [= <-] Hfr' Hc]).
  case_decide as Hpg.
  - destruct (Hc (key * 4096) Hpg) as [pa Hpa]. unfold view.
    assert (A' !! key = Some (pa, flags a)) as ->.
    { apply (si_maps _ _ _ _ _ I'). exists (start a), a', l', pa. by split_and!. }
    rewrite <- C. unfold pcont. rewrite Hpa. cbn [mbind option_bind fst snd].
    by destruct (ram m' !! (pa / 4096)).
  - assert (forall x, A' !! key = Some x <-> A !! key = Some x) as HA.
    { intros x. rewrite (si_maps _ _ _ _ _ I' key x), (si_maps _ _ _ _ _ I key x).
      split; intros (k & b & lb & pa & Hb & Hmb & Hl & ->).
      - rewrite Hp, elem_of_cons in Hb. destruct Hb as [[= -> ->]|Hb]; [|eauto 10].
        simpl in Hmb. simplify_eq. by apply (fo_page _ _ _ Hfr') in Hl.
      - exists k, b, lb, pa. split; [rewrite Hp; by apply elem_of_cons; right|done]. }
    unfold view. destruct (A !! key) as [x|] eqn:Hx.
    + rewrite (proj2 (HA x) eq_refl). cbn [mbind option_bind].
      pose proof (mapped_frame _ _ _ _ _ _ _ I Hx) as Hf.
      rewrite R; [done|by apply (own_used _ _ _ _ _ I), elem_of_union_r|].
      intros Ht. by apply (si_disj _ _ _ _ _ I _ Ht).
    + destruct (A' !! key) as [x|] eqn:Hx'; [|done]. by specialize (proj1 (HA x) eq_refl).
Qed.

(** A byte of user memory, with the flags of its page. *)
Definition ubyte (m : Mem) (A : gmap Z (Z * Z)) (va : Z) : option (Z * Z) :=
  x ← view m A (va / 4096);
  b ← x.1 !! Z.to_nat (va `mod` 4096);
  Some (b, x.2).

(** ** Segments *)

Definition seg_area (ph : ProgramHeader) : MapArea :=
  let s := ph_vaddr ph / 4096 * 4096 in
  let e := (ph_vaddr ph + ph_mem_size ph + 4095) / 4096 * 4096 in
  mkArea s (e - s) (ph_flags ph) (Framed []).

Record ph_ok (ph : ProgramHeader) (data : list Z) : Prop := {
  po_load : ph_load ph = true;
  po_addr : 0 <= ph_vaddr ph;
  po_size : 0 < ph_mem_size ph;
  po_end : ph_vaddr ph + ph_mem_size ph < 2 ^ 48;
  po_data : ph_data ph = Some data;
  po_len : Zlength data <= ph_mem_size ph;
  po_bytes : bytes_ok data;
}.

Definition in_area (a : MapArea) (va : Z) : Prop := start a <= va < start a + area_size a.
#[export] Instance in_area_dec a va : Decision (in_area a va).
Proof. unfold in_area. apply _. Defined.

(** File bytes where the segment has them, zeros up to its last page. *)
Definition seg_byte (ph : ProgramHeader) (data : list Z) (va : Z) : option Z :=
  if decide (ph_vaddr ph <= va < ph_vaddr ph + Zlength data)
  then data !! Z.to_nat (va - ph_vaddr ph) else Some 0.

Lemma seg_shape ph data : ph_ok ph data -> area_shape (seg_area ph).
Proof.
  intros [_ H1 H2 H3 _ _ _]. unfold seg_area. split; cbn [start area_size flags]; [lia|lia|lia|].
  unfold ph_flags. by destruct (ph_read ph), (ph_write ph), (ph_execute ph).
Qed.

Lemma page_of_in a va : area_shape a -> page_of a (va / 4096 * 4096) <-> in_area a va.
Proof. intros [? ? ? _]. unfold page_of, in_area. lia. Qed.

Lemma fr_ok_nil m a : fr_ok m a [].
Proof. split; [apply bt_ok_nil|done|done|apply empty_subseteq|apply NoDup_nil_2]. Qed.

Lemma seg_written ph data m m1 l1 va :
  ph_ok ph data -> in_area (seg_area ph) va ->
  patched (abyte m (seg_area ph) []) (abyte m1 (seg_area ph) l1) (ph_vaddr ph `mod` 4096) data (area_size (seg_area ph)) ->
  abyte m1 (seg_area ph) l1 (va - start (seg_area ph)) = seg_byte ph data va.
Proof.
  intros [_ H1 H2 H3 _ H4 _] Hin Hp. unfold in_area in Hin. rewrite Hp by lia. unfold seg_byte.
  assert (start (seg_area ph) = ph_vaddr ph / 4096 * 4096) as E by done. rewrite E.
  destruct (decide (ph_vaddr ph <= va < ph_vaddr ph + Zlength data)).
  - rewrite decide_True by lia. f_equal. lia.
  - rewrite decide_False by lia. unfold abyte, pcont. cbn [bt_lookup mbind option_bind].
    apply lookup_replicate_2. lia.
Qed.

(** Reading a page of the area byte by byte. *)
Lemma ubyte_area m a l va (x : option (list Z * Z)) (fl : Z) : area_shape a ->
  x = (fun c => (c, fl)) <$> pcont m l (va / 4096 * 4096) ->
  (y ← x; b ← y.1 !! Z.to_nat (va `mod` 4096); Some (b, y.2)) = (fun b => (b, fl)) <$> abyte m a l (va - start a).
Proof.
  intros [Hst _ _ _] ->. unfold abyte.
  replace (start a + (va - start a) / 4096 * 4096) with (va / 4096 * 4096) by lia.
  replace ((va - start a) `mod` 4096) with (va `mod` 4096) by lia.
  destruct (pcont m l (va / 4096 * 4096)) as [c|]; [|done]. cbn [fmap option_fmap option_map mbind option_bind fst snd].
  by destruct (c !! Z.to_nat (va `mod` 4096)).
Qed.

Lemma space_inv_fresh m p T A L m1 O : space_inv m p T A L -> grows m ∅ m1 O ->
  space_inv m1 p T A L /\ own T L ## O /\ grows m (own T L) m1 (own T L ∪ O) /\ forall key, view m1 A key = view m A key.
Proof.
  intros I G. pose proof (own_used _ _ _ _ _ I) as Hu.
  assert (forall f, f ∈ own T L -> ram m1 !! f = ram m !! f) as R.
  { intros f Hf. apply (gr_ram _ _ _ _ G); [auto|apply not_elem_of_empty]. }
  split_and!.
  - eapply space_inv_frame; [exact I|apply G| |done]. intros f Hf. apply (gr_used _ _ _ _ G). left. auto.
  - eapply grows_apart; [exact G|done|apply disjoint_empty_r].
  - replace (own T L) with (own T L ∪ ∅) at 1 by (by rewrite union_empty_r_L).
    apply grows_frame; [done|done|apply disjoint_empty_r].
  - intros key. unfold view. destruct (A !! key) as [x|] eqn:Hx; [|done]. cbn [mbind option_bind].
    rewrite R; [done|]. apply elem_of_union_r. by eapply mapped_frame.
Qed.

Lemma load_segment_spec m ms T A ph data :
  space_inv m (pt ms) T A (areas ms) -> ph_ok ph data ->
  bt_lookup (start (seg_area ph)) (areas ms) = None ->
  (forall k b, (k, b) ∈ areas ms -> apart (seg_area ph) b) -> 5 * npages (seg_area ph) <= spare m ->
  swp (load_segment ms ph) m (fun ms' m' => exists T' A' a',
    space_inv m' (pt ms') T' A' (areas ms') /\
    areas ms' = bt_insert (start a') a' (areas ms) /\ start a' = start (seg_area ph) /\ area_size a' = area_size (seg_area ph) /\
    grows m (own T (areas ms)) m' (own T' (areas ms')) /\ spare m - 5 * npages (seg_area ph) <= spare m' /\
    forall va, 0 <= va -> ubyte m' A' va = if decide (in_area (seg_area ph) va)
      then (fun b => (b, ph_flags ph)) <$> seg_byte ph data va else ubyte m A va).
Proof.
  intros I Hok Hn Hap Hsp. pose proof Hok as Hok'. pose proof (seg_shape ph data Hok) as Hsh. pose proof Hsh as [Hst Hsz Hend Hfl].
  destruct Hok as [Hld H1 H2 H3 Hda H4 Hb]. set (a := seg_area ph) in *.
  assert (start a = ph_vaddr ph / 4096 * 4096 /\ start a + area_size a = (ph_vaddr ph + ph_mem_size ph + 4095) / 4096 * 4096)
    as [Es Ee] by (unfold a, seg_area; cbn [start area_size]; lia).
  unfold load_segment. rewrite Hld.
  eapply swp_lift_bind; [rewrite VirtAddr_new_eq by lia; by rewrite (proj2 (Z.ltb_lt _ _)) by lia|].
  eapply swp_lift_bind; [rewrite u64_small by lia; rewrite VirtAddr_new_eq by lia; by rewrite (proj2 (Z.ltb_lt _ _)) by lia|].
  rewrite Hda. eapply swp_lift_bind; [done|].
  rewrite align_down_eq, align_up_eq, page_offset_eq by lia. rewrite <- Es, <- Ee.
  rewrite u64_small by lia. replace (start a + area_size a - start a) with (area_size a) by lia.
  eapply swp_lift_bind.
  { unfold new_framed. rewrite !is_aligned_eq by lia. rewrite !(proj2 (Z.eqb_eq (_ `mod` _) _)) by lia. done. }
  change (mkArea (start a) (area_size a) (ph_flags ph) (Framed [])) with a.
  assert (touched (ph_vaddr ph `mod` 4096) (Zlength data) <= npages a) as Ht.
  { unfold touched, npages. destruct (Z.eqb_spec (Zlength data) 0); [apply Z.div_pos; lia|]. apply Z.div_le_lower_bound; lia. }
  assert (0 <= npages a) as Hnp by (unfold npages; lia).
  apply swp_bind. eapply swp_mono.
  { apply (write_data_spec m a [] (ph_vaddr ph `mod` 4096) data); auto; [apply I|apply fr_ok_nil|lia|lia|lia]. }
  intros a1 m1 (l1 & -> & [Hfr1 G1 Hp1 Hs1]).
  destruct (space_inv_fresh _ _ _ _ _ _ _ I G1) as (I1 & D1 & G1' & V1). set (a1 := set_mapper a (Framed l1)).
  assert (area_ready m1 a1 l1 (areas ms)) as Hready.
  { split; [destruct Hsh; by split|done|destruct Hfr1; by split|done|done]. }
  eapply swp_mono; [apply (MemorySet_insert_spec m1 ms T A a1 l1 I1 Hready); [done|]|].
  { change (npages a1) with (npages a). lia. }
  intros ms' m' (T' & A' & l' & I' & In). exists T', A', (set_mapper a1 (Framed l')).
  pose proof In as [Ea G2 _ _ Hs2]. change (npages a1) with (npages a) in Hs2.
  split_and!; [done|exact Ea|done|done|by eapply grows_trans|lia|].
  intros va Hva. unfold ubyte at 1. rewrite (inserted_view _ _ _ _ _ _ _ _ _ _ _ _ (va / 4096) I1 Hready In I').
  pose proof (page_of_in a va Hsh) as Hiff. destruct (decide (page_of a1 (va / 4096 * 4096))) as [Hpg|Hpg].
  - rewrite decide_True by (by apply Hiff). change (flags a1) with (ph_flags ph). rewrite (ubyte_area m1 a l1 va _ (ph_flags ph) Hsh eq_refl).
    f_equal. eapply seg_written; [done|by apply Hiff|exact Hp1].
  - rewrite decide_False by (by rewrite <- Hiff). by rewrite V1.
Qed.

(** ** Whole programs *)

(** [b]'s pages lie before or after those of [a]. *)
Definition beside (a b : MapArea) : Prop := start a + area_size a <= start b \/ start b + area_size b <= start a.

(** Loadable segments with pages of their own, given the areas [D] in place. *)
Fixpoint segs_ok (D : list MapArea) (phs : list ProgramHeader) : Prop :=
  match phs with
  | [] => True
  | ph :: phs =>
      if ph_load ph then
        (exists data, ph_ok ph data) /\ Forall (beside (seg_area ph)) D /\ segs_ok (seg_area ph :: D) phs
      else segs_ok D phs
  end.
Fixpoint segs_after (D : list MapArea) (phs : list ProgramHeader) : list MapArea :=
  match phs with
  | [] => D
  | ph :: phs => segs_after (if ph_load ph then seg_area ph :: D else D) phs
  end.
Fixpoint segs_pages (phs : list ProgramHeader) : Z :=
  match phs with
  | [] => 0
  | ph :: phs => (if ph_load ph then npages (seg_area ph) else 0) + segs_pages phs
  end.

(** The memory image the headers describe, over what was there. *)
Fixpoint image (phs : list ProgramHeader) (va : Z) (base : option (Z * Z)) : option (Z * Z) :=
  match phs with
  | [] => base
  | ph :: phs =>
      image phs va (if ph_load ph then
        if decide (in_area (seg_area ph) va) then
          (fun b => (b, ph_flags ph)) <$> seg_byte ph (default [] (ph_data ph)) va
        else base
      else base)
  end.

(** Every area in place is one of [D]. *)
Definition covers (L : list (Z * MapArea)) (D : list MapArea) : Prop :=
  forall k b, (k, b) ∈ L -> k = start b /\ exists d, d ∈ D /\ start b = start d /\ area_size b = area_size d.

Lemma covers_beside L D a : covers L D -> Forall (beside a) D -> 0 < area_size a ->
  Forall (fun d => 0 < area_size d) D ->
  bt_lookup (start a) L = None /\ forall k b, (k, b) ∈ L -> apart a b.
Proof.
  intros Hc Hb Ha HD. rewrite Forall_forall in Hb, HD. split.
  - apply bt_lookup_None. intros ([k b] & E & Hin)%list_elem_of_fmap.
    destruct (Hc k b Hin) as (-> & d & Hd & Es & Ez). specialize (Hb d Hd). specialize (HD d Hd).
    unfold beside in Hb. simpl in E. lia.
  - intros k b Hin v [Hv _] [Hv' _]. destruct (Hc k b Hin) as (_ & d & Hd & Es & Ez).
    specialize (Hb d Hd). unfold beside in Hb. lia.
Qed.

Lemma covers_insert L D a d : covers L D -> bt_lookup (start a) L = None -> start a = start d -> area_size a = area_size d ->
  covers (bt_insert (start a) a L) (d :: D).
Proof.
  intros Hc Hn Hs Hz k b. rewrite (bt_insert_perm _ a L Hn), elem_of_cons. intros [[= -> ->]|Hin].
  - split; [done|]. exists d. split; [by apply elem_of_cons; left|done].
  - destruct (Hc k b Hin) as (? & d' & ? & ?). split; [done|]. exists d'. split; [by apply elem_of_cons; right|done].
Qed.

Lemma seg_size ph data : ph_ok ph data -> 0 < area_size (seg_area ph).
Proof. intros [_ ? ? ? _ _ _]. unfold seg_area. cbn [area_size]. lia. Qed.

Lemma segs_pages_nonneg phs : forall D, segs_ok D phs -> 0 <= segs_pages phs.
Proof.
  induction phs as [|ph phs IH]; intros D H; cbn [segs_ok segs_pages] in *; [done|].
  destruct (ph_load ph); [|by apply (IH D)]. destruct H as ([data Hd] & _ & H).
  pose proof (seg_size _ _ Hd). specialize (IH _ H). unfold npages. lia.
Qed.

Lemma load_segments_spec phs : forall D m ms T A,
  space_inv m (pt ms) T A (areas ms) -> covers (areas ms) D -> Forall (fun d => 0 < area_size d) D ->
  segs_ok D phs -> 5 * segs_pages phs <= spare m ->
  swp (load_segments ms phs) m (fun ms' m' => exists T' A',
    space_inv m' (pt ms') T' A' (areas ms') /\ covers (areas ms') (segs_after D phs) /\
    Forall (fun d => 0 < area_size d) (segs_after D phs) /\
    grows m (own T (areas ms)) m' (own T' (areas ms')) /\ spare m - 5 * segs_pages phs <= spare m' /\
    forall va, 0 <= va -> ubyte m' A' va = image phs va (ubyte m A va)).
Proof.
  induction phs as [|ph phs IH]; intros D m ms T A I Hc HD Hok Hsp; cbn [load_segments segs_after segs_pages image segs_ok] in *.
  - apply swp_ret. exists T, A. split_and!; auto; [|lia]. apply grows_refl; [apply I|by eapply own_used].
  - apply swp_bind. destruct (ph_load ph) eqn:Hl.
    + destruct Hok as ([data Hd] & Hb & Hok). pose proof (seg_size ph data Hd) as Hz.
      destruct (covers_beside _ _ _ Hc Hb Hz HD) as [Hn Hap]. pose proof (segs_pages_nonneg _ _ Hok).
      eapply swp_mono; [apply (load_segment_spec m ms T A ph data I Hd Hn Hap); lia|].
      intros ms1 m1 (T1 & A1 & a1 & I1 & Ea & Es & Ez & G1 & Hs1 & V1).
      assert (covers (areas ms1) (seg_area ph :: D)) as Hc1.
      { rewrite Ea. apply covers_insert; auto. by rewrite Es. }
      eapply swp_mono; [apply (IH (seg_area ph :: D) m1 ms1 T1 A1 I1 Hc1)|]; [apply Forall_cons; split; [lia|done]|done|lia|].
      intros ms2 m2 (T2 & A2 & I2 & Hc2 & HD2 & G2 & Hs2 & V2). exists T2, A2.
      split_and!; [done|done|done|by eapply grows_trans|lia|].
      intros va Hva. rewrite V2, V1 by done. by rewrite (po_data _ _ Hd).
    + unfold load_segment. rewrite Hl. apply swp_ret. by apply (IH D m ms T A).
Qed.

Definition stack_area : MapArea :=
  mkArea (USER_STACK_TOP - USER_STACK_SIZE) USER_STACK_SIZE
    (Z.lor (Z.lor MemFlags.READ MemFlags.WRITE) MemFlags.USER) (Framed []).

Lemma stack_shape : area_shape stack_area.
Proof. split; vm_compute; intuition discriminate. Qed.

(** A fresh area of zeros. *)
Lemma insert_fresh_spec m ms T A a :
  space_inv m (pt ms) T A (areas ms) -> area_ready m a [] (areas ms) -> 4 * npages a <= spare m ->
  swp (MemorySet_insert ms a) m (fun ms' m' => exists T' A',
    space_inv m' (pt ms') T' A' (areas ms') /\ grows m (own T (areas ms)) m' (own T' (areas ms')) /\
    forall va, 0 <= va -> ubyte m' A' va = if decide (in_area a va) then Some (0, flags a) else ubyte m A va).
Proof.
  intros I Hready Hsp. pose proof (ar_shape _ _ _ _ Hready) as Hsh.
  eapply swp_mono; [apply (MemorySet_insert_spec m ms T A a [] I Hready); [apply disjoint_empty_l|done]|].
  intros ms' m' (T' & A' & l' & I' & In). exists T', A'. split_and!; [done| |].
  - pose proof (in_grows _ _ _ _ _ _ _ _ _ In) as G. change (fset []) with (∅ : gset Z) in G.
    by rewrite union_empty_r_L in G.
  - intros va Hva. unfold ubyte at 1. rewrite (inserted_view _ _ _ _ _ _ _ _ _ _ _ _ (va / 4096) I Hready In I').
    pose proof (page_of_in a va Hsh) as Hiff. destruct (decide (page_of a (va / 4096 * 4096))).
    + rewrite decide_True by (by apply Hiff). rewrite (ubyte_area m a [] va _ (flags a) Hsh eq_refl).
      unfold abyte, pcont. cbn [bt_lookup mbind option_bind]. rewrite lookup_replicate_2 by lia. done.
    + by rewrite decide_False by (by rewrite <- Hiff).
Qed.

Lemma insert_zero_spec m ms T A a D :
  space_inv m (pt ms) T A (areas ms) -> area_shape a -> mapper a = Framed [] -> 0 < area_size a ->
  covers (areas ms) D -> Forall (fun d => 0 < area_size d) D -> Forall (beside a) D -> 4 * npages a <= spare m ->
  swp (MemorySet_insert ms a) m (fun ms' m' => exists T' A',
    space_inv m' (pt ms') T' A' (areas ms') /\ grows m (own T (areas ms)) m' (own T' (areas ms')) /\
    forall va, 0 <= va -> ubyte m' A' va = if decide (in_area a va) then Some (0, flags a) else ubyte m A va).
Proof.
  intros I Hsh Hm Hz Hc HD Hb Hsp. destruct (covers_beside _ _ _ Hc Hb Hz HD) as [Hn Hap].
  apply insert_fresh_spec; [done| |done]. split; auto; apply fr_ok_nil.
Qed.

Record program_ok (elf : ElfFile) : Prop := {
  pk_class : elf_64 elf = true;
  pk_type : elf_exec elf = true;
  pk_machine : elf_aarch64 elf = true;
  pk_segs : segs_ok [] (elf_ph elf);
  pk_stack : Forall (beside stack_area) (segs_after [] (elf_ph elf));
}.

Lemma load_user_spec parse elf_data elf m ms T :
  parse elf_data = Some elf -> program_ok elf -> space_inv m (pt ms) T ∅ (areas ms) -> areas ms = [] ->
  5 * (segs_pages (elf_ph elf) + 4) <= spare m ->
  swp (load_user parse ms elf_data) m (fun '(r, ms') m' => exists T' A',
    r = (elf_entry elf, USER_STACK_TOP) /\ space_inv m' (pt ms') T' A' (areas ms') /\
    grows m (own T []) m' (own T' (areas ms')) /\
    forall va, 0 <= va -> ubyte m' A' va = if decide (in_area stack_area va) then Some (0, flags stack_area)
      else image (elf_ph elf) va None).
Proof.
  intros Hp [H1 H2 H3 Hsegs Hst] I Ea Hsp. pose proof (segs_pages_nonneg _ _ Hsegs). unfold load_user.
  eapply swp_lift_bind; [by rewrite Hp|]. rewrite H1, H2, H3. do 3 (eapply swp_lift_bind; [done|]).
  apply swp_bind. eapply swp_mono.
  { apply (load_segments_spec (elf_ph elf) [] m ms T ∅ I); [|done|done|lia].
    rewrite Ea. by intros k b ?%elem_of_nil. }
  intros ms1 m1 (T1 & A1 & I1 & Hc1 & HD1 & G1 & Hs1 & V1).
  eapply swp_lift_bind; [vm_compute; done|]. eapply swp_lift_bind; [vm_compute; done|].
  change (mkArea _ _ _ (Framed [])) with stack_area.
  apply swp_bind. eapply swp_mono.
  { apply (insert_zero_spec m1 ms1 T1 A1 stack_area (segs_after [] (elf_ph elf)) I1 stack_shape eq_refl); [vm_compute; done|exact Hc1|done|done|].
    change (npages stack_area) with 4. lia. }
  intros ms2 m2 (T2 & A2 & I2 & G2 & V2). apply swp_ret. exists T2, A2. rewrite Ea in G1.
  split_and!; [done|done|by eapply grows_trans|]. intros va Hva. rewrite V2, V1 by done.
  by unfold ubyte at 1, view; rewrite lookup_empty.
Qed.

(** ** The claims *)

(** C11: [load_user] into an empty address space gives the process exactly the
    memory image its ELF file describes: every byte of a loadable segment is
    the file's, the rest of its pages and the user stack are zero, every page
    has the access flags of its segment, and nothing else is mapped.  The
    entry point and the stack top are returned. *)
Theorem load_user_image parse elf_data elf m ms T :
  parse elf_data = Some elf -> program_ok elf -> space_inv m (pt ms) T ∅ (areas ms) -> areas ms = [] ->
  5 * (segs_pages (elf_ph elf) + 4) <= spare m ->
  swp (load_user parse ms elf_data) m (fun '(r, ms') m' => exists T' A',
    r = (elf_entry elf, USER_STACK_TOP) /\ space_inv m' (pt ms') T' A' (areas ms') /\
    forall va, 0 <= va -> ubyte m' A' va = if decide (in_area stack_area va) then Some (0, flags stack_area)
      else image (elf_ph elf) va None).
Proof.
  intros H1 H2 H3 H4 H5. eapply swp_mono; [by eapply load_user_spec|].
  intros [r ms'] m' (T' & A' & ? & ? & _ & ?). by exists T', A'.
Qed.

(** Duplicating an address space (fork) gives a new one that shows the
    same bytes and flags at every page, in frames that the original does not
    own and that were free before; the original is untouched, and the frames
    taken are exactly those the copy owns. *)
Theorem fork_copies_memory m ms T A :
  space_inv m (pt ms) T A (areas ms) -> 1 + clone_cost (areas ms) <= spare m ->
  swp (MemorySet_clone ms) m (fun ms' m' => exists T' A',
    space_inv m' (pt ms') T' A' (areas ms') /\ space_inv m' (pt ms) T A (areas ms) /\
    own T (areas ms) ## own T' (areas ms') /\
    (forall key, view m' A' key = view m' A key /\ view m' A key = view m A key) /\
    spare m' = spare m - Z.of_nat (size (own T' (areas ms')))).
Proof.
  intros I Hsp. eapply swp_mono; [by apply (MemorySet_clone_spec m ms T A)|].
  intros ms' m' (T' & A' & [I1 I2 Hd Hc] & G). exists T', A'. split_and!; [done|done|done| |].
  - intros key. split; [by eapply copies_view|]. by apply (space_inv_fresh _ _ _ _ _ _ _ I G).
  - pose proof (gr_spare _ _ _ _ G). rewrite size_empty in *. lia.
Qed.

(** C25: dropping an address space gives back every frame it owns, tables and
    pages, exactly once, and leaves the content of all frames but its own
    tables alone: no frame leaks and none is freed twice. *)
Theorem drop_returns_frames m ms T A :
  space_inv m (pt ms) T A (areas ms) ->
  swp (MemorySet_drop ms) m (fun _ m' => mem_ok m' /\ used m' = used m ∖ own T (areas ms) /\
    spare m' = spare m + Z.of_nat (size (own T (areas ms))) /\
    forall f, f ∉ table_frames T -> ram m' !! f = ram m !! f).
Proof.
  intros I. eapply swp_mono; [by apply (MemorySet_drop_spec m ms T A)|].
  intros _ m' [[K U P] R]. by split_and!.
Qed.

(** The size guard of [insert] does not keep empty areas out: it
    complements the size bitwise instead of testing it, so an empty area
    takes its key and the next area at the same address stops the kernel. *)
Theorem insert_keeps_empty_area m ms a b :
  area_size a = 0 -> 0 <= start a < 2 ^ 64 -> start b = start a -> 0 <= area_size b < 2 ^ 63 ->
  bt_ok (areas ms) -> bt_lookup (start a) (areas ms) = None ->
  MemorySet_insert ms a m = Ok (mkMS (pt ms) (bt_insert (start a) a (areas ms)), m) /\
  MemorySet_insert (mkMS (pt ms) (bt_insert (start a) a (areas ms))) b m = Err Panic.
Proof.
  intros Ha Hst Hs Hb Hbt Hn. split; unfold MemorySet_insert.
  - rewrite Ha. change (0 <? usize_not 0) with true. cbn iota. rewrite Hn.
    unfold map_area, area_fuel. rewrite Ha. cbn [map_area_loop Z.to_nat Z.div Z.add Pos.to_nat].
    rewrite Z.add_0_r, u64_small by lia.
    change (Z.to_nat (0 / PAGE_SIZE + 2)) with 2%nat. cbn [map_area_loop]. by rewrite Z.ltb_irrefl.
  - rewrite (proj2 (Z.ltb_lt _ _)) by (by apply usize_not_pos). cbn [areas].
    by rewrite Hs, bt_lookup_insert, Z.eqb_refl.
Qed.

(** One read-write page at 0x10000 in a new address space. *)
Definition demo_area : MapArea := mkArea 0x10000 0x1000 11 (Framed []).

Lemma demo_space : exists m ms T A, space_inv m (pt ms) T A (areas ms) /\ 1 + clone_cost (areas ms) <= spare m /\
  view m A 16 = Some (zero_page, 11).
Proof.
  destruct (MemorySet_new_spec (fresh_mem 100) (fresh_mem_ok 100 ltac:(lia)) ltac:(reflexivity))
    as (ms & m & _ & T & Ea & I & G & Hs).
  assert (area_ready m demo_area [] (areas ms)) as Hr.
  { rewrite Ea. split; [split; vm_compute; intuition discriminate|done|apply fr_ok_nil|done|by intros k b ?%elem_of_nil]. }
  change (spare (fresh_mem 100)) with 100 in Hs. rewrite <- Ea in I.
  destruct (MemorySet_insert_spec m ms T ∅ demo_area [] I Hr) as (ms' & m' & _ & T' & A' & l' & I' & In).
  { apply disjoint_empty_l. } { change (4 * npages demo_area) with 4. lia. }
  exists m', ms', T', A'. split_and!; [done| |].
  - pose proof In as [Ea' G' _ _ Hs']. pose proof (gr_spare _ _ _ _ G') as Hsp. rewrite Ea in *.
    change (4 * npages demo_area) with 4 in Hs'. change (fset []) with (∅ : gset Z) in Hsp. rewrite union_empty_r_L in Hsp.
    pose proof (gr_spare _ _ _ _ G) as Hsp0. rewrite size_empty in Hsp0. change (spare (fresh_mem 100)) with 100 in Hsp0.
    rewrite size_union in Hsp by apply I'. unfold ms_set in Hsp at 1.
    rewrite size_list_to_set in Hsp by apply (si_areas _ _ _ _ _ I').
    unfold clone_cost. rewrite Ea' at 2. cbn [bt_insert pages foldr snd]. change (npages (set_mapper demo_area (Framed l'))) with 1. lia.
  - rewrite (inserted_view _ _ _ _ _ _ _ _ _ _ _ _ 16 I Hr In I'). reflexivity.
Qed.

Definition demo_elf : ElfFile :=
  mkElf true true true [mkPH true 0x10078 0x20 true false true (Some [1; 2; 3]); mkPH false 0 0 true true false None] 0x10078.

Lemma demo_elf_ok : program_ok demo_elf.
Proof.
  split; [done..| |].
  - cbn [segs_ok demo_elf elf_ph ph_load]. split_and!; [|apply Forall_nil_2|done].
    exists [1; 2; 3]. split; try done. repeat (apply Forall_cons; split; [unfold is_byte; lia|]). apply Forall_nil_2.
  - cbn [segs_after demo_elf elf_ph ph_load]. apply Forall_cons. split; [right; vm_compute; discriminate|apply Forall_nil_2].
Qed.

Lemma load_user_image_witness : exists m ms,
  swp (load_user (fun _ => Some demo_elf) ms []) m (fun '(r, _) m' => r = (0x10078, USER_STACK_TOP) /\ exists A',
    ubyte m' A' 0x10079 = Some (2, 13) /\ ubyte m' A' 0x1007b = Some (0, 13) /\
    ubyte m' A' (USER_STACK_TOP - 8) = Some (0, 11) /\ ubyte m' A' 0x20000 = None).
Proof.
  destruct (MemorySet_new_spec (fresh_mem 100) (fresh_mem_ok 100 ltac:(lia)) ltac:(reflexivity))
    as (ms & m & _ & T & Ea & I & G & Hs). exists m, ms.
  change (spare (fresh_mem 100)) with 100 in Hs. rewrite <- Ea in I.
  eapply swp_mono; [apply (load_user_image (fun _ => Some demo_elf) [] demo_elf m ms T eq_refl demo_elf_ok I Ea)|].
  - change (segs_pages (elf_ph demo_elf)) with 1. lia.
  - intros [r ms'] m' (T' & A' & -> & _ & V). split; [reflexivity|]. exists A'.
    split_and!; rewrite V by (vm_compute; discriminate); reflexivity.
Defined.

Lemma fork_copies_memory_witness : exists m ms, swp (MemorySet_clone ms) m (fun ms' m' => exists T' A',
    space_inv m' (pt ms') T' A' (areas ms') /\ view m' A' 16 = Some (zero_page, 11)).
Proof.
  destruct demo_space as (m & ms & T & A & I & Hsp & V). exists m, ms.
  eapply swp_mono; [apply (fork_copies_memory m ms T A I Hsp)|].
  intros ms' m' (T' & A' & I' & _ & _ & HV & _). exists T', A'. split; [exact I'|].
  destruct (HV 16) as [-> ->]. exact V.
Defined.

Lemma drop_returns_frames_witness : exists m ms, swp (MemorySet_drop ms) m (fun _ m' => mem_ok m' /\ spare m < spare m').
Proof.
  destruct demo_space as (m & ms & T & A & I & Hsp & V). exists m, ms.
  eapply swp_mono; [apply (drop_returns_frames m ms T A I)|].
  intros _ m' (K & _ & P & _). split; [exact K|]. rewrite P.
  destruct (pi_root _ _ _ (pr_inv _ _ _ _ (si_pt _ _ _ _ _ I))) as (r & Hr & _).
  assert (size (own T (areas ms)) <> 0%nat); [|lia].
  intros E%size_empty_inv. apply (not_elem_of_empty (C := gset Z) r), (E r), elem_of_union_l, elem_of_table_frames. eauto.
Defined.

Lemma insert_keeps_empty_area_witness :
  let a := mkArea 0x10000 0 11 (Framed []) in
  MemorySet_insert (mkMS (mkPT 0 []) []) a (fresh_mem 0) = Ok (mkMS (mkPT 0 []) [(0x10000, a)], fresh_mem 0) /\
  MemorySet_insert (mkMS (mkPT 0 []) [(0x10000, a)]) demo_area (fresh_mem 0) = Err Panic.
Proof.
  apply (insert_keeps_empty_area (fresh_mem 0) (mkMS (mkPT 0 []) []) (mkArea 0x10000 0 11 (Framed [])) demo_area);
    [reflexivity|cbn [start]; lia|reflexivity|cbn [area_size demo_area]; lia|apply bt_ok_nil|reflexivity].
Defined.
