(* ===== verification/Pipe.v ===== *)
(** Pipes (os/src/fs/pipe.rs): a ring buffer of 256 bytes shared by read and
    write ends.

    A blocking [read] or [write] is a loop that gives up the processor when it
    cannot go on; one pass of the loop, which runs without interruption, is
    [read_iter] or [write_iter].  [pipe_step] interleaves the passes of any
    number of readers and writers. *)
From stdpp Require Import relations.
From S2P Require Import Prelude ByteCodec.

From Stdlib Require Import ZifyNat.
#[local] Ltac Zify.zify_post_hook ::= Z.to_euclidean_division_equations.

Definition RING_BUFFER_SIZE : Z := 256.

Inductive RingBufferStatus := Full | Empty | Normal.

#[export] Instance RingBufferStatus_eq_dec : EqDecision RingBufferStatus.
Proof. solve_decision. Defined.

(** [write_end] is a weak reference to the write end: [None] before
    [set_write_end], otherwise whether the write end still exists. *)
Record PipeRingBuffer := mkRing {
  arr : list Z;
  head : Z;
  tail : Z;
  status : RingBufferStatus;
  write_end : option bool;
}.

Definition PipeRingBuffer_new : PipeRingBuffer :=
  mkRing (replicate (Z.to_nat RING_BUFFER_SIZE) 0) 0 0 Empty None.

Definition set_write_end (rb : PipeRingBuffer) : PipeRingBuffer :=
  mkRing (arr rb) (head rb) (tail rb) (status rb) (Some true).

Definition write_byte (rb : PipeRingBuffer) (byte : Z) : res PipeRingBuffer :=
  a ← vset (arr rb) (tail rb) byte;
  let tail := (tail rb + 1) `mod` RING_BUFFER_SIZE in
  Ok (mkRing a (head rb) tail (if tail =? head rb then Full else Normal) (write_end rb)).

Definition read_byte (rb : PipeRingBuffer) : res (Z * PipeRingBuffer) :=
  c ← vget (arr rb) (head rb);
  let head := (head rb + 1) `mod` RING_BUFFER_SIZE in
  Ok (c, mkRing (arr rb) head (tail rb) (if head =? tail rb then Empty else Normal) (write_end rb)).

Definition available_read (rb : PipeRingBuffer) : Z :=
  if decide (status rb = Empty) then 0
  else if head rb <? tail rb then tail rb - head rb
  else tail rb + RING_BUFFER_SIZE - head rb.

Definition available_write (rb : PipeRingBuffer) : Z :=
  if decide (status rb = Full) then 0 else RING_BUFFER_SIZE - available_read rb.

Definition all_write_ends_closed (rb : PipeRingBuffer) : res bool :=
  e ← unwrap (write_end rb);
  Ok (negb e).

(** An end of a pipe; the buffer is shared and kept apart. *)
Record Pipe := mkPipe { readable : bool; writable : bool }.
Definition read_end_with_buffer : Pipe := mkPipe true false.
Definition write_end_with_buffer : Pipe := mkPipe false true.

(** [make_pipe]: the ends and the buffer they share. *)
Definition make_pipe : Pipe * Pipe * PipeRingBuffer :=
  (read_end_with_buffer, write_end_with_buffer, set_write_end PipeRingBuffer_new).

(** What one pass of a loop does: return from the call, give up the processor,
    or go round again. *)
Inductive pass := Return | Yield | Again.

(** [for _ in 0..n { if let Some(byte_ref) = buf_iter.next() .. }] of [read]:
    [room] slots of the buffer are left, [got] are filled; the last component
    says whether the buffer ran out. *)
Fixpoint read_bytes (n : nat) (rb : PipeRingBuffer) (room : nat) (got : list Z) :
    res (PipeRingBuffer * nat * list Z * bool) :=
  match n with
  | O => Ok (rb, room, got, false)
  | S n =>
      match room with
      | O => Ok (rb, room, got, true)
      | S room => '(c, rb) ← read_byte rb; read_bytes n rb room (got ++ [c])
      end
  end.
Definition read_iter (p : Pipe) (rb : PipeRingBuffer) (room : nat) (got : list Z) :
    res (PipeRingBuffer * nat * list Z * pass) :=
  _ ← rassert (readable p);
  let loop_read := available_read rb in
  if loop_read =? 0 then
    closed ← all_write_ends_closed rb;
    Ok (rb, room, got, if (closed : bool) then Return else Yield)
  else
    match read_bytes (Z.to_nat loop_read) rb room got with
    | Ok (rb, room, got, ended) => Ok (rb, room, got, if ended then Return else Again)
    | Err e => Err e
    end.

(** The same loop of [write]; [buf] is what is left to write. *)
Fixpoint write_bytes (n : nat) (rb : PipeRingBuffer) (buf : list Z) :
    res (PipeRingBuffer * list Z * bool) :=
  match n with
  | O => Ok (rb, buf, false)
  | S n =>
      match buf with
      | [] => Ok (rb, buf, true)
      | b :: buf => rb ← write_byte rb b; write_bytes n rb buf
      end
  end.
Definition write_iter (p : Pipe) (rb : PipeRingBuffer) (buf : list Z) :
    res (PipeRingBuffer * list Z * pass) :=
  _ ← rassert (writable p);
  let loop_write := available_write rb in
  if loop_write =? 0 then Ok (rb, buf, Yield)
  else
    match write_bytes (Z.to_nat loop_write) rb buf with
    | Ok (rb, buf, ended) => Ok (rb, buf, if ended then Return else Again)
    | Err e => Err e
    end.

(** ** The buffer is a bounded queue *)

Record ring_ok (rb : PipeRingBuffer) : Prop := {
  ro_len : length (arr rb) = 256%nat;
  ro_head : 0 <= head rb < 256;
  ro_tail : 0 <= tail rb < 256;
  ro_status : head rb = tail rb <-> status rb <> Normal;
}.

(** The bytes in the buffer, oldest first. *)
Definition content (rb : PipeRingBuffer) : list Z :=
  slice (arr rb ++ arr rb) (head rb) (available_read rb).

Lemma available_read_range rb : ring_ok rb -> 0 <= available_read rb <= 256 /\
  (available_read rb = 0 <-> status rb = Empty) /\ (available_read rb = 256 <-> status rb = Full) /\
  (head rb + available_read rb) `mod` 256 = tail rb.
Proof.
  intros [H1 H2 H3 H4]. unfold available_read, RING_BUFFER_SIZE.
  destruct (decide (status rb = Empty)) as [E|E]; [|destruct (Z.ltb_spec (head rb) (tail rb))].
  - rewrite E in *. assert (head rb = tail rb) by (by apply H4).
    split_and!; first [lia|split; intros; done || lia].
  - assert (status rb = Normal) as En.
    { destruct (status rb); try done. all: assert (head rb = tail rb) by (by apply H4); lia. }
    rewrite En. split_and!; first [lia|split; intros; done || lia].
  - assert (head rb = tail rb <-> status rb = Full) as Hf.
    { split; [intros ?%H4; by destruct (status rb)|intros F; apply H4; by rewrite F]. }
    rewrite <- Hf. split_and!; first [lia|split; intros; done || lia].
Qed.

Lemma length_content rb : ring_ok rb -> Zlength (content rb) = available_read rb.
Proof.
  intros H. pose proof (available_read_range rb H) as (? & _). destruct H as [H1 H2 H3 _].
  unfold content. apply length_slice; [lia|lia|]. rewrite length_app, H1. lia.
Qed.

Lemma available_write_eq rb : ring_ok rb -> available_write rb = 256 - Zlength (content rb).
Proof.
  intros H. rewrite length_content by done. pose proof (available_read_range rb H) as (_ & _ & Hf & _).
  unfold available_write, RING_BUFFER_SIZE. destruct (decide _) as [E|E]; [apply Hf in E; lia|lia].
Qed.

(** Byte [i] of the buffer is at index [(head + i) mod 256] of the array. *)
Lemma lookup_content rb i : ring_ok rb -> 0 <= i < available_read rb ->
  content rb !! Z.to_nat i = arr rb !! Z.to_nat ((head rb + i) `mod` 256).
Proof.
  intros H Hi. pose proof (available_read_range rb H) as (Hr & _). destruct H as [H1 H2 H3 _].
  unfold content. rewrite lookup_slice by lia. destruct (decide (head rb + i < 256)).
  - rewrite lookup_app_l by lia. f_equal. lia.
  - rewrite lookup_app_r by lia. f_equal. lia.
Qed.

Lemma content_eq rb l : ring_ok rb -> Zlength l = available_read rb ->
  (forall i, 0 <= i < Zlength l -> arr rb !! Z.to_nat ((head rb + i) `mod` 256) = l !! Z.to_nat i) ->
  content rb = l.
Proof.
  intros H Hl Hi. pose proof (length_content rb H) as Hc. apply list_eq_same_length with (length l); [done|lia|].
  intros i x y Hlt Hx Hy. rewrite <- (Nat2Z.id i) in Hx, Hy.
  rewrite lookup_content in Hx by (done || lia). rewrite Hi in Hx by lia. congruence.
Qed.

Lemma write_byte_spec rb b : ring_ok rb -> status rb <> Full ->
  exists rb', write_byte rb b = Ok rb' /\ ring_ok rb' /\ content rb' = content rb ++ [b] /\
    status rb' <> Empty /\ write_end rb' = write_end rb.
Proof.
  intros H Hf. pose proof (available_read_range rb H) as (Hr & He & Hfu & Ht). pose proof H as [H1 H2 H3 H4].
  assert (available_read rb <> 256) as Hn by (by rewrite Hfu).
  unfold write_byte. rewrite vset_lt by lia. cbn [mbind res_bind]. unfold RING_BUFFER_SIZE.
  set (rb' := mkRing _ _ _ _ _). exists rb'.
  assert (ring_ok rb') as Hok.
  { split; cbn [arr head tail status rb']; [by rewrite length_insert|done|lia|].
    destruct (Z.eqb_spec ((tail rb + 1) `mod` 256) (head rb)); split; intros; done || lia. }
  assert (available_read rb' = available_read rb + 1) as Ha.
  { pose proof (available_read_range rb' Hok) as (? & He' & Hf' & Ht'). cbn [head tail rb'] in Ht'.
    assert (available_read rb' <> 0) as Hz.
    { rewrite He'. cbn [status rb']. by destruct (_ =? _). }
    rewrite <- Ht in Ht'. lia. }
  split_and!; [done|done| |cbn [status rb']; by destruct (_ =? _)|done].
  apply content_eq; [done|rewrite length_app, Nat2Z.inj_add, length_content by done; simpl; lia|].
  pose proof (length_content rb H) as Hlc.
  intros i Hi. rewrite length_app in Hi. simpl in Hi. cbn [arr head rb'].
  destruct (decide (i = available_read rb)) as [->|Hne].
  - rewrite Ht, list_lookup_insert_eq by lia.
    rewrite lookup_app_r by lia.
    by replace (Z.to_nat (available_read rb) - length (content rb))%nat with 0%nat by lia.
  - rewrite list_lookup_insert_ne by lia.
    rewrite lookup_app_l by lia. symmetry. apply lookup_content; [done|lia].
Qed.

Lemma read_byte_spec rb : ring_ok rb -> status rb <> Empty ->
  exists c rb', read_byte rb = Ok (c, rb') /\ ring_ok rb' /\ content rb = c :: content rb' /\
    status rb' <> Full /\ write_end rb' = write_end rb.
Proof.
  intros H Hf. pose proof (available_read_range rb H) as (Hr & He & Hfu & Ht). pose proof H as [H1 H2 H3 H4].
  assert (available_read rb <> 0) as Hn by (by rewrite He).
  destruct (lookup_lt_is_Some_2 (arr rb) (Z.to_nat (head rb))) as [c Hc]; [lia|].
  unfold read_byte. rewrite (proj2 (vget_Ok _ _ _) Hc). cbn [mbind res_bind]. unfold RING_BUFFER_SIZE.
  set (rb' := mkRing _ _ _ _ _). exists c, rb'.
  assert (ring_ok rb') as Hok.
  { split; cbn [arr head tail status rb']; [done|lia|done|].
    destruct (Z.eqb_spec ((head rb + 1) `mod` 256) (tail rb)); split; intros; done || lia. }
  assert (available_read rb' = available_read rb - 1) as Ha.
  { pose proof (available_read_range rb' Hok) as (? & He' & Hf' & Ht'). cbn [head tail rb'] in Ht'.
    assert (available_read rb' <> 256) as Hz.
    { rewrite Hf'. cbn [status rb']. by destruct (_ =? _). }
    rewrite <- Ht in Ht'. lia. }
  split_and!; [done|done| |cbn [status rb']; by destruct (_ =? _)|done].
  apply content_eq; [done|cbn [length]; pose proof (length_content rb' Hok); lia|].
  intros i Hi. cbn [length] in Hi. pose proof (length_content rb' Hok) as Hl'.
  destruct (decide (i = 0)) as [->|Hne].
  - replace ((head rb + 0) `mod` 256) with (head rb) by lia. done.
  - replace (Z.to_nat i) with (S (Z.to_nat (i - 1))) by lia. cbn [lookup list_lookup].
    change (list_lookup (Z.to_nat (i - 1)) (content rb')) with (content rb' !! Z.to_nat (i - 1)).
    rewrite (lookup_content rb') by (done || lia). cbn [arr head rb']. f_equal. lia.
Qed.

(** ** One pass of a call *)

Lemma content_nil rb : ring_ok rb -> content rb = [] <-> status rb = Empty.
Proof.
  intros H. pose proof (available_read_range rb H) as (_ & He & _). pose proof (length_content rb H) as Hl.
  rewrite <- He. split; [intros E; rewrite E in Hl; simpl in Hl; lia|]. intros E. apply nil_length_inv. lia.
Qed.

Lemma read_bytes_spec n : forall rb room got, ring_ok rb -> (n <= length (content rb))%nat ->
  exists rb', read_bytes n rb room got =
      Ok (rb', (room - n)%nat, got ++ take (n `min` room) (content rb), bool_decide (room < n)%nat) /\
    ring_ok rb' /\ content rb' = drop (n `min` room) (content rb) /\ write_end rb' = write_end rb.
Proof.
  induction n as [|n IH]; intros rb room got H Hn; cbn [read_bytes].
  - exists rb. rewrite Nat.sub_0_r, app_nil_r. by rewrite bool_decide_false by lia.
  - destruct room as [|room].
    + exists rb. rewrite Nat.min_0_r, app_nil_r. by rewrite bool_decide_true by lia.
    + assert (status rb <> Empty) as He by (rewrite <- content_nil by done; by intros E; rewrite E in Hn; simpl in Hn; lia).
      destruct (read_byte_spec rb H He) as (c & rb1 & -> & H1 & Ec & _ & Ew). cbn [mbind res_bind].
      rewrite Ec in Hn |- *. cbn [length] in Hn.
      destruct (IH rb1 room (got ++ [c]) H1 ltac:(lia)) as (rb' & -> & H' & Ec' & Ew').
      exists rb'. cbn [Nat.min take drop]. rewrite <- app_assoc. split_and!; [|done|done|by rewrite Ew'].
      do 3 f_equal. apply bool_decide_ext. lia.
Qed.

Lemma write_bytes_spec n : forall rb buf, ring_ok rb -> (n + length (content rb) <= 256)%nat ->
  exists rb', write_bytes n rb buf = Ok (rb', drop n buf, bool_decide (length buf < n)%nat) /\
    ring_ok rb' /\ content rb' = content rb ++ take n buf /\ write_end rb' = write_end rb.
Proof.
  induction n as [|n IH]; intros rb buf H Hn; cbn [write_bytes].
  - exists rb. rewrite app_nil_r. by rewrite bool_decide_false by lia.
  - destruct buf as [|b buf].
    + exists rb. rewrite app_nil_r. by rewrite bool_decide_true by (simpl; lia).
    + assert (status rb <> Full) as Hf.
      { pose proof (available_read_range rb H) as (_ & _ & Hfu & _). rewrite <- Hfu, <- length_content by done. lia. }
      destruct (write_byte_spec rb b H Hf) as (rb1 & -> & H1 & Ec & _ & Ew). cbn [mbind res_bind].
      destruct (IH rb1 buf H1) as (rb' & -> & H' & Ec' & Ew'); [rewrite Ec, length_app; simpl; lia|].
      exists rb'. cbn [take drop]. rewrite Ec', Ec, <- app_assoc. split_and!; [|done|done|by rewrite Ew'].
      do 3 f_equal. apply bool_decide_ext. simpl. lia.
Qed.

(** A pass of [read]: with an empty buffer it returns when there is no writer
    left and gives up the processor otherwise; with more bytes than it wants
    it returns; else it takes everything and goes round again. *)
Lemma read_iter_spec rb room got e : ring_ok rb -> write_end rb = Some e ->
  exists rb', read_iter read_end_with_buffer rb room got =
      Ok (rb', (room - length (content rb))%nat, got ++ take room (content rb),
          if decide (content rb = []) then (if e then Yield else Return)
          else if decide (room < length (content rb))%nat then Return else Again) /\
    ring_ok rb' /\ content rb' = drop room (content rb) /\ write_end rb' = Some e.
Proof.
  intros H He. pose proof (length_content rb H) as Hl. unfold read_iter. cbn [readable read_end_with_buffer rassert mbind res_bind].
  destruct (Z.eqb_spec (available_read rb) 0) as [E|E].
  - assert (content rb = []) as Ec by (apply nil_length_inv; lia). rewrite decide_True by done.
    exists rb. unfold all_write_ends_closed. rewrite He. cbn [unwrap mbind res_bind].
    rewrite Ec, take_nil, drop_nil, app_nil_r. cbn [length]. rewrite Nat.sub_0_r. split_and!; [by destruct e|done|done|done].
  - assert (content rb <> []) as Ec by (intros Ec; rewrite Ec in Hl; simpl in Hl; lia). rewrite decide_False by done.
    replace (Z.to_nat (available_read rb)) with (length (content rb)) by lia.
    destruct (read_bytes_spec (length (content rb)) rb room got H ltac:(lia)) as (rb' & -> & H' & Ec' & Ew').
    exists rb'. assert (take (length (content rb) `min` room) (content rb) = take room (content rb)) as ->.
    { destruct (decide (room <= length (content rb))%nat); [by rewrite Nat.min_r by lia|].
      rewrite Nat.min_l, !take_ge by lia. done. }
    split_and!; [|done| |congruence].
    + by destruct (decide (room < length (content rb))%nat); [rewrite bool_decide_true by done|rewrite bool_decide_false by done].
    + rewrite Ec'. destruct (decide (room <= length (content rb))%nat); [by rewrite Nat.min_r by lia|].
      rewrite Nat.min_l, !drop_ge by lia. done.
Qed.

(** A pass of [write] puts as much as fits. *)
Lemma write_iter_spec rb buf : ring_ok rb ->
  let space := (256 - length (content rb))%nat in
  exists rb', write_iter write_end_with_buffer rb buf =
      Ok (rb', drop space buf,
          if decide (space = 0%nat) then Yield else if decide (length buf < space)%nat then Return else Again) /\
    ring_ok rb' /\ content rb' = content rb ++ take space buf /\ write_end rb' = write_end rb.
Proof.
  intros H space. pose proof (available_write_eq rb H) as Ha.
  pose proof (available_read_range rb H) as (Hr & _). pose proof (length_content rb H) as Hl.
  unfold write_iter. cbn [writable write_end_with_buffer rassert mbind res_bind].
  destruct (Z.eqb_spec (available_write rb) 0) as [E|E].
  - assert (space = 0%nat) as -> by (unfold space; lia). exists rb. by rewrite app_nil_r.
  - rewrite decide_False by (unfold space; lia). replace (Z.to_nat (available_write rb)) with space by (unfold space; lia).
    destruct (write_bytes_spec space rb buf H) as (rb' & -> & H' & Ec & Ew); [unfold space; lia|].
    exists rb'. split_and!; try done.
    by destruct (decide (length buf < space)%nat); [rewrite bool_decide_true by done|rewrite bool_decide_false by done].
Qed.

(** ** Readers and writers interleaved *)

(** A call in progress: what a reader has room for and has got, what a writer
    has left. *)
Inductive call := Reading (room : nat) (got : list Z) | Writing (buf : list Z).

(** [sent] and [received] record the bytes in the order they passed. *)
Record System := mkSystem {
  ring : PipeRingBuffer;
  calls : gmap nat call;
  sent : list Z;
  received : list Z;
}.

Definition System_init : System := mkSystem (make_pipe.2) ∅ [] [].

Definition after {A} (ps : pass) (t : nat) (c : A) (m : gmap nat A) : gmap nat A :=
  match ps with Return => delete t m | _ => <[t := c]> m end.

Definition close (rb : PipeRingBuffer) : PipeRingBuffer :=
  mkRing (arr rb) (head rb) (tail rb) (status rb) (Some false).

Inductive pipe_step : System -> System -> Prop :=
  | step_call s t c : calls s !! t = None ->
      (forall buf, c = Writing buf -> write_end (ring s) = Some true) ->
      (forall room got, c = Reading room got -> got = []) ->
      pipe_step s (mkSystem (ring s) (<[t := c]> (calls s)) (sent s) (received s))
  | step_read s t room got rb' room' got' ps : calls s !! t = Some (Reading room got) ->
      read_iter read_end_with_buffer (ring s) room got = Ok (rb', room', got', ps) ->
      pipe_step s (mkSystem rb' (after ps t (Reading room' got') (calls s)) (sent s)
        (received s ++ drop (length got) got'))
  | step_write s t buf rb' buf' ps : calls s !! t = Some (Writing buf) ->
      write_iter write_end_with_buffer (ring s) buf = Ok (rb', buf', ps) ->
      pipe_step s (mkSystem rb' (after ps t (Writing buf') (calls s))
        (sent s ++ take (length buf - length buf') buf) (received s))
  (** The last write end goes away: no call holds it. *)
  | step_close s : (forall t buf, calls s !! t <> Some (Writing buf)) ->
      pipe_step s (mkSystem (close (ring s)) (calls s) (sent s) (received s)).

Record sys_ok (s : System) : Prop := {
  so_ring : ring_ok (ring s);
  so_end : is_Some (write_end (ring s));
  so_flow : sent s = received s ++ content (ring s);
}.

Lemma sys_ok_init : sys_ok System_init.
Proof. split; [split; done || (cbn; lia) || (split; done)|by eexists|done]. Qed.

Lemma sys_ok_step s s' : sys_ok s -> pipe_step s s' -> sys_ok s'.
Proof.
  intros [R [e E] F] Hst. inversion Hst as [? t c|? t room got rb' room' got' ps Hc Hi|? t buf rb' buf' ps Hc Hi|?]; subst; clear Hst.
  - by split; [|exists e|].
  - destruct (read_iter_spec (ring s) room got e R E) as (rb1 & Hi' & R1 & Ec & Ew). rewrite Hi in Hi'. simplify_eq.
    split; cbn [ring sent received]; [done|eauto|]. rewrite drop_app_length, F, Ec, <- app_assoc. by rewrite take_drop.
  - destruct (write_iter_spec (ring s) buf R) as (rb1 & Hi' & R1 & Ec & Ew). rewrite Hi in Hi'. simplify_eq.
    split; cbn [ring sent received]; [done|rewrite Ew; eauto|]. rewrite F, Ec, <- app_assoc. do 2 f_equal.
    rewrite length_drop. set (space := (256 - length (content (ring s)))%nat).
    destruct (decide (space <= length buf)%nat); [f_equal; lia|]. by rewrite !take_ge by lia.
  - split; cbn [ring sent received]; [destruct R; by split|by eexists|done].
Qed.

Lemma sys_ok_reachable s : rtc pipe_step System_init s -> sys_ok s.
Proof.
  intros H. assert (forall x, rtc pipe_step x s -> sys_ok x -> sys_ok s) as Hall.
  { clear H. induction 1 as [|x y z Hxy _ IH]; [done|]. intros Hx. apply IH. by eapply sys_ok_step. }
  exact (Hall _ H sys_ok_init).
Qed.

(** ** The claims *)

(** The ring buffer is a queue of at most 256 bytes: [write_byte] on a
    buffer that is not full appends, [read_byte] on one that is not empty takes
    the oldest byte, neither panics, and the two counters report the length
    and the space left. *)
Theorem ring_buffer_is_queue rb b :
  ring_ok rb ->
  available_read rb = Zlength (content rb) /\ available_write rb = 256 - Zlength (content rb) /\
  (status rb <> Full -> exists rb', write_byte rb b = Ok rb' /\ ring_ok rb' /\ content rb' = content rb ++ [b]) /\
  (status rb <> Empty -> exists c rb', read_byte rb = Ok (c, rb') /\ ring_ok rb' /\ content rb = c :: content rb').
Proof.
  intros H. split_and!; [by rewrite length_content|by apply available_write_eq| |].
  - intros Hf. destruct (write_byte_spec rb b H Hf) as (rb' & ? & ? & ? & _). by exists rb'.
  - intros He. destruct (read_byte_spec rb H He) as (c & rb' & ? & ? & ? & _). by exists c, rb'.
Qed.

Lemma ring_buffer_is_queue_witness : exists rb, write_byte PipeRingBuffer_new 65 = Ok rb /\ content rb = [65] /\
  available_write PipeRingBuffer_new = 256.
Proof.
  destruct (ring_buffer_is_queue PipeRingBuffer_new 65) as (_ & Hw & Hwb & _).
  { split; first [done|split; done]. }
  destruct Hwb as (rb & E & _ & Ec); [done|]. exists rb. split_and!; [exact E|exact Ec|exact Hw].
Defined.

(** C22: however the passes of readers and writers on a pipe interleave, the
    bytes read so far followed by the bytes in the buffer are exactly the bytes
    written so far: nothing is lost, duplicated or reordered, the buffer
    never holds more than 256 bytes, and no pass of a call in progress panics. *)
Theorem pipe_stream s :
  rtc pipe_step System_init s ->
  sent s = received s ++ content (ring s) /\ Zlength (content (ring s)) <= 256 /\
  forall t c, calls s !! t = Some c -> exists s', pipe_step s s' /\
    match c with
    | Reading room got => exists r, read_iter read_end_with_buffer (ring s) room got = Ok r
    | Writing buf => exists r, write_iter write_end_with_buffer (ring s) buf = Ok r
    end.
Proof.
  intros H. destruct (sys_ok_reachable s H) as [R [e E] F]. split_and!; [done| |].
  - rewrite length_content by done. by apply available_read_range.
  - intros t [room got|buf] Hc.
    + destruct (read_iter_spec (ring s) room got e R E) as (rb & Hi & _). eexists. split; [by eapply step_read|eauto].
    + destruct (write_iter_spec (ring s) buf R) as (rb & Hi & _). eexists. split; [by eapply step_write|eauto].
Qed.

Lemma pipe_stream_witness : exists s, rtc pipe_step System_init s /\ sent s = [7; 8] /\ received s = [] /\ content (ring s) = [7; 8].
Proof.
  set (s1 := mkSystem make_pipe.2 {[ 0%nat := Writing [7; 8] ]} [] []).
  destruct (write_iter_spec make_pipe.2 [7; 8] (so_ring _ sys_ok_init)) as (rb & Hi & _ & Ec & _).
  set (s2 := mkSystem rb (delete 0%nat (calls s1)) [7; 8] []).
  assert (rtc pipe_step System_init s2) as Hr.
  { eapply rtc_l; [apply (step_call System_init 0%nat (Writing [7; 8])); [reflexivity|reflexivity|intros; discriminate]|].
    apply rtc_once. exact (step_write s1 0%nat [7; 8] rb [] Return eq_refl Hi). }
  exists s2. destruct (pipe_stream s2 Hr) as (F & _). split_and!; [exact Hr|reflexivity|reflexivity|].
  symmetry. exact F.
Defined.

(** [read] returns fewer bytes than asked for only at the end of the
    stream: every write end is gone and the buffer is empty. *)
Theorem pipe_short_read_is_eof rb room got rb' room' got' e :
  ring_ok rb -> write_end rb = Some e ->
  read_iter read_end_with_buffer rb room got = Ok (rb', room', got', Return) -> (0 < room')%nat ->
  e = false /\ content rb = [] /\ got' = got.
Proof.
  intros R E Hi Hroom. destruct (read_iter_spec rb room got e R E) as (rb1 & Hi' & _). rewrite Hi in Hi'.
  injection Hi' as _ -> -> Hp. destruct (decide (content rb = [])) as [Ec|_].
  - rewrite Ec, take_nil, app_nil_r. by destruct e.
  - destruct (decide (room < length (content rb))%nat); [lia|done].
Qed.

Lemma pipe_short_read_is_eof_witness :
  read_iter read_end_with_buffer (close make_pipe.2) 4 [1] = Ok (close make_pipe.2, 4%nat, [1], Return) /\
  content (close make_pipe.2) = [].
Proof.
  split; [reflexivity|].
  refine (proj1 (proj2 (pipe_short_read_is_eof (close make_pipe.2) 4 [1] _ 4 [1] false _ eq_refl eq_refl _))).
  - split; first [done|split; done].
  - lia.
Defined.

(** A reader whose buffer is filled by exactly the bytes there are does
    not return: it goes round again, finds the pipe empty, and as long as a
    write end exists gives up the processor in every pass.  In the same way
    a writer that just fills the buffer waits for a reader. *)
Theorem pipe_exact_read_waits rb got :
  ring_ok rb -> write_end rb = Some true -> content rb <> [] ->
  let n := length (content rb) in
  exists rb', read_iter read_end_with_buffer rb n got = Ok (rb', 0%nat, got ++ content rb, Again) /\
    read_iter read_end_with_buffer rb' 0 (got ++ content rb) = Ok (rb', 0%nat, got ++ content rb, Yield).
Proof.
  intros R E Hne n. destruct (read_iter_spec rb n got true R E) as (rb' & Hi & R' & Ec & E').
  rewrite decide_False, decide_False in Hi by (done || (unfold n; lia)).
  unfold n in *. rewrite Nat.sub_diag, take_ge in Hi by lia. rewrite drop_ge in Ec by lia. exists rb'. split; [exact Hi|].
  destruct (read_iter_spec rb' 0 (got ++ content rb) true R' E') as (rb2 & Hi2 & _). unfold read_iter in *.
  cbn [readable read_end_with_buffer rassert mbind res_bind] in *.
  pose proof (length_content rb' R') as Hl. rewrite Ec in Hl. simpl in Hl.
  rewrite <- Hl. cbn. unfold all_write_ends_closed. by rewrite E'.
Qed.

Lemma pipe_exact_read_waits_witness : exists rb rb',
  write_byte make_pipe.2 65 = Ok rb /\ read_iter read_end_with_buffer rb 1 [] = Ok (rb', 0%nat, [65], Again) /\
  read_iter read_end_with_buffer rb' 0 [65] = Ok (rb', 0%nat, [65], Yield).
Proof.
  destruct (write_byte_spec make_pipe.2 65 (so_ring _ sys_ok_init)) as (rb & E & R & Ec & _ & Ew); [done|].
  destruct (pipe_exact_read_waits rb [] R) as (rb' & H1 & H2); [by rewrite Ew|by rewrite Ec|].
  rewrite Ec in H1, H2. exists rb, rb'. split_and!; [exact E|exact H1|exact H2].
Defined.
