(* ===== verification/Sched.v ===== *)
(** The scheduler (os/src/task/schedule.rs, os/src/task/manager.rs), with the
    states of tasks (os/src/task/structs.rs) and the current task of the one
    CPU (os/src/task/percpu.rs).

    An [Arc<Task>] is the pair of its process id and task id: process ids and
    the task ids of a process are never reused.  Code between two context
    switches runs without interruption, since interrupts are masked while the
    kernel works for a task; a context switch is the change of [current]. *)
From stdpp Require Import relations.
From S2P Require Import Prelude State.

Inductive TaskState := Ready | Running | Zombie | Blocking.

#[export] Instance TaskState_eq_dec : EqDecision TaskState.
Proof. solve_decision. Defined.

(** [state as u8] and [From<u8> for TaskState]. *)
Definition u8_of_state (s : TaskState) : Z :=
  match s with Ready => 1 | Running => 2 | Zombie => 3 | Blocking => 4 end.
Definition state_of_u8 (z : Z) : res TaskState :=
  if z =? 1 then Ok Ready else if z =? 2 then Ok Running
  else if z =? 3 then Ok Zombie else if z =? 4 then Ok Blocking else Err Panic.

Abbreviation TaskRef := (Z * Z)%type.

(** [PerCpu::idle_task] and the root task. *)
Definition idle_task : TaskRef := (0, 0).
Definition root_task : TaskRef := (1, 0).

(** States are stored as the bytes of [AtomicU8]. *)
Record Sched := mkSched {
  states : gmap TaskRef Z;
  ready_queue : list TaskRef;
  current : TaskRef;
}.

(** [Task::state] and [Task::set_state]. *)
Definition task_state (t : TaskRef) : st Sched TaskState := fun s =>
  match states s !! t with
  | Some z => st ← state_of_u8 z; Ok (st, s)
  | None => Err Undefined
  end.
Definition set_state (t : TaskRef) (x : TaskState) : st Sched unit := fun s =>
  match states s !! t with
  | Some _ => Ok (tt, mkSched (<[t := u8_of_state x]> (states s)) (ready_queue s) (current s))
  | None => Err Undefined
  end.

(** ** [SimpleScheduler] *)

Definition add_ready_task (t : TaskRef) : st Sched unit := fun s =>
  Ok (tt, mkSched (states s) (ready_queue s ++ [t]) (current s)).

(** Tasks that are no longer ready are skipped. *)
Fixpoint pick_from (sts : gmap TaskRef Z) (q : list TaskRef) : res (option TaskRef * list TaskRef) :=
  match q with
  | [] => Ok (None, [])
  | t :: q =>
      match sts !! t with
      | None => Err Undefined
      | Some z =>
          match state_of_u8 z with
          | Ok Ready => Ok (Some t, q)
          | Ok Running => Err Panic
          | Ok Zombie => pick_from sts q
          | Ok Blocking => pick_from sts q
          | Err e => Err e
          end
      end
  end.
Definition pick_next_task : st Sched (option TaskRef) := fun s =>
  match pick_from (states s) (ready_queue s) with
  | Ok (o, q) => Ok (o, mkSched (states s) q (current s))
  | Err e => Err e
  end.

Definition block_task (t : TaskRef) : st Sched unit := set_state t Blocking.

(** ** [TaskManager] *)

Definition spawn (t : TaskRef) : st Sched unit :=
  st ← task_state t;
  _ ← slift (rassert (bool_decide (st = Ready)));
  add_ready_task t.

(** [PerCpu::set_current_task]. *)
Definition set_current_task (t : TaskRef) : st Sched unit := fun s =>
  Ok (tt, mkSched (states s) (ready_queue s) t).

Definition switch_to (curr_task next_task : TaskRef) : st Sched unit :=
  _ ← set_state next_task Running;
  if decide (curr_task = next_task) then mret tt else set_current_task next_task.

Definition resched (curr_task : TaskRef) : st Sched unit :=
  st ← task_state curr_task;
  _ ← slift (rassert (negb (bool_decide (st = Running))));
  o ← pick_next_task;
  match o with
  | Some next_task => switch_to curr_task next_task
  | None => switch_to curr_task idle_task
  end.

Definition is_idle (t : TaskRef) : bool := bool_decide (t = idle_task).

Definition yield_current (curr_task : TaskRef) : st Sched unit :=
  st ← task_state curr_task;
  _ ← slift (rassert (bool_decide (st = Running)));
  _ ← set_state curr_task Ready;
  _ ← (if negb (is_idle curr_task) then add_ready_task curr_task else mret tt);
  resched curr_task.

Definition block_current (curr_task : TaskRef) : st Sched unit :=
  _ ← set_state curr_task Blocking;
  resched curr_task.

Definition exit_current (curr_task : TaskRef) : st Sched unit :=
  st ← task_state curr_task;
  _ ← slift (rassert (bool_decide (st = Running) || bool_decide (st = Zombie)));
  _ ← set_state curr_task Zombie;
  resched curr_task.

(** [CurrentTask::yield_now], [block_and_yield] and the end of [exit];
    [Task::resume]. *)
Definition yield_now : st Sched unit := s ← sget; yield_current (current s).
Definition block_and_yield : st Sched unit := s ← sget; block_current (current s).
Definition exit_now : st Sched unit :=
  s ← sget;
  _ ← set_state (current s) Zombie;
  exit_current (current s).
Definition resume (t : TaskRef) : st Sched unit :=
  st ← task_state t;
  _ ← slift (rassert (bool_decide (st = Blocking)));
  _ ← set_state t Ready;
  spawn t.

(** ** The invariant *)

Definition in_state (s : Sched) (t : TaskRef) (x : TaskState) : Prop :=
  states s !! t = Some (u8_of_state x).

Record sched_ok (s : Sched) : Prop := {
  sk_bytes t z : states s !! t = Some z -> exists x, z = u8_of_state x;
  sk_current : in_state s (current s) Running;
  sk_running t : in_state s t Running -> t = current s;
  sk_idle : is_Some (states s !! idle_task);
  sk_idle_state : in_state s idle_task Ready \/ in_state s idle_task Running;
  sk_queue t : t ∈ ready_queue s <-> in_state s t Ready /\ t <> idle_task;
  sk_nodup : NoDup (ready_queue s);
}.

Lemma state_of_u8_of x : state_of_u8 (u8_of_state x) = Ok x.
Proof. by destruct x. Qed.

Lemma u8_of_state_inj x y : u8_of_state x = u8_of_state y -> x = y.
Proof. by destruct x, y. Qed.

Lemma in_state_fun s t x y : in_state s t x -> in_state s t y -> x = y.
Proof. unfold in_state. intros H1 H2. apply u8_of_state_inj. congruence. Qed.

Lemma task_state_swp s t x (Q : TaskState -> Sched -> Prop) : in_state s t x -> Q x s -> swp (task_state t) s Q.
Proof. intros H HQ. exists x, s. unfold task_state. rewrite H, state_of_u8_of. done. Qed.

Lemma set_state_swp s t x (Q : unit -> Sched -> Prop) : is_Some (states s !! t) ->
  Q tt (mkSched (<[t := u8_of_state x]> (states s)) (ready_queue s) (current s)) -> swp (set_state t x) s Q.
Proof. intros [z Hz] HQ. exists tt. eexists. unfold set_state. by rewrite Hz. Qed.

Lemma in_state_some s t x : in_state s t x -> is_Some (states s !! t).
Proof. intros H. by exists (u8_of_state x). Qed.

(** A state in which the current task has just left the processor: what
    [resched] starts from. *)
Record leaving (s : Sched) : Prop := {
  lv_bytes t z : states s !! t = Some z -> exists x, z = u8_of_state x;
  lv_running t : ~ in_state s t Running;
  lv_some : is_Some (states s !! current s);
  lv_idle : in_state s idle_task Ready;
  lv_queue t : t ∈ ready_queue s <-> in_state s t Ready /\ t <> idle_task;
  lv_nodup : NoDup (ready_queue s);
}.

(** The task that runs next, and the state when it does. *)
Definition next_of (q : list TaskRef) : TaskRef := default idle_task (list.head q).
Definition switched (s : Sched) : Sched :=
  mkSched (<[next_of (ready_queue s) := u8_of_state Running]> (states s))
    (list.tail (ready_queue s)) (next_of (ready_queue s)).

Lemma leaving_switched s : leaving s -> sched_ok (switched s).
Proof.
  intros [B R S I Q N]. assert (is_Some (states s !! next_of (ready_queue s)) /\
    forall t, t ∈ list.tail (ready_queue s) <-> t ∈ ready_queue s /\ t <> next_of (ready_queue s)) as [Hs Ht].
  { unfold next_of. destruct (ready_queue s) as [|t q]; cbn [list.head list.tail default].
    - split; [by eexists|]. intros t. split; [by intros ?%elem_of_nil|by intros [?%elem_of_nil _]].
    - apply NoDup_cons in N as [Hn _]. split; [destruct (proj1 (Q t)) as [Ht _]; [by apply elem_of_cons; left|by eexists]|].
      intros u. rewrite elem_of_cons. split; [intros Hu; split; [by right|intros ->; done]|]. intros [[->|?] ?]; done. }
  unfold switched. set (n := next_of _) in *. split; unfold in_state; cbn [states ready_queue current].
  - intros t z [[_ <-]|[_ Hz]]%lookup_insert_Some; eauto.
  - by rewrite lookup_insert_eq.
  - intros t [[-> _]|[_ Hz]]%lookup_insert_Some; [done|]. by destruct (R t).
  - rewrite lookup_insert_is_Some'. right. by eexists.
  - destruct (decide (n = idle_task)) as [->|]; [right; by rewrite lookup_insert_eq|left; by rewrite lookup_insert_ne].
  - intros t. rewrite Ht, Q. unfold in_state. split.
    + intros [[? ?] ?]. by rewrite lookup_insert_ne.
    + intros [[[_ E]|[? ?]]%lookup_insert_Some ?]; [by apply u8_of_state_inj in E|done].
  - destruct (ready_queue s); [done|]. by apply NoDup_cons in N as [_ ?].
Qed.

Lemma resched_spec s : leaving s -> swp (resched (current s)) s (fun _ s' => s' = switched s).
Proof.
  intros L. pose proof L as [B R [z Hz] I Q N]. destruct (B _ _ Hz) as [x ->].
  apply swp_bind. eapply task_state_swp; [exact Hz|].
  assert (x <> Running) as Hx by (intros ->; by apply (R (current s))).
  eapply swp_lift_bind; [by rewrite bool_decide_false|]. apply swp_bind.
  assert (pick_next_task s = Ok (list.head (ready_queue s), mkSched (states s) (list.tail (ready_queue s)) (current s))) as Hp.
  { unfold pick_next_task. destruct (ready_queue s) as [|t q] eqn:E; [done|]. cbn [pick_from].
    destruct (proj1 (Q t)) as [Ht _]; [apply elem_of_cons; by left|]. unfold in_state in Ht. by rewrite Ht. }
  eexists _, _. split; [exact Hp|]. unfold switched, next_of.
  assert (forall n q, is_Some (states s !! n) -> swp (switch_to (current s) n) (mkSched (states s) q (current s))
    (fun _ s' => s' = mkSched (<[n := u8_of_state Running]> (states s)) q n)) as Hsw.
  { intros n q Hn. apply swp_bind, set_state_swp; [done|]. case_decide as Ed; cbn [states ready_queue current].
    - apply swp_ret. by rewrite Ed.
    - by eexists tt, _. }
  destruct (ready_queue s) as [|t q] eqn:E; cbn [list.head list.tail default]; apply Hsw.
  - by eexists.
  - destruct (proj1 (Q t)) as [Ht _]; [apply elem_of_cons; by left|by eexists].
Qed.

(** ** The operations under the invariant *)

(** The state in which the current task has become [x] and has not been
    replaced yet. *)
Definition left_as (x : TaskState) (s : Sched) : Sched :=
  mkSched (<[current s := u8_of_state x]> (states s))
    (ready_queue s ++ (if decide (x = Ready /\ current s <> idle_task) then [current s] else [])) (current s).

Lemma leaving_left s x : sched_ok s -> x <> Running -> (current s = idle_task -> x = Ready) -> leaving (left_as x s).
Proof.
  intros [B C R I IS Q N] Hx Hi. unfold left_as. split; unfold in_state; cbn [states ready_queue current].
  - intros t z [[_ <-]|[_ Hz]]%lookup_insert_Some; eauto.
  - intros t [[_ E]|[Hne Hz]]%lookup_insert_Some; [by apply u8_of_state_inj in E|]. by apply Hne; symmetry; apply R.
  - rewrite lookup_insert_eq. by eexists.
  - destruct (decide (current s = idle_task)) as [E|E]; [rewrite E, lookup_insert_eq; by rewrite Hi|].
    rewrite lookup_insert_ne by done. destruct IS as [?|?%R]; [done|congruence].
  - assert (~ in_state s (current s) Ready) as Hc by (intros HR; pose proof (in_state_fun _ _ _ _ C HR); done).
    intros t. rewrite elem_of_app, Q. destruct (decide (t = current s)) as [->|Ht].
    + rewrite lookup_insert_eq. case_decide as D; [rewrite list_elem_of_singleton|rewrite elem_of_nil]; split.
      * intros _. destruct D as [-> ?]. done.
      * by right.
      * by intros [[? ?]|?].
      * intros [E ?]. destruct D. split; [apply u8_of_state_inj; congruence|done].
    + rewrite lookup_insert_ne by done. split; [|by left].
      intros [?|Hin]; [done|]. case_decide; [by apply list_elem_of_singleton in Hin|by apply elem_of_nil in Hin].
  - case_decide; [|by rewrite app_nil_r]. apply NoDup_app. split_and!; [done| |apply NoDup_singleton].
    intros t [Ht _]%Q ->%list_elem_of_singleton. by pose proof (in_state_fun _ _ _ _ C Ht).
Qed.

(** Giving up the processor as [x]. *)
Definition rescheduled (x : TaskState) (s : Sched) : Sched := switched (left_as x s).

Lemma rescheduled_ok s x : sched_ok s -> x <> Running -> (current s = idle_task -> x = Ready) ->
  sched_ok (rescheduled x s).
Proof. intros. by apply leaving_switched, leaving_left. Qed.

Lemma resched_left s x : sched_ok s -> x <> Running -> (current s = idle_task -> x = Ready) ->
  swp (resched (current s)) (left_as x s) (fun _ s' => s' = rescheduled x s).
Proof. intros. apply (resched_spec (left_as x s)). by apply leaving_left. Qed.

Lemma left_as_out x s : (x = Ready -> current s = idle_task) ->
  mkSched (<[current s := u8_of_state x]> (states s)) (ready_queue s) (current s) = left_as x s.
Proof. intros H. unfold left_as. rewrite decide_False by naive_solver. by rewrite app_nil_r. Qed.

Lemma yield_now_spec s : sched_ok s -> swp yield_now s (fun _ s' => s' = rescheduled Ready s).
Proof.
  intros Hs. pose proof (sk_current _ Hs) as Hc. apply swp_get_bind. unfold yield_current. apply swp_bind.
  eapply task_state_swp; [done|]. eapply swp_lift_bind; [done|]. apply swp_bind, set_state_swp; [by eexists|].
  apply swp_bind. assert (current s = idle_task -> Ready = Ready) as Hr by done. unfold is_idle. case_bool_decide as E; cbn [negb].
  - apply swp_ret. rewrite left_as_out by done. by apply resched_left.
  - eexists tt, _. split; [done|]. cbn [states ready_queue current].
    pose proof (resched_left s Ready Hs ltac:(done) Hr) as H. unfold left_as in H. by rewrite decide_True in H by done.
Qed.

Lemma block_and_yield_spec s : sched_ok s -> current s <> idle_task ->
  swp block_and_yield s (fun _ s' => s' = rescheduled Blocking s).
Proof.
  intros Hs Hi. apply swp_get_bind. unfold block_current. apply swp_bind, set_state_swp.
  - eapply in_state_some, sk_current, Hs.
  - rewrite left_as_out by done. by apply resched_left.
Qed.

(** The current task, marked a zombie. *)
Definition marked (s : Sched) : Sched :=
  mkSched (<[current s := u8_of_state Zombie]> (states s)) (ready_queue s) (current s).

Lemma exit_current_spec s : sched_ok s -> current s <> idle_task ->
  swp (exit_current (current s)) (marked s) (fun _ s' => s' = rescheduled Zombie s).
Proof.
  intros Hs Hi. unfold exit_current. apply swp_bind. eapply task_state_swp.
  { unfold in_state, marked. cbn [states]. apply lookup_insert_eq. }
  eapply swp_lift_bind; [done|]. apply swp_bind, set_state_swp; cbn [marked states ready_queue current].
  - rewrite lookup_insert_eq. by eexists.
  - rewrite insert_insert_eq, left_as_out by done. by apply resched_left.
Qed.

Lemma exit_now_spec s : sched_ok s -> current s <> idle_task ->
  swp exit_now s (fun _ s' => s' = rescheduled Zombie s).
Proof.
  intros Hs Hi. apply swp_get_bind. apply swp_bind, set_state_swp; [eapply in_state_some, sk_current, Hs|].
  by apply exit_current_spec.
Qed.

(** A task that is made ready. *)
Definition readied (t : TaskRef) (s : Sched) : Sched :=
  mkSched (<[t := u8_of_state Ready]> (states s)) (ready_queue s ++ [t]) (current s).

Lemma readied_ok s t : sched_ok s -> ~ in_state s t Ready -> t <> current s -> t <> idle_task -> sched_ok (readied t s).
Proof.
  intros [B C R I IS Q N] Hr Hc Hi. unfold readied. split; unfold in_state in *; cbn [states ready_queue current].
  - intros u z [[_ <-]|[_ Hz]]%lookup_insert_Some; eauto.
  - by rewrite lookup_insert_ne.
  - intros u [[_ E]|[_ Hz]]%lookup_insert_Some; [by apply u8_of_state_inj in E|]. by apply R.
  - by rewrite lookup_insert_ne.
  - by rewrite !lookup_insert_ne.
  - intros u. rewrite elem_of_app, list_elem_of_singleton, Q. destruct (decide (u = t)) as [->|Hu].
    + rewrite lookup_insert_eq. split; [by intros _|by right].
    + rewrite lookup_insert_ne by done. naive_solver.
  - apply NoDup_app. split_and!; [done| |apply NoDup_singleton]. by intros u [Hu _]%Q ->%list_elem_of_singleton.
Qed.

Lemma spawn_spec s t : in_state s t Ready ->
  swp (spawn t) s (fun _ s' => s' = mkSched (states s) (ready_queue s ++ [t]) (current s)).
Proof.
  intros Ht. apply swp_bind. eapply task_state_swp; [done|]. eapply swp_lift_bind; [done|]. by eexists tt, _.
Qed.

Lemma resume_spec s t : in_state s t Blocking -> swp (resume t) s (fun _ s' => s' = readied t s).
Proof.
  intros Ht. apply swp_bind. eapply task_state_swp; [done|]. eapply swp_lift_bind; [done|].
  apply swp_bind, set_state_swp; [by eexists|]. eapply swp_mono; [apply spawn_spec|by intros ? ? ->].
  unfold in_state. cbn [states]. apply lookup_insert_eq.
Qed.

Lemma blocked_other s t : sched_ok s -> in_state s t Blocking -> t <> current s /\ t <> idle_task /\ ~ in_state s t Ready.
Proof.
  intros Hs Ht. pose proof (sk_current _ Hs) as C. split_and!.
  - intros ->. by pose proof (in_state_fun _ _ _ _ Ht C).
  - intros ->. destruct (sk_idle_state _ Hs) as [E|E]; by pose proof (in_state_fun _ _ _ _ Ht E).
  - intros E. by pose proof (in_state_fun _ _ _ _ Ht E).
Qed.

Lemma resumed_ok s t : sched_ok s -> in_state s t Blocking -> sched_ok (readied t s).
Proof. intros Hs Ht. destruct (blocked_other _ _ Hs Ht) as (? & ? & ?). by apply readied_ok. Qed.

(** ** Runs of the scheduler *)

(** [Task::new_common]: a task starts in the state ready. *)
Definition new_task (t : TaskRef) : st Sched unit := fun s =>
  Ok (tt, mkSched (<[t := u8_of_state Ready]> (states s)) (ready_queue s) (current s)).

(** What kernel code does with the scheduler. *)
Inductive sched_op := OpYield | OpBlock | OpExit | OpResume (t : TaskRef) | OpSpawn (t : TaskRef).

Definition run_op (o : sched_op) : st Sched unit :=
  match o with
  | OpYield => yield_now
  | OpBlock => block_and_yield
  | OpExit => exit_now
  | OpResume t => resume t
  | OpSpawn t => _ ← new_task t; spawn t
  end.

(** The idle task only yields, a task that is resumed is blocked, and a task
    that is created is new. *)
Definition allowed (o : sched_op) (s : Sched) : Prop :=
  match o with
  | OpYield => True
  | OpBlock | OpExit => current s <> idle_task
  | OpResume t => in_state s t Blocking
  | OpSpawn t => states s !! t = None
  end.

(** The state each operation leads to. *)
Definition op_result (o : sched_op) (s : Sched) : Sched :=
  match o with
  | OpYield => rescheduled Ready s
  | OpBlock => rescheduled Blocking s
  | OpExit => rescheduled Zombie s
  | OpResume t | OpSpawn t => readied t s
  end.

Lemma run_op_spec o s : sched_ok s -> allowed o s -> run_op o s = Ok (tt, op_result o s) /\ sched_ok (op_result o s).
Proof.
  assert (forall (m : st Sched unit) s s', swp m s (fun _ s1 => s1 = s') -> m s = Ok (tt, s')) as Hm.
  { intros m s0 s' ([] & s1 & E & ->). done. }
  intros Hs Ho. destruct o as [| | |t|t]; cbn [run_op op_result allowed] in *.
  - split; [by apply Hm, yield_now_spec|by apply rescheduled_ok].
  - split; [by apply Hm, block_and_yield_spec|by apply rescheduled_ok].
  - split; [by apply Hm, exit_now_spec|by apply rescheduled_ok].
  - split; [by apply Hm, resume_spec|by apply resumed_ok].
  - pose proof (sk_current _ Hs) as C. unfold in_state in C. split.
    + apply Hm, swp_bind. eexists tt, _. split; [done|]. eapply swp_mono; [apply spawn_spec|by intros ? ? ->].
      unfold in_state. apply lookup_insert_eq.
    + apply readied_ok; unfold in_state; [done|rewrite Ho; done|intros ->; congruence|].
      intros ->. destruct (sk_idle _ Hs). congruence.
Qed.

Inductive sched_run : Sched -> list sched_op -> Sched -> Prop :=
  | run_nil s : sched_run s [] s
  | run_cons s o s' ops s'' : allowed o s -> run_op o s = Ok (tt, s') -> sched_run s' ops s'' ->
      sched_run s (o :: ops) s''.

Lemma run_app s ops s' ops' s'' : sched_run s ops s' -> sched_run s' ops' s'' -> sched_run s (ops ++ ops') s''.
Proof. induction 1; intros; [done|]. simpl. econstructor; eauto. Qed.

Lemma run_ok s ops s' : sched_run s ops s' -> sched_ok s -> sched_ok s'.
Proof.
  induction 1 as [|s o s' ops s'' Ha E Hr IH]; intros Hs; [done|]. apply IH.
  destruct (run_op_spec _ _ Hs Ha) as [E' H']. rewrite E in E'. by injection E' as ->.
Qed.

(** When the kernel starts: the idle task runs, nothing is ready
    ([PerCpu::new], [SimpleScheduler::new]). *)
Definition sched_init : Sched := mkSched {[idle_task := u8_of_state Running]} [] idle_task.

Lemma sched_init_ok : sched_ok sched_init.
Proof.
  split; unfold in_state, sched_init; cbn [states ready_queue current].
  - intros t z [_ <-]%lookup_singleton_Some. eauto.
  - apply lookup_singleton_eq.
  - by intros t [<- _]%lookup_singleton_Some.
  - rewrite lookup_singleton_eq. by eexists.
  - right. apply lookup_singleton_eq.
  - intros t. rewrite elem_of_nil. split; [done|]. by intros [[_ [=]]%lookup_singleton_Some _].
  - constructor.
Qed.


Definition switching (o : sched_op) : bool :=
  match o with OpYield | OpBlock | OpExit => true | _ => false end.

(** Each operation moves the tasks of the ready queue forward. *)
Lemma op_queue o s i t : ready_queue s !! i = Some t ->
  if switching o
  then match i with O => current (op_result o s) = t | S j => ready_queue (op_result o s) !! j = Some t end
  else ready_queue (op_result o s) !! i = Some t.
Proof.
  intros Ht. assert (forall x, match i with O => current (rescheduled x s) = t
    | S j => ready_queue (rescheduled x s) !! j = Some t end) as Hx.
  { intros x. unfold rescheduled, switched, left_as, next_of. cbn [ready_queue current states].
    destruct (ready_queue s) as [|u q]; [done|]. destruct i as [|i]; simpl in *; [by injection Ht|].
    by apply lookup_app_l_Some. }
  destruct o; cbn [switching op_result]; try apply Hx; by apply lookup_app_l_Some.
Qed.

Definition switches (ops : list sched_op) : nat := length (filter (fun o => switching o = true) ops).

(** C14: The scheduler is fair: a task at position [i] of the ready queue runs
    after at most [i + 1] context switches, whatever the tasks that run before
    it do and whichever tasks are resumed or created meanwhile. *)
Theorem scheduler_fair ops : forall s s' i t, sched_ok s -> sched_run s ops s' ->
  ready_queue s !! i = Some t -> (i < switches ops)%nat ->
  exists ops1 ops2 s1, ops = ops1 ++ ops2 /\ (switches ops1 <= S i)%nat /\
    sched_run s ops1 s1 /\ sched_run s1 ops2 s' /\ current s1 = t.
Proof.
  induction ops as [|o ops IH]; intros s s' i t Hs Hr Ht Hi; [by apply Nat.nlt_0_r in Hi|].
  inversion Hr as [|? ? s1 ? ? Ha E Hr1]; subst.
  destruct (run_op_spec o s Hs Ha) as [E1 Hs1]. rewrite E in E1. injection E1 as ->.
  pose proof (op_queue o s i t Ht) as Hq. unfold switches in *. rewrite filter_cons in Hi.
  destruct (switching o) eqn:So; [destruct i as [|i]|].
  - exists [o], ops, (op_result o s). rewrite filter_cons, So, decide_True by done. simpl.
    split_and!; [done|lia| |done|done]. econstructor; eauto. constructor.
  - rewrite decide_True in Hi by done. simpl in Hi. destruct (IH _ _ i t Hs1 Hr1 Hq ltac:(lia)) as (o1 & o2 & s2 & -> & Hn & ? & ? & ?).
    exists (o :: o1), o2, s2. rewrite filter_cons, So, decide_True by done. simpl.
    split_and!; [done|lia|by econstructor|done|done].
  - rewrite decide_False in Hi by done. destruct (IH _ _ i t Hs1 Hr1 Hq Hi) as (o1 & o2 & s2 & -> & Hn & ? & ? & ?).
    exists (o :: o1), o2, s2. rewrite filter_cons, So, decide_False by done.
    split_and!; [done|done|by econstructor|done|done].
Qed.

(** The root task only yields ([task::init]). *)
Definition root_yields (o : sched_op) (s : Sched) : Prop :=
  current s = root_task -> o <> OpBlock /\ o <> OpExit.
Inductive root_run : Sched -> list sched_op -> Sched -> Prop :=
  | rrun_nil s : root_run s [] s
  | rrun_cons s o s' ops s'' : allowed o s -> root_yields o s -> run_op o s = Ok (tt, s') -> root_run s' ops s'' ->
      root_run s (o :: ops) s''.

Definition root_live (s : Sched) : Prop := current s = root_task \/ root_task ∈ ready_queue s.

Lemma root_live_step o s : sched_ok s -> allowed o s -> root_yields o s -> root_live s ->
  root_live (op_result o s) /\ (switching o = true -> current (op_result o s) <> idle_task).
Proof.
  intros Hs Ha Hy Hl. unfold root_live in Hl.
  destruct o as [| | |t|t]; cbn [switching op_result]; unfold root_live, readied; cbn [current ready_queue].
  4,5: split; [|done]; destruct Hl; [by left|right; by apply elem_of_app; left].
  all: assert (forall x, (current s = root_task -> x = Ready) -> root_live (rescheduled x s) /\
    current (rescheduled x s) <> idle_task) as Hx; [|split; [|intros _]; apply Hx; intros E; try done; by destruct (Hy E)].
  all: intros x Hx; unfold root_live, rescheduled, switched, left_as, next_of; cbn [ready_queue current states];
    destruct (ready_queue s) as [|u q] eqn:Eq; simpl.
  1,3,5: destruct Hl as [E|?%elem_of_nil]; [|done]; rewrite decide_True by (rewrite E; auto); simpl; rewrite E; auto.
  all: split; [|destruct (proj1 (sk_queue _ Hs u)); [rewrite Eq; apply elem_of_cons; by left|done]].
  all: rewrite elem_of_cons in Hl; destruct Hl as [E|[E|E]]; [|by left|right; apply elem_of_app; by left].
  all: right; rewrite decide_True by (rewrite E; auto); rewrite E; apply elem_of_app; right; by apply list_elem_of_singleton.
Qed.

(** The state in which [run] gives up the processor: the root task and those
    of the first processes have been spawned. *)
Definition booted (first : list TaskRef) (s : Sched) : Prop :=
  sched_run sched_init (map OpSpawn (root_task :: first)) s.

Lemma booted_root first s : booted first s -> sched_ok s /\ root_live s.
Proof.
  intros H. split; [eapply run_ok; [done|apply sched_init_ok]|].
  assert (forall ops s0 s', sched_run s0 ops s' -> sched_ok s0 -> Forall (fun o => switching o = false) ops ->
    root_live s0 -> root_live s') as Hgen.
  { induction 1 as [|s0 o s' ops s'' Ha E Hr IH]; intros Hs Hf Hl; [done|]. apply Forall_cons in Hf as [Ho Hf].
    destruct (run_op_spec o s0 Hs Ha) as [E1 ?]. rewrite E in E1. injection E1 as ->. apply IH; [done..|].
    destruct o; try done; (destruct Hl; [by left|right; by apply elem_of_app; left]). }
  unfold booted in H. simpl in H. inversion H as [|? ? s1 ? ? Ha E Hr]; subst.
  destruct (run_op_spec _ _ sched_init_ok Ha) as [E1 Hs1]. rewrite E in E1. injection E1 as ->.
  eapply Hgen; [exact Hr|done| |].
  - apply Forall_fmap, Forall_true. done.
  - right. apply elem_of_app. right. by apply list_elem_of_singleton.
Qed.

(** After [run] has given up the processor for the first time the idle task
    never runs again, since the root task is always running or ready: control
    does not come back to [run], whose next statement is [unreachable!]. *)
Theorem idle_never_returns first s0 ops s : booted first s0 -> root_run s0 (OpYield :: ops) s ->
  current s <> idle_task.
Proof.
  intros Hb Hr. destruct (booted_root _ _ Hb) as [Hs Hl]. inversion Hr as [|? ? s1 ? ? Ha Hy E Hr1]; subst.
  destruct (run_op_spec _ _ Hs Ha) as [E1 Hs1]. rewrite E in E1. injection E1 as ->.
  destruct (root_live_step OpYield s0 Hs Ha Hy Hl) as [Hl1 Hi1]. specialize (Hi1 eq_refl).
  clear Hr Hb E Ha Hy Hs Hl. cbn [op_result] in *.
  generalize dependent (rescheduled Ready s0). clear s0.
  intros s1 Hr. induction Hr as [|s1 o s2 ops s3 Ha Hy E Hr IH]; intros Hs Hl Hi; [done|].
  destruct (run_op_spec _ _ Hs Ha) as [E1 Hs2]. rewrite E in E1. injection E1 as ->.
  destruct (root_live_step o s1 Hs Ha Hy Hl) as [Hl2 Hi2]. apply IH; [done..|].
  destruct (switching o) eqn:So; [by apply Hi2|]. by destruct o.
Qed.

(** ** Witnesses *)

Definition demo_ops : list sched_op :=
  [OpSpawn root_task; OpSpawn (2, 0); OpSpawn (3, 0); OpYield; OpYield; OpBlock; OpResume (2, 0)].
Definition demo_sched : Sched := fold_left (fun s o => op_result o s) demo_ops sched_init.

#[local] Ltac step_run c := eapply c; [vm_compute; first [exact I|congruence|intros; split; congruence]..|vm_compute; reflexivity|].

Lemma demo_run : sched_run sched_init demo_ops demo_sched.
Proof. unfold demo_ops. do 7 step_run run_cons. vm_compute. constructor. Qed.


Lemma scheduler_fair_witness : exists ops1 ops2 s1, [OpExit; OpYield] = ops1 ++ ops2 /\
  (switches ops1 <= 2)%nat /\ sched_run demo_sched ops1 s1 /\ current s1 = (2, 0).
Proof.
  destruct (scheduler_fair [OpExit; OpYield] demo_sched (op_result OpYield (op_result OpExit demo_sched)) 1 (2, 0))
    as (o1 & o2 & s1 & E & Hn & Hr & _ & Hc).
  - apply (run_ok sched_init demo_ops); [exact demo_run|exact sched_init_ok].
  - do 2 step_run run_cons. vm_compute. constructor.
  - vm_compute. reflexivity.
  - vm_compute. lia.
  - exists o1, o2, s1. auto.
Defined.

Lemma idle_never_returns_witness :
  let s := fold_left (fun s o => op_result o s) [OpSpawn root_task; OpSpawn (2, 0); OpYield; OpYield; OpExit] sched_init in
  current s = root_task /\ current s <> idle_task.
Proof.
  intros s. split; [vm_compute; reflexivity|].
  apply (idle_never_returns [(2, 0)] (fold_left (fun s o => op_result o s) [OpSpawn root_task; OpSpawn (2, 0)] sched_init) [OpYield; OpExit]).
  - unfold booted. simpl map. do 2 step_run run_cons. vm_compute. constructor.
  - do 3 step_run rrun_cons. vm_compute. constructor.
Defined.
