(* ===== verification/Sync.v ===== *)
(** Blocking synchronisation for user programs: mutexes, semaphores and
    condition variables (os/src/sync/user_mutex.rs, semaphore.rs, condvar.rs),
    sleeping (os/src/timer.rs) and their system calls (os/src/syscall/sync.rs),
    on top of the scheduler.

    A system call runs until it returns or gives up the processor.  What is left
    of a call that has given it up is a continuation [cont], which runs when the
    task is scheduled again: interrupts are masked in between, so a call up to
    its switch, and a continuation up to its own, are single steps. *)
From stdpp Require Import relations.
From S2P Require Import Prelude State Sched.

(** ** Objects *)

Inductive UserMutex := MutexSpin (locked : bool) | MutexBlocking (locked : bool) (wait_queue : list TaskRef).
Definition MutexSpin_new : UserMutex := MutexSpin false.
Definition MutexBlocking_new : UserMutex := MutexBlocking false [].

Record Semaphore := mkSem { count : Z; sem_queue : list TaskRef }.
Definition Semaphore_new (res_count : Z) : Semaphore := mkSem (as_isize res_count) [].

Abbreviation Condvar := (list TaskRef).
Definition Condvar_new : Condvar := [].

(** The objects of a process; a process starts with none. *)
Record SyncTables := mkTables {
  mutex_list : list (option UserMutex);
  semaphore_list : list (option Semaphore);
  condvar_list : list (option Condvar);
}.
Definition no_tables : SyncTables := mkTables [] [] [].

Record TimerCondVar := mkTimer { expire_ms : Z; timer_task : TaskRef }.

(** [Ord for TimerCondVar]: timers are ordered by [-(expire_ms as isize)]. *)
Definition timer_key (t : TimerCondVar) : Z := as_isize (- as_isize (expire_ms t)).

(** What is left of a call that has given up the processor: to return 0, to
    return 0 as the new owner of a blocking mutex, or to lock a mutex. *)
Inductive cont := KReturn | KAcquired (mutex_id : Z) | KLock (mutex_id : Z).

Record Kernel := mkKernel {
  sched : Sched;
  tables : gmap Z SyncTables;
  timers : list TimerCondVar;
  conts : gmap TaskRef cont;
  cntpct : Z;
  clock_freq : Z;
}.

Definition cur (k : Kernel) : TaskRef := current (sched k).
Definition tables_of (k : Kernel) (pid : Z) : SyncTables := default no_tables (tables k !! pid).

Definition with_sched (k : Kernel) (s : Sched) : Kernel :=
  mkKernel s (tables k) (timers k) (conts k) (cntpct k) (clock_freq k).
Definition with_tables (k : Kernel) (ts : gmap Z SyncTables) : Kernel :=
  mkKernel (sched k) ts (timers k) (conts k) (cntpct k) (clock_freq k).
Definition with_timers (k : Kernel) (ts : list TimerCondVar) : Kernel :=
  mkKernel (sched k) (tables k) ts (conts k) (cntpct k) (clock_freq k).
Definition with_conts (k : Kernel) (cs : gmap TaskRef cont) : Kernel :=
  mkKernel (sched k) (tables k) (timers k) cs (cntpct k) (clock_freq k).

(** Scheduler code run on the kernel's state. *)
Definition on_sched {A} (m : st Sched A) : st Kernel A := fun k =>
  match m (sched k) with Ok (a, s) => Ok (a, with_sched k s) | Err e => Err e end.

(** The objects of the current process: [list[id].as_ref().unwrap()], and the
    object in place with its new value. *)
Definition get_mutex (id : Z) : st Kernel UserMutex :=
  k ← sget; slift (o ← vget (mutex_list (tables_of k (cur k).1)) id; unwrap o).
Definition get_sem (id : Z) : st Kernel Semaphore :=
  k ← sget; slift (o ← vget (semaphore_list (tables_of k (cur k).1)) id; unwrap o).
Definition get_condvar (id : Z) : st Kernel Condvar :=
  k ← sget; slift (o ← vget (condvar_list (tables_of k (cur k).1)) id; unwrap o).

Definition set_mutexes (l : list (option UserMutex)) : st Kernel unit := fun k =>
  let t := tables_of k (cur k).1 in
  Ok (tt, with_tables k (<[(cur k).1 := mkTables l (semaphore_list t) (condvar_list t)]> (tables k))).
Definition set_sems (l : list (option Semaphore)) : st Kernel unit := fun k =>
  let t := tables_of k (cur k).1 in
  Ok (tt, with_tables k (<[(cur k).1 := mkTables (mutex_list t) l (condvar_list t)]> (tables k))).
Definition set_condvars (l : list (option Condvar)) : st Kernel unit := fun k =>
  let t := tables_of k (cur k).1 in
  Ok (tt, with_tables k (<[(cur k).1 := mkTables (mutex_list t) (semaphore_list t) l]> (tables k))).

Definition put_mutex (id : Z) (m : UserMutex) : st Kernel unit :=
  k ← sget; set_mutexes (<[Z.to_nat id := Some m]> (mutex_list (tables_of k (cur k).1))).
Definition put_sem (id : Z) (m : Semaphore) : st Kernel unit :=
  k ← sget; set_sems (<[Z.to_nat id := Some m]> (semaphore_list (tables_of k (cur k).1))).
Definition put_condvar (id : Z) (m : Condvar) : st Kernel unit :=
  k ← sget; set_condvars (<[Z.to_nat id := Some m]> (condvar_list (tables_of k (cur k).1))).

(** ** Operations: [None] when the operation returns, the continuation when it
    has given up the processor *)

Definition MutexSpin_lock (id : Z) (locked : bool) : st Kernel (option cont) :=
  if locked then _ ← on_sched yield_now; mret (Some (KLock id))
  else _ ← put_mutex id (MutexSpin true); mret None.
Definition MutexSpin_unlock (id : Z) : st Kernel unit := put_mutex id (MutexSpin false).

Definition MutexBlocking_lock (id : Z) (locked : bool) (wait_queue : list TaskRef) : st Kernel (option cont) :=
  if locked then
    k ← sget;
    _ ← put_mutex id (MutexBlocking true (wait_queue ++ [cur k]));
    _ ← on_sched block_and_yield;
    mret (Some (KAcquired id))
  else _ ← put_mutex id (MutexBlocking true wait_queue); mret None.
Definition MutexBlocking_unlock (id : Z) (locked : bool) (wait_queue : list TaskRef) : st Kernel unit :=
  _ ← slift (rassert locked);
  match wait_queue with
  | waking_task :: q => _ ← put_mutex id (MutexBlocking locked q); on_sched (resume waking_task)
  | [] => put_mutex id (MutexBlocking false [])
  end.

(** The two implementations of the trait. *)
Definition lock (id : Z) : st Kernel (option cont) :=
  m ← get_mutex id;
  match m with
  | MutexSpin locked => MutexSpin_lock id locked
  | MutexBlocking locked q => MutexBlocking_lock id locked q
  end.
Definition unlock (id : Z) : st Kernel unit :=
  m ← get_mutex id;
  match m with
  | MutexSpin _ => MutexSpin_unlock id
  | MutexBlocking locked q => MutexBlocking_unlock id locked q
  end.

Definition up (id : Z) : st Kernel unit :=
  m ← get_sem id;
  let c := as_isize (count m + 1) in
  if c <=? 0 then
    match sem_queue m with
    | task :: q => _ ← put_sem id (mkSem c q); on_sched (resume task)
    | [] => put_sem id (mkSem c [])
    end
  else put_sem id (mkSem c (sem_queue m)).

Definition down (id : Z) : st Kernel (option cont) :=
  m ← get_sem id;
  let c := as_isize (count m - 1) in
  k ← sget;
  if c <? 0 then
    _ ← put_sem id (mkSem c (sem_queue m ++ [cur k]));
    _ ← on_sched block_and_yield;
    mret (Some KReturn)
  else _ ← put_sem id (mkSem c (sem_queue m)); mret None.

Definition signal (id : Z) : st Kernel unit :=
  q ← get_condvar id;
  match q with
  | task :: q => _ ← put_condvar id q; on_sched (resume task)
  | [] => mret tt
  end.

Definition wait (id mutex_id : Z) : st Kernel (option cont) :=
  _ ← unlock mutex_id;
  q ← get_condvar id;
  k ← sget;
  _ ← put_condvar id (q ++ [cur k]);
  _ ← on_sched block_and_yield;
  mret (Some (KLock mutex_id)).

(** ** Timers *)

Definition get_time_ms (k : Kernel) : Z := u64 (cntpct k * 1000) `div` clock_freq k.

Definition add_timer (expire_ms : Z) (task : TaskRef) : st Kernel unit := fun k =>
  Ok (tt, with_timers k (timers k ++ [mkTimer expire_ms task])).

(** Dropping the timers of a task. *)
Definition remove_timer (task : TaskRef) : st Kernel unit := fun k =>
  Ok (tt, with_timers k (filter (fun t => task <> timer_task t) (timers k))).

(** [BinaryHeap]: a bag of timers whose [peek] is one of the greatest.  Which
    one, among equals, is left open. *)
Class BinaryHeap := {
  peek : list TimerCondVar -> option nat;
  peek_None l : peek l = None -> l = [];
  peek_Some l i : peek l = Some i -> exists t, l !! i = Some t /\
    forall t', t' ∈ l -> timer_key t' <= timer_key t;
}.

Section kernel.
Context {heap : BinaryHeap}.

Fixpoint check_timers (fuel : nat) (current_ms : Z) : st Kernel unit :=
  match fuel with
  | O => slift (Err NoFuel)
  | S fuel =>
      k ← sget;
      match peek (timers k) with
      | None => mret tt
      | Some i =>
          t ← slift (unwrap (timers k !! i));
          if expire_ms t <=? current_ms then
            _ ← on_sched (resume (timer_task t));
            k ← sget;
            _ ← sput (with_timers k (delete i (timers k)));
            check_timers fuel current_ms
          else mret tt
      end
  end.
Definition check_timer : st Kernel unit :=
  k ← sget; check_timers (S (length (timers k))) (get_time_ms k).

(** ** System calls *)

Definition outcome : Type := Z + cont.

(** The end of a call that returns 0. *)
Definition ret0 (m : st Kernel (option cont)) : st Kernel outcome :=
  o ← m; mret (match o with Some c => inr c | None => inl 0 end).
Definition ret0' (m : st Kernel unit) : st Kernel outcome := _ ← m; mret (inl 0).

Definition sys_sleep (ms : Z) : st Kernel outcome :=
  k ← sget;
  _ ← add_timer (u64 (get_time_ms k + ms)) (cur k);
  _ ← on_sched block_and_yield;
  mret (inr KReturn).

(** The first free slot of a table, or a new one. *)
Definition place {A} (l : list (option A)) (x : A) : Z * list (option A) :=
  match find_index (fun o => match o with None => true | Some _ => false end) l with
  | Some (id, _) => (Z.of_nat id, <[id := Some x]> l)
  | None => (Z.of_nat (length l), l ++ [Some x])
  end.

Definition sys_mutex_create (blocking : bool) : st Kernel outcome :=
  k ← sget;
  let '(id, l) := place (mutex_list (tables_of k (cur k).1)) (if blocking then MutexBlocking_new else MutexSpin_new) in
  _ ← set_mutexes l;
  mret (inl id).
Definition sys_mutex_lock (mutex_id : Z) : st Kernel outcome := ret0 (lock mutex_id).
Definition sys_mutex_unlock (mutex_id : Z) : st Kernel outcome := ret0' (unlock mutex_id).

Definition sys_semaphore_create (res_count : Z) : st Kernel outcome :=
  k ← sget;
  let '(id, l) := place (semaphore_list (tables_of k (cur k).1)) (Semaphore_new res_count) in
  _ ← set_sems l;
  mret (inl id).
Definition sys_semaphore_up (sem_id : Z) : st Kernel outcome := ret0' (up sem_id).
Definition sys_semaphore_down (sem_id : Z) : st Kernel outcome := ret0 (down sem_id).

Definition sys_condvar_create : st Kernel outcome :=
  k ← sget;
  let '(id, l) := place (condvar_list (tables_of k (cur k).1)) Condvar_new in
  _ ← set_condvars l;
  mret (inl id).
Definition sys_condvar_signal (condvar_id : Z) : st Kernel outcome := ret0' (signal condvar_id).
Definition sys_condvar_wait (condvar_id mutex_id : Z) : st Kernel outcome :=
  _ ← get_condvar condvar_id;
  _ ← get_mutex mutex_id;
  ret0 (wait condvar_id mutex_id).

Inductive sync_call :=
  | SysSleep (ms : Z)
  | SysMutexCreate (blocking : bool) | SysMutexLock (id : Z) | SysMutexUnlock (id : Z)
  | SysSemCreate (res_count : Z) | SysSemUp (id : Z) | SysSemDown (id : Z)
  | SysCondCreate | SysCondSignal (id : Z) | SysCondWait (id mutex_id : Z).

Definition run_call (c : sync_call) : st Kernel outcome :=
  match c with
  | SysSleep ms => sys_sleep ms
  | SysMutexCreate b => sys_mutex_create b
  | SysMutexLock id => sys_mutex_lock id
  | SysMutexUnlock id => sys_mutex_unlock id
  | SysSemCreate n => sys_semaphore_create n
  | SysSemUp id => sys_semaphore_up id
  | SysSemDown id => sys_semaphore_down id
  | SysCondCreate => sys_condvar_create
  | SysCondSignal id => sys_condvar_signal id
  | SysCondWait id mutex_id => sys_condvar_wait id mutex_id
  end.

(** ** The system: tasks making calls, and timer interrupts *)

(** What happens to mutex ownership: a task comes back from [lock], or calls
    [unlock].  A mutex is named by its process and its place in the table. *)
Inductive mutex_event := Acquire (t : TaskRef) (id : Z) | Release (t : TaskRef) (id : Z).

(** Keeping what is left of the call of [t]. *)
Definition park (t : TaskRef) (o : outcome) : st Kernel unit := fun k =>
  Ok (tt, match o with inl _ => k | inr c => with_conts k (<[t := c]> (conts k)) end).

(** Running what is left of the call of the current task. *)
Definition run_cont (c : cont) : st Kernel outcome :=
  match c with
  | KReturn => mret (inl 0)
  | KAcquired _ => mret (inl 0)
  | KLock id => ret0 (lock id)
  end.

Inductive event :=
  | ECall (c : sync_call)   (* the current task, in user mode, makes a call *)
  | EContinue               (* it continues the call it was in *)
  | ETimer (now : Z)        (* a timer interrupt in user mode, at counter value [now] *)
  | ESched (o : sched_op)   (* a task is created, or the current one exits or yields *).

Definition finished (o : outcome) : bool := match o with inl _ => true | inr _ => false end.

Definition call_events (t : TaskRef) (c : sync_call) (o : outcome) : list mutex_event :=
  match c with
  | SysMutexLock id => if finished o then [Acquire t id] else []
  | SysMutexUnlock id => [Release t id]
  | SysCondWait _ id => [Release t id]
  | _ => []
  end.
Definition cont_events (t : TaskRef) (c : cont) (o : outcome) : list mutex_event :=
  match c with
  | KReturn => []
  | KAcquired id => [Acquire t id]
  | KLock id => if finished o then [Acquire t id] else []
  end.

Definition handle_irq : st Kernel unit := _ ← check_timer; on_sched yield_now.

Definition run_event (e : event) : st Kernel (list mutex_event) :=
  k ← sget;
  let t := cur k in
  match e with
  | ECall c => o ← run_call c; _ ← park t o; mret (call_events t c o)
  | EContinue =>
      c ← slift (unwrap (conts k !! t));
      _ ← sput (with_conts k (delete t (conts k)));
      o ← run_cont c;
      _ ← park t o;
      mret (cont_events t c o)
  | ETimer now =>
      _ ← sput (mkKernel (sched k) (tables k) (timers k) (conts k) now (clock_freq k));
      _ ← handle_irq; mret []
  | ESched o => _ ← on_sched (run_op o); mret []
  end.
End kernel.
