(* ===== verification/SyncInv.v ===== *)
(** Correctness of blocking synchronisation (model in [Sync]): every blocked
    task waits in exactly one queue, no call panics when its arguments name
    objects of the process, mutexes exclude, semaphores count, timers wake. *)
From stdpp Require Import relations.
From S2P Require Import Prelude State Sched Sync.

(** ** Where tasks wait *)

Inductive spot := AtMutex (pid : Z) (id : nat) | AtSem (pid : Z) (id : nat) | AtCond (pid : Z) (id : nat) | AtTimer.

#[export] Instance spot_eq_dec : EqDecision spot.
Proof. solve_decision. Defined.

Definition mutex_queue (m : UserMutex) : list TaskRef :=
  match m with MutexSpin _ => [] | MutexBlocking _ q => q end.

(** The objects of a process, by their ids. *)
Definition mutex_at (k : Kernel) (pid : Z) (id : nat) : option UserMutex := mjoin (mutex_list (tables_of k pid) !! id).
Definition sem_at (k : Kernel) (pid : Z) (id : nat) : option Semaphore := mjoin (semaphore_list (tables_of k pid) !! id).
Definition cond_at (k : Kernel) (pid : Z) (id : nat) : option Condvar := mjoin (condvar_list (tables_of k pid) !! id).

Definition queue_at (k : Kernel) (p : spot) : list TaskRef :=
  match p with
  | AtMutex pid id => from_option mutex_queue [] (mutex_at k pid id)
  | AtSem pid id => from_option sem_queue [] (sem_at k pid id)
  | AtCond pid id => default [] (cond_at k pid id)
  | AtTimer => map timer_task (timers k)
  end.

(** A task waits in at most one place, once, and the tasks that wait are the
    blocked ones. *)
Record waits_ok (s : Sched) (Q : spot -> list TaskRef) : Prop := {
  wo_sched : sched_ok s;
  wo_nodup p : NoDup (Q p);
  wo_one p p' t : t ∈ Q p -> t ∈ Q p' -> p = p';
  wo_blocked t : (exists p, t ∈ Q p) <-> in_state s t Blocking;
}.

Lemma blocking_rescheduled s x t : sched_ok s -> x <> Running -> (current s = idle_task -> x = Ready) ->
  in_state (rescheduled x s) t Blocking <-> if decide (t = current s) then x = Blocking else in_state s t Blocking.
Proof.
  intros Hs Hx Hi. pose proof (leaving_left s x Hs Hx Hi) as L. unfold rescheduled, switched.
  set (l := left_as x s) in *. assert (in_state l (next_of (ready_queue l)) Ready) as Hn.
  { unfold next_of. destruct (ready_queue l) as [|u q] eqn:E; cbn [list.head default]; [apply (lv_idle _ L)|].
    apply (lv_queue _ L). rewrite E. apply elem_of_cons. by left. }
  assert (in_state l t Blocking <-> if decide (t = current s) then x = Blocking else in_state s t Blocking) as <-.
  { unfold l, left_as, in_state. cbn [states]. case_decide as E.
    - rewrite E, lookup_insert_eq. split; [intros H; apply u8_of_state_inj; congruence|by intros ->].
    - by rewrite lookup_insert_ne. }
  unfold in_state at 1. cbn [states]. destruct (decide (t = next_of (ready_queue l))) as [->|E].
  - rewrite lookup_insert_eq. split; [done|]. intros H. by pose proof (in_state_fun _ _ _ _ Hn H).
  - by rewrite lookup_insert_ne.
Qed.

Lemma blocking_readied s u t : in_state (readied u s) t Blocking <-> t <> u /\ in_state s t Blocking.
Proof.
  unfold readied, in_state. cbn [states]. destruct (decide (t = u)) as [->|E].
  - rewrite lookup_insert_eq. split; [done|by intros []].
  - rewrite lookup_insert_ne by done. naive_solver.
Qed.

Lemma current_not_blocked s : sched_ok s -> ~ in_state s (current s) Blocking.
Proof. intros Hs H. by pose proof (in_state_fun _ _ _ _ (sk_current _ Hs) H). Qed.

Lemma waits_push s Q Q' p : waits_ok s Q -> current s <> idle_task ->
  Q' p = Q p ++ [current s] -> (forall p', p' <> p -> Q' p' = Q p') -> waits_ok (rescheduled Blocking s) Q'.
Proof.
  intros [Hs Hn H1 Hb] Hi Ep Eo. pose proof (current_not_blocked s Hs) as Hc.
  assert (forall p', current s ∉ Q p') as Hnew by (intros p' Hin; apply Hc, Hb; eauto).
  assert (forall p' t, t ∈ Q' p' <-> t ∈ Q p' \/ p' = p /\ t = current s) as HQ.
  { intros p' t. destruct (decide (p' = p)) as [->|E]; [|rewrite Eo by done; naive_solver].
    rewrite Ep, elem_of_app, list_elem_of_singleton. naive_solver. }
  split.
  - by apply rescheduled_ok.
  - intros p'. destruct (decide (p' = p)) as [->|E]; [|rewrite Eo by done; done]. rewrite Ep.
    apply NoDup_app. split_and!; [done| |apply NoDup_singleton]. by intros t ? ->%list_elem_of_singleton; destruct (Hnew p).
  - intros q q' t. rewrite !HQ. intros [?|[-> ->]] [?|[-> E]]; eauto.
    + subst. by destruct (Hnew q).
    + by destruct (Hnew q').
  - intros t. rewrite blocking_rescheduled by done. setoid_rewrite HQ. case_decide as E.
    + split; [done|]. intros _. exists p. by right.
    + rewrite <- Hb. naive_solver.
Qed.

Lemma waits_take s Q Q' p l1 t l2 : waits_ok s Q -> Q p = l1 ++ t :: l2 -> Q' p = l1 ++ l2 ->
  (forall p', p' <> p -> Q' p' = Q p') -> in_state s t Blocking /\ waits_ok (readied t s) Q'.
Proof.
  intros [Hs Hn H1 Hb] Ep Ep' Eo. assert (t ∈ Q p) as Ht by (rewrite Ep; apply elem_of_app; right; apply elem_of_cons; by left).
  assert (in_state s t Blocking) as Hbt by (apply Hb; eauto). split; [done|].
  pose proof (Hn p) as Hnp. rewrite Ep in Hnp. apply NoDup_app in Hnp as (Hn1 & Hd & [Ht2 Hn2]%NoDup_cons).
  assert (forall p' u, u ∈ Q' p' <-> u ∈ Q p' /\ u <> t) as HQ.
  { intros p' u. destruct (decide (p' = p)) as [->|E].
    - rewrite Ep', Ep, !elem_of_app, elem_of_cons. split; [intros [Hu|Hu]; (split; [auto|intros ->])|naive_solver].
      + by apply (Hd t Hu), elem_of_cons; left.
      + done.
    - rewrite Eo by done. split; [|by intros []]. intros Hu. split; [done|]. intros ->. by apply E, (H1 _ _ t). }
  split.
  - by apply resumed_ok.
  - intros p'. destruct (decide (p' = p)) as [->|E]; [|rewrite Eo by done; done]. rewrite Ep'. apply NoDup_app.
    split_and!; [done| |done]. intros u Hu Hu2. apply (Hd u Hu), elem_of_cons. by right.
  - intros q q' u. rewrite !HQ. intros [? _] [? _]. eauto.
  - intros u. rewrite blocking_readied, <- Hb. setoid_rewrite HQ. naive_solver.
Qed.

Lemma waits_same s Q Q' : waits_ok s Q -> (forall p, Q' p = Q p) -> waits_ok s Q'.
Proof.
  intros [Hs Hn H1 Hb] E. split; [done|intros; by rewrite E|intros p p' t; rewrite !E; eauto|].
  intros t. rewrite <- Hb. by setoid_rewrite E.
Qed.

Lemma waits_leave s Q x : waits_ok s Q -> x <> Running -> x <> Blocking -> (current s = idle_task -> x = Ready) ->
  waits_ok (rescheduled x s) Q.
Proof.
  intros [Hs Hn H1 Hb] Hx Hx' Hi. split; [by apply rescheduled_ok|done|done|].
  intros t. rewrite Hb, blocking_rescheduled by done. case_decide as E; [|done]. subst.
  split; [intros ?; by destruct (current_not_blocked s)|done].
Qed.

Lemma waits_spawn s Q t : waits_ok s Q -> states s !! t = None -> waits_ok (readied t s) Q.
Proof.
  intros [Hs Hn H1 Hb] Ht. destruct (run_op_spec (OpSpawn t) s Hs Ht) as [_ Ho].
  split; [exact Ho|done|done|]. intros u. rewrite Hb, blocking_readied. unfold in_state. naive_solver.
Qed.

(** ** Reading and changing the objects of a process *)

Lemma on_sched_swp {A} (m : st Sched A) k (Q : A -> Kernel -> Prop) :
  swp m (sched k) (fun a s => Q a (with_sched k s)) -> swp (on_sched m) k Q.
Proof. intros (a & s & E & HQ). exists a, (with_sched k s). unfold on_sched. by rewrite E. Qed.

Lemma vget_slot {A} (l : list (option A)) i x : mjoin (l !! Z.to_nat i) = Some x ->
  (o ← vget l i; unwrap o) = Ok x.
Proof. intros H. unfold vget. destruct (l !! Z.to_nat i) as [[y|]|]; simpl in *; congruence. Qed.

Lemma get_mutex_swp k id m (Q : UserMutex -> Kernel -> Prop) :
  mutex_at k (cur k).1 (Z.to_nat id) = Some m -> Q m k -> swp (get_mutex id) k Q.
Proof. intros H HQ. apply swp_get_bind. eapply swp_lift; [by apply vget_slot|done]. Qed.
Lemma get_sem_swp k id m (Q : Semaphore -> Kernel -> Prop) :
  sem_at k (cur k).1 (Z.to_nat id) = Some m -> Q m k -> swp (get_sem id) k Q.
Proof. intros H HQ. apply swp_get_bind. eapply swp_lift; [by apply vget_slot|done]. Qed.
Lemma get_condvar_swp k id q (Q : Condvar -> Kernel -> Prop) :
  cond_at k (cur k).1 (Z.to_nat id) = Some q -> Q q k -> swp (get_condvar id) k Q.
Proof. intros H HQ. apply swp_get_bind. eapply swp_lift; [by apply vget_slot|done]. Qed.

(** [slots_set l l' n x]: [l'] is [l] with the object [x] at [n]. *)
Definition slots_set {A} (l l' : list (option A)) (n : nat) (x : A) : Prop :=
  forall i, mjoin (l' !! i) = if decide (i = n) then Some x else mjoin (l !! i).

Lemma slots_insert {A} (l : list (option A)) n x y : mjoin (l !! n) = Some y -> slots_set l (<[n := Some x]> l) n x.
Proof.
  intros H i. destruct (l !! n) as [o|] eqn:E; [|done]. case_decide as Ei; subst.
  - rewrite list_lookup_insert_eq; [done|by eapply lookup_lt_Some].
  - by rewrite list_lookup_insert_ne.
Qed.

Lemma place_spec {A} (l l' : list (option A)) id x : place l x = (id, l') ->
  exists n, id = Z.of_nat n /\ mjoin (l !! n) = None /\ slots_set l l' n x.
Proof.
  unfold place. destruct (find_index _ l) as [[n o]|] eqn:F; intros [= <- <-].
  - apply find_index_Some in F as (Hn & Ho & _). destruct o as [y|]; [done|]. exists n. rewrite Hn.
    split_and!; [done|done|]. intros i. case_decide as Ei; subst.
    + rewrite list_lookup_insert_eq; [done|by eapply lookup_lt_Some].
    + by rewrite list_lookup_insert_ne.
  - exists (length l). rewrite (lookup_ge_None_2 l) by lia. split_and!; [done|done|]. intros i. case_decide as Ei; subst.
    + by rewrite list_lookup_middle.
    + destruct (decide (i < length l)%nat); [by rewrite lookup_app_l by lia|].
      rewrite !lookup_ge_None_2; [done|lia|rewrite length_app; simpl; lia].
Qed.

(** What a change of one object leaves alone. *)
Record same_but_tables (k k' : Kernel) : Prop := {
  sb_sched : sched k' = sched k;
  sb_timers : timers k' = timers k;
  sb_conts : conts k' = conts k;
  sb_clock : cntpct k' = cntpct k /\ clock_freq k' = clock_freq k;
}.

Lemma tables_of_insert k t pid : tables_of (with_tables k (<[(cur k).1 := t]> (tables k))) pid =
  if decide (pid = (cur k).1) then t else tables_of k pid.
Proof.
  unfold tables_of, with_tables. cbn [tables]. case_decide as E.
  - rewrite E. by rewrite lookup_insert_eq.
  - by rewrite lookup_insert_ne.
Qed.

(** The three kinds of change. *)
Definition mutex_set (k k' : Kernel) (id : nat) (m : UserMutex) : Prop :=
  same_but_tables k k' /\ (forall p i, sem_at k' p i = sem_at k p i) /\ (forall p i, cond_at k' p i = cond_at k p i) /\
  forall p i, mutex_at k' p i = if decide ((p, i) = ((cur k).1, id)) then Some m else mutex_at k p i.
Definition sem_set (k k' : Kernel) (id : nat) (m : Semaphore) : Prop :=
  same_but_tables k k' /\ (forall p i, mutex_at k' p i = mutex_at k p i) /\ (forall p i, cond_at k' p i = cond_at k p i) /\
  forall p i, sem_at k' p i = if decide ((p, i) = ((cur k).1, id)) then Some m else sem_at k p i.
Definition cond_set (k k' : Kernel) (id : nat) (q : Condvar) : Prop :=
  same_but_tables k k' /\ (forall p i, mutex_at k' p i = mutex_at k p i) /\ (forall p i, sem_at k' p i = sem_at k p i) /\
  forall p i, cond_at k' p i = if decide ((p, i) = ((cur k).1, id)) then Some q else cond_at k p i.

(** Both sides of a table change, process by process. *)
#[local] Ltac by_process Hl :=
  eexists tt, _; split; [reflexivity|]; split_and!; [by split|..];
  unfold mutex_at, sem_at, cond_at; intros p i; rewrite tables_of_insert;
  (case_decide as Ep; [subst p; cbn [mutex_list semaphore_list condvar_list]|]);
  first [done|rewrite Hl; repeat case_decide; naive_solver|rewrite decide_False; [done|by intros [= ? ?]]].

Lemma set_mutexes_spec k l n m : slots_set (mutex_list (tables_of k (cur k).1)) l n m ->
  swp (set_mutexes l) k (fun _ k' => mutex_set k k' n m).
Proof. intros Hl. by_process Hl. Qed.
Lemma set_sems_spec k l n m : slots_set (semaphore_list (tables_of k (cur k).1)) l n m ->
  swp (set_sems l) k (fun _ k' => sem_set k k' n m).
Proof. intros Hl. by_process Hl. Qed.
Lemma set_condvars_spec k l n m : slots_set (condvar_list (tables_of k (cur k).1)) l n m ->
  swp (set_condvars l) k (fun _ k' => cond_set k k' n m).
Proof. intros Hl. by_process Hl. Qed.

Lemma put_mutex_spec k id m m' : mutex_at k (cur k).1 (Z.to_nat id) = Some m ->
  swp (put_mutex id m') k (fun _ k' => mutex_set k k' (Z.to_nat id) m').
Proof. intros H. apply swp_get_bind, set_mutexes_spec. by eapply slots_insert. Qed.
Lemma put_sem_spec k id m m' : sem_at k (cur k).1 (Z.to_nat id) = Some m ->
  swp (put_sem id m') k (fun _ k' => sem_set k k' (Z.to_nat id) m').
Proof. intros H. apply swp_get_bind, set_sems_spec. by eapply slots_insert. Qed.
Lemma put_condvar_spec k id m m' : cond_at k (cur k).1 (Z.to_nat id) = Some m ->
  swp (put_condvar id m') k (fun _ k' => cond_set k k' (Z.to_nat id) m').
Proof. intros H. apply swp_get_bind, set_condvars_spec. by eapply slots_insert. Qed.

(** The queues after a change. *)
Lemma queue_mutex_set k k' id m p : mutex_set k k' id m ->
  queue_at k' p = if decide (p = AtMutex (cur k).1 id) then mutex_queue m else queue_at k p.
Proof.
  intros ([_ Ht _ _] & Hs & Hc & Hm). destruct p as [pid i|pid i|pid i|]; cbn [queue_at].
  - rewrite Hm. repeat case_decide; naive_solver.
  - by rewrite Hs.
  - by rewrite Hc.
  - by rewrite Ht.
Qed.
Lemma queue_sem_set k k' id m p : sem_set k k' id m ->
  queue_at k' p = if decide (p = AtSem (cur k).1 id) then sem_queue m else queue_at k p.
Proof.
  intros ([_ Ht _ _] & Hs & Hc & Hm). destruct p as [pid i|pid i|pid i|]; cbn [queue_at].
  - by rewrite Hs.
  - rewrite Hm. repeat case_decide; naive_solver.
  - by rewrite Hc.
  - by rewrite Ht.
Qed.
Lemma queue_cond_set k k' id m p : cond_set k k' id m ->
  queue_at k' p = if decide (p = AtCond (cur k).1 id) then m else queue_at k p.
Proof.
  intros ([_ Ht _ _] & Hs & Hc & Hm). destruct p as [pid i|pid i|pid i|]; cbn [queue_at].
  - by rewrite Hs.
  - by rewrite Hc.
  - rewrite Hm. repeat case_decide; naive_solver.
  - by rewrite Ht.
Qed.

(** Changing the scheduler's state leaves the rest alone. *)
Lemma queue_with_sched k s p : queue_at (with_sched k s) p = queue_at k p.
Proof. by destruct p. Qed.

(** ** Operations on mutexes *)

Abbreviation kwaits k := (waits_ok (sched k) (queue_at k)).

(** What [lock] by [t] makes of a mutex, and what is left of the call. *)
Definition lock_next (t : TaskRef) (m : UserMutex) : UserMutex :=
  match m with
  | MutexSpin _ => MutexSpin true
  | MutexBlocking true q => MutexBlocking true (q ++ [t])
  | MutexBlocking false q => MutexBlocking true q
  end.
Definition lock_cont (id : Z) (m : UserMutex) : option cont :=
  match m with
  | MutexSpin true => Some (KLock id)
  | MutexBlocking true _ => Some (KAcquired id)
  | _ => None
  end.
Definition unlock_next (m : UserMutex) : UserMutex :=
  match m with
  | MutexSpin _ => MutexSpin false
  | MutexBlocking _ [] => MutexBlocking false []
  | MutexBlocking l (_ :: q) => MutexBlocking l q
  end.

(** [mutexes_set k k' t id m]: only mutex [id] of the process of [t] has
    changed. *)
Definition mutexes_set (k k' : Kernel) (t : TaskRef) (id : Z) (m : UserMutex) : Prop :=
  conts k' = conts k /\
  forall p i, mutex_at k' p i = if decide ((p, i) = (t.1, Z.to_nat id)) then Some m else mutex_at k p i.

Lemma mutex_set_set k k' id m s : mutex_set k k' (Z.to_nat id) m -> mutexes_set k (with_sched k' s) (cur k) id m.
Proof. intros ([] & _ & _ & Hm). split; [done|exact Hm]. Qed.

Lemma with_sched_same k : with_sched k (sched k) = k.
Proof. by destruct k. Qed.

Lemma block_spec k k' p : kwaits k -> cur k <> idle_task -> sched k' = sched k ->
  (forall p', queue_at k' p' = if decide (p' = p) then queue_at k p ++ [cur k] else queue_at k p') ->
  swp (on_sched block_and_yield) k' (fun _ k2 => k2 = with_sched k' (rescheduled Blocking (sched k)) /\ kwaits k2).
Proof.
  intros Hk Hi Es Eq. apply on_sched_swp. rewrite Es.
  eapply swp_mono; [apply block_and_yield_spec; [apply (wo_sched _ _ Hk)|done]|]. intros [] s ->. split; [done|].
  eapply waits_same; [|intros; apply queue_with_sched]. eapply (waits_push _ (queue_at k) _ p); [done..| |].
  - by rewrite Eq, decide_True.
  - intros p' Hp'. by rewrite Eq, decide_False.
Qed.

Lemma wake_spec k k' p t q : kwaits k -> sched k' = sched k -> queue_at k p = t :: q ->
  (forall p', queue_at k' p' = if decide (p' = p) then q else queue_at k p') ->
  swp (on_sched (resume t)) k' (fun _ k2 => k2 = with_sched k' (readied t (sched k)) /\ kwaits k2).
Proof.
  intros Hk Es Eq Eq'. destruct (waits_take (sched k) (queue_at k) (queue_at k') p [] t q) as [Hb Hw]; [done..| | |].
  - by rewrite Eq', decide_True.
  - intros p' Hp'. by rewrite Eq', decide_False.
  - apply on_sched_swp. rewrite Es. eapply swp_mono; [by apply resume_spec|]. intros [] s ->. split; [done|].
    eapply waits_same; [exact Hw|]. intros; apply queue_with_sched.
Qed.

(** A change of one object that keeps its queue. *)
Lemma keeps_waits k k' : kwaits k -> sched k' = sched k -> (forall p, queue_at k' p = queue_at k p) -> kwaits k'.
Proof. intros Hk -> H. by eapply waits_same. Qed.

Lemma mutex_set_keeps k k' id m m' : kwaits k -> mutex_set k k' id m' -> mutex_at k (cur k).1 id = Some m ->
  mutex_queue m' = mutex_queue m -> kwaits k'.
Proof.
  intros Hk Hs Hm Eq. eapply keeps_waits; [done|by destruct Hs as ([] & _)|]. intros p. rewrite (queue_mutex_set _ _ _ _ _ Hs).
  case_decide as E; [|done]. rewrite E, Eq. cbn [queue_at]. by rewrite Hm.
Qed.

Lemma lock_spec k id m : kwaits k -> cur k <> idle_task -> mutex_at k (cur k).1 (Z.to_nat id) = Some m ->
  swp (lock id) k (fun o k' => kwaits k' /\ o = lock_cont id m /\ mutexes_set k k' (cur k) id (lock_next (cur k) m)).
Proof.
  intros Hk Hi Hm. apply swp_bind. eapply get_mutex_swp; [done|]. destruct m as [[]|[] q]; cbn [lock_cont lock_next].
  - apply swp_bind, on_sched_swp. eapply swp_mono; [apply yield_now_spec, (wo_sched _ _ Hk)|]. intros [] s ->.
    apply swp_ret. split_and!; [|done|].
    + eapply waits_same; [by apply (waits_leave _ (queue_at k)); [|done..]|]. intros; apply queue_with_sched.
    + split; [done|]. intros p i. change (mutex_at _ p i) with (mutex_at k p i) at 1. case_decide as E; [|done].
      injection E as -> ->. done.
  - apply swp_bind. eapply swp_mono; [by eapply put_mutex_spec|]. intros [] k' Hs. apply swp_ret. split_and!; [|done|].
    + by eapply mutex_set_keeps.
    + rewrite <- (with_sched_same k'). by apply mutex_set_set.
  - apply swp_get_bind, swp_bind. eapply swp_mono; [by eapply put_mutex_spec|]. intros [] k' Hs. apply swp_bind.
    eapply swp_mono; [eapply (block_spec k k' (AtMutex (cur k).1 (Z.to_nat id))); [done..|by destruct Hs as ([] & _)|]|].
    + intros p. rewrite (queue_mutex_set _ _ _ _ _ Hs). cbn [queue_at]. by rewrite Hm.
    + intros [] k2 [-> Hw]. apply swp_ret. split_and!; [done|done|by apply mutex_set_set].
  - apply swp_bind. eapply swp_mono; [by eapply put_mutex_spec|]. intros [] k' Hs. apply swp_ret. split_and!; [|done|].
    + by eapply mutex_set_keeps.
    + rewrite <- (with_sched_same k'). by apply mutex_set_set.
Qed.

(** Whether [unlock] may be called. *)
Definition unlockable (m : UserMutex) : bool := match m with MutexSpin _ => true | MutexBlocking l _ => l end.

Lemma unlock_spec k id m : kwaits k -> mutex_at k (cur k).1 (Z.to_nat id) = Some m -> unlockable m = true ->
  swp (unlock id) k (fun _ k' => kwaits k' /\ cur k' = cur k /\ (forall p i, cond_at k' p i = cond_at k p i) /\
    mutexes_set k k' (cur k) id (unlock_next m)).
Proof.
  intros Hk Hm Hu. apply swp_bind. eapply get_mutex_swp; [done|]. destruct m as [l|l q]; cbn [unlock_next unlockable] in *.
  - eapply swp_mono; [by eapply put_mutex_spec|]. intros [] k' Hs. split_and!.
    + by eapply mutex_set_keeps.
    + destruct Hs as ([Es _ _ _] & _). unfold cur. by rewrite Es.
    + by destruct Hs as (_ & _ & ? & _).
    + rewrite <- (with_sched_same k'). by apply mutex_set_set.
  - subst l. eapply swp_lift_bind; [done|]. destruct q as [|t q].
    + eapply swp_mono; [by eapply put_mutex_spec|]. intros [] k' Hs. split_and!.
      * by eapply mutex_set_keeps.
      * destruct Hs as ([Es _ _ _] & _). unfold cur. by rewrite Es.
      * by destruct Hs as (_ & _ & ? & _).
      * rewrite <- (with_sched_same k'). by apply mutex_set_set.
    + apply swp_bind. eapply swp_mono; [by eapply put_mutex_spec|]. intros [] k' Hs.
      eapply swp_mono; [eapply (wake_spec k k' (AtMutex (cur k).1 (Z.to_nat id)) t q); [done|by destruct Hs as ([] & _)| |]|].
      * cbn [queue_at]. by rewrite Hm.
      * intros p. by rewrite (queue_mutex_set _ _ _ _ _ Hs).
      * intros [] k2 [-> Hw]. split_and!; [done|done|by destruct Hs as (_ & _ & ? & _)|by apply mutex_set_set].
Qed.

(** ** Calls that leave mutexes alone *)

Definition quiet (k k' : Kernel) : Prop :=
  conts k' = conts k /\ forall p i, mutex_at k' p i = mutex_at k p i.

Lemma sem_set_quiet k k' id m s : sem_set k k' id m -> quiet k (with_sched k' s).
Proof. intros ([] & Hm & _). by split. Qed.
Lemma cond_set_quiet k k' id m s : cond_set k k' id m -> quiet k (with_sched k' s).
Proof. intros ([] & Hm & _). by split. Qed.

Lemma sem_set_keeps k k' id m m' : kwaits k -> sem_set k k' id m' -> from_option sem_queue [] (sem_at k (cur k).1 id) = m ->
  sem_queue m' = m -> kwaits k'.
Proof.
  intros Hk Hs Hm Eq. eapply keeps_waits; [done|by destruct Hs as ([] & _)|]. intros p. rewrite (queue_sem_set _ _ _ _ _ Hs).
  case_decide as E; [|done]. rewrite E, Eq. cbn [queue_at]. by rewrite Hm.
Qed.

(** [down] and [up] on a semaphore: the new value, whether the caller blocks,
    and the task woken. *)
Definition down_next (t : TaskRef) (m : Semaphore) : Semaphore :=
  let c := as_isize (count m - 1) in mkSem c (if c <? 0 then sem_queue m ++ [t] else sem_queue m).
Definition down_blocks (m : Semaphore) : bool := as_isize (count m - 1) <? 0.
Definition up_next (m : Semaphore) : Semaphore :=
  let c := as_isize (count m + 1) in mkSem c (if c <=? 0 then list.tail (sem_queue m) else sem_queue m).
Definition up_wakes (m : Semaphore) : option TaskRef :=
  if as_isize (count m + 1) <=? 0 then list.head (sem_queue m) else None.

Lemma down_spec k id m : kwaits k -> cur k <> idle_task -> sem_at k (cur k).1 (Z.to_nat id) = Some m ->
  swp (down id) k (fun o k' => kwaits k' /\ quiet k k' /\ o = (if down_blocks m then Some KReturn else None) /\
    sem_at k' (cur k).1 (Z.to_nat id) = Some (down_next (cur k) m) /\
    (if down_blocks m then in_state (sched k') (cur k) Blocking else cur k' = cur k)).
Proof.
  intros Hk Hi Hm. apply swp_bind. eapply get_sem_swp; [done|]. apply swp_get_bind. unfold down_blocks, down_next.
  assert (forall k' m', sem_set k k' (Z.to_nat id) m' -> sem_at k' (cur k).1 (Z.to_nat id) = Some m') as Hat.
  { intros k' m' (_ & _ & _ & H). by rewrite H, decide_True. }
  destruct (as_isize (count m - 1) <? 0).
  - apply swp_bind. eapply swp_mono; [by eapply put_sem_spec|]. intros [] k' Hs. apply swp_bind.
    eapply swp_mono; [eapply (block_spec k k' (AtSem (cur k).1 (Z.to_nat id))); [done..|by destruct Hs as ([] & _)|]|].
    + intros p. rewrite (queue_sem_set _ _ _ _ _ Hs). cbn [queue_at]. by rewrite Hm.
    + intros [] k2 [-> Hw]. apply swp_ret. split_and!; [done|by eapply sem_set_quiet|done|exact (Hat _ _ Hs)|].
      apply blocking_rescheduled; [apply (wo_sched _ _ Hk)|done|done|]. by rewrite decide_True.
  - apply swp_bind. eapply swp_mono; [by eapply put_sem_spec|]. intros [] k' Hs. apply swp_ret.
    assert (cur k' = cur k) as Ec by (destruct Hs as ([Es _ _ _] & _); unfold cur; by rewrite Es).
    split_and!; [| |done|exact (Hat _ _ Hs)|done].
    + eapply sem_set_keeps; [done..|]. by rewrite Hm.
    + rewrite <- (with_sched_same k'). by eapply sem_set_quiet.
Qed.

Lemma up_spec k id m : kwaits k -> sem_at k (cur k).1 (Z.to_nat id) = Some m ->
  swp (up id) k (fun _ k' => kwaits k' /\ quiet k k' /\ cur k' = cur k /\
    sem_at k' (cur k).1 (Z.to_nat id) = Some (up_next m) /\
    sched k' = match up_wakes m with Some t => readied t (sched k) | None => sched k end).
Proof.
  intros Hk Hm. apply swp_bind. eapply get_sem_swp; [done|]. unfold up_next, up_wakes.
  assert (forall k' m', sem_set k k' (Z.to_nat id) m' -> sem_queue m' = sem_queue m -> kwaits k' /\ quiet k k' /\ cur k' = cur k /\
    sem_at k' (cur k).1 (Z.to_nat id) = Some m' /\ sched k' = sched k) as Hset.
  { intros k' m' Hs Eq. split_and!; [| |destruct Hs as ([Es _ _ _] & _); unfold cur; by rewrite Es| |by destruct Hs as ([] & _)].
    - eapply sem_set_keeps; [done..|]. by rewrite Hm.
    - rewrite <- (with_sched_same k'). by eapply sem_set_quiet.
    - destruct Hs as (_ & _ & _ & H). by rewrite H, decide_True. }
  destruct (as_isize (count m + 1) <=? 0).
  - destruct (sem_queue m) as [|t q] eqn:Eq; simpl.
    + eapply swp_mono; [by eapply put_sem_spec|]. intros [] k' Hs. by apply Hset.
    + apply swp_bind. eapply swp_mono; [by eapply put_sem_spec|]. intros [] k' Hs.
      eapply swp_mono; [eapply (wake_spec k k' (AtSem (cur k).1 (Z.to_nat id)) t q); [done|by destruct Hs as ([] & _)| |]|].
      * cbn [queue_at]. by rewrite Hm.
      * intros p. by rewrite (queue_sem_set _ _ _ _ _ Hs).
      * intros [] k2 [-> Hw]. split_and!; [done|by eapply sem_set_quiet|done| |done].
        destruct Hs as (_ & _ & _ & H). change (sem_at (with_sched k' _)) with (sem_at k'). by rewrite H, decide_True.
  - eapply swp_mono; [by eapply put_sem_spec|]. intros [] k' Hs. by apply Hset.
Qed.

Lemma cond_set_keeps k k' id q : kwaits k -> cond_set k k' id q -> default [] (cond_at k (cur k).1 id) = q -> kwaits k'.
Proof.
  intros Hk Hs Hm. eapply keeps_waits; [done|by destruct Hs as ([] & _)|]. intros p. rewrite (queue_cond_set _ _ _ _ _ Hs).
  case_decide as E; [|done]. rewrite E. cbn [queue_at]. by rewrite Hm.
Qed.

Lemma signal_spec k id q : kwaits k -> cond_at k (cur k).1 (Z.to_nat id) = Some q ->
  swp (signal id) k (fun _ k' => kwaits k' /\ quiet k k' /\ cur k' = cur k /\
    cond_at k' (cur k).1 (Z.to_nat id) = Some (list.tail q) /\
    sched k' = match q with t :: _ => readied t (sched k) | [] => sched k end).
Proof.
  intros Hk Hm. apply swp_bind. eapply get_condvar_swp; [done|]. destruct q as [|t q]; [by apply swp_ret|].
  apply swp_bind. eapply swp_mono; [by eapply put_condvar_spec|]. intros [] k' Hs.
  eapply swp_mono; [eapply (wake_spec k k' (AtCond (cur k).1 (Z.to_nat id)) t q); [done|by destruct Hs as ([] & _)| |]|].
  - cbn [queue_at]. by rewrite Hm.
  - intros p. by rewrite (queue_cond_set _ _ _ _ _ Hs).
  - intros [] k2 [-> Hw]. split_and!; [done|by eapply cond_set_quiet|done| |done].
    destruct Hs as (_ & _ & _ & H). change (cond_at (with_sched k' _)) with (cond_at k'). by rewrite H, decide_True.
Qed.

Lemma wait_spec k id mutex_id q m : kwaits k -> cur k <> idle_task ->
  cond_at k (cur k).1 (Z.to_nat id) = Some q -> mutex_at k (cur k).1 (Z.to_nat mutex_id) = Some m -> unlockable m = true ->
  swp (wait id mutex_id) k (fun o k' => kwaits k' /\ o = Some (KLock mutex_id) /\
    mutexes_set k k' (cur k) mutex_id (unlock_next m) /\
    cond_at k' (cur k).1 (Z.to_nat id) = Some (q ++ [cur k]) /\ in_state (sched k') (cur k) Blocking).
Proof.
  intros Hk Hi Hq Hm Hu. apply swp_bind. eapply swp_mono; [by eapply unlock_spec|].
  intros [] k1 (Hk1 & Ec & Hc & [Hco Hm1]). apply swp_bind. eapply get_condvar_swp; [by rewrite Hc, Ec|].
  apply swp_get_bind, swp_bind. eapply swp_mono; [eapply put_condvar_spec; by rewrite Hc, Ec|]. intros [] k2 Hs. apply swp_bind.
  eapply swp_mono; [eapply (block_spec k1 k2 (AtCond (cur k1).1 (Z.to_nat id))); [done|by rewrite Ec|by destruct Hs as ([] & _)|]|].
  - intros p. rewrite (queue_cond_set _ _ _ _ _ Hs). cbn [queue_at]. by rewrite Hc, Ec, Hq.
  - intros [] k3 [-> Hw]. apply swp_ret. destruct (cond_set_quiet _ _ _ _ (rescheduled Blocking (sched k1)) Hs) as [Hq1 Hq2].
    split_and!; [done|done| | |].
    + split; [by rewrite Hq1|]. intros p i. by rewrite Hq2, Hm1.
    + destruct Hs as (_ & _ & _ & H). change (cond_at (with_sched k2 _)) with (cond_at k2). by rewrite H, Ec, decide_True.
    + rewrite <- Ec. apply blocking_rescheduled; [apply (wo_sched _ _ Hk1)|done|intros E; by rewrite <- Ec in Hi|].
      by rewrite decide_True.
Qed.

Lemma sleep_spec k ms : kwaits k -> cur k <> idle_task ->
  swp (sys_sleep ms) k (fun o k' => kwaits k' /\ quiet k k' /\ o = inr KReturn /\
    timers k' = timers k ++ [mkTimer (u64 (get_time_ms k + ms)) (cur k)] /\ in_state (sched k') (cur k) Blocking).
Proof.
  intros Hk Hi. apply swp_get_bind, swp_bind. eexists tt, _. split; [reflexivity|]. apply swp_bind, on_sched_swp.
  cbn [sched with_timers]. eapply swp_mono; [apply block_and_yield_spec; [apply (wo_sched _ _ Hk)|done]|].
  intros [] s ->. apply swp_ret. split_and!; [|by split|done|done|].
  - eapply (waits_push _ (queue_at k) _ AtTimer); [done..| |].
    + cbn [queue_at timers with_sched with_timers]. by rewrite map_app.
    + intros p Hp. by destruct p.
  - apply blocking_rescheduled; [apply (wo_sched _ _ Hk)|done|done|]. by rewrite decide_True.
Qed.

(** ** Timers *)

Section timers.
Context {heap : BinaryHeap}.

(** Expiry times that [as isize] keeps. *)
Definition timers_ok (k : Kernel) : Prop := Forall (fun t => 0 <= expire_ms t < 2 ^ 63) (timers k).

Lemma timer_key_le t t' : 0 <= expire_ms t < 2 ^ 63 -> 0 <= expire_ms t' < 2 ^ 63 ->
  timer_key t' <= timer_key t <-> expire_ms t <= expire_ms t'.
Proof.
  assert (forall z, 0 <= z < 2 ^ 63 -> as_isize (- as_isize z) = - z) as Hk.
  { intros z Hz. unfold as_isize at 2. rewrite u64_small by lia. rewrite (proj2 (Z.ltb_lt _ _)) by lia.
    unfold as_isize, u64. destruct (decide (z = 0)) as [->|]; [done|].
    rewrite <- (Z.mod_unique (- z) (2 ^ 64) (-1) (2 ^ 64 - z)) by lia. rewrite (proj2 (Z.ltb_ge _ _)); lia. }
  intros H H'. unfold timer_key. rewrite !Hk by done. lia.
Qed.

Lemma ready_readied s u t : in_state s t Ready -> in_state (readied u s) t Ready.
Proof.
  unfold readied, in_state. cbn [states]. intros H. destruct (decide (t = u)) as [->|E].
  - by rewrite lookup_insert_eq.
  - by rewrite lookup_insert_ne.
Qed.

Definition woken (now : Z) (k k' : Kernel) : Prop :=
  timers k' = filter (fun t => now < expire_ms t) (timers k) /\
  (forall t, in_state (sched k) t Ready -> in_state (sched k') t Ready) /\
  (forall t, t ∈ timers k -> expire_ms t <= now -> in_state (sched k') (timer_task t) Ready).

Lemma check_timers_spec now fuel : forall k, (length (timers k) < fuel)%nat -> kwaits k ->
  swp (check_timers fuel now) k (fun _ k' => kwaits k' /\ quiet k k' /\ cur k' = cur k /\ tables k' = tables k /\
    (timers_ok k -> woken now k k')).
Proof.
  induction fuel as [|fuel IH]; intros k Hf Hk; [lia|]. cbn [check_timers]. apply swp_get_bind.
  destruct (peek (timers k)) as [i|] eqn:Ep.
  2:{ apply peek_None in Ep. apply swp_ret. split_and!; [done|by split|done|done|]. intros _. unfold woken.
      rewrite Ep. split_and!; [done|done|]. by intros t ?%elem_of_nil. }
  destruct (peek_Some _ _ Ep) as (t & Ht & Hmax). eapply swp_lift_bind; [by rewrite Ht|].
  destruct (Z.leb_spec (expire_ms t) now) as [Hle|Hgt].
  - pose proof (take_drop_middle _ _ _ Ht) as Es. pose proof (delete_take_drop (timers k) i) as Ed.
    assert (queue_at k AtTimer = map timer_task (take i (timers k)) ++ timer_task t :: map timer_task (drop (S i) (timers k))) as Eq.
    { cbn [queue_at]. rewrite <- Es at 1. by rewrite map_app. }
    set (k1 := with_timers (with_sched k (readied (timer_task t) (sched k))) (delete i (timers k))).
    destruct (waits_take (sched k) (queue_at k) (queue_at k1) AtTimer _ _ _ Hk Eq) as [Hb Hw].
    { unfold k1. cbn [queue_at timers with_timers]. rewrite Ed. by rewrite map_app. }
    { by intros []. }
    apply swp_bind, on_sched_swp. eapply swp_mono; [by apply resume_spec|]. intros [] s ->. apply swp_get_bind, swp_put_bind.
    change (with_timers _ _) with k1. eapply swp_mono; [apply IH|].
    + unfold k1. cbn [timers with_timers]. apply lookup_lt_Some in Ht as Hlt. rewrite length_delete by done. lia.
    + exact Hw.
    + intros [] k' (Hk' & Hq & Hc & Ht' & Hwk). split_and!; [done|exact Hq|exact Hc|done|]. intros Hok.
      destruct Hwk as (W1 & W2 & W3).
      { unfold timers_ok, k1 in *. cbn [timers with_timers]. by apply Forall_delete. }
      split_and!.
      * rewrite W1. unfold k1. cbn [timers with_timers]. rewrite Ed, filter_app. symmetry.
        rewrite <- Es at 1. rewrite filter_app. f_equal. by rewrite filter_cons_False by lia.
      * intros u Hu. by apply W2, ready_readied.
      * intros u Hu Hx. rewrite <- Es, elem_of_app, elem_of_cons in Hu. destruct Hu as [Hu|[->|Hu]].
        -- apply W3; [|done]. unfold k1. cbn [timers with_timers]. rewrite Ed, elem_of_app. by left.
        -- apply W2. unfold in_state. apply lookup_insert_eq.
        -- apply W3; [|done]. unfold k1. cbn [timers with_timers]. rewrite Ed, elem_of_app. by right.
  - apply swp_ret. split_and!; [done|by split|done|done|]. intros Hok. unfold timers_ok in Hok.
    assert (Forall (fun t' => now < expire_ms t') (timers k)) as Hall.
    { apply Forall_forall. intros t' Ht'. pose proof (proj1 (Forall_forall _ _) Hok) as Hr.
      pose proof (proj1 (timer_key_le t t' (Hr _ (list_elem_of_lookup_2 _ _ _ Ht)) (Hr _ Ht')) (Hmax _ Ht')). cbn beta. lia. }
    split_and!; [by rewrite filter_all|done|]. intros u Hu Hx. pose proof (proj1 (Forall_forall _ _) Hall u Hu) as Hn. cbn beta in Hn. lia.
Qed.
End timers.

(** ** The invariant of the whole system *)

Record sync_ok (k : Kernel) : Prop := {
  so_waits : kwaits k;
  so_lock t id : conts k !! t = Some (KLock id) -> is_Some (mutex_at k t.1 (Z.to_nat id));
  so_idle : conts k !! idle_task = None;
}.

(** The current task runs in user mode: it is in no call. *)
Definition user_mode (k : Kernel) : Prop := conts k !! cur k = None /\ cur k <> idle_task.

(** The call names objects of the process; a mutex that is unlocked is locked,
    if it is a blocking one. *)
Definition valid_call (k : Kernel) (c : sync_call) : Prop :=
  let mutex id := mutex_at k (cur k).1 (Z.to_nat id) in
  match c with
  | SysSleep _ | SysMutexCreate _ | SysSemCreate _ | SysCondCreate => True
  | SysMutexLock id => is_Some (mutex id)
  | SysMutexUnlock id => exists m, mutex id = Some m /\ unlockable m = true
  | SysSemUp id | SysSemDown id => is_Some (sem_at k (cur k).1 (Z.to_nat id))
  | SysCondSignal id => is_Some (cond_at k (cur k).1 (Z.to_nat id))
  | SysCondWait id mutex_id => is_Some (cond_at k (cur k).1 (Z.to_nat id)) /\
      exists m, mutex mutex_id = Some m /\ unlockable m = true
  end.

Definition valid_event (k : Kernel) (e : event) : Prop :=
  match e with
  | ECall c => user_mode k /\ valid_call k c
  | EContinue => is_Some (conts k !! cur k)
  | ETimer _ => conts k !! cur k = None
  | ESched OpYield => conts k !! cur k = None
  | ESched OpExit => user_mode k
  | ESched (OpSpawn t) => states (sched k) !! t = None
  | ESched _ => False
  end.

(** What a call does to the mutexes. *)
Definition call_effect (k : Kernel) (c : sync_call) (o : outcome) (k' : Kernel) : Prop :=
  let mutex id := mutex_at k (cur k).1 (Z.to_nat id) in
  match c with
  | SysMutexCreate b => exists n, o = inl (Z.of_nat n) /\ mutex_at k (cur k).1 n = None /\
      mutexes_set k k' (cur k) (Z.of_nat n) (if b then MutexBlocking_new else MutexSpin_new)
  | SysMutexLock id => exists m, mutex id = Some m /\ mutexes_set k k' (cur k) id (lock_next (cur k) m) /\
      o = match lock_cont id m with Some c => inr c | None => inl 0 end
  | SysMutexUnlock id => exists m, mutex id = Some m /\ mutexes_set k k' (cur k) id (unlock_next m) /\ o = inl 0
  | SysCondWait _ id => exists m, mutex id = Some m /\ mutexes_set k k' (cur k) id (unlock_next m) /\ o = inr (KLock id)
  | _ => quiet k k' /\ (finished o = true \/ o = inr KReturn)
  end.

Lemma set_mutexes_create k k' n m : kwaits k -> mutex_set k k' n m -> mutex_at k (cur k).1 n = None ->
  mutex_queue m = [] -> kwaits k' /\ mutexes_set k k' (cur k) (Z.of_nat n) m.
Proof.
  intros Hk Hs Hn Hq. split.
  - eapply keeps_waits; [done|by destruct Hs as ([] & _)|]. intros p. rewrite (queue_mutex_set _ _ _ _ _ Hs).
    case_decide as E; [|done]. rewrite E, Hq. cbn [queue_at]. by rewrite Hn.
  - rewrite <- (with_sched_same k'). apply mutex_set_set. by rewrite Nat2Z.id.
Qed.

Lemma run_call_spec k c : kwaits k -> cur k <> idle_task -> valid_call k c ->
  swp (run_call c) k (fun o k' => kwaits k' /\ call_effect k c o k').
Proof.
  intros Hk Hi Hc. destruct c as [ms|b|id|id|n|id|id| |id|id mid]; cbn [run_call valid_call call_effect] in *.
  - eapply swp_mono; [by apply sleep_spec|]. intros o k' (? & ? & -> & _). auto.
  - apply swp_get_bind. destruct (place _ _) as [id l] eqn:E. apply place_spec in E as (n & -> & Hn & Hs).
    apply swp_bind. eapply swp_mono; [by apply set_mutexes_spec|]. intros [] k' Hs'. apply swp_ret.
    destruct (set_mutexes_create k k' n _ Hk Hs' Hn); [by destruct b|]. split; [done|]. by exists n.
  - destruct Hc as [m Hm]. apply swp_bind. eapply swp_mono; [by eapply lock_spec|]. intros o k' (? & -> & ?).
    apply swp_ret. split; [done|]. exists m. split_and!; [done|done|]. by destruct (lock_cont id m).
  - destruct Hc as (m & Hm & Hu). apply swp_bind. eapply swp_mono; [by eapply unlock_spec|]. intros [] k' (? & _ & _ & ?).
    apply swp_ret. eauto 6.
  - apply swp_get_bind. destruct (place _ _) as [id l] eqn:E. apply place_spec in E as (m & -> & Hn & Hs).
    apply swp_bind. eapply swp_mono; [by apply set_sems_spec|]. intros [] k' Hs'. apply swp_ret. split_and!; [| |by left].
    + eapply sem_set_keeps; [done..|]. unfold sem_at. by rewrite Hn.
    + rewrite <- (with_sched_same k'). by eapply sem_set_quiet.
  - destruct Hc as [m Hm]. apply swp_bind. eapply swp_mono; [by eapply up_spec|]. intros [] k' (? & ? & _). apply swp_ret. auto.
  - destruct Hc as [m Hm]. apply swp_bind. eapply swp_mono; [by eapply down_spec|]. intros o k' (? & ? & -> & _).
    apply swp_ret. split_and!; [done|done|]. destruct (down_blocks m); auto.
  - apply swp_get_bind. destruct (place _ _) as [id l] eqn:E. apply place_spec in E as (m & -> & Hn & Hs).
    apply swp_bind. eapply swp_mono; [by apply set_condvars_spec|]. intros [] k' Hs'. apply swp_ret. split_and!; [| |by left].
    + eapply cond_set_keeps; [done..|]. unfold cond_at. by rewrite Hn.
    + rewrite <- (with_sched_same k'). by eapply cond_set_quiet.
  - destruct Hc as [m Hm]. apply swp_bind. eapply swp_mono; [by eapply signal_spec|]. intros [] k' (? & ? & _).
    apply swp_ret. auto.
  - destruct Hc as [[q Hq] (m & Hm & Hu)]. unfold sys_condvar_wait. apply swp_bind. eapply get_condvar_swp; [done|].
    apply swp_bind. eapply get_mutex_swp; [done|]. apply swp_bind. eapply swp_mono; [by eapply wait_spec|].
    intros o k' (? & -> & ? & _). apply swp_ret. eauto 6.
Qed.

(** ** Mutual exclusion *)

(** The tasks that have come back from [lock] and have not called [unlock]
    since, for each mutex. *)
Abbreviation Holders := (Z -> nat -> list TaskRef).
Definition apply_event (H : Holders) (e : mutex_event) : Holders := fun pid i =>
  match e with
  | Acquire t id => if decide ((pid, i) = (t.1, Z.to_nat id)) then t :: H pid i else H pid i
  | Release t id => if decide ((pid, i) = (t.1, Z.to_nat id)) then filter (.≠ t) (H pid i) else H pid i
  end.
Definition add_events (H : Holders) (es : list mutex_event) : Holders := fold_left apply_event es H.

(** [C]: the tasks that are to come back as owners when they run again.  A mutex
    that is free has no holder and no such task outside its queue; one that is
    locked has one owner, which holds it or is such a task. *)
Definition excl_at (m : option UserMutex) (C : TaskRef -> Prop) (H : list TaskRef) : Prop :=
  match m with
  | None => H = [] /\ forall t, ~ C t
  | Some (MutexSpin l) => (forall t, ~ C t) /\ (if l then exists t, H = [t] else H = [])
  | Some (MutexBlocking l q) =>
      if l then exists o, (H = [] \/ H = [o]) /\ forall t, C t -> t ∈ q \/ t = o /\ H = []
      else H = [] /\ forall t, C t -> t ∈ q
  end.

Lemma excl_at_mono m C C' H : excl_at m C H -> (forall t, C' t -> C t) -> excl_at m C' H.
Proof.
  destruct m as [[l|[] q]|]; simpl; intros HC Hi.
  - destruct HC as [HC ?]. split; [|done]. intros t ?%Hi. by apply (HC t).
  - destruct HC as (o & ? & HC). exists o. split; [done|]. intros t ?%Hi. by apply HC.
  - destruct HC as [? HC]. split; [done|]. intros t ?%Hi. by apply HC.
  - destruct HC as [? HC]. split; [done|]. intros t ?%Hi. by apply (HC t).
Qed.

Lemma excl_at_holders m C H : excl_at m C H -> H = [] \/ exists t, H = [t].
Proof.
  destruct m as [[[]|[] q]|]; simpl.
  - intros [_ ?]. by right.
  - intros [_ ?]. by left.
  - intros (o & [?|?] & _); eauto.
  - intros [? _]. by left.
  - intros [? _]. by left.
Qed.

Lemma excl_lock m C H t id : excl_at (Some m) C H ->
  match lock_cont id m with
  | None => excl_at (Some (lock_next t m)) C (t :: H)
  | Some c => excl_at (Some (lock_next t m)) (fun u => C u \/ c = KAcquired id /\ u = t) H
  end.
Proof.
  destruct m as [[]|[] q]; simpl.
  - intros [HC ?]. split; [|done]. intros u [?|[? _]]; [by apply (HC u)|done].
  - intros [HC ->]. eauto.
  - intros (o & HH & HC). exists o. split; [done|]. intros u [Hu|[_ ->]].
    + destruct (HC u Hu) as [?|?]; [left; by apply elem_of_app; left|by right].
    + left. apply elem_of_app. right. by apply list_elem_of_singleton.
  - intros [-> HC]. exists t. split; [by right|]. intros u Hu. left. by apply HC.
Qed.

Lemma excl_unlock m C H t : excl_at (Some m) C H -> t ∈ H ->
  unlockable m = true /\ excl_at (Some (unlock_next m)) C (filter (.≠ t) H).
Proof.
  assert (forall (o : TaskRef), t ∈ [o] -> filter (.≠ t) [o] = []) as Hf.
  { intros o ->%list_elem_of_singleton. rewrite filter_cons_False; [done|]. naive_solver. }
  destruct m as [[]|[] q]; simpl.
  - intros [HC (u & ->)] Ht. by rewrite Hf.
  - by intros [HC ->] ?%elem_of_nil.
  - intros (o & [-> | -> ] & HC) Ht; [by apply elem_of_nil in Ht|]. rewrite Hf by done. split; [done|].
    assert (forall u, C u -> u ∈ q) as HC'. { intros u Hu. by destruct (HC u Hu) as [?|[_ ?]]. }
    destruct q as [|u q]; simpl; [done|]. exists u. split; [by left|]. intros v Hv%HC'. apply elem_of_cons in Hv as [->|?]; auto.
  - by intros [-> HC] ?%elem_of_nil.
Qed.

Lemma excl_return m C H t : excl_at m C H -> C t -> t ∉ from_option mutex_queue [] m ->
  excl_at m (fun u => C u /\ u <> t) (t :: H).
Proof.
  destruct m as [[l|[] q]|]; simpl.
  - intros [HC _] Ht. by destruct (HC t).
  - intros (o & HH & HC) Ht Hq. destruct (HC t Ht) as [?|[-> ->]]; [done|]. exists o. split; [by right|].
    intros u [Hu Hne]. destruct (HC u Hu) as [?|[? _]]; [by left|done].
  - intros [-> HC] Ht Hq. by destruct Hq; apply HC.
  - intros [-> HC] Ht. by destruct (HC t).
Qed.

(** The tasks of [pid] that are to come back as owners of mutex [i]. *)
Definition pending (cs : gmap TaskRef cont) (pid : Z) (i : nat) (t : TaskRef) : Prop :=
  t.1 = pid /\ exists id, cs !! t = Some (KAcquired id) /\ Z.to_nat id = i.

Definition excl (k : Kernel) (H : Holders) : Prop :=
  forall pid i, excl_at (mutex_at k pid i) (pending (conts k) pid i) (H pid i).

Definition parked (t : TaskRef) (o : outcome) (k : Kernel) : Kernel :=
  match o with inl _ => k | inr c => with_conts k (<[t := c]> (conts k)) end.

Lemma pending_insert cs pid i t c u : pending (<[t := c]> cs) pid i u ->
  pending cs pid i u \/ u = t /\ t.1 = pid /\ exists id, c = KAcquired id /\ Z.to_nat id = i.
Proof.
  intros (E & id & [[-> ->]|[_ ?]]%lookup_insert_Some & Ei); [|by left; split; eauto]. right. eauto.
Qed.

Lemma mutex_at_parked t o k pid i : mutex_at (parked t o k) pid i = mutex_at k pid i.
Proof. by destruct o. Qed.

Lemma lock_excl k k' H id m t : excl k H -> mutex_at k t.1 (Z.to_nat id) = Some m ->
  mutexes_set k k' t id (lock_next t m) ->
  let o : outcome := match lock_cont id m with Some c => inr c | None => inl 0 end in
  excl (parked t o k') (add_events H (if finished o then [Acquire t id] else [])).
Proof.
  intros He Hm [Hc Hs] o pid i. rewrite mutex_at_parked, Hs. specialize (He pid i).
  destruct (decide ((pid, i) = (t.1, Z.to_nat id))) as [E|E].
  - injection E as -> ->. rewrite Hm in He. pose proof (excl_lock m _ _ t id He) as Hl. unfold o.
    destruct (lock_cont id m) as [c|] eqn:Ec; cbn [finished add_events fold_left parked].
    + eapply excl_at_mono; [exact Hl|]. cbn [conts with_conts]. rewrite Hc. intros u Hu.
      destruct (pending_insert _ _ _ _ _ _ Hu) as [?|(-> & _ & id' & -> & Ei)]; [by left|right].
      split; [|done]. destruct m as [[]|[] q]; simpl in Ec; congruence.
    + unfold apply_event. rewrite decide_True by done. by rewrite Hc.
  - assert (add_events H (if finished o then [Acquire t id] else []) pid i = H pid i) as ->.
    { destruct (finished o); simpl; [|done]. by rewrite decide_False. }
    eapply excl_at_mono; [exact He|]. intros u Hu. unfold o in Hu.
    destruct (lock_cont id m) as [c|] eqn:Ec; cbn [parked conts with_conts] in Hu; rewrite Hc in Hu; [|done].
    destruct (pending_insert _ _ _ _ _ _ Hu) as [?|(-> & <- & id' & -> & <-)]; [done|].
    destruct E. by destruct m as [[]|[] q]; simpl in Ec; congruence.
Qed.

Lemma unlock_excl k k' H id m t : excl k H -> mutex_at k t.1 (Z.to_nat id) = Some m -> t ∈ H t.1 (Z.to_nat id) ->
  mutexes_set k k' t id (unlock_next m) -> excl k' (apply_event H (Release t id)).
Proof.
  intros He Hm Ht [Hc Hs] pid i. rewrite Hs, Hc. specialize (He pid i). unfold apply_event. case_decide as E; [|done].
  injection E as -> ->. rewrite Hm in He. by apply excl_unlock.
Qed.

Lemma quiet_excl k k' H : excl k H -> quiet k k' -> excl k' H.
Proof. intros He [Hc Hm] pid i. rewrite Hm, Hc. apply He. Qed.

Lemma park_excl k H t c : excl k H -> (forall id, c <> KAcquired id) -> excl (parked t (inr c) k) H.
Proof.
  intros He Hc pid i. eapply excl_at_mono; [apply He|]. intros u Hu.
  destruct (pending_insert _ _ _ _ _ _ Hu) as [?|(_ & _ & id & -> & _)]; [done|]. by destruct (Hc id).
Qed.

Lemma create_excl k k' H n t m : excl k H -> mutex_at k t.1 n = None -> m = MutexBlocking_new \/ m = MutexSpin_new ->
  mutexes_set k k' t (Z.of_nat n) m -> excl k' H.
Proof.
  intros He Hn Hm [Hc Hs] pid i. rewrite Hs, Hc, Nat2Z.id. specialize (He pid i). case_decide as E; [|done].
  injection E as -> ->. rewrite Hn in He. destruct He as [-> HC]. destruct Hm as [-> | -> ]; simpl; [|done].
  split; [done|]. intros u Hu. by destruct (HC u).
Qed.

(** A program unlocks, or waits with, a mutex it holds. *)
Definition disciplined (k : Kernel) (H : Holders) (e : event) : Prop :=
  match e with
  | ECall (SysMutexUnlock id) | ECall (SysCondWait _ id) => cur k ∈ H (cur k).1 (Z.to_nat id)
  | _ => True
  end.

Lemma call_excl k c o k' H : excl k H -> disciplined k H (ECall c) -> call_effect k c o k' ->
  excl (parked (cur k) o k') (add_events H (call_events (cur k) c o)).
Proof.
  intros He Hd Hc.
  assert (forall k1 H1 o1, excl k1 H1 -> finished o1 = true \/ o1 = inr KReturn \/ (exists id, o1 = inr (KLock id)) ->
    excl (parked (cur k) o1 k1) H1) as Hp.
  { intros k1 H1 [z|c1] H0 Ho; [done|]. apply park_excl; [done|]. intros id ->. by destruct Ho as [?|[?|[? ?]]]. }
  destruct c; cbn [call_effect call_events disciplined add_events fold_left] in *;
    try (destruct Hc as [Hq Ho]; apply Hp; [by eapply quiet_excl|tauto]).
  - destruct Hc as (n & -> & Hn & Hs). eapply create_excl; [done..| |exact Hs]. destruct blocking; auto.
  - destruct Hc as (m & Hm & Hs & ->). by eapply lock_excl.
  - destruct Hc as (m & Hm & Hs & ->). by eapply unlock_excl.
  - destruct Hc as (m & Hm & Hs & ->). apply Hp; [by eapply unlock_excl|eauto].
Qed.

(** ** Events *)

Lemma mutexes_set_some k k' t id m p i : mutexes_set k k' t id m -> is_Some (mutex_at k p i) -> is_Some (mutex_at k' p i).
Proof. intros [_ Hs] H. rewrite Hs. case_decide; [by eexists|done]. Qed.

Lemma call_effect_some k c o k' p i : call_effect k c o k' -> is_Some (mutex_at k p i) -> is_Some (mutex_at k' p i).
Proof.
  destruct c; cbn [call_effect].
  all: try (intros [[_ Hm] _]; by rewrite Hm).
  - intros (n & _ & _ & Hs). by eapply mutexes_set_some.
  - intros (m & _ & Hs & _). by eapply mutexes_set_some.
  - intros (m & _ & Hs & _). by eapply mutexes_set_some.
  - intros (m & _ & Hs & _). by eapply mutexes_set_some.
Qed.

Lemma call_effect_conts k c o k' : call_effect k c o k' -> conts k' = conts k.
Proof.
  destruct c; cbn [call_effect]; try (by intros [[Hc _] _]).
  - by intros (n & _ & _ & Hc & _).
  - by intros (m & _ & [Hc _] & _).
  - by intros (m & _ & [Hc _] & _).
  - by intros (m & _ & [Hc _] & _).
Qed.

(** A call that is left to lock a mutex names one. *)
Lemma call_effect_lock k c k' id : call_effect k c (inr (KLock id)) k' -> is_Some (mutex_at k (cur k).1 (Z.to_nat id)).
Proof.
  destruct c; cbn [call_effect]; try (intros [_ [?|?]]; done).
  - by intros (n & ? & _).
  - intros (m & Hm & _ & E). destruct m as [[]|[] q]; simpl in E; try done. injection E as ->. by eexists.
  - by intros (m & _ & _ & ?).
  - intros (m & Hm & _ & [= ->]). by eexists.
Qed.

Lemma sync_parked k t o : kwaits k -> t <> idle_task -> conts k !! idle_task = None ->
  (forall u id, conts k !! u = Some (KLock id) -> is_Some (mutex_at k u.1 (Z.to_nat id))) ->
  (forall id, o = inr (KLock id) -> is_Some (mutex_at k t.1 (Z.to_nat id))) -> sync_ok (parked t o k).
Proof.
  intros Hk Ht Hi Hl Ho. destruct o as [z|c]; [by split|]. cbn [parked]. split.
  - eapply keeps_waits; [exact Hk|done|]. by intros [].
  - cbn [conts with_conts]. intros u id [[-> ->]|[_ Hu]]%lookup_insert_Some; [by apply Ho|by apply (Hl u)].
  - cbn [conts with_conts]. by rewrite lookup_insert_ne.
Qed.

Lemma park_swp k t o (Q : unit -> Kernel -> Prop) : Q tt (parked t o k) -> swp (park t o) k Q.
Proof. intros HQ. exists tt, (parked t o k). split; [by destruct o|done]. Qed.

Section events.
Context {heap : BinaryHeap}.

(** What every event keeps. *)
Definition event_post (k : Kernel) (e : event) (es : list mutex_event) (k' : Kernel) : Prop :=
  sync_ok k' /\ forall H, excl k H -> disciplined k H e -> excl k' (add_events H es).

Lemma sched_post k s k' e : sync_ok k -> waits_ok s (queue_at k) -> k' = with_sched k s -> event_post k e [] k'.
Proof.
  intros [Hw Hl Hi] Hs ->. split; [|by intros H He _]. split; [|exact Hl|exact Hi].
  eapply waits_same; [exact Hs|]. intros; apply queue_with_sched.
Qed.

Lemma call_event_spec k c : sync_ok k -> valid_event k (ECall c) ->
  swp (run_event (ECall c)) k (event_post k (ECall c)).
Proof.
  intros [Hw Hl Hi] [[Hn Hid] Hv]. apply swp_get_bind, swp_bind. eapply swp_mono; [by apply run_call_spec|].
  intros o k' [Hk' He]. apply swp_bind, park_swp, swp_ret. pose proof (call_effect_conts _ _ _ _ He) as Ec. split.
  - apply sync_parked; [done|done|by rewrite Ec|rewrite Ec|].
    + intros u id Hu. eapply call_effect_some; [done|by eapply Hl].
    + intros id ->. eapply call_effect_some; [done|by eapply call_effect_lock].
  - intros H HH Hd. by eapply call_excl.
Qed.

Lemma continue_event_spec k : sync_ok k -> valid_event k EContinue -> swp (run_event EContinue) k (event_post k EContinue).
Proof.
  intros [Hw Hl Hi] [c Hc]. apply swp_get_bind. eapply swp_lift_bind; [by rewrite Hc|]. apply swp_put_bind.
  assert (cur k <> idle_task) as Hid by congruence. set (k1 := with_conts k (delete (cur k) (conts k))).
  assert (conts k1 = delete (cur k) (conts k)) as Ek by done.
  assert (kwaits k1) as Hw1 by (eapply keeps_waits; [exact Hw|done|by intros []]).
  assert (conts k1 !! idle_task = None) as Hi1 by (unfold k1; cbn [conts with_conts]; by rewrite lookup_delete_ne).
  assert (forall u id, conts k1 !! u = Some (KLock id) -> is_Some (mutex_at k1 u.1 (Z.to_nat id))) as Hl1.
  { intros u id. rewrite Ek. intros [_ Hu]%lookup_delete_Some. by apply (Hl u). }
  assert (forall H, excl k H -> excl k1 H) as Hex.
  { intros H He pid i. eapply excl_at_mono; [exact (He pid i)|]. rewrite Ek.
    intros u (E & id & [_ Hu]%lookup_delete_Some & Ei). split; eauto. }
  destruct c as [|id|id]; cbn [run_cont].
  - eexists [], k1. split; [done|]. split; [by split|]. intros H He _. by apply Hex.
  - eexists [Acquire (cur k) id], k1. split; [done|]. split; [by split|]. intros H He _ pid i. cbn [add_events fold_left apply_event].
    case_decide as E; [|by apply Hex]. injection E as -> ->. eapply excl_at_mono; [apply excl_return; [exact (He _ _)| |]|].
    + split; [done|]. by exists id.
    + intros Hin. apply (current_not_blocked _ (wo_sched _ _ Hw)). apply (wo_blocked _ _ Hw).
      by exists (AtMutex (cur k).1 (Z.to_nat id)).
    + rewrite Ek. intros u (Eu & id' & [Hne Hu]%lookup_delete_Some & Ei). split; [|done]. split; eauto.
  - destruct (Hl _ _ Hc) as [m Hm]. apply swp_bind. unfold ret0. apply swp_bind.
    eapply swp_mono; [by apply (lock_spec k1 id m)|]. intros o k' (Hk' & -> & Hs). apply swp_ret, swp_bind, park_swp, swp_ret.
    pose proof Hs as [Ec _]. split.
    + apply sync_parked; [done|done|by rewrite Ec|rewrite Ec|].
      * intros u id' Hu. eapply mutexes_set_some; [done|by apply Hl1].
      * intros id' E. eapply mutexes_set_some; [done|]. destruct (lock_cont id m) as [c|] eqn:El; [|done].
        injection E as ->. destruct m as [[]|[] q]; simpl in El; try done. injection El as ->. by eexists.
    + intros H He _. by apply (lock_excl k1 k' H id m (cur k) (Hex H He)).
Qed.

Lemma timer_event_spec k now : sync_ok k -> valid_event k (ETimer now) -> swp (run_event (ETimer now)) k (event_post k (ETimer now)).
Proof.
  intros [Hw Hl Hi] Hv. apply swp_get_bind, swp_put_bind. set (k1 := mkKernel _ _ _ _ now _).
  assert (kwaits k1) as Hw1 by (eapply keeps_waits; [exact Hw|done|by intros []]).
  apply swp_bind. unfold handle_irq, check_timer. apply swp_bind, swp_get_bind.
  eapply swp_mono; [apply check_timers_spec; [lia|done]|]. intros [] k2 (Hk2 & [Hc2 Hm2] & Ec & _ & _).
  apply on_sched_swp. eapply swp_mono; [apply yield_now_spec, (wo_sched _ _ Hk2)|]. intros [] s ->. apply swp_ret.
  set (s2 := rescheduled Ready (sched k2)).
  destruct (sched_post k2 s2 (with_sched k2 s2) (ETimer now)) as [Hs He]; [| |done|].
  - split; [done| |]; rewrite Hc2; [|done]. intros t id Ht. rewrite Hm2. by apply (Hl t).
  - by apply waits_leave.
  - split; [done|]. intros H HH _. apply He; [|done]. intros pid i. rewrite Hm2, Hc2. apply HH.
Qed.

Lemma run_event_spec k e : sync_ok k -> valid_event k e -> swp (run_event e) k (event_post k e).
Proof.
  intros Hk Hv. destruct e as [c| |now|o]; [by apply call_event_spec|by apply continue_event_spec|by apply timer_event_spec|].
  pose proof (so_waits _ Hk) as Hw. pose proof (wo_sched _ _ Hw) as Hs. apply swp_get_bind, swp_bind, on_sched_swp.
  assert (allowed o (sched k)) as Ho. { destruct o; try done. by destruct Hv. }
  destruct (run_op_spec o _ Hs Ho) as [E _]. eexists tt, _. split; [exact E|]. apply swp_ret.
  eapply sched_post; [done| |reflexivity]. destruct o as [| | |t|t]; try done; cbn [op_result].
  - by apply waits_leave.
  - destruct Hv as [_ Hv]. by apply waits_leave.
  - by apply waits_spawn.
Qed.

(** ** Runs *)

Inductive sync_step : Kernel * Holders -> Kernel * Holders -> Prop :=
  sync_event k H e es k' : valid_event k e -> run_event e k = Ok (es, k') -> sync_step (k, H) (k', add_events H es).
Inductive careful_step : Kernel * Holders -> Kernel * Holders -> Prop :=
  careful_event k H e es k' : valid_event k e -> disciplined k H e -> run_event e k = Ok (es, k') ->
    careful_step (k, H) (k', add_events H es).

Definition sync_init (freq : Z) : Kernel := mkKernel sched_init ∅ [] ∅ 0 freq.
Definition no_holders : Holders := fun _ _ => [].

Lemma sync_init_ok freq : sync_ok (sync_init freq).
Proof.
  assert (forall p, queue_at (sync_init freq) p = []) as Hq by (intros []; reflexivity).
  split; [|intros t id H; cbn [sync_init conts] in H; by apply lookup_empty_Some in H|done]. split.
  - apply sched_init_ok.
  - intros p. rewrite Hq. constructor.
  - intros p p' t. rewrite Hq. by intros ?%elem_of_nil.
  - intros t. split; [intros [p Hp]; rewrite Hq in Hp; by apply elem_of_nil in Hp|].
    unfold in_state, sync_init, sched_init. cbn. by intros [_ [=]]%lookup_singleton_Some.
Qed.

Lemma step_ok k e es k' : sync_ok k -> valid_event k e -> run_event e k = Ok (es, k') -> event_post k e es k'.
Proof. intros Hk Hv E. destruct (run_event_spec k e Hk Hv) as (es' & k1 & E' & HP). rewrite E in E'. by injection E' as -> ->. Qed.

Lemma sync_reach kh kh' : sync_ok kh.1 -> rtc sync_step kh kh' -> sync_ok kh'.1.
Proof.
  intros H0 Hr. revert Hr. apply (rtc_ind_r (fun kh => sync_ok kh.1)); [done|].
  intros x y _ [k1 H1 e es k2 Hv Er] Hx. simpl in *. by destruct (step_ok _ _ _ _ Hx Hv Er).
Qed.


End events.

(** ** Semaphores count *)

(** The abstract semaphore: [p] permits, or the tasks [w] that wait for one. *)
Definition sem_rel (m : Semaphore) (p : Z) (w : list TaskRef) : Prop :=
  0 <= p /\ count m = p - Zlength w /\ sem_queue m = w /\ (w = [] \/ p = 0).

Lemma sem_rel_new n : 0 <= n < 2 ^ 63 -> sem_rel (Semaphore_new n) n [].
Proof. intros Hn. unfold sem_rel, Semaphore_new. cbn. rewrite as_isize_small by lia. split_and!; [lia|lia|done|by left]. Qed.

(** C29: The signed counter with its queue implements a counting semaphore:
    [down] takes a permit when there is one and otherwise blocks the caller at
    the end of the queue; [up] hands its permit to the task that has waited
    longest, which becomes ready, or keeps it when nobody waits. *)
Theorem semaphore_refines k id m p w : sync_ok k -> cur k <> idle_task ->
  sem_at k (cur k).1 (Z.to_nat id) = Some m -> sem_rel m p w -> p < 2 ^ 63 - 1 -> Zlength w < 2 ^ 63 - 1 ->
  swp (down id) k (fun o k' => sync_ok (parked (cur k) (match o with Some c => inr c | None => inl 0 end) k') /\
    exists m', sem_at k' (cur k).1 (Z.to_nat id) = Some m' /\
    if p =? 0 then o = Some KReturn /\ sem_rel m' 0 (w ++ [cur k]) /\ in_state (sched k') (cur k) Blocking
    else o = None /\ sem_rel m' (p - 1) w /\ cur k' = cur k) /\
  swp (up id) k (fun _ k' => sync_ok k' /\ cur k' = cur k /\
    exists m', sem_at k' (cur k).1 (Z.to_nat id) = Some m' /\
    match w with
    | t :: w' => sem_rel m' 0 w' /\ in_state (sched k') t Ready
    | [] => sem_rel m' (p + 1) [] /\ sched k' = sched k
    end).
Proof.
  intros [Hw Hl Hid] Hi Hm (Hp & Hc & Hq & Hor) Hpb Hwb. split.
  - eapply swp_mono; [by eapply down_spec|]. intros o k' (Hw' & [Hc' Hm'] & -> & Hat & Hst).
    unfold down_blocks, down_next in *. rewrite Hc, as_isize_small in * by lia. split.
    { apply sync_parked; [done|done|by rewrite Hc'|rewrite Hc'|by destruct (_ <? 0)]. intros u i Hu. rewrite Hm'. by apply (Hl u). }
    eexists. split; [exact Hat|]. destruct (Z.eqb_spec p 0) as [E|E].
    + rewrite (proj2 (Z.ltb_lt _ _)) in * by lia. unfold sem_rel. cbn. rewrite Hq, length_app. simpl. split_and!; [done|lia|lia|done|by right|done].
    + destruct Hor as [-> |?]; [|lia]. simpl in *. rewrite (proj2 (Z.ltb_ge _ _)) in * by lia.
      unfold sem_rel. cbn. split_and!; [done|lia|lia|done|by left|done].
  - eapply swp_mono; [by eapply up_spec|]. intros [] k' (Hw' & [Hc' Hm'] & Ec & Hat & Hs).
    unfold up_wakes, up_next in *. rewrite Hc, as_isize_small in * by lia. split_and!.
    { split; [done|rewrite Hc'|by rewrite Hc']. intros u i Hu. rewrite Hm'. by apply (Hl u). }
    { done. }
    eexists. split; [exact Hat|]. rewrite Hq in *. destruct w as [|t w]; simpl in *.
    + rewrite (proj2 (Z.leb_gt _ _)) in * by lia. unfold sem_rel. cbn. split_and!; [lia|lia|done|by left|done].
    + destruct Hor as [?|Hp0]; [done|]. rewrite (proj2 (Z.leb_le _ _)) in * by lia. unfold sem_rel. cbn.
      split_and!; [lia|lia|done|by right|]. rewrite Hs. unfold in_state, readied. apply lookup_insert_eq.
Qed.

(** ** Condition variables *)

(** [wait] releases the mutex and puts the caller, blocked, at the end of the
    queue before any other task runs, to lock the mutex again when it is woken, so
    no wake-up can fall in between; [signal] makes the task that has waited longest
    ready, and does nothing when there is none. *)
Theorem condvar_wait_signal k id mutex_id q m : sync_ok k -> cur k <> idle_task ->
  cond_at k (cur k).1 (Z.to_nat id) = Some q -> mutex_at k (cur k).1 (Z.to_nat mutex_id) = Some m -> unlockable m = true ->
  swp (wait id mutex_id) k (fun o k' => o = Some (KLock mutex_id) /\
    mutex_at k' (cur k).1 (Z.to_nat mutex_id) = Some (unlock_next m) /\
    cond_at k' (cur k).1 (Z.to_nat id) = Some (q ++ [cur k]) /\ in_state (sched k') (cur k) Blocking /\
    sync_ok (parked (cur k) (inr (KLock mutex_id)) k')) /\
  swp (signal id) k (fun _ k' => cur k' = cur k /\ cond_at k' (cur k).1 (Z.to_nat id) = Some (list.tail q) /\
    (forall t, list.head q = Some t -> in_state (sched k') t Ready) /\ (q = [] -> sched k' = sched k) /\ sync_ok k').
Proof.
  intros [Hw Hl Hid] Hi Hq Hm Hu. split.
  - eapply swp_mono; [by eapply wait_spec|]. intros o k' (Hw' & -> & Hs & Hc & Hb). pose proof Hs as [Ec Hs'].
    split_and!; [done|by rewrite Hs', decide_True|done|done|]. apply sync_parked; [done|done|by rewrite Ec|rewrite Ec|].
    + intros u i Hu'. eapply mutexes_set_some; [done|by apply (Hl u)].
    + intros i [= <-]. eapply mutexes_set_some; [done|by eexists].
  - eapply swp_mono; [by eapply signal_spec|]. intros [] k' (Hw' & [Ec Hm'] & Hc & Hat & Hs).
    split_and!; [done|done| |by intros ->|].
    + intros t Ht. destruct q as [|t' q]; [done|]. injection Ht as ->. rewrite Hs. unfold in_state, readied. apply lookup_insert_eq.
    + split; [done|rewrite Ec|by rewrite Ec]. intros u i Hu'. rewrite Hm'. by apply (Hl u).
Qed.

(** ** Sleeping *)

(** A timer interrupt makes ready exactly the sleeping tasks whose time has
    come, whatever the order in which the heap keeps equal timers; the others stay
    blocked with their timers.  A task that sleeps is blocked with a timer that
    expires [ms] milliseconds from now. *)
Theorem sleepers_wake {heap : BinaryHeap} k : sync_ok k -> timers_ok k ->
  swp check_timer k (fun _ k' => sync_ok k' /\ cur k' = cur k /\
    timers k' = filter (fun t => get_time_ms k < expire_ms t) (timers k) /\
    (forall t, t ∈ timers k -> if bool_decide (expire_ms t <= get_time_ms k) then in_state (sched k') (timer_task t) Ready
       else in_state (sched k') (timer_task t) Blocking)) /\
  forall ms, cur k <> idle_task -> swp (sys_sleep ms) k (fun o k' => o = inr KReturn /\ in_state (sched k') (cur k) Blocking /\
    mkTimer (u64 (get_time_ms k + ms)) (cur k) ∈ timers k').
Proof.
  intros [Hw Hl Hid] Hok. split.
  - apply swp_get_bind. eapply swp_mono; [apply check_timers_spec; [lia|done]|]. intros [] k' (Hw' & [Ec Hm] & Hc & _ & Hwk).
    destruct (Hwk Hok) as (W1 & W2 & W3). split_and!; [|done|done|].
    + split; [done|rewrite Ec|by rewrite Ec]. intros u i Hu. rewrite Hm. by apply (Hl u).
    + intros t Ht. case_bool_decide as E; [by apply W3|]. apply (wo_blocked _ _ Hw'). exists AtTimer. cbn [queue_at].
      apply list_elem_of_fmap_2. rewrite W1. apply list_elem_of_filter. split; [lia|done].
  - intros ms Hi. eapply swp_mono; [by apply sleep_spec|]. intros o k' (_ & _ & -> & Ht & Hb). split_and!; [done|done|].
    rewrite Ht. apply elem_of_app. right. by apply list_elem_of_singleton.
Qed.

(** ** Calls that bring the kernel down *)

(** C39: A call that names no object of its process, and unlocking a blocking
    mutex that is not locked, panic the kernel: there is no error return. *)
Theorem bad_sync_calls_panic k id :
  (mutex_at k (cur k).1 (Z.to_nat id) = None ->
    run_call (SysMutexLock id) k = Err Panic /\ run_call (SysMutexUnlock id) k = Err Panic) /\
  (sem_at k (cur k).1 (Z.to_nat id) = None ->
    run_call (SysSemUp id) k = Err Panic /\ run_call (SysSemDown id) k = Err Panic) /\
  (cond_at k (cur k).1 (Z.to_nat id) = None -> run_call (SysCondSignal id) k = Err Panic) /\
  (forall q, mutex_at k (cur k).1 (Z.to_nat id) = Some (MutexBlocking false q) -> run_call (SysMutexUnlock id) k = Err Panic).
Proof.
  assert (forall A (l : list (option A)), mjoin (l !! Z.to_nat id) = None -> (o ← vget l id; unwrap o) = Err Panic) as Hv.
  { intros A l. unfold vget. by destruct (l !! Z.to_nat id) as [[]|]. }
  unfold mutex_at, sem_at, cond_at. split_and!.
  - intros H%Hv. cbn. unfold sys_mutex_lock, sys_mutex_unlock, ret0, ret0', lock, unlock, get_mutex.
    unfold mbind, st_bind, sget, slift. unfold mbind in H. by rewrite H.
  - intros H%Hv. cbn. unfold sys_semaphore_up, sys_semaphore_down, ret0, ret0', up, down, get_sem.
    unfold mbind, st_bind, sget, slift. unfold mbind in H. by rewrite H.
  - intros H%Hv. cbn. unfold sys_condvar_signal, ret0', signal, get_condvar.
    unfold mbind, st_bind, sget, slift. unfold mbind in H. by rewrite H.
  - intros q H%vget_slot. cbn. unfold sys_mutex_unlock, ret0', unlock, get_mutex.
    unfold mbind, st_bind, sget, slift. unfold mbind in H. by rewrite H.
Qed.

(** ** Witnesses *)

(** A heap that finds its greatest timer by scanning. *)
Fixpoint scan (l : list TimerCondVar) : option (nat * Z) :=
  match l with
  | [] => None
  | t :: l => match scan l with
              | Some (i, b) => if timer_key t <? b then Some (S i, b) else Some (0%nat, timer_key t)
              | None => Some (0%nat, timer_key t)
              end
  end.

Lemma scan_spec l : match scan l with
  | Some (i, b) => exists t, l !! i = Some t /\ timer_key t = b /\ forall t', t' ∈ l -> timer_key t' <= b
  | None => l = []
  end.
Proof.
  induction l as [|t l IH]; simpl; [done|]. destruct (scan l) as [[i b]|].
  - destruct IH as (u & Hu & Eb & Hm). destruct (Z.ltb_spec (timer_key t) b).
    + exists u. split_and!; [done|done|]. intros t' [->|?]%elem_of_cons; [lia|by apply Hm].
    + exists t. split_and!; [done|done|]. intros t' [->|Ht']%elem_of_cons; [lia|]. specialize (Hm t' Ht'). lia.
  - subst l. exists t. split_and!; [done|done|]. intros t' ->%list_elem_of_singleton. lia.
Qed.

#[local] Instance scan_heap : BinaryHeap.
Proof.
  refine {| peek := fun l => fst <$> scan l |}.
  - intros l. pose proof (scan_spec l). by destruct (scan l) as [[]|].
  - intros l i. pose proof (scan_spec l) as H. destruct (scan l) as [[j b]|]; [|done]. intros [= <-].
    destruct H as (t & ? & <- & ?). eauto.
Defined.

#[local] Ltac valid :=
  first [exact I|vm_compute; reflexivity|split; vm_compute; congruence|by vm_compute; eexists
        |split; [split; vm_compute; congruence|first [exact I|by vm_compute; eexists|eexists; split; vm_compute; reflexivity]]].
#[local] Ltac demo c e := eapply rtc_l; [eapply (c _ _ e); [valid|try first [exact I|vm_compute; constructor]..|vm_compute; reflexivity]|].

Definition run_events (es : list event) (k : Kernel) : Kernel :=
  fold_left (fun k e => match run_event e k with Ok (_, k) => k | Err _ => k end) es k.

(** Two tasks of process 2: the first sleeps, the second has a semaphore, a
    locked mutex and a condition variable. *)
Definition demo_events : list event :=
  [ESched (OpSpawn root_task); ESched (OpSpawn (2, 1)); ESched (OpSpawn (2, 0)); ESched OpYield; ESched OpYield;
   ECall (SysSleep 5); ECall (SysSemCreate 1); ECall (SysMutexCreate true); ECall (SysMutexLock 0); ECall SysCondCreate].
Definition demo_k : Kernel := Eval vm_compute in run_events demo_events (sync_init 1000).

Lemma demo_sync_run : rtc sync_step (sync_init 1000, no_holders) (demo_k, add_events no_holders [Acquire (2, 0) 0]).
Proof.
  demo sync_event (ESched (OpSpawn root_task)). demo sync_event (ESched (OpSpawn (2, 1))).
  demo sync_event (ESched (OpSpawn (2, 0))). demo sync_event (ESched OpYield). demo sync_event (ESched OpYield).
  demo sync_event (ECall (SysSleep 5)). demo sync_event (ECall (SysSemCreate 1)).
  demo sync_event (ECall (SysMutexCreate true)). demo sync_event (ECall (SysMutexLock 0)).
  demo sync_event (ECall SysCondCreate). apply rtc_refl.
Qed.

Lemma demo_sync_ok : sync_ok demo_k.
Proof. exact (sync_reach (sync_init 1000, no_holders) (demo_k, _) (sync_init_ok 1000) demo_sync_run). Qed.


(** The second task takes the mutex after the first has handed it over. *)
Lemma demo_careful : exists k H, rtc careful_step (sync_init 1000, no_holders) (k, H) /\ H 2 0%nat = [(2, 1)].
Proof.
  eexists _, _. split.
  - demo careful_event (ESched (OpSpawn root_task)). demo careful_event (ESched (OpSpawn (2, 0))).
    demo careful_event (ESched (OpSpawn (2, 1))). demo careful_event (ESched OpYield). demo careful_event (ESched OpYield).
    demo careful_event (ECall (SysMutexCreate true)). demo careful_event (ECall (SysMutexLock 0)).
    demo careful_event (ESched OpYield). demo careful_event (ECall (SysMutexLock 0)).
    demo careful_event (ESched OpYield). demo careful_event (ECall (SysMutexUnlock 0)). demo careful_event (ESched OpYield).
    demo careful_event (ESched OpYield). demo careful_event EContinue. apply rtc_refl.
  - vm_compute. reflexivity.
Qed.


Lemma semaphore_refines_witness : exists k', down 0 demo_k = Ok (None, k') /\
  sem_at k' 2 0 = Some (mkSem 0 []) /\ swp (up 0) demo_k (fun _ k' => cur k' = (2, 0)).
Proof.
  destruct (semaphore_refines demo_k 0 (mkSem 1 []) 1 []) as [(o & k' & E & _ & m & Hm & -> & (_ & Hc & Hq & _) & _) Hu].
  - exact demo_sync_ok.
  - vm_compute. congruence.
  - vm_compute. reflexivity.
  - vm_compute. repeat split; auto; congruence.
  - lia.
  - simpl. lia.
  - exists k'. split; [exact E|]. split.
    + change 2 with (cur demo_k).1. change 0%nat with (Z.to_nat 0). rewrite Hm. destruct m as [c q]. simpl in *. by subst.
    + eapply swp_mono; [exact Hu|]. intros ? k1 (_ & Hk1 & _). exact Hk1.
Defined.

Lemma condvar_wait_signal_witness :
  swp (wait 0 0) demo_k (fun o k' => o = Some (KLock 0) /\ mutex_at k' 2 0 = Some (MutexBlocking false []) /\
    cond_at k' 2 0 = Some [(2, 0)] /\ in_state (sched k') (2, 0) Blocking).
Proof.
  destruct (condvar_wait_signal demo_k 0 0 [] (MutexBlocking true [])) as [Hw _].
  - exact demo_sync_ok.
  - vm_compute. congruence.
  - vm_compute. reflexivity.
  - vm_compute. reflexivity.
  - reflexivity.
  - eapply swp_mono; [exact Hw|]. intros o k' (H1 & H2 & H3 & H4 & _).
    exact (conj H1 (conj H2 (conj H3 H4))).
Defined.

Definition demo_late : Kernel :=
  mkKernel (sched demo_k) (tables demo_k) (timers demo_k) (conts demo_k) 7 1000.

Lemma sleepers_wake_witness : swp check_timer demo_late (fun _ k' => timers k' = [] /\ in_state (sched k') (2, 1) Ready).
Proof.
  destruct (sleepers_wake demo_late) as [Hw _].
  - destruct demo_sync_ok as [H1 H2 H3]. split; [|exact H2|exact H3].
    apply (waits_same (sched demo_k) (queue_at demo_k)); [exact H1|]. intros []; reflexivity.
  - unfold timers_ok. change (timers demo_late) with [mkTimer 5 (2, 1)]. constructor; [cbn; lia|constructor].
  - eapply swp_mono; [exact Hw|]. intros ? k' (_ & _ & Ht & Hs). split; [rewrite Ht; vm_compute; reflexivity|].
    specialize (Hs (mkTimer 5 (2, 1))). rewrite bool_decide_true in Hs by (vm_compute; congruence).
    apply Hs. vm_compute. constructor.
Defined.

Lemma bad_sync_calls_panic_witness : run_call (SysMutexUnlock 0) (run_events [ECall (SysMutexUnlock 0)] demo_k) = Err Panic /\
  run_call (SysSemUp 7) demo_k = Err Panic.
Proof.
  split.
  - apply (bad_sync_calls_panic (run_events [ECall (SysMutexUnlock 0)] demo_k) 0) with (q := []). vm_compute. reflexivity.
  - apply (bad_sync_calls_panic demo_k 7). vm_compute. reflexivity.
Defined.
