(* ===== verification/Signal.v ===== *)
(** Signals: flags and actions (os/src/task/signal.rs), their delivery to the
    current task (os/src/task/structs.rs), the calls that concern one task
    (os/src/syscall/signal.rs), and trap frames (os/src/trap/context.rs).

    [handle_signals] runs on the way back to user mode; one pass of its loop is
    [signals_pass]. *)
From S2P Require Import Prelude.

(** ** Trap frames *)

Record TrapFrame := mkTF { r : list Z; usp : Z; elr : Z; spsr : Z }.

Definition set_r (tf : TrapFrame) (i : nat) (v : Z) : TrapFrame := mkTF (<[i := v]> (r tf)) (usp tf) (elr tf) (spsr tf).
Definition set_elr (tf : TrapFrame) (v : Z) : TrapFrame := mkTF (r tf) (usp tf) v (spsr tf).

(** D, A and F masked, I unmasked, EL0t. *)
Definition USER_SPSR : Z := 0x340.
Definition TF_new_user (entry ustack_top : Z) : TrapFrame := mkTF (replicate 31 0) ustack_top entry USER_SPSR.
Definition TF_new_user_arg (entry ustack_top arg0 arg1 : Z) : TrapFrame :=
  set_r (set_r (TF_new_user entry ustack_top) 0 arg0) 1 arg1.
Definition TF_new_fork (tf : TrapFrame) : TrapFrame := set_r tf 0 0.

(** ** Signal flags: a 32-bit set, all of whose bits are flags *)

Definition MAX_SIG : Z := 31.
Definition SIGDEF : Z := Z.shiftl 1 0.
Definition SIGHUP : Z := Z.shiftl 1 1.
Definition SIGINT : Z := Z.shiftl 1 2.
Definition SIGQUIT : Z := Z.shiftl 1 3.
Definition SIGILL : Z := Z.shiftl 1 4.
Definition SIGTRAP : Z := Z.shiftl 1 5.
Definition SIGABRT : Z := Z.shiftl 1 6.
Definition SIGBUS : Z := Z.shiftl 1 7.
Definition SIGFPE : Z := Z.shiftl 1 8.
Definition SIGKILL : Z := Z.shiftl 1 9.
Definition SIGUSR1 : Z := Z.shiftl 1 10.
Definition SIGSEGV : Z := Z.shiftl 1 11.
Definition SIGUSR2 : Z := Z.shiftl 1 12.
Definition SIGPIPE : Z := Z.shiftl 1 13.
Definition SIGALRM : Z := Z.shiftl 1 14.
Definition SIGTERM : Z := Z.shiftl 1 15.
Definition SIGSTKFLT : Z := Z.shiftl 1 16.
Definition SIGCHLD : Z := Z.shiftl 1 17.
Definition SIGCONT : Z := Z.shiftl 1 18.
Definition SIGSTOP : Z := Z.shiftl 1 19.
Definition SIGTSTP : Z := Z.shiftl 1 20.
Definition SIGTTIN : Z := Z.shiftl 1 21.
Definition SIGTTOU : Z := Z.shiftl 1 22.
Definition SIGURG : Z := Z.shiftl 1 23.
Definition SIGXCPU : Z := Z.shiftl 1 24.
Definition SIGXFSZ : Z := Z.shiftl 1 25.
Definition SIGVTALRM : Z := Z.shiftl 1 26.
Definition SIGPROF : Z := Z.shiftl 1 27.
Definition SIGWINCH : Z := Z.shiftl 1 28.
Definition SIGIO : Z := Z.shiftl 1 29.
Definition SIGPWR : Z := Z.shiftl 1 30.
Definition SIGSYS : Z := Z.shiftl 1 31.
Definition KERNEL_SIGNAL : Z := Z.lor (Z.lor SIGKILL SIGSTOP) (Z.lor SIGCONT SIGDEF).
Definition TRAP_QUIT : Z := Z.lor SIGQUIT SIGTRAP.

(** [contains] and [1 << sig] of bitflags; the shift takes its count modulo 32. *)
Definition contains (s f : Z) : bool := Z.land s f =? f.
Definition sig_flag (sig : Z) : Z := Z.shiftl 1 (sig `mod` 32).

Definition check_error (s : Z) : option Z :=
  if contains s SIGINT then Some (-2)
  else if contains s SIGILL then Some (-4)
  else if contains s SIGABRT then Some (-6)
  else if contains s SIGFPE then Some (-8)
  else if contains s SIGKILL then Some (-9)
  else if contains s SIGSEGV then Some (-11)
  else None.

Record SignalAction := mkAction { handler : Z; mask : Z }.
Definition SignalAction_default : SignalAction := mkAction 0 40.
Definition SignalActions_default : list SignalAction := replicate 32 SignalAction_default.

Record SignalInner := mkInner {
  signals : Z;
  signal_mask : Z;
  handling_sig : option Z;
  killed : bool;
  frozen : bool;
  mask_backup : option Z;
  trapframe_backup : option TrapFrame;
}.
Definition SignalInner_new : SignalInner := mkInner 0 0 None false false None None.

Definition set_signals (s : SignalInner) (x : Z) : SignalInner :=
  mkInner x (signal_mask s) (handling_sig s) (killed s) (frozen s) (mask_backup s) (trapframe_backup s).
Definition set_killed (s : SignalInner) : SignalInner :=
  mkInner (signals s) (signal_mask s) (handling_sig s) true (frozen s) (mask_backup s) (trapframe_backup s).
Definition set_frozen (s : SignalInner) (b : bool) : SignalInner :=
  mkInner (signals s) (signal_mask s) (handling_sig s) (killed s) b (mask_backup s) (trapframe_backup s).

(** ** Delivery *)

Definition set_singal (s : SignalInner) (signal : Z) : SignalInner := set_signals s (Z.lor (signals s) signal).

Definition singal_metadata (actions : list SignalAction) (s : SignalInner) : res (Z * option Z) :=
  let masked_signal := Z.land (signals s) (signal_mask s) in
  match handling_sig s with
  | Some sig => action ← vget actions sig; Ok (masked_signal, Some (mask action))
  | None => Ok (masked_signal, None)
  end.

Definition kernel_signal_handler (s : SignalInner) (signal : Z) : SignalInner :=
  if signal =? SIGSTOP then set_signals (set_frozen s true) (Z.lxor (signals s) SIGSTOP)
  else if signal =? SIGCONT then
    if contains (signals s) SIGCONT then set_frozen (set_signals s (Z.lxor (signals s) SIGCONT)) false else s
  else set_killed s.

Definition user_signal_handler (actions : list SignalAction) (s : SignalInner) (sig : Z) (tf : TrapFrame) :
    res (SignalInner * TrapFrame) :=
  action ← vget actions sig;
  if negb (handler action =? 0) then
    Ok (mkInner (Z.lxor (signals s) (sig_flag sig)) (mask action) (Some sig) (killed s) (frozen s)
          (Some (signal_mask s)) (Some tf),
        set_r (set_elr tf (handler action)) 0 sig)
  else Ok (s, tf).

(** Whether the loop of [check_pending_signals] stops at [sig]. *)
Definition deliverable (masked_singal : Z) (handling_sig_mask : option Z) (sig : Z) : bool :=
  contains masked_singal (sig_flag sig) &&
  match handling_sig_mask with None => true | Some m => contains m (sig_flag sig) end.

Fixpoint check_from (n : nat) (actions : list SignalAction) (s : SignalInner) (tf : TrapFrame) (sig : Z) :
    res (option Z * SignalInner * TrapFrame) :=
  match n with
  | O => Ok (None, s, tf)
  | S n =>
      '(masked_singal, handling_sig_mask) ← singal_metadata actions s;
      if deliverable masked_singal handling_sig_mask sig then
        let signal := sig_flag sig in
        if contains KERNEL_SIGNAL signal then Ok (Some signal, kernel_signal_handler s signal, tf)
        else '(s, tf) ← user_signal_handler actions s sig tf; Ok (Some signal, s, tf)
      else check_from n actions s tf (sig + 1)
  end.
Definition check_pending_signals (actions : list SignalAction) (s : SignalInner) (tf : TrapFrame) :
    res (option Z * SignalInner * TrapFrame) :=
  check_from (Z.to_nat (MAX_SIG + 1)) actions s tf 0.

(** One pass of the loop: back to user mode, the exit code of the task, or the
    task blocks, to go on with the next pass when it runs again. *)
Inductive verdict := ToUser | Exit (errno : Z) | Block.
Definition signals_pass (actions : list SignalAction) (s : SignalInner) (tf : TrapFrame) :
    res (verdict * SignalInner * TrapFrame) :=
  '(_, s, tf) ← check_pending_signals actions s tf;
  if killed s || negb (frozen s) then
    Ok (match check_error (signals s) with Some errno => Exit errno | None => ToUser end, s, tf)
  else Ok (Block, s, tf).

(** ** System calls *)

Definition sys_sigprocmask (s : SignalInner) (m : Z) : Z * SignalInner :=
  (signal_mask s, mkInner (signals s) m (handling_sig s) (killed s) (frozen s) (mask_backup s) (trapframe_backup s)).

Definition sys_sigretrun (s : SignalInner) (tf : TrapFrame) : res (Z * SignalInner * TrapFrame) :=
  match trapframe_backup s with
  | Some backup =>
      m ← unwrap (mask_backup s);
      Ok (0, mkInner (signals s) m None (killed s) (frozen s) None None, backup)
  | None => Ok (-1, s, tf)
  end.

(** [um] is user memory as far as it holds actions: what a pointer to one reads. *)
Definition um_write (um : Z -> SignalAction) (p : Z) (a : SignalAction) : Z -> SignalAction :=
  fun q => if q =? p then a else um q.
Definition sys_sigaction (actions : list SignalAction) (um : Z -> SignalAction) (signum action old_action : Z) :
    res (Z * list SignalAction * (Z -> SignalAction)) :=
  if MAX_SIG <? usize signum then Ok (-1, actions, um) else
  let signal := sig_flag signum in
  if (action =? 0) || (old_action =? 0) || (signal =? SIGKILL) || (signal =? SIGSTOP) then Ok (-1, actions, um) else
  old_kernel_action ← vget actions signum;
  let um := if negb (mask old_kernel_action =? TRAP_QUIT) then um_write um old_action old_kernel_action
            else um_write um old_action (mkAction (handler old_kernel_action) (mask (um old_action))) in
  actions ← vset actions signum (um action);
  Ok (0, actions, um).

(** The trap of a system call: [handle_sync_exception] stores the result in x0,
    also when the call has replaced the frame. *)
Definition svc_sigreturn (s : SignalInner) (tf : TrapFrame) : res (SignalInner * TrapFrame) :=
  match sys_sigretrun s tf with
  | Ok (ret, s, tf) => Ok (s, set_r tf 0 (u64 ret))
  | Err e => Err e
  end.

(** ** Bits *)

Lemma sig_flag_bits sig i : 0 <= sig < 32 -> 0 <= i -> Z.testbit (sig_flag sig) i = (i =? sig).
Proof.
  intros Hs Hi. unfold sig_flag. rewrite Z.mod_small by done. rewrite Z.shiftl_1_l.
  destruct (Z.eqb_spec i sig) as [->|E]; [apply Z.pow2_bits_true; lia|apply Z.pow2_bits_false; lia].
Qed.

Lemma contains_bit s sig : 0 <= sig < 32 -> contains s (sig_flag sig) = Z.testbit s sig.
Proof.
  intros Hs. unfold contains. destruct (Z.eqb_spec (Z.land s (sig_flag sig)) (sig_flag sig)) as [E|E].
  - rewrite <- (andb_true_r (Z.testbit s sig)). rewrite <- (Z.eqb_refl sig), <- (sig_flag_bits sig sig) by lia.
    rewrite <- Z.land_spec, E, sig_flag_bits by lia. by rewrite Z.eqb_refl.
  - symmetry. apply not_true_iff_false. intros Hb. apply E. apply Z.bits_inj'. intros i Hi.
    rewrite Z.land_spec, sig_flag_bits by done. destruct (Z.eqb_spec i sig) as [->|]; [by rewrite Hb|apply andb_false_r].
Qed.

Lemma lxor_flag s sig i : 0 <= sig < 32 -> 0 <= i -> Z.testbit s sig = true ->
  Z.testbit (Z.lxor s (sig_flag sig)) i = Z.testbit s i && negb (i =? sig).
Proof.
  intros Hs Hi Hb. rewrite Z.lxor_spec, sig_flag_bits by lia. destruct (Z.eqb_spec i sig) as [->|].
  - by rewrite Hb.
  - by rewrite xorb_false_r, andb_true_r.
Qed.

(** ** The signal that is delivered *)

(** The signals the task would take, given the action of the one it handles. *)
Definition takes (actions : list SignalAction) (s : SignalInner) (sig : Z) : bool :=
  Z.testbit (signals s) sig && Z.testbit (signal_mask s) sig &&
  match handling_sig s with
  | Some h => match actions !! Z.to_nat h with Some a => Z.testbit (mask a) sig | None => false end
  | None => true
  end.

(** What makes a task's signal state well formed: the signal being handled has an
    action, and a saved frame comes with a saved mask. *)
Record sig_ok (actions : list SignalAction) (s : SignalInner) : Prop := {
  sg_actions : length actions = 32%nat;
  sg_handling h : handling_sig s = Some h -> 0 <= h < 32;
  sg_backup : is_Some (trapframe_backup s) <-> is_Some (mask_backup s);
}.

Lemma action_at (actions : list SignalAction) h : length actions = 32%nat -> 0 <= h < 32 -> exists a, actions !! Z.to_nat h = Some a /\ vget actions h = Ok a.
Proof.
  intros Hl Hh. destruct (lookup_lt_is_Some_2 actions (Z.to_nat h)) as [a Ha]; [lia|]. exists a. split; [done|]. by apply vget_Ok.
Qed.

Lemma metadata_ok actions s : sig_ok actions s -> exists o, singal_metadata actions s = Ok (Z.land (signals s) (signal_mask s), o) /\
  forall sig, 0 <= sig < 32 -> deliverable (Z.land (signals s) (signal_mask s)) o sig = takes actions s sig.
Proof.
  intros [Hl Hh _]. unfold singal_metadata, takes, deliverable. destruct (handling_sig s) as [h|].
  - destruct (action_at actions h Hl (Hh h eq_refl)) as (a & Ha & Hv). rewrite Hv, Ha. eexists. split; [done|].
    intros sig Hs. by rewrite !contains_bit, Z.land_spec by done.
  - eexists. split; [done|]. intros sig Hs. by rewrite !contains_bit, Z.land_spec by done.
Qed.

(** What delivering [sig] does. *)
Definition delivered (actions : list SignalAction) (s : SignalInner) (tf : TrapFrame) (sig : Z) : res (option Z * SignalInner * TrapFrame) :=
  if contains KERNEL_SIGNAL (sig_flag sig) then Ok (Some (sig_flag sig), kernel_signal_handler s (sig_flag sig), tf)
  else '(s, tf) ← user_signal_handler actions s sig tf; Ok (Some (sig_flag sig), s, tf).

Lemma check_from_spec actions s tf n : forall sig, sig_ok actions s -> 0 <= sig -> sig + Z.of_nat n <= 32 ->
  check_from n actions s tf sig =
    match find_index (takes actions s) (seqZ sig (Z.of_nat n)) with
    | Some (_, sig) => delivered actions s tf sig
    | None => Ok (None, s, tf)
    end.
Proof.
  induction n as [|n IH]; intros sig Hok Hs Hn; [done|].
  destruct (metadata_ok actions s Hok) as (o & Hm & Hd). cbn [check_from]. rewrite Hm. cbn [mbind res_bind].
  rewrite Hd by lia. rewrite (seqZ_cons sig) by lia. cbn [find_index]. destruct (takes actions s sig) eqn:Et; [done|].
  rewrite IH by lia || done. replace (Z.succ sig) with (sig + 1) by lia. replace (Z.pred (Z.of_nat (S n))) with (Z.of_nat n) by lia.
  by destruct (find_index _ _) as [[]|].
Qed.

Lemma delivered_ok actions s tf sig : sig_ok actions s -> 0 <= sig < 32 ->
  exists s' tf', delivered actions s tf sig = Ok (Some (sig_flag sig), s', tf') /\ sig_ok actions s'.
Proof.
  intros Hok Hs. pose proof Hok as [Hl Hh Hb]. unfold delivered. destruct (contains _ _).
  - eexists _, _. split; [done|]. unfold kernel_signal_handler. repeat case_match; by split.
  - unfold user_signal_handler. destruct (action_at actions sig Hl Hs) as (a & _ & Hv). rewrite Hv. cbn [mbind res_bind].
    destruct (negb (handler a =? 0)); eexists _, _; (split; [done|]); [|done].
    split; [done|intros h [= <-]; done|]. split; intros _; by eexists.
Qed.

Lemma check_pending_spec actions s tf : sig_ok actions s ->
  check_pending_signals actions s tf =
    match find_index (takes actions s) (seqZ 0 32) with
    | Some (_, sig) => delivered actions s tf sig
    | None => Ok (None, s, tf)
    end.
Proof. intros Hok. unfold check_pending_signals, MAX_SIG. by rewrite check_from_spec by done. Qed.

Lemma first_taken actions s sig : 0 <= sig < 32 -> takes actions s sig = true ->
  (forall j, 0 <= j < sig -> takes actions s j = false) ->
  find_index (takes actions s) (seqZ 0 32) = Some (Z.to_nat sig, sig).
Proof.
  intros Hs Ht Hmin. apply find_index_Some. split_and!; [apply lookup_seqZ; lia|done|].
  intros j y Hj Hy. apply lookup_seqZ in Hy as [-> _]. apply Hmin. lia.
Qed.

Lemma find_taken actions s : match find_index (takes actions s) (seqZ 0 32) with
  | Some (_, sig) => 0 <= sig < 32 /\ takes actions s sig = true /\ forall j, 0 <= j < sig -> takes actions s j = false
  | None => forall sig, 0 <= sig < 32 -> takes actions s sig = false
  end.
Proof.
  destruct (find_index _ _) as [[i sig]|] eqn:F.
  - apply find_index_Some in F as (Hl & Ht & Hmin). apply lookup_seqZ in Hl as [-> Hi]. split_and!; [lia|lia|done|].
    intros j Hj. apply (Hmin (Z.to_nat j)); [lia|]. apply lookup_seqZ. lia.
  - apply find_index_None in F. intros sig Hs. apply (proj1 (Forall_forall _ _) F). apply elem_of_seqZ. lia.
Qed.

Lemma pass_ok actions s tf : sig_ok actions s ->
  exists v s' tf', signals_pass actions s tf = Ok (v, s', tf') /\ sig_ok actions s'.
Proof.
  intros Hok. unfold signals_pass. rewrite check_pending_spec by done. pose proof (find_taken actions s) as Hf.
  assert (exists o s1 tf1, match find_index (takes actions s) (seqZ 0 32) with
    | Some (_, sig) => delivered actions s tf sig | None => Ok (None, s, tf) end = Ok (o, s1, tf1) /\ sig_ok actions s1) as (o & s1 & tf1 & -> & Hok1).
  { destruct (find_index _ _) as [[i sig]|]; [|eauto 6]. destruct Hf as (Hs & _).
    destruct (delivered_ok actions s tf sig Hok Hs) as (s1 & tf1 & -> & ?). eauto 6. }
  cbn [mbind res_bind]. destruct (killed s1 || negb (frozen s1)); eauto 6.
Qed.


(** C32: Delivery picks the lowest-numbered signal that is pending, enabled by the
    mask and, while a signal is being handled, enabled by its action.  If it is a
    user signal with a handler, the task goes to the handler with the signal in
    x0, its frame and mask saved, and the signal no longer pending. *)
Theorem signal_delivery actions s tf sig a : sig_ok actions s -> 0 <= sig < 32 ->
  takes actions s sig = true -> (forall j, 0 <= j < sig -> takes actions s j = false) ->
  contains KERNEL_SIGNAL (sig_flag sig) = false -> actions !! Z.to_nat sig = Some a -> handler a <> 0 ->
  exists s' tf', check_pending_signals actions s tf = Ok (Some (sig_flag sig), s', tf') /\
    (forall i, 0 <= i < 32 -> Z.testbit (signals s') i = Z.testbit (signals s) i && negb (i =? sig)) /\
    signal_mask s' = mask a /\ handling_sig s' = Some sig /\
    mask_backup s' = Some (signal_mask s) /\ trapframe_backup s' = Some tf /\
    elr tf' = handler a /\ usp tf' = usp tf /\ spsr tf' = spsr tf /\ r tf' = <[0%nat := sig]> (r tf).
Proof.
  intros Hok Hs Ht Hmin Hk Ha Hh. rewrite check_pending_spec by done. rewrite (first_taken _ _ _ Hs Ht Hmin).
  unfold delivered, user_signal_handler. rewrite Hk. rewrite (proj2 (vget_Ok actions sig a) Ha). cbn [mbind res_bind].
  rewrite (proj2 (Z.eqb_neq _ _) Hh). cbn [negb]. eexists _, _. split; [done|]. cbn. split_and!; [|done..].
  intros i Hi. apply lxor_flag; [done|lia|]. unfold takes in Ht. by destruct (Z.testbit (signals s) sig).
Qed.

(** C33: Returning from a handler undoes its delivery, whatever the handler has
    done to the registers and whichever signals have come meanwhile: mask, stack
    pointer, program counter and registers are those at the delivery, except x0,
    which is 0: the result of [sigreturn] overwrites it. *)
Theorem signal_return_roundtrip actions s tf sig a s1 tf1 s2 tf2 : sig_ok actions s -> 0 <= sig < 32 ->
  actions !! Z.to_nat sig = Some a -> handler a <> 0 ->
  user_signal_handler actions s sig tf = Ok (s1, tf1) ->
  trapframe_backup s2 = trapframe_backup s1 -> mask_backup s2 = mask_backup s1 ->
  svc_sigreturn s2 tf2 = Ok (mkInner (signals s2) (signal_mask s) None (killed s2) (frozen s2) None None, set_r tf 0 0).
Proof.
  intros Hok Hs Ha Hh Hu Et Em. unfold user_signal_handler in Hu.
  rewrite (proj2 (vget_Ok actions sig a) Ha) in Hu. cbn [mbind res_bind] in Hu.
  rewrite (proj2 (Z.eqb_neq _ _) Hh) in Hu. injection Hu as <- <-. cbn in Et, Em.
  unfold svc_sigreturn, sys_sigretrun. by rewrite Et, Em.
Qed.

Lemma check_error_bits s : check_error s =
  if Z.testbit s 2 then Some (-2) else if Z.testbit s 4 then Some (-4) else if Z.testbit s 6 then Some (-6)
  else if Z.testbit s 8 then Some (-8) else if Z.testbit s 9 then Some (-9) else if Z.testbit s 11 then Some (-11) else None.
Proof.
  unfold check_error. rewrite <- !contains_bit by lia. reflexivity.
Qed.

(** The signals that end a task. *)
Definition fatal : list Z := [2; 4; 6; 8; 9; 11].

Lemma sig_flag_inj sig n : 0 <= sig < 32 -> 0 <= n < 32 -> sig_flag sig = sig_flag n -> sig = n.
Proof.
  intros Hs Hn E. assert (Z.testbit (sig_flag sig) sig = Z.testbit (sig_flag n) sig) as Hb by (by rewrite E).
  rewrite !sig_flag_bits in Hb by lia. rewrite Z.eqb_refl in Hb. by destruct (Z.eqb_spec sig n).
Qed.

(** The three kernel handlers on a signal that is pending. *)
Lemma kernel_handler s sig : 0 <= sig < 32 -> Z.testbit (signals s) sig = true ->
  kernel_signal_handler s (sig_flag sig) =
    if sig =? 19 then set_signals (set_frozen s true) (Z.lxor (signals s) (sig_flag 19))
    else if sig =? 18 then set_frozen (set_signals s (Z.lxor (signals s) (sig_flag 18))) false
    else set_killed s.
Proof.
  intros Hs Hp. unfold kernel_signal_handler. change SIGSTOP with (sig_flag 19). change SIGCONT with (sig_flag 18).
  destruct (Z.eqb_spec (sig_flag sig) (sig_flag 19)) as [->%sig_flag_inj|]; [done|lia|lia|].
  destruct (Z.eqb_spec sig 19) as [->|]; [done|].
  destruct (Z.eqb_spec (sig_flag sig) (sig_flag 18)) as [->%sig_flag_inj|]; [|lia|lia|].
  - by rewrite contains_bit, Hp by lia.
  - by destruct (Z.eqb_spec sig 18) as [->|].
Qed.

(** A delivery only takes its signal away, and not a fatal one without handler. *)
Lemma delivered_bits actions s tf sig o s' tf' i : sig_ok actions s -> 0 <= sig < 32 -> takes actions s sig = true ->
  delivered actions s tf sig = Ok (o, s', tf') -> 0 <= i < 32 ->
  (Z.testbit (signals s') i = true -> Z.testbit (signals s) i = true) /\
  (i <> 18 -> i <> 19 -> (forall a, actions !! Z.to_nat i = Some a -> handler a = 0) ->
    Z.testbit (signals s') i = Z.testbit (signals s) i) /\
  (sig <> 19 -> frozen s' = true -> frozen s = true).
Proof.
  intros [Hl _ _] Hs Ht Hd Hi. assert (Z.testbit (signals s) sig = true) as Hp.
  { unfold takes in Ht. by destruct (Z.testbit (signals s) sig). }
  assert (Z.testbit (Z.lxor (signals s) (sig_flag sig)) i = Z.testbit (signals s) i && negb (i =? sig)) as Hx.
  { apply lxor_flag; [done|lia|done]. }
  unfold delivered in Hd. destruct (contains KERNEL_SIGNAL (sig_flag sig)) eqn:Ek.
  - injection Hd as <- <- <-. rewrite kernel_handler by done.
    destruct (Z.eqb_spec sig 19) as [->|]; [|destruct (Z.eqb_spec sig 18) as [->|]; [|auto]].
    all: cbn [signals set_signals set_frozen frozen]; rewrite Hx; split_and!; [by intros [? _]%andb_prop| |done].
    all: intros; rewrite (proj2 (Z.eqb_neq _ _)) by done; apply andb_true_r.
  - unfold user_signal_handler in Hd. destruct (action_at actions sig Hl Hs) as (a & Ha & Hv). rewrite Hv in Hd.
    cbn [mbind res_bind] in Hd. destruct (Z.eqb_spec (handler a) 0) as [E|E]; cbn [negb] in Hd; injection Hd as <- <- <-; [auto|].
    cbn [signals]. rewrite Hx. split_and!; [by intros [? _]%andb_prop| |done].
    intros _ _ Hn. rewrite (proj2 (Z.eqb_neq _ _)); [apply andb_true_r|]. intros ->. by apply E, Hn.
Qed.

Lemma check_error_fatal s i : i ∈ fatal -> Z.testbit s i = true ->
  exists j, j ∈ fatal /\ j <= i /\ Z.testbit s j = true /\ check_error s = Some (- j).
Proof.
  intros Hi Hb. rewrite check_error_bits. unfold fatal in *.
  destruct (Z.testbit s 2) eqn:E2; [exists 2|destruct (Z.testbit s 4) eqn:E4; [exists 4|destruct (Z.testbit s 6) eqn:E6; [exists 6|
    destruct (Z.testbit s 8) eqn:E8; [exists 8|destruct (Z.testbit s 9) eqn:E9; [exists 9|destruct (Z.testbit s 11) eqn:E11; [exists 11|]]]]]].
  all: repeat (apply elem_of_cons in Hi as [->|Hi]; [try congruence; (split_and!; [rewrite !elem_of_cons; auto 8|lia|done|done])|]).
  all: by apply elem_of_nil in Hi.
Qed.


(** Two signals that are taken and have no effect.  A user signal without
    handler, lower than every other deliverable one, is not discarded: each pass
    stops at it and changes nothing, so no other signal is delivered any more, not
    even SIGSTOP.  SIGDEF marks the task killed, but the exit code is looked up
    among the fatal signals, of which it is not one, and the task goes back to user
    mode. *)
Theorem signals_without_effect actions s tf sig a : sig_ok actions s -> 0 <= sig < 32 ->
  takes actions s sig = true -> (forall j, 0 <= j < sig -> takes actions s j = false) ->
  actions !! Z.to_nat sig = Some a ->
  (contains KERNEL_SIGNAL (sig_flag sig) = false -> handler a = 0 -> exists v, signals_pass actions s tf = Ok (v, s, tf)) /\
  (sig_flag sig = SIGDEF -> check_error (signals s) = None -> signals_pass actions s tf = Ok (ToUser, set_killed s, tf)).
Proof.
  intros Hok Hs Ht Hmin Ha. unfold signals_pass. rewrite check_pending_spec by done. rewrite (first_taken _ _ _ Hs Ht Hmin). split.
  - intros Hk Hh. unfold delivered, user_signal_handler. rewrite Hk. rewrite (proj2 (vget_Ok actions sig a) Ha). cbn [mbind res_bind].
    rewrite Hh. cbn. destruct (killed s || negb (frozen s)); eauto.
  - intros E He. change SIGDEF with (sig_flag 0) in E. apply sig_flag_inj in E as ->; [|done|lia].
    change (delivered actions s tf 0) with (@Ok (option Z * SignalInner * TrapFrame) (Some (sig_flag 0), set_killed s, tf)). cbn. by rewrite He.
Qed.

(** ** Witnesses *)

Definition demo_actions : list SignalAction := <[10%nat := mkAction 0x1234 0]> SignalActions_default.
Definition demo_inner (pending : Z) : SignalInner := set_signals (sys_sigprocmask SignalInner_new 0xFFFFFFFF).2 pending.
Definition demo_tf : TrapFrame := set_r (TF_new_user 0x400000 0x8000) 0 77.

Lemma demo_sig_ok p : sig_ok demo_actions (demo_inner p).
Proof. split; [reflexivity|done|]. split; intros [? ?]; done. Qed.

Lemma not_taken actions s n : forallb (fun j => negb (takes actions s j)) (seqZ 0 n) = true ->
  forall j, 0 <= j < n -> takes actions s j = false.
Proof.
  intros H j Hj. apply negb_true_iff. apply (proj1 (forallb_forall _ _) H). apply list_elem_of_In, elem_of_seqZ. lia.
Qed.


Lemma signal_delivery_witness : exists s' tf',
  check_pending_signals demo_actions (demo_inner (Z.lor SIGUSR1 SIGSEGV)) demo_tf = Ok (Some SIGUSR1, s', tf') /\ elr tf' = 0x1234.
Proof.
  destruct (signal_delivery demo_actions (demo_inner (Z.lor SIGUSR1 SIGSEGV)) demo_tf 10 (mkAction 0x1234 0))
    as (s' & tf' & H & _ & _ & _ & _ & _ & He & _).
  - apply demo_sig_ok.
  - lia.
  - reflexivity.
  - apply not_taken. reflexivity.
  - reflexivity.
  - reflexivity.
  - discriminate.
  - exists s', tf'. split; [exact H|exact He].
Defined.

Lemma signal_return_roundtrip_witness : exists s1 tf1, user_signal_handler demo_actions (demo_inner SIGUSR1) 10 demo_tf = Ok (s1, tf1) /\
  svc_sigreturn s1 (TF_new_user 0 0) = Ok (demo_inner 0, set_r demo_tf 0 0) /\ r demo_tf !! 0%nat = Some 77.
Proof.
  eexists _, _. split; [reflexivity|]. split; [|reflexivity].
  refine (eq_trans (signal_return_roundtrip demo_actions (demo_inner SIGUSR1) demo_tf 10 (mkAction 0x1234 0) _ _ _ _ _ _ _ _ _ _ _) _).
  - apply demo_sig_ok.
  - lia.
  - reflexivity.
  - discriminate.
  - reflexivity.
  - reflexivity.
  - reflexivity.
  - reflexivity.
Defined.


Lemma signals_without_effect_witness : (exists v, signals_pass demo_actions (demo_inner (Z.lor SIGHUP SIGSTOP)) demo_tf = Ok (v, demo_inner (Z.lor SIGHUP SIGSTOP), demo_tf)) /\
  signals_pass demo_actions (demo_inner SIGDEF) demo_tf = Ok (ToUser, set_killed (demo_inner SIGDEF), demo_tf).
Proof.
  split.
  - refine (proj1 (signals_without_effect demo_actions (demo_inner (Z.lor SIGHUP SIGSTOP)) demo_tf 1 SignalAction_default _ _ _ _ _) _ _).
    + apply demo_sig_ok.
    + lia.
    + reflexivity.
    + apply not_taken. reflexivity.
    + reflexivity.
    + reflexivity.
    + reflexivity.
  - refine (proj2 (signals_without_effect demo_actions (demo_inner SIGDEF) demo_tf 0 SignalAction_default _ _ _ _ _) _ _).
    + apply demo_sig_ok.
    + lia.
    + reflexivity.
    + apply not_taken. reflexivity.
    + reflexivity.
    + reflexivity.
    + reflexivity.
Defined.
