(* ===== verification/UserAccess.v ===== *)
(** Access to user memory (os/src/mm/uaccess.rs) and the arguments of a program:
    how [exec] reads them from the caller (os/src/syscall/process.rs), pushes them
    on the new stack (os/src/task/structs.rs), and how the new program finds them
    (user/src/lib.rs).

    [um] is the memory of the current address space as user addresses see it: a
    byte for each mapped address. *)
From S2P Require Import Prelude ByteCodec Address Signal.

Abbreviation UMem := (gmap Z Z).

Definition USER_ASPACE_END : Z := 0x1000000000000.

Definition rd (um : UMem) (a : Z) : res Z := match um !! a with Some b => Ok b | None => Err DataAbort end.
Definition wr (um : UMem) (a b : Z) : res UMem := match um !! a with Some _ => Ok (<[a := b]> um) | None => Err DataAbort end.

Fixpoint rd_bytes (n : nat) (um : UMem) (a : Z) : res (list Z) :=
  match n with O => Ok [] | S n => b ← rd um a; l ← rd_bytes n um (a + 1); Ok (b :: l) end.
Fixpoint wr_bytes (um : UMem) (a : Z) (l : list Z) : res UMem :=
  match l with [] => Ok um | b :: l => um ← wr um a b; wr_bytes um (a + 1) l end.

(** ** Checked access *)

Definition uaccess_ok (vaddr size : Z) : bool :=
  negb (vaddr =? 0) && (0 <=? vaddr) && (vaddr <=? usize (USER_ASPACE_END - size)).

(** [len] values of [size] bytes each. *)
Definition copy_from_user (um : UMem) (usrc len size : Z) : res (list Z) :=
  _ ← rassert (uaccess_ok usrc (usize (len * size)));
  rd_bytes (Z.to_nat (len * size)) um usrc.
Definition copy_to_user (um : UMem) (udst : Z) (ksrc : list Z) (size : Z) : res UMem :=
  _ ← rassert (uaccess_ok udst (usize (Zlength ksrc)));
  wr_bytes um udst ksrc.

(** The loop of [copy_from_user_str]; the bytes read. *)
Fixpoint copy_str (fuel : nat) (um : UMem) (usrc : Z) : res (list Z) :=
  match fuel with
  | O => Ok []
  | S fuel =>
      _ ← rassert (usrc <? USER_ASPACE_END);
      c ← rd um usrc;
      if c =? 0 then Ok [] else
      l ← copy_str fuel um (usrc + 1);
      Ok (c :: l)
  end.
Definition copy_from_user_str (um : UMem) (usrc max_len : Z) : res (list Z) :=
  _ ← rassert (uaccess_ok usrc 1);
  copy_str (Z.to_nat max_len) um usrc.

(** ** [UserPtr] for values of [size] bytes, which are also their alignment *)

Definition ptr_check (ptr size : Z) : bool := uaccess_ok ptr 1 && (ptr `mod` size =? 0).
Definition ptr_add (ptr count size : Z) : Z := usize (ptr + count * size).

(** [read] and [write] of an integer of [size] bytes. *)
Definition ptr_read (um : UMem) (ptr size : Z) : res Z :=
  _ ← rassert (ptr_check ptr size);
  l ← copy_from_user um ptr 1 size;
  Ok (le_Z l).
Definition ptr_write (um : UMem) (ptr size value : Z) : res UMem :=
  _ ← rassert (ptr_check ptr size);
  copy_to_user um ptr (le_bytes (Z.to_nat size) value) size.
(** [read_array] of bytes and [write_buf] of bytes. *)
Definition read_array (um : UMem) (ptr n max_len : Z) : res (list Z) :=
  _ ← rassert (ptr_check ptr 1);
  copy_from_user um ptr (Z.min max_len n) 1.
Definition write_buf (um : UMem) (ptr : Z) (buf : list Z) : res UMem :=
  _ ← rassert (ptr_check ptr 1);
  copy_to_user um ptr buf 1.

Definition read_str (um : UMem) (ptr n : Z) : res (list Z) :=
  _ ← rassert (ptr_check ptr 1);
  copy_from_user_str um ptr (n - 1).

(** [(0usize..).find(|i| *ptr.add(i) == 0)]: the bytes up to the first zero.  The
    loop ends at a zero or at an address that is not mapped, so it takes no more
    steps than there are mapped addresses. *)
Fixpoint find_zero (fuel : nat) (um : UMem) (ptr : Z) : res (list Z) :=
  match fuel with
  | O => Err NoFuel
  | S fuel => c ← rd um ptr; if c =? 0 then Ok [] else l ← find_zero fuel um (ptr + 1); Ok (c :: l)
  end.
Definition c_str (um : UMem) (ptr : Z) : res (list Z) := find_zero (S (size um)) um ptr.

(** [as_slice] and [as_str]; the error of the latter is [None]. *)
Definition as_slice (um : UMem) (ptr len : Z) : res (list Z) :=
  if len =? 0 then Ok [] else
  _ ← rassert (uaccess_ok ptr len);
  rd_bytes (Z.to_nat len) um ptr.
Definition as_str (um : UMem) (ptr len : Z) : res (option (list Z)) :=
  _ ← rassert (ptr_check ptr 1);
  l ← as_slice um ptr len;
  Ok (from_utf8 l).
Definition as_c_str (um : UMem) (ptr : Z) : res (option (list Z)) :=
  l ← c_str um ptr;
  as_str um ptr (Zlength l).
Definition read_c_str (um : UMem) (ptr : Z) : res (option (list Z)) := as_c_str um ptr.

(** ** The arguments of [exec] *)

Fixpoint read_argvs_loop (fuel : nat) (um : UMem) (args argc : Z) : res (list (list Z)) :=
  match fuel with
  | O => Err NoFuel
  | S fuel =>
      arg ← ptr_read um (ptr_add args argc 8) 8;
      if arg =? 0 then Ok [] else
      s ← read_c_str um arg;
      s ← unwrap s;
      l ← read_argvs_loop fuel um args (argc + 1);
      Ok (s :: l)
  end.
Definition read_argvs (um : UMem) (args : Z) : res (list (list Z)) := read_argvs_loop (S (size um)) um args 0.

Definition push_stack (um : UMem) (stack val : Z) : res (UMem * Z) :=
  um ← wr_bytes um (usize (stack - 8)) (le_bytes 8 val);
  Ok (um, usize (stack - 8)).
Definition push_c_str (um : UMem) (stack : Z) (val : list Z) : res (UMem * Z) :=
  let len := Zlength val + 1 in
  um ← wr_bytes um (usize (stack - len)) val;
  um ← wr um (usize (stack - len) + (len - 1)) 0;
  Ok (um, usize (stack - len)).

(** [for arg in args.iter().rev()]: [args] is the reversed list, [argv_vec] what
    has been pushed on the vector so far. *)
Fixpoint push_strs (um : UMem) (ustack_top : Z) (args : list (list Z)) (argv_vec : list Z) : res (UMem * Z * list Z) :=
  match args with
  | [] => Ok (um, ustack_top, argv_vec)
  | arg :: args =>
      '(um, ustack_top) ← push_c_str um ustack_top arg;
      push_strs um ustack_top args (argv_vec ++ [ustack_top])
  end.
Fixpoint push_ptrs (um : UMem) (ustack_top : Z) (argv_vec : list Z) : res (UMem * Z) :=
  match argv_vec with
  | [] => Ok (um, ustack_top)
  | arg :: argv_vec => '(um, ustack_top) ← push_stack um ustack_top arg; push_ptrs um ustack_top argv_vec
  end.
(** What [exec] does after loading the program: the memory and the new frame. *)
Definition exec_args (um : UMem) (entry ustack_top : Z) (args : list (list Z)) : res (UMem * TrapFrame) :=
  match push_strs um ustack_top (rev args) [] with
  | Ok (um, ustack_top, argv_vec) =>
      let ustack_top := Z.land ustack_top (usize (Z.lnot 0xF)) in
      '(um, argv_base) ← push_ptrs um ustack_top argv_vec;
      Ok (um, TF_new_user_arg entry argv_base (Zlength args) argv_base)
  | Err e => Err e
  end.

(** [_start]: the arguments [main] is called with. *)
Fixpoint start_args (n : nat) (um : UMem) (argv i : Z) : res (list (list Z)) :=
  match n with
  | O => Ok []
  | S n =>
      l ← rd_bytes 8 um (usize (argv + i * 8));
      s ← c_str um (le_Z l);
      s ← unwrap (from_utf8 s);
      v ← start_args n um argv (i + 1);
      Ok (s :: v)
  end.
Definition start (um : UMem) (argc argv : Z) : res (list (list Z)) := start_args (Z.to_nat argc) um argv 0.

(** ** Reading and writing strings of bytes *)

Definition has (um : UMem) (a : Z) (l : list Z) : Prop := forall i b, l !! i = Some b -> um !! (a + Z.of_nat i) = Some b.
Definition mapped (um : UMem) (lo hi : Z) : Prop := forall a, lo <= a < hi -> is_Some (um !! a).
(** [um'] is [um] but for the addresses from [lo] to [hi]. *)
Definition same_but (um um' : UMem) (lo hi : Z) : Prop :=
  (forall a, ~ lo <= a < hi -> um' !! a = um !! a) /\ forall a, is_Some (um !! a) -> is_Some (um' !! a).

Lemma has_cons um a b l : has um a (b :: l) <-> um !! a = Some b /\ has um (a + 1) l.
Proof.
  split.
  - intros H. split; [rewrite <- (Z.add_0_r a); by apply (H 0%nat)|]. intros i c Hc.
    replace (a + 1 + Z.of_nat i) with (a + Z.of_nat (S i)) by lia. by apply H.
  - intros [Hb H] [|i] c Hc; simpl in Hc; [injection Hc as <-; by rewrite Z.add_0_r|].
    replace (a + Z.of_nat (S i)) with (a + 1 + Z.of_nat i) by lia. by apply H.
Qed.

Lemma has_app um a l l' : has um a (l ++ l') <-> has um a l /\ has um (a + Zlength l) l'.
Proof.
  revert a. induction l as [|b l IH]; intros a; cbn [app length].
  - rewrite Z.add_0_r. split; [intros H; split; [by intros i c ?|done]|by intros [_ ?]].
  - rewrite !has_cons, IH. replace (a + 1 + Zlength l) with (a + Z.of_nat (S (length l))) by lia. naive_solver.
Qed.

Lemma has_same um um' a l lo hi : has um a l -> same_but um um' lo hi -> a + Zlength l <= lo \/ hi <= a -> has um' a l.
Proof.
  intros H [Hs _] Ho i b Hb. apply lookup_lt_Some in Hb as Hi. rewrite Hs; [by apply H|lia].
Qed.

Lemma same_but_trans um um1 um2 lo mid hi : same_but um um1 mid hi -> same_but um1 um2 lo mid -> lo <= mid <= hi -> same_but um um2 lo hi.
Proof. intros [H1 M1] [H2 M2] Hl. split; [|eauto]. intros a Ha. rewrite H2, H1 by lia. done. Qed.

Lemma same_but_mapped um um' lo hi a b : same_but um um' lo hi -> mapped um a b -> mapped um' a b.
Proof. intros [_ H] Hm x Hx. by apply H, Hm. Qed.

Lemma same_but_refl um a : same_but um um a a.
Proof. by split. Qed.

Lemma rd_bytes_has um l : forall a, has um a l -> rd_bytes (length l) um a = Ok l.
Proof.
  induction l as [|b l IH]; intros a H; [done|]. apply has_cons in H as [Hb Hl]. cbn [length rd_bytes]. unfold rd at 1.
  rewrite Hb. cbn [mbind res_bind]. by rewrite IH.
Qed.

Lemma wr_bytes_spec l : forall um a, mapped um a (a + Zlength l) ->
  exists um', wr_bytes um a l = Ok um' /\ has um' a l /\ same_but um um' a (a + Zlength l).
Proof.
  induction l as [|b l IH]; intros um a Hm.
  - exists um. rewrite Z.add_0_r. split_and!; [done|by intros i c ?|apply same_but_refl].
  - cbn [length wr_bytes] in *. destruct (Hm a) as [c Hc]; [lia|]. unfold wr. rewrite Hc. cbn [mbind res_bind].
    assert (same_but um (<[a := b]> um) a (a + 1)) as Hs.
    { split; [intros x Hx; rewrite lookup_insert_ne; [done|lia]|]. intros x Hx. destruct (decide (x = a)) as [->|].
      - rewrite lookup_insert_eq. by eexists.
      - by rewrite lookup_insert_ne. }
    destruct (IH (<[a := b]> um) (a + 1)) as (um' & E & Hh & Hs').
    { eapply same_but_mapped; [done|]. intros x Hx. apply Hm. lia. }
    exists um'. split_and!; [done| |].
    + apply has_cons. split; [|done]. destruct Hs' as [Hs' _]. rewrite Hs' by lia. apply lookup_insert_eq.
    + destruct Hs as [H1 M1], Hs' as [H2 M2]. split; [|eauto]. intros x Hx. rewrite H2, H1 by lia. done.
Qed.

(** The bytes of [l] and a zero fit the memory that holds them. *)
Lemma has_size um a l : has um a l -> (length l <= size um)%nat.
Proof.
  intros H. rewrite <- (size_dom um). transitivity (size (list_to_set (seqZ a (Zlength l)) : gset Z)).
  - rewrite size_list_to_set by apply NoDup_seqZ. rewrite length_seqZ. lia.
  - apply subseteq_size. intros x Hx. apply elem_of_list_to_set, elem_of_seqZ in Hx. apply elem_of_dom.
    destruct (lookup_lt_is_Some_2 l (Z.to_nat (x - a))) as [b Hb]; [lia|]. exists b.
    replace x with (a + Z.of_nat (Z.to_nat (x - a))) by lia. by apply H.
Qed.

Lemma find_zero_has um s : forall a fuel, has um a (s ++ [0]) -> 0 ∉ s -> (length s < fuel)%nat -> find_zero fuel um a = Ok s.
Proof.
  induction s as [|b s IH]; intros a [|fuel] H Hz Hf; cbn [length] in *; try lia; apply has_cons in H as [Hb Hs];
    cbn [find_zero]; unfold rd; rewrite Hb; cbn [mbind res_bind]; [done|].
  apply not_elem_of_cons in Hz as [Hb0 Hz]. rewrite (proj2 (Z.eqb_neq _ _)) by done. rewrite IH; [done|done|done|lia].
Qed.

Lemma c_str_has um a s : has um a (s ++ [0]) -> 0 ∉ s -> c_str um a = Ok s.
Proof. intros H Hz. apply find_zero_has; [done|done|]. apply has_size in H. rewrite length_app in H. simpl in H. lia. Qed.

(** ** Pushing the arguments *)

(** The bytes the strings take. *)
Definition str_bytes (args : list (list Z)) : Z := foldr (fun s n => Zlength s + 1 + n) 0 args.

Lemma str_bytes_nonneg args : 0 <= str_bytes args.
Proof. induction args; simpl; lia. Qed.

Lemma push_c_str_spec um top s : 0 <= top - (Zlength s + 1) -> top < 2 ^ 64 -> mapped um (top - (Zlength s + 1)) top ->
  let a := top - (Zlength s + 1) in
  exists um', push_c_str um top s = Ok (um', a) /\ has um' a (s ++ [0]) /\ same_but um um' a top.
Proof.
  intros H0 Ht Hm a. unfold push_c_str. rewrite u64_small by lia. fold a.
  destruct (wr_bytes_spec s um a) as (um1 & -> & Hh & Hs); [intros x Hx; apply Hm; unfold a in *; lia|]. cbn [mbind res_bind].
  destruct (wr_bytes_spec [0] um1 (a + Zlength s)) as (um2 & E & Hh2 & Hs2).
  { eapply same_but_mapped; [done|]. intros x Hx. apply Hm. unfold a in *. simpl in Hx. lia. }
  cbn [wr_bytes] in E. replace (Zlength s + 1 - 1) with (Zlength s) by lia. destruct (wr um1 (a + Zlength s) 0) as [um'|] eqn:Ew; [|done].
  injection E as ->. exists um2. split_and!; [done| |].
  - apply has_app. split; [|done]. eapply has_same; [done..|]. left. lia.
  - destruct Hs as [H1 M1], Hs2 as [H2 M2]. split; [|eauto]. intros x Hx. unfold a in *. simpl in H2. rewrite H2, H1 by lia. done.
Qed.

Lemma push_strs_spec args : forall um top vec, 0 <= top - str_bytes args -> top < 2 ^ 64 -> mapped um (top - str_bytes args) top ->
  let a := top - str_bytes args in
  exists um' ptrs, push_strs um top args vec = Ok (um', a, vec ++ ptrs) /\
    Forall2 (fun p s => has um' p (s ++ [0]) /\ a <= p < 2 ^ 64) ptrs args /\ same_but um um' a top.
Proof.
  induction args as [|s args IH]; intros um top vec H0 Ht Hm a; unfold a in *.
  - exists um, []. change (str_bytes []) with 0. rewrite Z.sub_0_r, app_nil_r. split_and!; [done|constructor|apply same_but_refl].
  - change (str_bytes (s :: args)) with (Zlength s + 1 + str_bytes args) in *. pose proof (str_bytes_nonneg args). cbn [push_strs].
    destruct (push_c_str_spec um top s) as (um1 & -> & Hh & Hs); [lia|done|intros x Hx; apply Hm; lia|]. cbn [mbind res_bind].
    destruct (IH um1 (top - (Zlength s + 1)) (vec ++ [top - (Zlength s + 1)])) as (um2 & ptrs & E & HF & Hs2); [lia|lia| |].
    { eapply same_but_mapped; [done|]. intros x Hx. apply Hm. lia. }
    replace (top - (Zlength s + 1) - str_bytes args) with (top - (Zlength s + 1 + str_bytes args)) in * by lia.
    exists um2, ((top - (Zlength s + 1)) :: ptrs). split_and!; [by rewrite E, <- app_assoc| |].
    + constructor; [|done]. split; [|lia]. eapply has_same; [done..|]. lia.
    + eapply same_but_trans; [done..|]. lia.
Qed.

Lemma push_ptrs_spec vec : forall um sp, 0 <= sp - 8 * Zlength vec -> sp < 2 ^ 64 -> mapped um (sp - 8 * Zlength vec) sp ->
  exists um', push_ptrs um sp vec = Ok (um', sp - 8 * Zlength vec) /\ same_but um um' (sp - 8 * Zlength vec) sp /\
    forall i p, vec !! i = Some p -> has um' (sp - 8 * (Z.of_nat i + 1)) (le_bytes 8 p).
Proof.
  induction vec as [|v vec IH]; intros um sp H0 Ht Hm; cbn [length] in *.
  - exists um. rewrite Z.sub_0_r. split_and!; [done|apply same_but_refl|]. intros i p Hi. by rewrite lookup_nil in Hi.
  - cbn [push_ptrs]. unfold push_stack. rewrite u64_small by lia.
    destruct (wr_bytes_spec (le_bytes 8 v) um (sp - 8)) as (um1 & -> & Hh & Hs).
    { rewrite length_le_bytes. intros x Hx. apply Hm. lia. }
    rewrite length_le_bytes in Hs. change (Z.of_nat 8) with 8 in Hs. replace (sp - 8 + 8) with sp in Hs by lia. cbn [mbind res_bind].
    destruct (IH um1 (sp - 8)) as (um2 & E & Hs2 & Hp); [lia|lia| |].
    { eapply same_but_mapped; [done|]. intros x Hx. apply Hm. lia. }
    replace (sp - 8 - 8 * Zlength vec) with (sp - 8 * Z.of_nat (S (length vec))) in * by lia.
    exists um2. split_and!; [done| |].
    + eapply same_but_trans; [done..|]. lia.
    + intros [|i] p Hi; simpl in Hi.
      * injection Hi as ->. eapply has_same; [done..|]. rewrite length_le_bytes. lia.
      * replace (sp - 8 * (Z.of_nat (S i) + 1)) with (sp - 8 - 8 * (Z.of_nat i + 1)) by lia. by apply Hp.
Qed.

Lemma start_args_spec um argv args : forall ptrs i, Forall2 (fun p s => has um p (s ++ [0]) /\ 0 <= p < 2 ^ 64) ptrs args ->
  Forall (fun s => 0 ∉ s /\ utf8_ok s = true) args -> 0 <= argv -> 0 <= i -> argv + (i + Zlength args) * 8 < 2 ^ 64 ->
  (forall j p, ptrs !! j = Some p -> has um (argv + (i + Z.of_nat j) * 8) (le_bytes 8 p)) ->
  start_args (length args) um argv i = Ok args.
Proof.
  induction args as [|s args IH]; intros ptrs i HF Hs Ha Hi Hb Hp; [done|].
  inversion HF as [|p s' ptrs' args' [Hp1 Hp2] HF']; subst. apply Forall_cons in Hs as [[Hz Hu] Hs]. cbn [length start_args] in *.
  rewrite u64_small by lia. pose proof (Hp 0%nat p eq_refl) as H8. rewrite Z.add_0_r in H8.
  pose proof (rd_bytes_has _ _ _ H8) as E8. rewrite length_le_bytes in E8. rewrite E8. cbn [mbind res_bind].
  rewrite le_Z_le_bytes by (split; [lia|]; change (256 ^ Z.of_nat 8) with (2 ^ 64); lia).
  rewrite (c_str_has _ _ s) by done. cbn [mbind res_bind]. unfold from_utf8. rewrite Hu. cbn [unwrap mbind res_bind].
  rewrite (IH ptrs'); [done|done|done|lia|lia|lia|].
  intros j q Hq. specialize (Hp (S j) q Hq). by replace (argv + (i + 1 + Z.of_nat j) * 8) with (argv + (i + Z.of_nat (S j)) * 8) by lia.
Qed.

Lemma align16 x : 0 <= x < 2 ^ 64 -> Z.land x (usize (Z.lnot 0xF)) = x / 16 * 16.
Proof.
  intros Hx. change (usize (Z.lnot 15)) with (Z.shiftl (Z.ones 60) 4). change 16 with (2 ^ 4).
  rewrite <- Z.shiftr_div_pow2, <- Z.shiftl_mul_pow2 by lia. apply Z.bits_inj'. intros i Hi.
  rewrite Z.land_spec, !Z.shiftl_spec by done. destruct (decide (i < 4)) as [Hlt|Hge].
  - rewrite !(Z.testbit_neg_r _ (i - 4)) by lia. apply andb_false_r.
  - rewrite Z.shiftr_spec by lia. replace (i - 4 + 4) with i by lia. destruct (decide (i < 64)).
    + rewrite Z.ones_spec_low by lia. apply andb_true_r.
    + rewrite Z.ones_spec_high by lia. rewrite andb_false_r. symmetry. destruct (decide (x = 0)) as [->|]; [apply Z.bits_0|].
      apply Z.bits_above_log2; [lia|]. apply Z.log2_lt_pow2; [lia|]. apply Z.lt_le_trans with (2 ^ 64); [lia|].
      apply Z.pow_le_mono_r; lia.
Qed.

(** The stack [exec] needs for its arguments: strings, alignment and pointers. *)
Definition args_size (args : list (list Z)) : Z := str_bytes args + 15 + 8 * Zlength args.

Lemma str_bytes_rev args : str_bytes (rev args) = str_bytes args.
Proof.
  assert (forall l l', str_bytes (l ++ l') = str_bytes l + str_bytes l') as Happ.
  { induction l as [|s l IH]; intros l'; [done|]. cbn [app]. change (str_bytes (s :: l ++ l')) with (Zlength s + 1 + str_bytes (l ++ l')).
    change (str_bytes (s :: l)) with (Zlength s + 1 + str_bytes l). rewrite IH. lia. }
  induction args as [|s args IH]; [done|]. cbn [rev]. rewrite Happ, IH. simpl. lia.
Qed.

Lemma exec_args_spec um entry top args : args_size args <= top -> top < 2 ^ 64 -> mapped um (top - args_size args) top ->
  Forall (fun s => 0 ∉ s /\ utf8_ok s = true) args ->
  exists um' tf, exec_args um entry top args = Ok (um', tf) /\ elr tf = entry /\
    r tf !! 0%nat = Some (Zlength args) /\ r tf !! 1%nat = Some (usp tf) /\
    usp tf `mod` 16 = (8 * Zlength args) `mod` 16 /\ top - args_size args <= usp tf <= top /\
    (forall a, ~ top - args_size args <= a < top -> um' !! a = um !! a) /\
    start um' (Zlength args) (usp tf) = Ok args.
Proof.
  unfold args_size. intros H0 Ht Hm Hargs. pose proof (str_bytes_nonneg args) as Hnn. unfold exec_args.
  destruct (push_strs_spec (rev args) um top []) as (um1 & ptrs & -> & HF & Hs1); rewrite ?str_bytes_rev in *; [lia|lia|intros x Hx; apply Hm; lia|].
  cbn [app]. set (a := top - str_bytes args) in *. rewrite align16 by lia. set (sp := a / 16 * 16).
  assert (a - 15 <= sp <= a) as Hsp by (unfold sp; lia). pose proof (Forall2_length _ _ _ HF) as Hlen. rewrite length_rev in Hlen.
  destruct (push_ptrs_spec ptrs um1 sp) as (um2 & -> & Hs2 & Hp); [lia|lia| |].
  { eapply same_but_mapped; [done|]. intros x Hx. apply Hm. lia. }
  rewrite Hlen in *. cbn [mbind res_bind]. eexists _, _. split; [done|]. cbn. split_and!; [done|done|done| |lia|lia| |].
  - unfold sp. replace (a / 16 * 16 - 8 * Zlength args) with (8 * Zlength args + (a / 16 - Zlength args) * 16) by lia.
    by apply Z.mod_add.
  - intros x Hx. destruct Hs1 as [H1 _], Hs2 as [H2 _]. rewrite H2, H1 by lia. done.
  - unfold start. rewrite Nat2Z.id. apply (start_args_spec _ _ _ (rev ptrs)); [|done|lia|lia|lia|].
    + rewrite <- (rev_involutive args), !rev_alt. apply Forall2_reverse. rewrite <- rev_alt.
      eapply Forall2_impl; [exact HF|]. intros p s [Hh Hr]. split; [|lia]. eapply has_same; [done..|]. lia.
    + intros j p Hj. rewrite rev_alt in Hj. fold (reverse ptrs) in Hj. apply reverse_lookup_Some in Hj as [Hj Hjl].
      specialize (Hp _ _ Hj). replace (sp - 8 * Zlength args + (0 + Z.of_nat j) * 8) with (sp - 8 * (Z.of_nat (length ptrs - S j) + 1)) by lia.
      done.
Qed.

(** ** Reading the caller's arguments *)

Lemma uaccess_ok_range vaddr size : 0 <= vaddr < 2 ^ 64 -> 0 <= size <= 2 ^ 48 ->
  uaccess_ok vaddr size = true <-> 0 < vaddr /\ vaddr + size <= 2 ^ 48.
Proof.
  intros Hv Hs. unfold uaccess_ok, USER_ASPACE_END. rewrite u64_small by lia. rewrite !andb_true_iff, negb_true_iff, Z.eqb_neq, !Z.leb_le. lia.
Qed.

(** C38: The bounds check for user memory is right for sizes up to that of the
    address space: it accepts exactly the ranges between the null address and the
    end of user space.  For larger sizes the subtraction wraps around: a range that
    starts anywhere up to the wrapped bound is accepted, kernel addresses included,
    although no range of that size fits in user space. *)
Theorem uaccess_check vaddr size : 0 <= vaddr < 2 ^ 64 -> 0 <= size < 2 ^ 64 ->
  (size <= 2 ^ 48 -> uaccess_ok vaddr size = true <-> 0 < vaddr /\ vaddr + size <= 2 ^ 48) /\
  (2 ^ 48 < size -> uaccess_ok vaddr size = true <-> 0 < vaddr <= 2 ^ 64 + 2 ^ 48 - size).
Proof.
  intros Hv Hs. split; [intros Hle; apply uaccess_ok_range; lia|]. intros Hgt. unfold uaccess_ok, USER_ASPACE_END, u64.
  rewrite <- (Z.mod_unique (0x1000000000000 - size) (2 ^ 64) (-1) (2 ^ 64 + 2 ^ 48 - size)) by lia.
  rewrite !andb_true_iff, negb_true_iff, Z.eqb_neq, !Z.leb_le. lia.
Qed.

Lemma read_c_str_has um p s : has um p (s ++ [0]) -> 0 ∉ s -> utf8_ok s = true -> 0 < p -> p + Zlength s + 1 <= 2 ^ 48 ->
  read_c_str um p = Ok (Some s).
Proof.
  intros H Hz Hu Hp Hb. unfold read_c_str, as_c_str. rewrite (c_str_has _ _ s) by done. cbn [mbind res_bind]. unfold as_str, ptr_check.
  rewrite (proj2 (uaccess_ok_range p 1 ltac:(lia) ltac:(lia))) by lia. rewrite Z.mod_1_r. cbn [andb Z.eqb rassert mbind res_bind].
  unfold as_slice. apply has_app in H as [Hs _]. destruct (Z.eqb_spec (Zlength s) 0) as [E|E].
  - destruct s; [done|]. cbn [length] in E. lia.
  - rewrite (proj2 (uaccess_ok_range p (Zlength s) ltac:(lia) ltac:(lia))) by lia. cbn [rassert mbind res_bind].
    rewrite Nat2Z.id, rd_bytes_has by done. cbn [mbind res_bind]. unfold from_utf8. by rewrite Hu.
Qed.

Lemma ptr_read8 um p v : 0 < p -> p + 8 <= 2 ^ 48 -> p `mod` 8 = 0 -> 0 <= v < 2 ^ 64 -> has um p (le_bytes 8 v) -> ptr_read um p 8 = Ok v.
Proof.
  intros H0 Hp Ha Hv H. unfold ptr_read, ptr_check. rewrite (proj2 (uaccess_ok_range p 1 ltac:(lia) ltac:(lia))) by lia.
  rewrite Ha. cbn [andb Z.eqb rassert mbind res_bind]. unfold copy_from_user. change (usize (1 * 8)) with 8.
  rewrite (proj2 (uaccess_ok_range p 8 ltac:(lia) ltac:(lia))) by lia. cbn [rassert mbind res_bind].
  change (Z.to_nat (1 * 8)) with 8%nat. pose proof (rd_bytes_has _ _ _ H) as E. rewrite length_le_bytes in E. rewrite E. cbn [mbind res_bind].
  rewrite le_Z_le_bytes; [done|]. split; [lia|]. change (256 ^ Z.of_nat 8) with (2 ^ 64). lia.
Qed.

(** A null-terminated array of pointers to null-terminated strings, in user space. *)
Record argv_ok (um : UMem) (argv : Z) (ptrs : list Z) (args : list (list Z)) : Prop := {
  av_range : 0 < argv /\ argv `mod` 8 = 0 /\ argv + 8 * (Zlength args + 1) <= 2 ^ 48;
  av_strs : Forall2 (fun p s => has um p (s ++ [0]) /\ 0 < p /\ p + Zlength s + 1 <= 2 ^ 48) ptrs args;
  av_ptrs j p : (ptrs ++ [0]) !! j = Some p -> has um (argv + Z.of_nat j * 8) (le_bytes 8 p);
  av_utf8 : Forall (fun s => 0 ∉ s /\ utf8_ok s = true) args;
}.

Lemma read_argvs_loop_spec um argv args : forall ptrs i fuel,
  Forall2 (fun p s => has um p (s ++ [0]) /\ 0 < p /\ p + Zlength s + 1 <= 2 ^ 48) ptrs args ->
  Forall (fun s => 0 ∉ s /\ utf8_ok s = true) args -> 0 < argv -> argv `mod` 8 = 0 -> 0 <= i ->
  argv + 8 * (i + Zlength args + 1) <= 2 ^ 48 -> (length args < fuel)%nat ->
  (forall j p, (ptrs ++ [0]) !! j = Some p -> has um (argv + (i + Z.of_nat j) * 8) (le_bytes 8 p)) ->
  read_argvs_loop fuel um argv i = Ok args.
Proof.
  induction args as [|s args IH]; intros ptrs i [|fuel] HF Hs Ha Hal Hi Hb Hf Hp; cbn [length] in *; try lia; cbn [read_argvs_loop];
    unfold ptr_add; rewrite u64_small by lia; inversion HF as [|p s' ptrs' args' (Hh & Hp0 & Hpb) HF']; subst;
    pose proof (Hp 0%nat _ eq_refl) as H8; rewrite Z.add_0_r in H8.
  - by rewrite (ptr_read8 _ _ 0) by (done || lia || (rewrite Z.mod_add; done)).
  - rewrite (ptr_read8 _ _ p) by (done || lia || (rewrite Z.mod_add; done)). cbn [mbind res_bind].
    rewrite (proj2 (Z.eqb_neq _ _)) by lia. apply Forall_cons in Hs as [[Hz Hu] Hs].
    rewrite (read_c_str_has _ _ s) by done. cbn [unwrap mbind res_bind]. rewrite (IH ptrs'); [done|done|done|done|done|lia|lia|lia|].
    intros j q Hq. specialize (Hp (S j) q Hq). by replace (argv + (i + 1 + Z.of_nat j) * 8) with (argv + (i + Z.of_nat (S j)) * 8) by lia.
Qed.

Lemma read_argvs_spec um argv ptrs args : argv_ok um argv ptrs args -> read_argvs um argv = Ok args.
Proof.
  intros [(H1 & H2 & H3) Hs Hp Hu]. apply (read_argvs_loop_spec _ _ _ ptrs); [done|done|done|done|lia|lia| |done].
  (* the array alone takes as many mapped bytes *)
  destruct (decide (args = [])) as [->|Hne]; [cbn; lia|].
  assert (length args <= size um)%nat; [|lia]. pose proof (Forall2_length _ _ _ Hs) as Hl.
  assert (has um argv (unwords 8 ptrs)) as Hh.
  { clear -Hp. assert (forall l i, (forall j p, l !! j = Some p -> has um (argv + (i + Z.of_nat j) * 8) (le_bytes 8 p)) ->
      has um (argv + i * 8) (unwords 8 l)) as Hg.
    { induction l as [|p l IH]; intros i H; [by intros ? ? ?|]. cbn [unwords]. apply has_app. split.
      - specialize (H 0%nat p eq_refl). by rewrite Z.add_0_r in H.
      - rewrite length_le_bytes. replace (argv + i * 8 + Z.of_nat 8) with (argv + (i + 1) * 8) by lia. apply IH. intros j q Hq.
        specialize (H (S j) q Hq). by replace (argv + (i + 1 + Z.of_nat j) * 8) with (argv + (i + Z.of_nat (S j)) * 8) by lia. }
    specialize (Hg ptrs 0). rewrite Z.add_0_r in Hg. apply Hg. intros j p Hj. apply Hp. by apply lookup_app_l_Some. }
  apply has_size in Hh. rewrite length_unwords in Hh. lia.
Qed.

(** The arguments of a program survive [exec]: what the new program's [_start]
    hands to [main] is the list of strings the caller's argument array points to, in
    order, as long as the new stack has room for them.  The frame starts the program
    at its entry with the count in x0 and the array in x1, on a stack pointer
    that is a multiple of 16 only when the count is even. *)
Theorem exec_args_roundtrip um argv ptrs args um1 entry top : argv_ok um argv ptrs args ->
  args_size args <= top -> top < 2 ^ 64 -> mapped um1 (top - args_size args) top ->
  exists um2 tf, (args ← read_argvs um argv; exec_args um1 entry top args) = Ok (um2, tf) /\ elr tf = entry /\
    r tf !! 0%nat = Some (Zlength args) /\ r tf !! 1%nat = Some (usp tf) /\
    usp tf `mod` 16 = (8 * Zlength args) `mod` 16 /\ top - args_size args <= usp tf <= top /\
    (forall a, ~ top - args_size args <= a < top -> um2 !! a = um1 !! a) /\
    start um2 (Zlength args) (usp tf) = Ok args.
Proof.
  intros Ha H0 Ht Hm. rewrite (read_argvs_spec _ _ _ _ Ha). cbn [mbind res_bind]. apply exec_args_spec; [done..|]. apply Ha.
Qed.

(** ** Witnesses *)

Fixpoint store (um : UMem) (a : Z) (l : list Z) : UMem :=
  match l with [] => um | b :: l => <[a := b]> (store um (a + 1) l) end.

Lemma store_has l : forall um a, has (store um a l) a l.
Proof.
  induction l as [|b l IH]; intros um a; [by intros ? ? ?|]. apply has_cons. cbn [store]. split; [apply lookup_insert_eq|].
  intros i c Hc. rewrite lookup_insert_ne by lia. by apply IH.
Qed.

Lemma has_mapped um a l : has um a l -> mapped um a (a + Zlength l).
Proof.
  intros H x Hx. destruct (lookup_lt_is_Some_2 l (Z.to_nat (x - a))) as [b Hb]; [lia|]. exists b.
  replace x with (a + Z.of_nat (Z.to_nat (x - a))) by lia. by apply H.
Qed.

Definition demo_args : list (list Z) := [[97; 98]; [99]].
Definition demo_caller : UMem :=
  store (store ∅ 0x1000 [97; 98; 0; 99; 0]) 0x2000 (unwords 8 [0x1000; 0x1003; 0]).
Definition demo_stack : UMem := store ∅ 0x7FDC (replicate 36 0).

#[local] Ltac bytes_here := repeat (apply has_cons; split; [vm_compute; reflexivity|]); by intros ? ? ?.

Lemma demo_argv_ok : argv_ok demo_caller 0x2000 [0x1000; 0x1003] demo_args.
Proof.
  split.
  - vm_compute. repeat split; congruence.
  - constructor; [split; [bytes_here|vm_compute; split; congruence]|].
    constructor; [split; [bytes_here|vm_compute; split; congruence]|constructor].
  - intros [|[|[|j]]] p Hp; [| | |done]; injection Hp as <-; bytes_here.
  - repeat constructor; try reflexivity; intros H; apply list_elem_of_In in H; simpl in H; lia.
Qed.

Lemma exec_args_roundtrip_witness : exists um2 tf,
  (args ← read_argvs demo_caller 0x2000; exec_args demo_stack 0x400000 0x8000 args) = Ok (um2, tf) /\
  elr tf = 0x400000 /\ start um2 2 (usp tf) = Ok demo_args.
Proof.
  destruct (exec_args_roundtrip demo_caller 0x2000 [0x1000; 0x1003] demo_args demo_stack 0x400000 0x8000)
    as (um2 & tf & E & He & _ & _ & _ & _ & _ & Hs).
  - exact demo_argv_ok.
  - vm_compute. congruence.
  - lia.
  - apply (has_mapped demo_stack 0x7FDC (replicate 36 0)). apply store_has.
  - exists um2, tf. split; [exact E|]. split; [exact He|exact Hs].
Defined.

Lemma uaccess_check_witness : uaccess_ok 0xffff000040000000 (2 ^ 48 + 1) = true /\ uaccess_ok 0xffff000040000000 (2 ^ 48) = false.
Proof.
  split.
  - apply (uaccess_check 0xffff000040000000 (2 ^ 48 + 1)); lia.
  - reflexivity.
Defined.
