(* ===== verification/Process.v ===== *)
(** Processes and threads (os/src/task/structs.rs, os/src/task/mod.rs,
    os/src/syscall/process.rs, os/src/syscall/thread.rs, [sys_kill] of
    os/src/syscall/signal.rs): their creation, exit, waiting and signalling.

    An [Arc<Process>] is a process id; [procs] holds the processes that exist.
    Process ids are never reused.  Task states and the current task belong to the
    scheduler, address spaces to the memory manager. *)
From S2P Require Import Prelude State Sched Address Allocator PageEntry PageTable BTree MemorySet Signal.

(** The files a descriptor may stand for: handles to open file objects. *)
Inductive File := Stdin | Stdout | OpenFile (handle : Z).

#[export] Instance File_eq_dec : EqDecision File.
Proof. solve_decision. Defined.

Inductive EntryState := EntryKernel (pc arg : Z) | EntryUser (tf : TrapFrame).

(** A task, without its state, its stack and its saved context. *)
Record Task := mkTask {
  is_kernel_task : bool;
  entry : EntryState;
  task_exit_code : Z;
  task_signal : SignalInner;
}.

Inductive ProcState := PNormal | PStop | PZombie.
#[export] Instance ProcState_eq_dec : EqDecision ProcState.
Proof. solve_decision. Defined.

Definition u8_of_pstate (s : ProcState) : Z := match s with PNormal => 1 | PStop => 2 | PZombie => 3 end.
Definition pstate_of_u8 (z : Z) : res ProcState :=
  if z =? 1 then Ok PNormal else if z =? 2 then Ok PStop else if z =? 3 then Ok PZombie else Err Panic.

Record Process := mkProc {
  is_kernel : bool;
  proc_state : Z;
  proc_exit_code : Z;
  vm : option MemorySet;
  tasks : list (Z * Task);
  next_tid : Z;
  parent : option Z;
  children : list Z;
  fd_table : list (option File);
  signal_actions : list SignalAction;
}.

Record PS := mkPS {
  psched : Sched;
  procs : gmap Z Process;
  proc_map : gset Z;
  next_pid : Z;
  pmem : Mem;
}.

Definition ROOT_PROC : Z := 1.

Definition with_vm (p : Process) (v : option MemorySet) : Process :=
  mkProc (is_kernel p) (proc_state p) (proc_exit_code p) v (tasks p) (next_tid p) (parent p) (children p) (fd_table p) (signal_actions p).
Definition with_tasks (p : Process) (l : list (Z * Task)) : Process :=
  mkProc (is_kernel p) (proc_state p) (proc_exit_code p) (vm p) l (next_tid p) (parent p) (children p) (fd_table p) (signal_actions p).
Definition with_children (p : Process) (l : list Z) : Process :=
  mkProc (is_kernel p) (proc_state p) (proc_exit_code p) (vm p) (tasks p) (next_tid p) (parent p) l (fd_table p) (signal_actions p).
Definition with_parent (p : Process) (q : option Z) : Process :=
  mkProc (is_kernel p) (proc_state p) (proc_exit_code p) (vm p) (tasks p) (next_tid p) q (children p) (fd_table p) (signal_actions p).
Definition with_fds (p : Process) (l : list (option File)) : Process :=
  mkProc (is_kernel p) (proc_state p) (proc_exit_code p) (vm p) (tasks p) (next_tid p) (parent p) (children p) l (signal_actions p).
Definition with_next_tid (p : Process) (n : Z) : Process :=
  mkProc (is_kernel p) (proc_state p) (proc_exit_code p) (vm p) (tasks p) n (parent p) (children p) (fd_table p) (signal_actions p).
Definition with_state (p : Process) (s : ProcState) : Process :=
  mkProc (is_kernel p) (u8_of_pstate s) (proc_exit_code p) (vm p) (tasks p) (next_tid p) (parent p) (children p) (fd_table p) (signal_actions p).
Definition with_exit_code (p : Process) (c : Z) : Process :=
  mkProc (is_kernel p) (proc_state p) c (vm p) (tasks p) (next_tid p) (parent p) (children p) (fd_table p) (signal_actions p).

Definition on_psched {A} (m : st Sched A) : st PS A := fun s =>
  match m (psched s) with Ok (a, x) => Ok (a, mkPS x (procs s) (proc_map s) (next_pid s) (pmem s)) | Err e => Err e end.
Definition on_mem {A} (m : st Mem A) : st PS A := fun s =>
  match m (pmem s) with Ok (a, x) => Ok (a, mkPS (psched s) (procs s) (proc_map s) (next_pid s) x) | Err e => Err e end.

(** A process by its id, which must exist, and a change of it. *)
Definition get_proc (pid : Z) : st PS Process := s ← sget; slift (unwrap (procs s !! pid)).
Definition put_proc (pid : Z) (p : Process) : st PS unit := fun s =>
  Ok (tt, mkPS (psched s) (<[pid := p]> (procs s)) (proc_map s) (next_pid s) (pmem s)).
Definition modify_proc (pid : Z) (f : Process -> Process) : st PS unit := p ← get_proc pid; put_proc pid (f p).

(** The process of the current task: [CurrentTask::get().proc()]. *)
Definition cur_task : st PS TaskRef := s ← sget; mret (current (psched s)).

(** ** Creation *)

Definition alloc_pid : st PS Z := fun s =>
  Ok (next_pid s, mkPS (psched s) (procs s) (proc_map s) (usize (next_pid s + 1)) (pmem s)).
Definition alloc_tid (pid : Z) : st PS Z :=
  p ← get_proc pid;
  _ ← put_proc pid (with_next_tid p (usize (next_tid p + 1)));
  mret (next_tid p).

Definition Process_new_common (is_kernel : bool) : Process :=
  mkProc is_kernel (u8_of_pstate PNormal) 0 None [] 0 None [] [Some Stdin; Some Stdout; Some Stdout] SignalActions_default.

(** The [Arc] of a new process. *)
Definition new_arc (pid : Z) (p : Process) : st PS unit := put_proc pid p.

(** [Task::new_common] with its entry; the task's state is ready. *)
Definition Task_new_common (pid tid : Z) (is_kernel : bool) (e : EntryState) : st PS Task :=
  _ ← on_psched (new_task (pid, tid));
  mret (mkTask is_kernel e 0 SignalInner_new).

Definition add_task (pid tid : Z) (t : Task) : st PS unit :=
  p ← get_proc pid;
  _ ← slift (rassert (match bt_lookup tid (tasks p) with None => true | Some _ => false end));
  put_proc pid (with_tasks p (bt_insert tid t (tasks p))).

Definition add_child (pid child : Z) : st PS unit :=
  _ ← modify_proc child (fun c => with_parent c (Some pid));
  modify_proc pid (fun p => with_children p (children p ++ [child])).

Definition is_root (pid : Z) : bool := pid =? 1.
Definition is_idle_proc (pid : Z) : bool := pid =? 0.

Definition new_kernel (pc arg : Z) : st PS Z :=
  pid ← alloc_pid;
  _ ← new_arc pid (Process_new_common true);
  tid ← alloc_tid pid;
  t ← Task_new_common pid tid true (EntryKernel pc arg);
  _ ← add_task pid tid t;
  _ ← (if negb (is_root pid) then add_child ROOT_PROC pid else mret tt);
  mret pid.

(** [file] is what [open_file] and [read_all] give for the path. *)
Definition new_user (parse : list Z -> option ElfFile) (file : option (list Z)) : st PS Z :=
  pid ← alloc_pid;
  _ ← new_arc pid (Process_new_common false);
  elf_data ← slift (unwrap file);
  ms ← on_mem MemorySet_new;
  '(entry_top, ms) ← on_mem (load_user parse ms elf_data);
  tid ← alloc_tid pid;
  t ← Task_new_common pid tid false (EntryUser (TF_new_user entry_top.1 entry_top.2));
  _ ← modify_proc pid (fun p => with_vm p (Some ms));
  _ ← add_task pid tid t;
  _ ← add_child ROOT_PROC pid;
  mret pid.

Definition user_stack (tid : Z) : Z * Z :=
  let top := usize (USER_STACK_TOP - tid * (USER_STACK_SIZE + PAGE_SIZE)) in
  (usize (top - USER_STACK_SIZE), top).

(** A new thread of process [pid]. *)
Definition new_user_task (pid entry arg : Z) : st PS Z :=
  tid ← alloc_tid pid;
  p ← get_proc pid;
  let '(ustack_bottom, ustack_top) := user_stack tid in
  ms ← slift (unwrap (vm p));
  va ← slift (VirtAddr_new ustack_bottom);
  area ← slift (new_framed va USER_STACK_SIZE (Z.lor (Z.lor MemFlags.READ MemFlags.WRITE) MemFlags.USER));
  ms ← on_mem (MemorySet_insert ms area);
  _ ← modify_proc pid (fun p => with_vm p (Some ms));
  _ ← slift (rassert (tid <=? 16));
  t ← Task_new_common pid tid true (EntryUser (TF_new_user_arg entry ustack_top arg 0));
  _ ← modify_proc pid (fun p => with_tasks p (bt_insert tid t (tasks p)));
  mret tid.

(** A copy of process [pid]; [tf] is the caller's frame. *)
Definition new_fork (pid : Z) (tf : TrapFrame) : st PS Z :=
  p ← get_proc pid;
  _ ← slift (rassert (negb (is_kernel p)));
  new ← alloc_pid;
  _ ← new_arc new (Process_new_common false);
  ms ← slift (unwrap (vm p));
  ms ← on_mem (MemorySet_clone ms);
  tid ← alloc_tid new;
  t ← Task_new_common new tid false (EntryUser (TF_new_fork tf));
  _ ← modify_proc new (fun q => with_tasks q (bt_insert tid t (tasks q)));
  _ ← modify_proc new (fun q => with_vm q (Some ms));
  _ ← modify_proc new (fun q => with_fds q (fd_table p));
  _ ← add_child pid new;
  mret new.

Fixpoint count_live (sts : gmap TaskRef Z) (pid : Z) (l : list (Z * Task)) : res Z :=
  match l with
  | [] => Ok 0
  | (tid, _) :: l =>
      z ← unwrap (sts !! (pid, tid));
      x ← state_of_u8 z;
      n ← count_live sts pid l;
      Ok (if bool_decide (x = Zombie) then n else n + 1)
  end.
Definition task_count (pid : Z) : st PS Z :=
  p ← get_proc pid; s ← sget; slift (count_live (states (psched s)) pid (tasks p)).

(** [Process::task]: the first task, of a process that has one live task. *)
Definition proc_task (pid : Z) : st PS TaskRef :=
  n ← task_count pid;
  _ ← slift (rassert (n =? 1));
  p ← get_proc pid;
  _ ← slift (unwrap (bt_lookup 0 (tasks p)));
  mret (pid, 0).

(** ** Exit *)

Fixpoint add_children (pid : Z) (l : list Z) : st PS unit :=
  match l with [] => mret tt | c :: l => _ ← add_child pid c; add_children pid l end.

(** SIGKILL for every task that is not a zombie. *)
Fixpoint kill_tasks (sts : gmap TaskRef Z) (pid : Z) (flag : Z) (l : list (Z * Task)) : res (list (Z * Task) * Z) :=
  match l with
  | [] => Ok ([], 0)
  | (tid, t) :: l =>
      z ← unwrap (sts !! (pid, tid));
      x ← state_of_u8 z;
      '(l, n) ← kill_tasks sts pid flag l;
      if bool_decide (x = Zombie) || contains (signals (task_signal t)) flag then Ok ((tid, t) :: l, n)
      else Ok ((tid, mkTask (is_kernel_task t) (entry t) (task_exit_code t) (set_singal (task_signal t) flag)) :: l, n + 1)
  end.

Definition stop (pid exit_code : Z) : st PS unit :=
  _ ← slift (rassert (negb (is_idle_proc pid)));
  _ ← slift (rassert (negb (is_root pid)));
  p ← get_proc pid;
  _ ← add_children ROOT_PROC (children p);
  _ ← modify_proc pid (fun p => with_children p []);
  p ← get_proc pid;
  s ← sget;
  '(l, _) ← slift (kill_tasks (states (psched s)) pid SIGKILL (tasks p));
  _ ← put_proc pid (with_tasks p l);
  _ ← modify_proc pid (fun p => with_state p PStop);
  modify_proc pid (fun p => with_exit_code p exit_code).

Definition proc_exit (pid : Z) : st PS unit :=
  _ ← modify_proc pid (fun p => with_state p PZombie);
  p ← get_proc pid;
  _ ← (match vm p with Some ms => on_mem (MemorySet_drop ms) | None => mret tt end);
  modify_proc pid (fun p => with_vm p None).

Definition task_exit (pid exit_code : Z) : st PS unit :=
  n ← task_count pid;
  if n =? 0 then
    p ← get_proc pid;
    x ← slift (pstate_of_u8 (proc_state p));
    _ ← (if bool_decide (x = PNormal) then modify_proc pid (fun p => with_exit_code p exit_code) else mret tt);
    proc_exit pid
  else mret tt.

Definition set_task_exit_code (t : TaskRef) (c : Z) : st PS unit :=
  p ← get_proc t.1;
  x ← slift (unwrap (bt_lookup t.2 (tasks p)));
  put_proc t.1 (with_tasks p (bt_insert t.2 (mkTask (is_kernel_task x) (entry x) c (task_signal x)) (tasks p))).

(** [CurrentTask::exit]; control does not come back. *)
Definition CurrentTask_exit (exit_code : Z) : st PS unit :=
  t ← cur_task;
  _ ← on_psched (set_state t Zombie);
  _ ← set_task_exit_code t exit_code;
  _ ← task_exit t.1 exit_code;
  _ ← set_task_exit_code t exit_code;
  on_psched (exit_current t).

Definition sys_exit (exit_code : Z) : st PS unit := CurrentTask_exit exit_code.
Definition sys_exit_group (exit_code : Z) : st PS unit :=
  t ← cur_task;
  _ ← stop t.1 exit_code;
  CurrentTask_exit exit_code.

(** ** Waiting *)

(** The first child that matches and is a zombie, and whether any matches. *)
Fixpoint find_child (ps : gmap Z Process) (pid : Z) (l : list Z) (idx : nat) (found_pid : bool) : res (option (nat * Z) * bool) :=
  match l with
  | [] => Ok (None, found_pid)
  | t :: l =>
      if (pid =? -1) || (t =? usize pid) then
        p ← unwrap (ps !! t);
        x ← pstate_of_u8 (proc_state p);
        if bool_decide (x = PZombie) then Ok (Some (idx, t), true) else find_child ps pid l (S idx) true
      else find_child ps pid l (S idx) found_pid
  end.

(** The other strong references to a process: children lists and the table of
    processes. *)
Definition referenced (s : PS) (c : Z) : bool :=
  bool_decide (c ∈ proc_map s) || negb (bool_decide (map_Forall (fun _ p => c ∉ children p) (procs s))).

(** The result and the exit code, if a child was reaped; its [Arc] goes away. *)
Definition waitpid (self pid : Z) : st PS (Z * option Z) :=
  p ← get_proc self;
  s ← sget;
  '(o, found_pid) ← slift (find_child (procs s) pid (children p) 0 false);
  match o with
  | Some (idx, child) =>
      _ ← put_proc self (with_children p (delete idx (children p)));
      s ← sget;
      _ ← sput (mkPS (psched s) (procs s) (proc_map s ∖ {[child]}) (next_pid s) (pmem s));
      s ← sget;
      _ ← slift (rassert (negb (referenced s child)));
      c ← get_proc child;
      s ← sget;
      _ ← sput (mkPS (psched s) (delete child (procs s)) (proc_map s) (next_pid s) (pmem s));
      mret (child, Some (proc_exit_code c))
  | None => mret (if (found_pid : bool) then -2 else -1, None)
  end.

Definition waittid (self tid : Z) : st PS Z :=
  p ← get_proc self;
  match bt_lookup tid (tasks p) with
  | Some waited_task =>
      x ← on_psched (task_state (self, tid));
      if bool_decide (x = Zombie) then
        _ ← put_proc self (with_tasks p (bt_remove tid (tasks p)).2);
        mret (task_exit_code waited_task)
      else mret (-2)
  | None => mret (-1)
  end.

(** ** System calls *)

Definition spawn_proc (pid : Z) : st PS unit := fun s =>
  Ok (tt, mkPS (psched s) (procs s) (proc_map s ∪ {[pid]}) (next_pid s) (pmem s)).
Definition spawn_task (t : TaskRef) : st PS unit := on_psched (spawn t).

Definition sys_fork (tf : TrapFrame) : st PS Z :=
  t ← cur_task;
  new ← new_fork t.1 tf;
  _ ← spawn_proc new;
  child ← proc_task new;
  _ ← spawn_task child;
  mret new.

Definition sys_thread_create (entry arg : Z) : st PS Z :=
  t ← cur_task;
  tid ← new_user_task t.1 entry arg;
  _ ← spawn_task (t.1, tid);
  mret tid.

Definition sys_waittid (tid : Z) : st PS Z :=
  t ← cur_task;
  if t.2 =? tid then mret (-1) else
  n ← waittid t.1 tid;
  mret (as_i32 n).

(** The value for [exit_code_ptr] is 0 when no child was reaped. *)
Definition sys_waitpid (pid : Z) : st PS (Z * Z) :=
  t ← cur_task;
  '(ret, code) ← waitpid t.1 pid;
  mret (ret, default 0 code).

Definition sys_getpid : st PS Z := t ← cur_task; mret t.1.
Definition sys_gettid : st PS Z := t ← cur_task; mret t.2.

Definition sys_kill (pid signum : Z) : st PS Z :=
  s ← sget;
  if bool_decide (pid ∈ proc_map s) then
    p ← get_proc pid;
    '(l, count) ← slift (kill_tasks (states (psched s)) pid (sig_flag signum) (tasks p));
    _ ← put_proc pid (with_tasks p l);
    mret (if 0 <? count then 0 else -1)
  else mret (-1).
