(* ===== verification/ProcessInv.v ===== *)
(** Correctness of processes and threads (model in [Process]): the tree of
    processes, waiting, exit, fork, and the stacks of threads. *)
From S2P Require Import Prelude State Sched Address Allocator PageEntry PageTable BTree MemorySet AddressSpace UserSpace LoadUser Signal Process.

(** ** The tree of processes *)

(** Each process is listed as a child at most once, by a process with a smaller
    id, and the processes listed, and those in the table, exist. *)
Record tree_ok (s : PS) : Prop := {
  tk_child p x c : procs s !! p = Some x -> c ∈ children x -> is_Some (procs s !! c) /\ p < c;
  tk_nodup p x : procs s !! p = Some x -> NoDup (children x);
  tk_one p x q y c : procs s !! p = Some x -> procs s !! q = Some y -> c ∈ children x -> c ∈ children y -> p = q;
  tk_map c : c ∈ proc_map s -> is_Some (procs s !! c);
  tk_state p x : procs s !! p = Some x -> exists st, proc_state x = u8_of_pstate st;
  tk_pids p x : procs s !! p = Some x -> 0 <= p < next_pid s;
}.

Lemma pstate_of_u8_of x : pstate_of_u8 (u8_of_pstate x) = Ok x.
Proof. by destruct x. Qed.

(** ** Waiting for a child *)

Definition matching (pid c : Z) : bool := (pid =? -1) || (c =? usize pid).
Definition zombie_proc (s : PS) (c : Z) : bool :=
  match procs s !! c with Some x => proc_state x =? 3 | None => false end.

Lemma find_child_spec s pid l : (forall c, c ∈ l -> exists x st, procs s !! c = Some x /\ proc_state x = u8_of_pstate st) ->
  forall idx found, find_child (procs s) pid l idx found =
    Ok (match find_index (fun c => matching pid c && zombie_proc s c) l with
        | Some (i, c) => (Some ((idx + i)%nat, c), true)
        | None => (None, found || existsb (matching pid) l)
        end).
Proof.
  induction l as [|c l IH]; intros Hl idx found; simpl; [by rewrite orb_false_r|].
  assert (forall c, c ∈ l -> exists x st, procs s !! c = Some x /\ proc_state x = u8_of_pstate st) as Hl'.
  { intros d Hd. apply Hl, elem_of_cons. by right. }
  unfold matching at 1. destruct ((pid =? -1) || (c =? usize pid)) eqn:Em.
  - destruct (Hl c) as (x & st & Hx & Es); [apply elem_of_cons; by left|]. unfold zombie_proc at 1. rewrite Hx. cbn [unwrap mbind res_bind].
    rewrite Es, pstate_of_u8_of. cbn [mbind res_bind]. destruct (bool_decide (st = PZombie)) eqn:Ez.
    + apply bool_decide_eq_true in Ez as ->. simpl. by rewrite Nat.add_0_r.
    + assert ((u8_of_pstate st =? 3) = false) as -> by (by destruct st). simpl. rewrite IH by done.
      destruct (find_index _ l) as [[i d]|]; [by rewrite Nat.add_succ_r|]. f_equal. f_equal.
      unfold matching at 2. by rewrite Em, !orb_true_r.
  - simpl. rewrite IH by done. destruct (find_index _ l) as [[i d]|]; [by rewrite Nat.add_succ_r|].
    f_equal. f_equal. unfold matching at 2. by rewrite Em.
Qed.

Lemma get_proc_swp s pid p (Q : Process -> PS -> Prop) : procs s !! pid = Some p -> Q p s -> swp (get_proc pid) s Q.
Proof. intros H HQ. apply swp_get_bind. eapply swp_lift; [by rewrite H|done]. Qed.

Lemma modify_proc_swp s pid p f (Q : unit -> PS -> Prop) : procs s !! pid = Some p ->
  Q tt (mkPS (psched s) (<[pid := f p]> (procs s)) (proc_map s) (next_pid s) (pmem s)) -> swp (modify_proc pid f) s Q.
Proof. intros H HQ. apply swp_bind. eapply get_proc_swp; [done|]. by eexists tt, _. Qed.

(** What [waitpid] leaves after reaping [c], the child at [i] of [self]. *)
Definition reaped (s : PS) (self : Z) (p : Process) (i : nat) (c : Z) : PS :=
  mkPS (psched s) (delete c (<[self := with_children p (delete i (children p))]> (procs s)))
    (proc_map s ∖ {[c]}) (next_pid s) (pmem s).

(** A child that is taken from the list is not listed any more. *)
Lemma reaped_children s self p i c : tree_ok s -> procs s !! self = Some p -> children p !! i = Some c ->
  self <> c /\ forall q y, <[self := with_children p (delete i (children p))]> (procs s) !! q = Some y -> c ∉ children y /\
    exists x, procs s !! q = Some x /\ (forall d, d ∈ children y -> d ∈ children x) /\ (NoDup (children x) -> NoDup (children y)) /\ proc_state y = proc_state x.
Proof.
  intros T Hp Hi. pose proof (list_elem_of_lookup_2 _ _ _ Hi) as Hc. destruct (tk_child _ T _ _ _ Hp Hc) as [_ Hlt]. split; [lia|].
  intros q y. pose proof (take_drop_middle _ _ _ Hi) as Es. pose proof (delete_take_drop (children p) i) as Ed.
  pose proof (tk_nodup _ T _ _ Hp) as Hn. rewrite <- Es in Hn. apply NoDup_app in Hn as (Hn1 & Hd & [Hn2 Hn3]%NoDup_cons).
  intros [[<- <-]|[Hne Hy]]%lookup_insert_Some.
  - cbn [children with_children proc_state]. rewrite Ed. split.
    + rewrite elem_of_app. intros [Hin|Hin]; [|done]. apply (Hd c Hin), elem_of_cons. by left.
    + exists p. split_and!; [done| | |done].
      * intros d Hin. rewrite <- Es, elem_of_app, elem_of_cons. apply elem_of_app in Hin as [?|?]; auto.
      * intros _. apply NoDup_app. split_and!; [done| |done]. intros d Hd1 Hd2. apply (Hd d Hd1), elem_of_cons. by right.
  - split; [|eauto 6]. intros Hin. by destruct Hne; apply (tk_one _ T _ _ _ _ c Hp Hy).
Qed.

Lemma reaped_ok s self p i c : tree_ok s -> procs s !! self = Some p -> children p !! i = Some c -> tree_ok (reaped s self p i c).
Proof.
  intros T Hp Hi. destruct (reaped_children s self p i c T Hp Hi) as [Hne Hch]. unfold reaped. split; cbn [procs proc_map next_pid].
  - intros q y d [Hqc Hy]%lookup_delete_Some Hd. destruct (Hch q y Hy) as [Hnc (x & Hx & Hsub & _)].
    destruct (tk_child _ T _ _ d Hx (Hsub d Hd)) as [Hs Hlt]. split; [|done].
    rewrite lookup_delete_is_Some. split; [by intros ->|]. rewrite lookup_insert_is_Some. destruct (decide (self = d)); auto.
  - intros q y [_ Hy]%lookup_delete_Some. destruct (Hch q y Hy) as [_ (x & Hx & _ & Hn & _)]. by apply Hn, (tk_nodup _ T q).
  - intros q y q' y' d [_ Hy]%lookup_delete_Some [_ Hy']%lookup_delete_Some Hd Hd'.
    destruct (Hch q y Hy) as [_ (x & Hx & Hs & _)], (Hch q' y' Hy') as [_ (x' & Hx' & Hs' & _)].
    by apply (tk_one _ T _ _ _ _ d Hx Hx'); auto.
  - intros d [Hd Hdc]%elem_of_difference. rewrite lookup_delete_is_Some. apply not_elem_of_singleton in Hdc. split; [done|].
    rewrite lookup_insert_is_Some. pose proof (tk_map _ T d Hd). destruct (decide (self = d)); auto.
  - intros q y [_ Hy]%lookup_delete_Some. destruct (Hch q y Hy) as [_ (x & Hx & _ & _ & ->)]. by apply (tk_state _ T q).
  - intros q y [_ Hy]%lookup_delete_Some. destruct (Hch q y Hy) as [_ (x & Hx & _)]. by apply (tk_pids _ T q x).
Qed.

Lemma waitpid_spec s self p pid : tree_ok s -> procs s !! self = Some p ->
  swp (waitpid self pid) s (fun '(ret, code) s' => tree_ok s' /\
    match find_index (fun c => matching pid c && zombie_proc s c) (children p) with
    | Some (i, c) => exists x, procs s !! c = Some x /\ ret = c /\ code = Some (proc_exit_code x) /\ s' = reaped s self p i c
    | None => ret = (if existsb (matching pid) (children p) then -2 else -1) /\ code = None /\ s' = s
    end).
Proof.
  intros T Hp. apply swp_bind. eapply get_proc_swp; [done|]. apply swp_get_bind. eapply swp_lift_bind.
  { apply find_child_spec. intros c Hc. destruct (tk_child _ T _ _ _ Hp Hc) as [[x Hx] _]. destruct (tk_state _ T _ _ Hx) as [st Hs]. eauto. }
  destruct (find_index _ (children p)) as [[i c]|] eqn:F; cbn; [|apply swp_ret; by split].
  apply find_index_Some in F as (Hi & Hz & _). pose proof (list_elem_of_lookup_2 _ _ _ Hi) as Hc.
  destruct (tk_child _ T _ _ _ Hp Hc) as [[x Hx] Hlt]. destruct (reaped_children s self p i c T Hp Hi) as [Hne Hch].
  apply swp_bind. eexists tt, _. split; [done|]. apply swp_get_bind, swp_put_bind, swp_get_bind. eapply swp_lift_bind.
  { unfold referenced. cbn [procs proc_map]. rewrite (bool_decide_false (c ∈ _)) by set_solver.
    rewrite bool_decide_true; [done|]. intros q y Hy. by apply (Hch q y). }
  apply swp_bind. eapply get_proc_swp; [cbn [procs]; by rewrite lookup_insert_ne|]. apply swp_get_bind, swp_put_bind, swp_ret.
  cbn. split; [by apply reaped_ok|]. exists x. done.
Qed.

(** [waitpid] reaps the first child, in order of creation, that matches and has
    exited: it returns its pid and exit code, takes it from the children and from the
    table of processes, and nothing else refers to it (the assertion on the reference
    count holds).  It returns -2 if a matching child has not exited and -1 if there is
    none, and changes nothing then. *)
Theorem waitpid_reaps s self p pid : tree_ok s -> procs s !! self = Some p ->
  swp (waitpid self pid) s (fun '(ret, code) s' => tree_ok s' /\
    match find_index (fun c => matching pid c && zombie_proc s c) (children p) with
    | Some (i, c) => exists x, procs s !! c = Some x /\ ret = c /\ code = Some (proc_exit_code x) /\ s' = reaped s self p i c
    | None => ret = (if existsb (matching pid) (children p) then -2 else -1) /\ code = None /\ s' = s
    end).
Proof. apply waitpid_spec. Qed.

(** ** Exit *)

Lemma on_psched_swp {A} (m : st Sched A) s (Q : A -> PS -> Prop) :
  swp m (psched s) (fun a x => Q a (mkPS x (procs s) (proc_map s) (next_pid s) (pmem s))) -> swp (on_psched m) s Q.
Proof. intros (a & x & E & HQ). eexists a, _. unfold on_psched. by rewrite E. Qed.

Lemma on_mem_swp {A} (m : st Mem A) s (Q : A -> PS -> Prop) :
  swp m (pmem s) (fun a x => Q a (mkPS (psched s) (procs s) (proc_map s) (next_pid s) x)) -> swp (on_mem m) s Q.
Proof. intros (a & x & E & HQ). eexists a, _. unfold on_mem. by rewrite E. Qed.

Lemma cur_task_bind {B} (f : TaskRef -> st PS B) s Q : swp (f (current (psched s))) s Q -> swp (cur_task ≫= f) s Q.
Proof. intros H. apply swp_bind, swp_get_bind, swp_ret. done. Qed.

(** The tasks of a process that are not zombies. *)
Definition live (s : Sched) (pid : Z) (l : list (Z * Task)) : list (Z * Task) :=
  filter (fun x => states s !! (pid, x.1) <> Some (u8_of_state Zombie)) l.

(** The tasks of a process, as the scheduler knows them. *)
Record tasks_ok (s : Sched) (pid : Z) (l : list (Z * Task)) : Prop := {
  ts_bt : bt_ok l;
  ts_states tid : tid ∈ l.*1 -> exists x, in_state s (pid, tid) x;
}.

Lemma count_live_spec s pid l : (forall tid, tid ∈ l.*1 -> exists x, in_state s (pid, tid) x) ->
  count_live (states s) pid l = Ok (Zlength (live s pid l)).
Proof.
  induction l as [|[tid t] l IH]; intros Hl; [done|]. cbn [count_live].
  destruct (Hl tid) as [x Hx]; [rewrite fmap_cons; apply elem_of_cons; by left|]. unfold in_state in Hx. rewrite Hx. cbn [unwrap mbind res_bind].
  rewrite state_of_u8_of. cbn [mbind res_bind]. rewrite IH by (intros; apply Hl; rewrite fmap_cons; apply elem_of_cons; by right).
  cbn [mbind res_bind]. unfold live. destruct (decide (x = Zombie)) as [->|Hz].
  - rewrite bool_decide_true by done. rewrite filter_cons_False; [done|]. simpl. rewrite Hx. tauto.
  - rewrite bool_decide_false by done. rewrite filter_cons_True; [simpl; f_equal; lia|].
    simpl. rewrite Hx. intros [= E]. by apply Hz, u8_of_state_inj.
Qed.

Lemma live_keys s pid l l' : l.*1 = l'.*1 -> length (live s pid l) = length (live s pid l').
Proof.
  unfold live. revert l'. induction l as [|x l IH]; intros [|y l'] E; try done. rewrite !fmap_cons in E. injection E as E1 E2.
  rewrite !filter_cons, <- E1. case_decide; simpl; [f_equal|]; by apply IH.
Qed.

(** What [CurrentTask::exit] leaves: a live process keeps everything but the task's
    exit code; without live tasks it is a zombie without memory. *)
Definition exited (p : Process) (n : Z) (code : Z) (l : list (Z * Task)) : Process :=
  let p := with_tasks p l in
  if n =? 0 then
    with_vm (with_state (if proc_state p =? u8_of_pstate PNormal then with_exit_code p code else p) PZombie) None
  else p.

(** The memory an exiting task leaves: the last one of its process gives back the
    frames of the address space and writes no other frame. *)
Definition left_mem (n : Z) (s : PS) (T : tree) (ms : MemorySet) (m' : Mem) : Prop :=
  if n =? 0 then gives (pmem s) (own T (areas ms)) m' /\ (forall f, f ∉ own T (areas ms) -> ram m' !! f = ram (pmem s) !! f)
  else m' = pmem s.

Lemma task_exit_spec s pid p code ms T A n : procs s !! pid = Some p -> (exists x, proc_state p = u8_of_pstate x) ->
  tasks_ok (psched s) pid (tasks p) -> n = Zlength (live (psched s) pid (tasks p)) -> vm p = Some ms ->
  space_inv (pmem s) (pt ms) T A (areas ms) ->
  swp (task_exit pid code) s (fun _ s' => exists m', s' = mkPS (psched s) (<[pid := exited p n code (tasks p)]> (procs s)) (proc_map s) (next_pid s) m' /\
    left_mem n s T ms m').
Proof.
  intros Hp [x Hx] [_ Ht] -> Hvm I. apply swp_bind, swp_bind. eapply get_proc_swp; [done|]. apply swp_get_bind.
  eapply swp_lift; [by apply count_live_spec|]. unfold exited, left_mem. assert (with_tasks p (tasks p) = p) as -> by (by destruct p).
  destruct (Z.eqb_spec (Zlength (live (psched s) pid (tasks p))) 0) as [E|E].
  2:{ apply swp_ret. exists (pmem s). split; [|done]. rewrite insert_id by done. by destruct s. }
  apply swp_bind. eapply get_proc_swp; [done|]. eapply swp_lift_bind; [by rewrite Hx, pstate_of_u8_of|].
  set (p1 := if proc_state p =? u8_of_pstate PNormal then with_exit_code p code else p).
  apply swp_bind. assert (forall Q, Q tt (mkPS (psched s) (<[pid := p1]> (procs s)) (proc_map s) (next_pid s) (pmem s)) ->
    swp (if bool_decide (x = PNormal) then modify_proc pid (fun p => with_exit_code p code) else mret tt) s Q) as Hmod.
  { intros Q HQ. unfold p1 in HQ. rewrite Hx in HQ. destruct (decide (x = PNormal)) as [->|Hn].
    - rewrite bool_decide_true by done. by eapply modify_proc_swp.
    - rewrite bool_decide_false by done. apply swp_ret. assert ((u8_of_pstate x =? u8_of_pstate PNormal) = false) as Ef by (by destruct x).
      rewrite Ef in HQ. rewrite insert_id in HQ by done. by destruct s. }
  apply Hmod. apply swp_bind. eapply modify_proc_swp; [cbn [procs]; apply lookup_insert_eq|]. cbn [procs psched proc_map next_pid pmem].
  rewrite insert_insert_eq. apply swp_bind. eapply get_proc_swp; [cbn [procs]; apply lookup_insert_eq|].
  assert (vm (with_state p1 PZombie) = Some ms) as -> by (unfold p1; by destruct (proc_state p =? _)).
  apply swp_bind, on_mem_swp.
  eapply swp_mono; [by apply (MemorySet_drop_spec _ ms T A)|]. intros [] m' [Hg Hr]. cbn [procs psched proc_map next_pid pmem].
  eapply modify_proc_swp; [cbn [procs]; apply lookup_insert_eq|]. cbn [procs psched proc_map next_pid pmem]. rewrite insert_insert_eq.
  eexists. split_and!; [done|done|]. intros f Hf. apply Hr. intros Hin. by apply Hf, elem_of_union_l.
Qed.

Definition with_code (x : Task) (c : Z) : Task := mkTask (is_kernel_task x) (entry x) c (task_signal x).

Lemma set_task_exit_code_spec s t p x c : procs s !! t.1 = Some p -> bt_lookup t.2 (tasks p) = Some x ->
  swp (set_task_exit_code t c) s (fun _ s' =>
    s' = mkPS (psched s) (<[t.1 := with_tasks p (bt_insert t.2 (with_code x c) (tasks p))]> (procs s)) (proc_map s) (next_pid s) (pmem s)).
Proof. intros Hp Hx. apply swp_bind. eapply get_proc_swp; [done|]. eapply swp_lift_bind; [by rewrite Hx|]. by eexists tt, _. Qed.

Lemma tasks_exited p n code l : tasks (exited p n code l) = l.
Proof. unfold exited. destruct (n =? 0); [|done]. cbn [tasks with_vm with_state]. by destruct (_ =? _). Qed.

Lemma exited_tasks p n code l l' : with_tasks (exited p n code l) l' = exited p n code l'.
Proof. unfold exited. destruct (n =? 0); [|done]. cbn [proc_state with_tasks]. by destruct (_ =? _). Qed.

Lemma sys_exit_spec s p x code ms T A : let t := current (psched s) in
  sched_ok (psched s) -> t <> idle_task -> procs s !! t.1 = Some p -> (exists st, proc_state p = u8_of_pstate st) ->
  tasks_ok (psched s) t.1 (tasks p) -> bt_lookup t.2 (tasks p) = Some x -> vm p = Some ms ->
  space_inv (pmem s) (pt ms) T A (areas ms) ->
  let n := Zlength (live (marked (psched s)) t.1 (tasks p)) in
  swp (sys_exit code) s (fun _ s' => exists m', left_mem n s T ms m' /\
    s' = mkPS (rescheduled Zombie (psched s)) (<[t.1 := exited p n code (bt_insert t.2 (with_code x code) (tasks p))]> (procs s))
      (proc_map s) (next_pid s) m').
Proof.
  intros t Hs Hi Hp Hst Hts Hx Hvm I n. apply cur_task_bind, swp_bind, on_psched_swp, set_state_swp; [eapply in_state_some, sk_current, Hs|].
  fold (marked (psched s)). fold t. set (l := bt_insert t.2 (with_code x code) (tasks p)).
  apply swp_bind. eapply swp_mono; [by apply set_task_exit_code_spec|]. intros [] s1 ->. cbn [psched procs proc_map next_pid pmem]. fold l.
  assert (l.*1 = (tasks p).*1) as Ek by (eapply bt_insert_keys; [apply Hts|done]).
  assert (bt_ok l) as Hl by (by apply bt_insert_ok, Hts).
  apply swp_bind. eapply swp_mono; [apply (task_exit_spec _ t.1 (with_tasks p l) code ms T A n)|].
  - cbn [procs]. apply lookup_insert_eq.
  - done.
  - split; [done|]. cbn [tasks with_tasks psched]. rewrite Ek. intros tid Htid. destruct (ts_states _ _ _ Hts tid Htid) as [y Hy].
    unfold in_state, marked. cbn [states]. destruct (decide ((t.1, tid) = current (psched s))) as [E|E].
    + rewrite E, lookup_insert_eq. by eexists.
    + rewrite lookup_insert_ne by done. by eexists.
  - cbn [tasks with_tasks psched]. unfold n. f_equal. by apply live_keys.
  - done.
  - done.
  - intros [] s2 (m' & -> & Hm). cbn [psched procs proc_map next_pid pmem] in *. rewrite insert_insert_eq. cbn [tasks with_tasks].
    change (exited (with_tasks p l) n code l) with (exited p n code l).
    apply swp_bind. eapply swp_mono; [apply (set_task_exit_code_spec _ t (exited p n code l) (with_code x code))|].
    + cbn [procs]. apply lookup_insert_eq.
    + rewrite tasks_exited. unfold l. rewrite bt_lookup_insert by apply Hts. by rewrite Z.eqb_refl.
    + intros [] s3 ->. cbn [psched procs proc_map next_pid pmem]. rewrite insert_insert_eq, tasks_exited, exited_tasks.
      unfold l at 1. rewrite bt_insert_same. change (with_code (with_code x code) code) with (with_code x code). fold l.
      apply on_psched_swp. cbn [psched]. eapply swp_mono; [by apply exit_current_spec|]. intros [] x' ->.
      by exists m'.
Qed.

(** C30: When the current task exits it becomes a zombie with its exit code, and the
    next ready task runs.  If it was the last live task of its process, the process
    becomes a zombie with that exit code (unless it is being stopped, which has set
    the code already), and every frame of its address space is free again.  Its
    children stay with it and its files stay open until it is reaped. *)
Theorem process_exit s p x code ms T A : let t := current (psched s) in
  sched_ok (psched s) -> t <> idle_task -> procs s !! t.1 = Some p -> (exists st, proc_state p = u8_of_pstate st) ->
  tasks_ok (psched s) t.1 (tasks p) -> bt_lookup t.2 (tasks p) = Some x -> vm p = Some ms ->
  space_inv (pmem s) (pt ms) T A (areas ms) ->
  let n := Zlength (live (marked (psched s)) t.1 (tasks p)) in
  swp (sys_exit code) s (fun _ s' => exists p', psched s' = rescheduled Zombie (psched s) /\
    procs s' = <[t.1 := p']> (procs s) /\ proc_map s' = proc_map s /\
    tasks p' = bt_insert t.2 (with_code x code) (tasks p) /\ children p' = children p /\ fd_table p' = fd_table p /\
    if n =? 0 then
      proc_state p' = u8_of_pstate PZombie /\ vm p' = None /\
      proc_exit_code p' = (if proc_state p =? u8_of_pstate PNormal then code else proc_exit_code p) /\
      gives (pmem s) (own T (areas ms)) (pmem s')
    else proc_state p' = proc_state p /\ vm p' = vm p /\ pmem s' = pmem s).
Proof.
  intros t Hs Hi Hp Hst Hts Hx Hvm I n. eapply swp_mono; [by apply (sys_exit_spec s p x code ms T A)|].
  intros [] s' (m' & Hm & ->). fold t n in Hm |- *. eexists. cbn [psched procs proc_map pmem].
  split_and!; [done|done|done|by rewrite tasks_exited|..]; unfold left_mem, exited in *; destruct (n =? 0); try done;
    cbn; by destruct (proc_state p =? 1), Hm.
Qed.

(** ** Stopping a process *)

(** A process after the children [l] have been given to process [r]. *)
Definition adopt (r : Z) (l : list Z) (q : Z) (x : Process) : Process :=
  let x := if decide (q ∈ l) then with_parent x (Some r) else x in
  if decide (q = r) then with_children x (children x ++ l) else x.

Lemma adopt_nil r q x : adopt r [] q x = x.
Proof. unfold adopt. rewrite (decide_False (P := q ∈ [])) by apply not_elem_of_nil. case_decide; [|done]. rewrite app_nil_r. by destruct x. Qed.

Lemma add_children_spec r l : forall s, r ∉ l -> is_Some (procs s !! r) -> (forall c, c ∈ l -> is_Some (procs s !! c)) ->
  swp (add_children r l) s (fun _ s' => psched s' = psched s /\ proc_map s' = proc_map s /\ next_pid s' = next_pid s /\ pmem s' = pmem s /\
    forall q, procs s' !! q = adopt r l q <$> procs s !! q).
Proof.
  induction l as [|c l IH]; intros s Hr [y Hy] Hl.
  - apply swp_ret. split_and!; [done..|]. intros q. destruct (procs s !! q); simpl; [|done]. by rewrite adopt_nil.
  - apply not_elem_of_cons in Hr as [Hrc Hr]. destruct (Hl c) as [z Hz]; [apply elem_of_cons; by left|]. cbn [add_children].
    apply swp_bind, swp_bind. eapply modify_proc_swp; [done|]. eapply modify_proc_swp; [cbn [procs]; by rewrite lookup_insert_ne|].
    cbn [psched procs proc_map next_pid pmem]. eapply swp_mono; [apply IH; cbn [procs]|].
    + done.
    + rewrite lookup_insert_eq. by eexists.
    + intros d Hd. rewrite !lookup_insert_is_Some. destruct (decide (r = d)); [by left|right; split; [done|]].
      destruct (decide (c = d)); [by left|right; split; [done|]]. apply Hl, elem_of_cons. by right.
    + intros [] s' (E1 & E2 & E3 & E4 & E5). split_and!; [done..|]. intros q. rewrite E5. cbn [procs]. unfold adopt.
      destruct (decide (q = r)) as [->|Hq]; [|destruct (decide (q = c)) as [->|Hqc]].
      * rewrite lookup_insert_eq, Hy. simpl. rewrite !decide_False by (rewrite ?elem_of_cons; naive_solver).
        cbn [children with_children]. by rewrite <- app_assoc.
      * rewrite lookup_insert_ne, lookup_insert_eq, Hz by done. simpl. rewrite (decide_True (P := c ∈ c :: l)) by (apply elem_of_cons; by left).
        by case_decide.
      * rewrite !lookup_insert_ne by done. destruct (procs s !! q); simpl; [|done]. f_equal.
        destruct (decide (q ∈ l)), (decide (q ∈ c :: l)) as [Hin|Hin]; try done; exfalso;
          [apply Hin, elem_of_cons; by right|apply elem_of_cons in Hin as [?|?]; done].
Qed.

(** The tasks of a process that gets a signal: those that are not zombies have it
    pending, and [n] of them did not have it before. *)
Definition signalled (s : Sched) (pid flag : Z) (x : Z * Task) : Z * Task :=
  if decide (states s !! (pid, x.1) = Some (u8_of_state Zombie)) then x else
  if contains (signals (task_signal x.2)) flag then x else
  (x.1, mkTask (is_kernel_task x.2) (entry x.2) (task_exit_code x.2) (set_singal (task_signal x.2) flag)).

Lemma kill_tasks_spec s pid flag l : (forall tid, tid ∈ l.*1 -> exists x, in_state s (pid, tid) x) ->
  kill_tasks (states s) pid flag l = Ok (signalled s pid flag <$> l,
    Zlength (filter (fun x => contains (signals (task_signal x.2)) flag = false) (live s pid l))).
Proof.
  induction l as [|[tid t] l IH]; intros Hl; [done|]. cbn [kill_tasks].
  destruct (Hl tid) as [x Hx]; [rewrite fmap_cons; apply elem_of_cons; by left|]. unfold in_state in Hx. rewrite Hx. cbn [unwrap mbind res_bind].
  rewrite state_of_u8_of. cbn [mbind res_bind]. rewrite IH by (intros; apply Hl; rewrite fmap_cons; apply elem_of_cons; by right).
  cbn [mbind res_bind]. rewrite fmap_cons. unfold live. set (new := signalled s pid flag (tid, t)).
  assert (new = if decide (Some (u8_of_state x) = Some (u8_of_state Zombie)) then (tid, t) else
    if contains (signals (task_signal t)) flag then (tid, t) else
    (tid, mkTask (is_kernel_task t) (entry t) (task_exit_code t) (set_singal (task_signal t) flag))) as ->.
  { unfold new, signalled. cbn [fst snd]. by rewrite Hx. }
  destruct (decide (x = Zombie)) as [->|Hz].
  - rewrite bool_decide_true, decide_True by done. rewrite filter_cons_False; [done|]. simpl. rewrite Hx. tauto.
  - assert (Some (u8_of_state x) <> Some (u8_of_state Zombie)) as Hne by (intros [= E]; by apply Hz, u8_of_state_inj).
    rewrite bool_decide_false, decide_False by done. rewrite filter_cons_True by (simpl; by rewrite Hx). cbn [orb].
    destruct (contains (signals (task_signal t)) flag) eqn:Ec.
    + rewrite filter_cons_False; [done|]. simpl. by rewrite Ec.
    + rewrite filter_cons_True by done. simpl. f_equal. f_equal. lia.
Qed.

(** What [stop] leaves of process [pid]. *)
Definition stopped (s : Sched) (pid code : Z) (x : Process) : Process :=
  with_exit_code (with_state (with_tasks (with_children x []) (signalled s pid SIGKILL <$> tasks x)) PStop) code.

Lemma stop_spec s pid p code : tree_ok s -> is_Some (procs s !! ROOT_PROC) -> pid <> 0 -> pid <> 1 -> procs s !! pid = Some p ->
  (forall tid, tid ∈ (tasks p).*1 -> exists x, in_state (psched s) (pid, tid) x) ->
  swp (stop pid code) s (fun _ s' => psched s' = psched s /\ proc_map s' = proc_map s /\ next_pid s' = next_pid s /\ pmem s' = pmem s /\
    forall q, procs s' !! q = (fun x => if decide (q = pid) then stopped (psched s) pid code x else adopt ROOT_PROC (children p) q x) <$> procs s !! q).
Proof.
  intros T Hr H0 H1 Hp Ht. assert (forall c, c ∈ children p -> is_Some (procs s !! c) /\ pid < c) as Hc by (intros; by eapply tk_child).
  pose proof (tk_pids _ T _ _ Hp) as Hpid.
  assert (pid ∉ children p /\ ROOT_PROC ∉ children p) as [Hself Hroot].
  { split; intros Hin; destruct (Hc _ Hin) as [_ Hlt]; unfold ROOT_PROC in *; lia. }
  unfold stop, is_idle_proc, is_root. eapply swp_lift_bind; [by rewrite (proj2 (Z.eqb_neq _ _))|].
  eapply swp_lift_bind; [by rewrite (proj2 (Z.eqb_neq _ _))|]. apply swp_bind. eapply get_proc_swp; [done|].
  apply swp_bind. eapply swp_mono; [apply add_children_spec; [done..|]; intros; by apply Hc|].
  intros [] s1 (E1 & E2 & E3 & E4 & E5). assert (procs s1 !! pid = Some p) as Hp1.
  { rewrite E5, Hp. simpl. unfold adopt. by rewrite !decide_False. }
  apply swp_bind. eapply modify_proc_swp; [done|]. apply swp_bind. eapply get_proc_swp; [cbn [procs]; apply lookup_insert_eq|].
  apply swp_get_bind. cbn [psched procs proc_map next_pid pmem]. eapply swp_lift_bind.
  { apply kill_tasks_spec. rewrite E1. exact Ht. }
  cbn beta iota. apply swp_bind. eexists tt, _. split; [done|]. cbn [psched procs proc_map next_pid pmem]. rewrite insert_insert_eq.
  apply swp_bind. eapply modify_proc_swp; [cbn [procs]; apply lookup_insert_eq|]. cbn [psched procs proc_map next_pid pmem]. rewrite insert_insert_eq.
  eapply modify_proc_swp; [cbn [procs]; apply lookup_insert_eq|]. cbn [psched procs proc_map next_pid pmem]. rewrite insert_insert_eq.
  split_and!; [done..|]. intros q. destruct (decide (q = pid)) as [->|Hq].
  - rewrite lookup_insert_eq, Hp. simpl. unfold stopped. by rewrite E1.
  - rewrite lookup_insert_ne by done. apply E5.
Qed.

Lemma adopt_children r l q x : children (adopt r l q x) = children x ++ (if decide (q = r) then l else []) /\
  proc_state (adopt r l q x) = proc_state x.
Proof. unfold adopt. repeat case_decide; cbn; rewrite ?app_nil_r; done. Qed.

Lemma stop_tree_ok s s' pid p code : tree_ok s -> is_Some (procs s !! ROOT_PROC) -> pid <> 0 -> pid <> 1 -> procs s !! pid = Some p ->
  proc_map s' = proc_map s -> next_pid s' = next_pid s ->
  (forall q, procs s' !! q = (fun x => if decide (q = pid) then stopped (psched s) pid code x else adopt ROOT_PROC (children p) q x) <$> procs s !! q) ->
  tree_ok s'.
Proof.
  intros T Hr H0 H1 Hp E2 E3 Ep. pose proof (tk_pids _ T _ _ Hp) as Hpid.
  assert (forall q y, procs s' !! q = Some y -> exists x, procs s !! q = Some x /\
    (forall c, c ∈ children y <-> q <> pid /\ c ∈ children x \/ q = ROOT_PROC /\ c ∈ children p) /\
    children y = (if decide (q = pid) then [] else children x ++ if decide (q = ROOT_PROC) then children p else []) /\
    exists st, proc_state y = u8_of_pstate st) as Hch.
  { intros q y Hy. rewrite Ep in Hy. destruct (procs s !! q) as [x|] eqn:Hx; [|done]. exists x. split; [done|]. injection Hy as <-.
    destruct (decide (q = pid)) as [->|Hq].
    - split_and!; [|done|by exists PStop]. intros c. cbn [stopped children with_exit_code with_state with_tasks with_children].
      rewrite elem_of_nil. unfold ROOT_PROC. split; [done|]. by intros [[? _]|[? _]].
    - destruct (adopt_children ROOT_PROC (children p) q x) as [-> ->]. split_and!; [|done|by apply (tk_state _ T q)].
      intros c. rewrite elem_of_app. case_decide as Er; [naive_solver|]. rewrite elem_of_nil. naive_solver. }
  assert (forall c, is_Some (procs s !! c) -> is_Some (procs s' !! c)) as Hs by (intros c [x Hx]; rewrite Ep, Hx; by eexists).
  split.
  - intros q y c Hy Hc. destruct (Hch q y Hy) as (x & Hx & Hin & _). clear Hch. destruct (proj1 (Hin c) Hc) as [[_ Hc1]|[-> Hc1]].
    + destruct (tk_child _ T _ _ _ Hx Hc1). auto.
    + destruct (tk_child _ T _ _ _ Hp Hc1). split; [auto|]. unfold ROOT_PROC. lia.
  - intros q y Hy. destruct (Hch q y Hy) as (x & Hx & _ & -> & _). case_decide as Eq; [constructor|]. case_decide as Er; [|rewrite app_nil_r; by apply (tk_nodup _ T q)].
    apply NoDup_app. split_and!; [by apply (tk_nodup _ T q)| |by apply (tk_nodup _ T pid)]. intros c Hc Hc'.
    apply Eq. by apply (tk_one _ T q x pid p c).
  - intros q y q' y' c Hy Hy' Hc Hc'. destruct (Hch q y Hy) as (x & Hx & Hin & _), (Hch q' y' Hy') as (x' & Hx' & Hin' & _).
    clear Hch. destruct (proj1 (Hin c) Hc) as [[Hq H2]|[-> H2]], (proj1 (Hin' c) Hc') as [[Hq' H3]|[-> H3]]; [| | |done].
    + by apply (tk_one _ T _ _ _ _ c Hx Hx').
    + by destruct Hq; apply (tk_one _ T _ _ _ _ c Hx Hp).
    + by destruct Hq'; apply (tk_one _ T _ _ _ _ c Hx' Hp).
  - intros c Hc. rewrite E2 in Hc. by apply Hs, (tk_map _ T).
  - intros q y Hy. by destruct (Hch q y Hy) as (x & _ & _ & _ & ?).
  - intros q y Hy. destruct (Hch q y Hy) as (x & Hx & _). rewrite E3. by apply (tk_pids _ T q x).
Qed.

(** C34: Stopping a process (exit_group) gives its children to the root process, in
    order, without losing or duplicating any; it is marked stopped with its exit
    code, and every task of it that has not exited has SIGKILL pending, which the
    task finds before it returns to user mode. *)
Theorem exit_group_reparents s pid p r code : tree_ok s -> procs s !! ROOT_PROC = Some r -> pid <> 0 -> pid <> 1 ->
  procs s !! pid = Some p -> (forall tid, tid ∈ (tasks p).*1 -> exists x, in_state (psched s) (pid, tid) x) ->
  swp (stop pid code) s (fun _ s' => tree_ok s' /\ psched s' = psched s /\ exists p' r',
    procs s' !! pid = Some p' /\ children p' = [] /\ proc_state p' = u8_of_pstate PStop /\ proc_exit_code p' = code /\ vm p' = vm p /\
    procs s' !! ROOT_PROC = Some r' /\ children r' = children r ++ children p /\
    (forall c, c ∈ children p -> exists x, procs s' !! c = Some x /\ parent x = Some ROOT_PROC) /\
    forall tid t, (tid, t) ∈ tasks p' -> ~ in_state (psched s) (pid, tid) Zombie -> Z.testbit (signals (task_signal t)) 9 = true).
Proof.
  intros T Hr H0 H1 Hp Ht. eapply swp_mono; [by apply stop_spec; eauto|]. intros [] s' (E1 & E2 & E3 & _ & Ep).
  split; [eapply stop_tree_ok; eauto|]. split; [done|]. eexists _, _. rewrite !Ep, Hp, Hr. cbn [fmap option_fmap option_map].
  rewrite decide_True, decide_False by (done || (unfold ROOT_PROC; lia)). split_and!; [done..| | |].
  - destruct (adopt_children ROOT_PROC (children p) ROOT_PROC r) as [-> _]. by rewrite decide_True.
  - intros c Hc. destruct (tk_child _ T _ _ _ Hp Hc) as [[x Hx] Hlt]. rewrite Ep, Hx. cbn [fmap option_fmap option_map].
    eexists. split; [done|]. rewrite decide_False by lia. unfold adopt. rewrite (decide_True (P := c ∈ _)) by done. by case_decide.
  - intros tid t Hin Hz. cbn [tasks stopped with_exit_code with_state with_tasks] in Hin. apply list_elem_of_fmap in Hin as ([tid' t'] & E & Hin).
    unfold signalled in E. cbn [fst snd] in E. destruct (decide _) as [Hd|Hd]; [injection E as -> ->; by destruct Hz|].
    destruct (contains (signals (task_signal t')) SIGKILL) eqn:Ec; injection E as -> ->.
    + change SIGKILL with (sig_flag 9) in Ec. by rewrite contains_bit in Ec by lia.
    + cbn [task_signal]. unfold set_singal, set_signals. cbn [signals]. rewrite Z.lor_spec. change SIGKILL with (sig_flag 9).
      rewrite sig_flag_bits by lia. apply orb_true_r.
Qed.

(** ** Signals sent to a process *)

(** [kill] reaches exactly the processes of the table; it makes the signal
    [1 << (signum mod 32)] pending for every task that has not exited, and succeeds if
    it was new to one of them.  Numbers outside 0..31 are not refused. *)
Theorem kill_sends s pid signum p : procs s !! pid = Some p -> tasks_ok (psched s) pid (tasks p) ->
  (pid ∉ proc_map s -> sys_kill pid signum s = Ok (-1, s)) /\
  (pid ∈ proc_map s -> swp (sys_kill pid signum) s (fun ret s' =>
    psched s' = psched s /\ procs s' = <[pid := with_tasks p (signalled (psched s) pid (sig_flag signum) <$> tasks p)]> (procs s) /\
    (ret = 0 <-> exists tid t, (tid, t) ∈ tasks p /\ ~ in_state (psched s) (pid, tid) Zombie /\
       Z.testbit (signals (task_signal t)) (signum `mod` 32) = false) /\ (ret = 0 \/ ret = -1))).
Proof.
  intros Hp Hts. assert (0 <= signum `mod` 32 < 32) as Hm by (apply Z.mod_pos_bound; lia).
  assert (sig_flag signum = sig_flag (signum `mod` 32)) as Ef by (unfold sig_flag; by rewrite Zmod_mod).
  split; intros Hin; unfold sys_kill.
  - unfold mbind, st_bind, sget. by rewrite bool_decide_false.
  - apply swp_get_bind. rewrite bool_decide_true by done. apply swp_bind. eapply get_proc_swp; [done|].
    eapply swp_lift_bind; [apply kill_tasks_spec, Hts|]. cbn beta iota. apply swp_bind. eexists tt, _. split; [done|]. apply swp_ret.
    split_and!; [done|done| |destruct (0 <? _); auto]. rewrite Ef. set (l := filter _ (live (psched s) pid (tasks p))).
    assert (0 < Zlength l <-> exists x, x ∈ l) as Hl.
    { destruct l as [|x l']; split; intros H; [cbn in H; lia|by destruct H as [? ?%elem_of_nil]|exists x; apply elem_of_cons; by left|cbn; lia]. }
    assert ((if 0 <? Zlength l then 0 else -1) = 0 <-> 0 < Zlength l) as -> by (destruct (Z.ltb_spec 0 (Zlength l)); lia).
    rewrite Hl. unfold l, live. split.
    + intros [[tid t] H]. rewrite !list_elem_of_filter in H. destruct H as (H1 & H2 & H3). rewrite contains_bit in H1 by done. eauto 6.
    + intros (tid & t & H1 & H2 & H3). exists (tid, t). rewrite !list_elem_of_filter. rewrite contains_bit by done. done.
Qed.

(** ** Stacks of threads *)

Lemma user_stack_eq k : 0 <= k <= 17 -> user_stack k = (USER_STACK_TOP - k * 20480 - 16384, USER_STACK_TOP - k * 20480).
Proof.
  intros Hk. unfold user_stack, USER_STACK_TOP, USER_STACK_SIZE, PAGE_SIZE. rewrite !(u64_small (0x800000000000 - _)) by lia.
  rewrite u64_small by lia. f_equal; lia.
Qed.

(** The stacks of the threads of a process (thread ids 0 to 16) are 16 KiB each,
    page aligned, inside user space, and any two of them are separated by at least
    one page that belongs to neither; the first is the stack [load_user] maps. *)
Theorem thread_stacks_disjoint i j : 0 <= i <= 16 -> 0 <= j <= 16 ->
  let '(lo, hi) := user_stack i in let '(lo', hi') := user_stack j in
  hi - lo = USER_STACK_SIZE /\ lo `mod` PAGE_SIZE = 0 /\ 0 < lo /\ hi <= USER_STACK_TOP /\
  (i < j -> hi' + PAGE_SIZE <= lo) /\ user_stack 0 = (USER_STACK_TOP - USER_STACK_SIZE, USER_STACK_TOP).
Proof.
  intros Hi Hj. rewrite !user_stack_eq by lia. unfold USER_STACK_TOP, USER_STACK_SIZE, PAGE_SIZE. split_and!; [lia| |lia|lia|lia|done].
  replace (0x800000000000 - i * 20480 - 16384) with ((0x800000000 - i * 5 - 4) * 4096) by lia. by apply Z.mod_mul.
Qed.

(** ** Fork *)

Definition fork_child (p : Process) (pid : Z) (ms : MemorySet) (tf : TrapFrame) : Process :=
  mkProc false (u8_of_pstate PNormal) 0 (Some ms) [(0, mkTask false (EntryUser (TF_new_fork tf)) 0 SignalInner_new)] 1
    (Some pid) [] (fd_table p) SignalActions_default.

Definition forked_state (s : PS) (pid : Z) (p : Process) (ms : MemorySet) (tf : TrapFrame) (m : Mem) : PS :=
  mkPS (readied (next_pid s, 0) (psched s))
    (<[pid := with_children p (children p ++ [next_pid s])]> (<[next_pid s := fork_child p pid ms tf]> (procs s)))
    (proc_map s ∪ {[next_pid s]}) (next_pid s + 1) m.

(** Steps that read or change a process whose place in the table is known. *)
#[local] Ltac proc_step :=
  cbn [psched procs proc_map next_pid pmem];
  first [apply swp_bind; eapply modify_proc_swp; [cbn [procs]; apply lookup_insert_eq|]
        |eapply modify_proc_swp; [cbn [procs]; apply lookup_insert_eq|]
        |apply swp_bind; eapply get_proc_swp; [cbn [procs]; apply lookup_insert_eq|]
        |eapply get_proc_swp; [cbn [procs]; apply lookup_insert_eq|]];
  cbn [psched procs proc_map next_pid pmem]; rewrite ?insert_insert_eq.

Lemma new_fork_spec s pid p ms tf (P : MemorySet -> Mem -> Prop) : procs s !! pid = Some p -> is_kernel p = false -> vm p = Some ms ->
  0 <= next_pid s < 2 ^ 64 - 1 -> next_pid s <> pid -> swp (MemorySet_clone ms) (pmem s) P ->
  swp (new_fork pid tf) s (fun new s' => new = next_pid s /\ exists ms' m', P ms' m' /\
    s' = mkPS (mkSched (<[(new, 0) := u8_of_state Ready]> (states (psched s))) (ready_queue (psched s)) (current (psched s)))
      (<[pid := with_children p (children p ++ [new])]> (<[new := fork_child p pid ms' tf]> (procs s)))
      (proc_map s) (new + 1) m').
Proof.
  intros Hp Hk Hv Hn Hne Hc. unfold new_fork. apply swp_bind. eapply get_proc_swp; [done|]. eapply swp_lift_bind; [by rewrite Hk|].
  apply swp_bind. eexists _, _. split; [done|]. apply swp_bind. eexists tt, _. split; [done|]. eapply swp_lift_bind; [by rewrite Hv|].
  apply swp_bind, on_mem_swp. cbn [pmem]. eapply swp_mono; [exact Hc|]. intros ms' m' HP.
  apply swp_bind. unfold alloc_tid. proc_step. apply swp_bind. eexists tt, _. split; [done|]. apply swp_ret.
  cbn [psched procs proc_map next_pid pmem next_tid Process_new_common]. rewrite insert_insert_eq. apply swp_bind, swp_bind, on_psched_swp.
  eexists tt, _. split; [done|]. apply swp_ret. do 3 proc_step. apply swp_bind. unfold add_child. proc_step.
  eapply modify_proc_swp; [cbn [procs]; by rewrite lookup_insert_ne|]. apply swp_ret. split; [done|]. exists ms', m'. split; [done|].
  cbn. rewrite !u64_small by lia. reflexivity.
Qed.

Lemma forked_tree_ok s pid p ms tf m : tree_ok s -> procs s !! pid = Some p -> 0 <= next_pid s -> tree_ok (forked_state s pid p ms tf m).
Proof.
  intros T Hp Hn. pose proof (tk_pids _ T _ _ Hp) as Hpid. set (new := next_pid s) in *.
  assert (procs s !! new = None) as Hnew.
  { destruct (procs s !! new) eqn:E; [|done]. apply (tk_pids _ T) in E. unfold new in E. lia. }
  assert (forall q y c, procs s !! q = Some y -> c ∈ children y -> c <> new) as Hold.
  { intros q y c Hy Hc ->. destruct (tk_child _ T _ _ _ Hy Hc) as [[? ?] _]. congruence. }
  assert (forall q y, procs (forked_state s pid p ms tf m) !! q = Some y ->
    (q = new /\ children y = [] \/ exists x, procs s !! q = Some x /\ children y = children x ++ (if decide (q = pid) then [new] else [])) /\
    exists st, proc_state y = u8_of_pstate st) as Hch.
  { intros q y. unfold forked_state. cbn [procs]. intros [[<- <-]|[Hq [[<- <-]|[Hq' Hy]]%lookup_insert_Some]]%lookup_insert_Some.
    - split; [right; exists p; rewrite decide_True by done; done|]. exact (tk_state _ T _ _ Hp).
    - split; [by left|by exists PNormal].
    - split; [right; exists y; rewrite decide_False by done; by rewrite app_nil_r|by apply (tk_state _ T q)]. }
  assert (forall q, is_Some (procs s !! q) \/ q = new -> is_Some (procs (forked_state s pid p ms tf m) !! q)) as Hsome.
  { intros q Hq. unfold forked_state. cbn [procs]. rewrite !lookup_insert_is_Some. fold new.
    destruct (decide (pid = q)), (decide (new = q)); destruct Hq; auto. }
  split.
  - intros q y c Hy Hc. destruct (Hch q y Hy) as [[[-> E]|(x & Hx & E)] _]; rewrite E in Hc; clear E; [by apply elem_of_nil in Hc|].
    apply elem_of_app in Hc as [Hc|Hc].
    + destruct (tk_child _ T _ _ _ Hx Hc). auto.
    + case_decide as Eq; [|by apply elem_of_nil in Hc]. apply list_elem_of_singleton in Hc as ->. subst q. split; [auto|]. unfold new. lia.
  - intros q y Hy. destruct (Hch q y Hy) as [[[-> E]|(x & Hx & E)] _]; rewrite E; [constructor|].
    case_decide as Eq; [|rewrite app_nil_r; by apply (tk_nodup _ T q)]. apply NoDup_app.
    split_and!; [by apply (tk_nodup _ T q)| |apply NoDup_singleton]. intros c Hc ->%list_elem_of_singleton. by apply (Hold q x new).
  - intros q y q' y' c Hy Hy' Hc Hc'. destruct (Hch q y Hy) as [[[-> E]|(x & Hx & E)] _]; rewrite E in Hc; clear E; [by apply elem_of_nil in Hc|].
    destruct (Hch q' y' Hy') as [[[-> E']|(x' & Hx' & E')] _]; rewrite E' in Hc'; clear E'; [by apply elem_of_nil in Hc'|].
    apply elem_of_app in Hc as [Hc|Hc], Hc' as [Hc'|Hc'].
    + by apply (tk_one _ T _ _ _ _ c Hx Hx').
    + case_decide; [|by apply elem_of_nil in Hc']. apply list_elem_of_singleton in Hc' as ->. by destruct (Hold q x new).
    + case_decide; [|by apply elem_of_nil in Hc]. apply list_elem_of_singleton in Hc as ->. by destruct (Hold q' x' new).
    + destruct (decide (q = pid)), (decide (q' = pid)); [congruence|by apply elem_of_nil in Hc'|by apply elem_of_nil in Hc..].
  - unfold forked_state at 1. cbn [proc_map]. intros c [Hc|Hc]%elem_of_union; apply Hsome; [left; by apply (tk_map _ T)|right; by apply elem_of_singleton in Hc].
  - intros q y Hy. by destruct (Hch q y Hy) as [_ ?].
  - intros q y Hy. unfold forked_state. cbn [next_pid]. fold new. destruct (Hch q y Hy) as [[[-> _]|(x & Hx & _)] _]; [lia|].
    apply (tk_pids _ T) in Hx. unfold new. lia.
Qed.

Lemma sys_fork_spec s tf p ms T A : let pid := (current (psched s)).1 in
  tree_ok s -> procs s !! pid = Some p -> is_kernel p = false -> vm p = Some ms ->
  space_inv (pmem s) (pt ms) T A (areas ms) -> 1 + clone_cost (areas ms) <= spare (pmem s) -> 0 <= next_pid s < 2 ^ 64 - 1 ->
  swp (sys_fork tf) s (fun new s' => new = next_pid s /\ exists ms' m', s' = forked_state s pid p ms' tf m' /\ exists T' A',
    forked m' (pt ms) T A (areas ms) ms' T' A' (areas ms) /\ grows (pmem s) ∅ m' (own T' (areas ms'))).
Proof.
  intros pid T0 Hp Hk Hv I Hsp Hn. pose proof (tk_pids _ T0 _ _ Hp) as Hpid.
  apply cur_task_bind. fold pid. apply swp_bind. eapply swp_mono; [eapply (new_fork_spec s pid p ms tf); [done..|lia|]|].
  { by apply (MemorySet_clone_spec _ ms T A). }
  intros new s1 (-> & ms' & m' & F & ->). set (new := next_pid s) in *.
  assert (new <> pid) as Hne by (unfold new; lia). apply swp_bind. eexists tt, _. split; [done|]. cbn [psched procs proc_map next_pid pmem].
  apply swp_bind. unfold proc_task. apply swp_bind. unfold task_count. apply swp_bind.
  eapply get_proc_swp; [cbn [procs]; rewrite lookup_insert_ne by done; apply lookup_insert_eq|]. apply swp_get_bind.
  eapply swp_lift; [cbn; by rewrite lookup_insert_eq|]. eapply swp_lift_bind; [done|]. apply swp_bind.
  eapply get_proc_swp; [cbn [procs]; rewrite lookup_insert_ne by done; apply lookup_insert_eq|]. eapply swp_lift_bind; [done|]. apply swp_ret.
  apply swp_bind, on_psched_swp. cbn [psched]. eapply swp_mono; [apply spawn_spec; unfold in_state; apply lookup_insert_eq|].
  intros [] x ->. apply swp_ret. split; [done|]. by exists ms', m'.
Qed.

(** A new process has a new id, and no task of it is known. *)
Lemma fork_fresh s : tree_ok s -> (forall t, is_Some (states (psched s) !! t) -> t.1 < next_pid s) ->
  procs s !! next_pid s = None /\ forall tid, states (psched s) !! (next_pid s, tid) = None.
Proof.
  intros T0 Hfresh. split.
  - destruct (procs s !! next_pid s) eqn:E; [|done]. apply (tk_pids _ T0) in E. lia.
  - intros tid. destruct (states (psched s) !! (next_pid s, tid)) eqn:E; [|done]. specialize (Hfresh (next_pid s, tid)).
    rewrite E in Hfresh. specialize (Hfresh (mk_is_Some _ _ eq_refl)). simpl in Hfresh. lia.
Qed.

(** C3: [fork] makes a process that starts as a copy of the caller: its memory shows
    the same bytes and flags at every page, in frames of its own, its descriptors are
    those of the caller, and its one task is ready and resumes from the caller's frame
    with 0 as the result.  The caller gets the new process id, which was not in use,
    and keeps its memory; the new process is its last child. *)
Theorem fork_process s tf p ms T A : let pid := (current (psched s)).1 in
  sched_ok (psched s) -> tree_ok s -> procs s !! pid = Some p -> is_kernel p = false -> vm p = Some ms ->
  space_inv (pmem s) (pt ms) T A (areas ms) -> 1 + clone_cost (areas ms) <= spare (pmem s) ->
  0 <= next_pid s < 2 ^ 64 - 1 -> (forall t, is_Some (states (psched s) !! t) -> t.1 < next_pid s) ->
  swp (sys_fork tf) s (fun new s' => new = next_pid s /\ procs s !! new = None /\ tree_ok s' /\ sched_ok (psched s') /\
    exists ms' m', s' = forked_state s pid p ms' tf m' /\ exists T' A',
      space_inv m' (pt ms') T' A' (areas ms') /\ space_inv m' (pt ms) T A (areas ms) /\ own T (areas ms) ## own T' (areas ms') /\
      forall key, view m' A' key = view m' A key /\ view m' A key = view (pmem s) A key).
Proof.
  intros pid Hs T0 Hp Hk Hv I Hsp Hn Hfresh. destruct (fork_fresh s T0 Hfresh) as [Hnew Hst].
  eapply swp_mono; [by apply (sys_fork_spec s tf p ms T A)|]. intros new s' (-> & ms' & m' & -> & T' & A' & [I1 I2 Hd Hc] & G).
  split_and!; [done|done|apply forked_tree_ok; [done|done|lia]|apply (proj2 (run_op_spec (OpSpawn (next_pid s, 0)) (psched s) Hs (Hst 0)))|].
  exists ms', m'. split; [done|]. exists T', A'. split_and!; [done|done|done|]. intros key. split; [by eapply copies_view|].
  by apply (space_inv_fresh _ _ _ _ _ _ _ I G).
Qed.

(** ** Witnesses *)

(** The root process, and process 2, whose one task runs in an address space of its
    own, with a zombie child. *)
Definition demo_task : Task := mkTask false (EntryUser (TF_new_user 0 0)) 0 SignalInner_new.
Definition demo_proc (v : option MemorySet) (cs : list Z) (st : ProcState) (code : Z) : Process :=
  mkProc false (u8_of_pstate st) code v [(0, demo_task)] 1 None cs [Some Stdin; Some Stdout] SignalActions_default.
Definition demo_psched : Sched := fold_left (fun s o => op_result o s) [OpSpawn root_task; OpSpawn (2, 0); OpYield; OpYield] sched_init.
Definition demo_ps (v : option MemorySet) (m : Mem) : PS :=
  mkPS demo_psched (<[1 := demo_proc None [2] PNormal 0]> (<[2 := demo_proc v [3] PNormal 0]> {[3 := demo_proc None [] PZombie 7]}))
    {[2; 3]} 4 m.

Lemma demo_psched_ok : sched_ok demo_psched.
Proof.
  apply (run_ok sched_init [OpSpawn root_task; OpSpawn (2, 0); OpYield; OpYield]); [|apply sched_init_ok].
  do 4 (eapply run_cons; [vm_compute; first [exact I|congruence]|vm_compute; reflexivity|]). vm_compute. constructor.
Qed.

Lemma demo_lookup v m q y : procs (demo_ps v m) !! q = Some y ->
  q = 1 /\ y = demo_proc None [2] PNormal 0 \/ q = 2 /\ y = demo_proc v [3] PNormal 0 \/ q = 3 /\ y = demo_proc None [] PZombie 7.
Proof.
  cbn [procs demo_ps]. intros [[<- <-]|[_ [[<- <-]|[_ [<- <-]%lookup_singleton_Some]]%lookup_insert_Some]]%lookup_insert_Some; auto.
Qed.

Lemma demo_tree_ok v m : tree_ok (demo_ps v m).
Proof.
  split.
  - intros q y c Hy Hc. destruct (demo_lookup v m q y Hy) as [[-> ->]|[[-> ->]|[-> ->]]]; cbn in Hc;
      try (by apply elem_of_nil in Hc); apply list_elem_of_singleton in Hc as ->; split; (by eexists) || lia.
  - intros q y Hy. destruct (demo_lookup v m q y Hy) as [[-> ->]|[[-> ->]|[-> ->]]]; cbn; repeat constructor; by apply not_elem_of_nil.
  - intros q y q' y' c Hy Hy' Hc Hc'.
    destruct (demo_lookup v m q y Hy) as [[-> ->]|[[-> ->]|[-> ->]]], (demo_lookup v m q' y' Hy') as [[-> ->]|[[-> ->]|[-> ->]]];
      cbn in Hc, Hc'; try done; try (by apply elem_of_nil in Hc); try (by apply elem_of_nil in Hc');
      apply list_elem_of_singleton in Hc, Hc'; congruence.
  - intros c. cbn [proc_map demo_ps]. intros [Hc|Hc]%elem_of_union; apply elem_of_singleton in Hc as ->; by eexists.
  - intros q y Hy. destruct (demo_lookup v m q y Hy) as [[-> ->]|[[-> ->]|[-> ->]]]; by eexists.
  - intros q y Hy. destruct (demo_lookup v m q y Hy) as [[-> _]|[[-> _]|[-> _]]]; cbn; lia.
Qed.

Lemma waitpid_reaps_witness : exists s', waitpid 2 (-1) (demo_ps None (fresh_mem 0)) = Ok ((3, Some 7), s') /\ procs s' !! 3 = None.
Proof.
  destruct (waitpid_reaps (demo_ps None (fresh_mem 0)) 2 (demo_proc None [3] PNormal 0) (-1) (demo_tree_ok _ _) eq_refl)
    as ((ret & code) & s' & E & _ & x & Hx & -> & -> & ->).
  exists (reaped (demo_ps None (fresh_mem 0)) 2 (demo_proc None [3] PNormal 0) 0 3). split; [|reflexivity].
  rewrite E. vm_compute in Hx. injection Hx as <-. reflexivity.
Defined.

Lemma demo_tasks_ok : tasks_ok demo_psched 2 [(0, demo_task)].
Proof.
  split; [apply bt_ok_cons; split; [constructor|apply bt_ok_nil]|]. intros tid Ht. apply list_elem_of_singleton in Ht as ->.
  exists Running. vm_compute. reflexivity.
Qed.

Lemma process_exit_witness : exists ms m T A s', vm (demo_proc (Some ms) [3] PNormal 0) = Some ms /\
  sys_exit 5 (demo_ps (Some ms) m) = Ok (tt, s') /\ gives m (own T (areas ms)) (pmem s') /\ space_inv m (pt ms) T A (areas ms) /\
  exists p', procs s' !! 2 = Some p' /\ proc_exit_code p' = 5 /\ children p' = [3].
Proof.
  destruct (MemorySet_new_spec (fresh_mem 100) (fresh_mem_ok 100 ltac:(lia)) ltac:(reflexivity)) as (ms & m & _ & T & Ea & I & _).
  rewrite <- Ea in I. exists ms, m, T, ∅.
  destruct (process_exit (demo_ps (Some ms) m) (demo_proc (Some ms) [3] PNormal 0) demo_task 5 ms T ∅) as ([] & s' & E & p' & _ & Hp & _ & _ & Hc & _ & Hz).
  - exact demo_psched_ok.
  - vm_compute. congruence.
  - reflexivity.
  - exists PNormal. reflexivity.
  - exact demo_tasks_ok.
  - reflexivity.
  - reflexivity.
  - exact I.
  - vm_compute (_ =? 0) in Hz. destruct Hz as (_ & _ & Hcode & Hg). exists s'. split; [reflexivity|]. split; [exact E|]. split; [exact Hg|].
    split; [exact I|]. exists p'. split; [rewrite Hp; reflexivity|]. split; [exact Hcode|exact Hc].
Defined.

Lemma exit_group_reparents_witness : swp (stop 2 9) (demo_ps None (fresh_mem 0)) (fun _ s' => exists r',
  procs s' !! ROOT_PROC = Some r' /\ children r' = [2; 3]).
Proof.
  eapply swp_mono; [apply (exit_group_reparents (demo_ps None (fresh_mem 0)) 2 (demo_proc None [3] PNormal 0) (demo_proc None [2] PNormal 0) 9)|].
  - apply demo_tree_ok.
  - reflexivity.
  - lia.
  - lia.
  - reflexivity.
  - apply (ts_states _ _ _ demo_tasks_ok).
  - intros [] s' (_ & _ & p' & r' & _ & _ & _ & _ & _ & Hr & Hc & _). exists r'. split; [exact Hr|exact Hc].
Defined.

Lemma kill_sends_witness : swp (sys_kill 2 32) (demo_ps None (fresh_mem 0)) (fun ret _ => ret = 0) /\
  sys_kill 1 9 (demo_ps None (fresh_mem 0)) = Ok (-1, demo_ps None (fresh_mem 0)).
Proof.
  split.
  - eapply swp_mono; [apply (kill_sends (demo_ps None (fresh_mem 0)) 2 32 (demo_proc None [3] PNormal 0) eq_refl demo_tasks_ok)|].
    + vm_compute. reflexivity || (apply elem_of_union; left; by apply elem_of_singleton).
    + intros ret s' (_ & _ & Hr & _). apply Hr. exists 0, demo_task. split; [apply elem_of_cons; by left|]. split; [by vm_compute|reflexivity].
  - apply (kill_sends (demo_ps None (fresh_mem 0)) 1 9 (demo_proc None [2] PNormal 0) eq_refl).
    + split; [apply demo_tasks_ok|]. intros tid Ht. apply list_elem_of_singleton in Ht as ->. exists Ready. vm_compute. reflexivity.
    + cbn. set_solver.
Defined.

Lemma thread_stacks_disjoint_witness : user_stack 1 = (0x7FFFFFFF7000, 0x7FFFFFFFB000) /\ 0x7FFFFFFFB000 + PAGE_SIZE <= 0x7FFFFFFFC000.
Proof. split; [reflexivity|]. apply (thread_stacks_disjoint 0 1); lia. Defined.

Lemma fork_process_witness : exists ms m s' p', sys_fork (TF_new_user 64 0) (demo_ps (Some ms) m) = Ok (4, s') /\
  procs s' !! 4 = Some p' /\ fd_table p' = [Some Stdin; Some Stdout].
Proof.
  destruct (MemorySet_new_spec (fresh_mem 100) (fresh_mem_ok 100 ltac:(lia)) ltac:(reflexivity)) as (ms & m & _ & T & Ea & I & G & Hs).
  change (spare (fresh_mem 100)) with 100 in Hs. rewrite <- Ea in I.
  destruct (fork_process (demo_ps (Some ms) m) (TF_new_user 64 0) (demo_proc (Some ms) [3] PNormal 0) ms T ∅)
    as (new & s' & E & -> & _ & _ & _ & ms' & m' & -> & _).
  - exact demo_psched_ok.
  - apply demo_tree_ok.
  - reflexivity.
  - reflexivity.
  - reflexivity.
  - exact I.
  - cbn [pmem demo_ps]. rewrite Ea, Hs. vm_compute. congruence.
  - cbn. lia.
  - assert (map_Forall (fun t _ => t.1 < 4) (states demo_psched)) as Hd by (refine (bool_decide_unpack _ _); vm_compute; exact Logic.I).
    intros t [z Hz]. exact (Hd t z Hz).
  - exists ms, m. eexists _, _. split; [exact E|]. split; [reflexivity|reflexivity].
Defined.
