(* ===== verification/OsFile.v ===== *)
(** Files as processes see them: open files on easy-fs (os/src/fs/inode.rs),
    standard input and output (os/src/fs/stdio.rs), descriptors (os/src/task/structs.rs,
    os/src/syscall/fs.rs) and the calls that read and write through them. *)
From S2P Require Import Prelude ByteCodec BlockCache DiskLogic Bitmap Layout InodeMap InodeIO Efs Vfs FsInv VfsSpec Directory State UserAccess.

(** ** Open flags *)

Definition WRONLY : Z := 1.
Definition RDWR : Z := 2.
Definition CREATE : Z := 512.
Definition TRUNC : Z := 1024.
Definition OpenFlags_from_bits (bits : Z) : option Z :=
  if Z.land bits (Z.lnot (WRONLY + RDWR + CREATE + TRUNC)) =? 0 then Some bits else None.
Definition flag_set (flags f : Z) : bool := Z.land flags f =? f.

(** (readable, writable). *)
Definition read_write (flags : Z) : bool * bool :=
  if flags =? 0 then (true, false) else if flag_set flags WRONLY then (false, true) else (true, true).

(** ** [OSInode] *)

Record OSInode := mkOS { os_readable : bool; os_writable : bool; os_offset : Z; os_inode : Inode }.
Definition OSInode_new (readable writable : bool) (inode : Inode) : OSInode := mkOS readable writable 0 inode.
Definition set_offset (f : OSInode) (o : Z) : OSInode := mkOS (os_readable f) (os_writable f) o (os_inode f).

Definition OSInode_read (f : OSInode) (buf : list Z) : prog (Z * list Z * OSInode) :=
  '(read_size, buf) ← Inode_read_at (os_inode f) (os_offset f) buf;
  Ret (read_size, buf, set_offset f (usize (os_offset f + read_size))).
Definition OSInode_write (fs : EasyFileSystem) (f : OSInode) (buf : list Z) : prog (Z * OSInode) :=
  read_size ← Inode_write_at fs (os_inode f) (os_offset f) buf;
  Ret (read_size, set_offset f (usize (os_offset f + read_size))).

(** The loop of [read_all]; [buffer] is reused by every round. *)
Fixpoint read_all_loop (fuel : nat) (f : OSInode) (buffer v : list Z) : prog (list Z * OSInode) :=
  match fuel with
  | O => lift (Err NoFuel)
  | S fuel =>
      '(len, buffer) ← Inode_read_at (os_inode f) (os_offset f) buffer;
      if len =? 0 then Ret (v, f) else
      read_all_loop fuel (set_offset f (usize (os_offset f + len))) buffer (v ++ take (Z.to_nat len) buffer)
  end.
Definition read_all (fuel : nat) (f : OSInode) : prog (list Z * OSInode) :=
  read_all_loop fuel f (replicate 512 0) [].

Definition open_file (fs : EasyFileSystem) (name : list Z) (flags : Z) : prog (option OSInode) :=
  let '(readable, writable) := read_write flags in
  let root := root_inode fs in
  if flag_set flags CREATE then
    o ← Inode_find fs root name;
    match o with
    | Some inode => _ ← Inode_clear fs inode; Ret (Some (OSInode_new readable writable inode))
    | None => o ← Inode_create fs root name; Ret (option_map (OSInode_new readable writable) o)
    end
  else
    o ← Inode_find fs root name;
    match o with
    | Some inode =>
        _ ← (if flag_set flags TRUNC then Inode_clear fs inode else Ret tt);
        Ret (Some (OSInode_new readable writable inode))
    | None => Ret None
    end.

(** ** The trait [File], over a world [W] the files live in *)

Class FileOps (W F : Type) := {
  readable : F -> st W bool;
  writable : F -> st W bool;
  read : F -> list Z -> st W (Z * list Z);
  write : F -> list Z -> st W Z;
}.

(** ** Descriptors *)

Definition alloc_fd {F} (fd_table : list (option F)) (file : option F) : Z * list (option F) :=
  match find_index (fun o => match o with None => true | Some _ => false end) fd_table with
  | Some (fd, _) => (Z.of_nat fd, match file with Some _ => <[fd := file]> fd_table | None => fd_table end)
  | None => (Zlength fd_table, fd_table ++ [file])
  end.

Definition sys_close {F} (fd_table : list (option F)) (fd : Z) : Z * list (option F) :=
  if Zlength fd_table <=? fd then (-1, fd_table) else
  match fd_table !! Z.to_nat fd with
  | Some (Some _) => (0, <[Z.to_nat fd := None]> fd_table)
  | _ => (-1, fd_table)
  end.

Definition sys_dup {F} (fd_table : list (option F)) (fd : Z) : Z * list (option F) :=
  if Zlength fd_table <=? fd then (-1, fd_table) else
  match fd_table !! Z.to_nat fd with
  | Some (Some file) => alloc_fd fd_table (Some file)
  | _ => (-1, fd_table)
  end.

(** The two ends of a new pipe get descriptors, which are written to user memory. *)
Definition sys_pipe {F} (fd_table : list (option F)) (pipe_read pipe_write : F) (um : UMem) (pipe : Z) :
    res (Z * list (option F) * UMem) :=
  let '(read_fd, fd_table) := alloc_fd fd_table (Some pipe_read) in
  let '(write_fd, fd_table) := alloc_fd fd_table (Some pipe_write) in
  _ ← rassert (ptr_check pipe 8);
  um ← copy_to_user um pipe (le_bytes 8 read_fd ++ le_bytes 8 write_fd) 8;
  Ok (0, fd_table, um).

(** ** Reading and writing through a descriptor *)

Section calls.
Context {W F : Type} `{FileOps W F}.

Definition CHUNK_SIZE : Z := 256.

Fixpoint write_chunks (fuel : nat) (um : UMem) (file : F) (buf len count : Z) : st W Z :=
  match fuel with
  | O => slift (Err NoFuel)
  | S fuel =>
      if count <? len then
        let chunk_len := Z.min CHUNK_SIZE (len - count) in
        chunk ← slift (read_array um (ptr_add buf count 1) CHUNK_SIZE chunk_len);
        _len ← write file chunk;
        _ ← slift (rassert (_len =? chunk_len));
        write_chunks fuel um file buf len (count + chunk_len)
      else mret count
  end.
Definition sys_write (fd_table : list (option F)) (um : UMem) (fd buf len : Z) : st W Z :=
  if Zlength fd_table <=? fd then mret (-1) else
  match fd_table !! Z.to_nat fd with
  | Some (Some file) =>
      w ← writable file;
      if negb w then mret (-1) else
      count ← write_chunks (Z.to_nat (len / CHUNK_SIZE + 2)) um file buf len 0;
      mret (as_isize count)
  | _ => mret (-1)
  end.

(** The result, and user memory after it. *)
Definition sys_read (fd_table : list (option F)) (um : UMem) (fd buf len : Z) : st W (Z * UMem) :=
  if Zlength fd_table <=? fd then mret (-1, um) else
  match fd_table !! Z.to_nat fd with
  | Some (Some file) =>
      r ← readable file;
      if negb r then mret (-1, um) else
      '(n, buffer) ← read file (replicate (Z.to_nat len) 0);
      um ← slift (write_buf um buf buffer);
      mret (as_isize n, um)
  | _ => mret (-1, um)
  end.
End calls.

(** ** Standard output and files, in one world *)

(** [handles]: the [OSInode]s ever made, each shared by the descriptors that refer to it. *)
Record World := mkWorld {
  disk : Disk;
  handles : list OSInode;
  console : list Z;
}.

(** What a descriptor refers to. *)
Inductive file := FStdout | FInode (handle : nat).

Definition on_disk {A} (p : prog A) : st World A := fun w =>
  match run_disk p (disk w) with
  | Ok (a, d) => Ok (a, mkWorld d (handles w) (console w))
  | Err e => Err e
  end.

Definition Stdout_write (buf : list Z) : st World Z := fun w =>
  match from_utf8 buf with
  | Some s => Ok (Zlength buf, mkWorld (disk w) (handles w) (console w ++ s))
  | None => Err Panic
  end.

Definition get_handle (h : nat) : st World OSInode := w ← sget; slift (unwrap (handles w !! h)).
Definition put_handle (h : nat) (f : OSInode) : st World unit := fun w =>
  Ok (tt, mkWorld (disk w) (<[h := f]> (handles w)) (console w)).
Definition new_handle (f : OSInode) : st World nat := fun w =>
  Ok (length (handles w), mkWorld (disk w) (handles w ++ [f]) (console w)).

Section world.
Context (fs : EasyFileSystem).

Definition file_readable (f : file) : st World bool :=
  match f with FStdout => mret false | FInode h => o ← get_handle h; mret (os_readable o) end.
Definition file_writable (f : file) : st World bool :=
  match f with FStdout => mret true | FInode h => o ← get_handle h; mret (os_writable o) end.
Definition file_read (f : file) (buf : list Z) : st World (Z * list Z) :=
  match f with
  | FStdout => slift (Err Panic)
  | FInode h =>
      o ← get_handle h;
      r ← on_disk (OSInode_read o buf);
      _ ← put_handle h r.2;
      mret r.1
  end.
Definition file_write (f : file) (buf : list Z) : st World Z :=
  match f with
  | FStdout => Stdout_write buf
  | FInode h =>
      o ← get_handle h;
      r ← on_disk (OSInode_write fs o buf);
      _ ← put_handle h r.2;
      mret r.1
  end.

#[export] Instance world_files : FileOps World file := {
  readable := file_readable; writable := file_writable; read := file_read; write := file_write;
}.

Definition sys_open (fd_table : list (option file)) (um : UMem) (path flags : Z) : st World (Z * list (option file)) :=
  path ← slift (as_c_str um path);
  path ← slift (unwrap path);
  flags ← slift (unwrap (OpenFlags_from_bits flags));
  o ← on_disk (open_file fs path flags);
  match o with
  | Some inode => h ← new_handle inode; mret (alloc_fd fd_table (Some (FInode h)))
  | None => mret (-1, fd_table)
  end.
End world.

(** Standard input: one pass of its loop, given what the console has.  [None] when
    the task yields; otherwise the byte, and whether SIGINT is raised. *)
Definition Stdin_read_pass (buf : list Z) (getchar : option Z) : res (option (Z * list Z * bool)) :=
  _ ← rassert (Zlength buf =? 1);
  match getchar with
  | None => Ok None
  | Some ch => Ok (Some (1, [ch], ch =? 3))
  end.
