(* ===== verification/OsFileSpec.v ===== *)
(** What the calls on files do: opening, reading and writing through descriptors
    implement an abstract file system with open files, and standard output. *)
From S2P Require Import Prelude ByteCodec BlockCache DiskLogic Bitmap Layout InodeMap InodeIO Efs Vfs FsInv VfsSpec Directory Format EasyFs State UserAccess OsFile.

From Stdlib Require Import ZifyNat.

(** ** Space: the files determine how many blocks are free *)

(** Data and index blocks the files of [A] take. *)
Definition used_blocks (A : gmap Z (DiskInodeType * list Z)) : Z :=
  foldr (fun x n => total_blocks (Zlength x.2.2) + n) 0 (map_to_list A).

Definition weight {K V} (g : V -> Z) (l : list (K * V)) : Z := foldr (fun x n => g x.2 + n) 0 l.

Lemma weight_perm {K V} (g : V -> Z) (l l' : list (K * V)) : l ≡ₚ l' -> weight g l = weight g l'.
Proof. induction 1; simpl in *; lia. Qed.

Lemma weight_insert {V} (g : V -> Z) (m : gmap Z V) i x y : m !! i = Some x ->
  weight g (map_to_list (<[i := y]> m)) = weight g (map_to_list m) - g x + g y.
Proof.
  intros Hi. rewrite <- insert_delete_eq.
  rewrite (weight_perm g (map_to_list (<[i := y]> _)) ((i, y) :: map_to_list (delete i m)))
    by (apply map_to_list_insert, lookup_delete_eq).
  rewrite <- (insert_delete_id m i x Hi) at 2.
  rewrite (weight_perm g (map_to_list (<[i := x]> _)) ((i, x) :: map_to_list (delete i m)))
    by (apply map_to_list_insert, lookup_delete_eq).
  simpl. lia.
Qed.

Lemma used_blocks_insert A i ty f ty' f' : A !! i = Some (ty, f) ->
  used_blocks (<[i := (ty', f')]> A) = used_blocks A - total_blocks (Zlength f) + total_blocks (Zlength f').
Proof. apply (weight_insert (fun x => total_blocks (Zlength x.2))). Qed.

Lemma owned_count fs cap d i n : node_ok fs cap d i n ->
  Zlength (owned n) = total_blocks (Zlength (file_bytes d (nd_inode n) (nd_blocks n))).
Proof.
  intros [_ F _ _]. rewrite (file_bytes_length _ _ _ _ _ F). destruct F as [M K P B S].
  pose proof (repr_ok_words _ (im_repr _ _ _ _ M)) as [Hs _]. unfold is_word in Hs.
  rewrite (total_blocks_count _ (length (nd_blocks n))); [|lia|by rewrite B].
  unfold owned. by rewrite length_app, (grown_index_length ∅ d (nd_inode n) (nd_blocks n) (nd_index n) [])
    by (rewrite ?app_nil_r; done).
Qed.

Definition all_owned (l : list (Z * node)) : list Z := concat ((fun x => owned x.2) <$> l).

Lemma elem_of_all_owned l b : b ∈ all_owned l <-> exists i n, (i, n) ∈ l /\ b ∈ owned n.
Proof.
  unfold all_owned. rewrite list_elem_of_In, in_concat. setoid_rewrite <- list_elem_of_In. split.
  - intros (v & ([i n] & -> & ?)%list_elem_of_fmap & ?). eauto.
  - intros (i & n & ? & ?). exists (owned n). split; [|done]. apply list_elem_of_fmap. by exists (i, n).
Qed.

Lemma all_owned_nodup l : NoDup l.*1 -> (forall i n, (i, n) ∈ l -> NoDup (owned n)) ->
  (forall i j n m b, (i, n) ∈ l -> (j, m) ∈ l -> b ∈ owned n -> b ∈ owned m -> i = j) -> NoDup (all_owned l).
Proof.
  induction l as [|[i n] l IH]; intros Hk Hn Hd; [apply NoDup_nil_2|]. apply NoDup_cons in Hk as [Hi Hk].
  change (all_owned ((i, n) :: l)) with (owned n ++ all_owned l). apply NoDup_app. split_and!.
  - by apply (Hn i), list_elem_of_here.
  - intros b Hb (j & m & Hj & Hb')%elem_of_all_owned. apply Hi, list_elem_of_fmap. exists (j, m). split; [|done].
    eapply (Hd i j); [apply list_elem_of_here|by apply list_elem_of_further|done|done].
  - apply IH; [done| |]; intros; [eapply Hn|eapply Hd]; eauto using list_elem_of_further.
Qed.

Lemma all_owned_weight l (g : node -> Z) : (forall i n, (i, n) ∈ l -> Zlength (owned n) = g n) ->
  Zlength (all_owned l) = weight g l.
Proof.
  induction l as [|[i n] l IH]; intros H; [done|]. change (all_owned ((i, n) :: l)) with (owned n ++ all_owned l).
  rewrite length_app. cbn [weight foldr snd] in *. fold (weight g l). rewrite <- IH by eauto using list_elem_of_further.
  rewrite <- (H i n) by apply list_elem_of_here. lia.
Qed.

Lemma used_blocks_owned fs cap d N : fs_inv fs cap d N -> used_blocks (abs d N) = Zlength (all_owned (map_to_list N)).
Proof.
  intros I. rewrite (all_owned_weight _ (fun n => total_blocks (Zlength (file_bytes d (nd_inode n) (nd_blocks n))))).
  - unfold used_blocks, abs. rewrite map_to_list_fmap. generalize (map_to_list N). intros l. unfold weight.
    induction l as [|x l IH]; [done|]. cbn [foldr fmap list_fmap]. by f_equal.
  - intros i n Hi%elem_of_map_to_list. eapply owned_count, I, Hi.
Qed.

Lemma free_count_abs fs cap d N : fs_inv fs cap d N -> free_count fs cap d = cap - used_blocks (abs d N).
Proof.
  intros I. pose proof (ge_cap _ _ _ (fi_geom _ _ _ _ I)) as Hc. rewrite (used_blocks_owned _ _ _ _ I).
  set (start := data_area_start_block fs). set (l := (fun b => b - start) <$> all_owned (map_to_list N)).
  assert (NoDup l) as Hl.
  { apply NoDup_fmap_2; [intros ???; lia|]. apply all_owned_nodup; [apply NoDup_fst_map_to_list| |].
    - intros i n Hi%elem_of_map_to_list. destruct (fi_node _ _ _ _ I _ _ Hi) as [_ F _ _]. apply F.
    - intros i j n m b Hi%elem_of_map_to_list Hj%elem_of_map_to_list. by apply (fi_disj _ _ _ _ I). }
  assert (forall k, k ∈ l <-> 0 <= k < cap /\ data_bit fs d k = true) as Hmem.
  { intros k. unfold l. rewrite list_elem_of_fmap. split.
    - intros (b & -> & (i & n & Hi%elem_of_map_to_list & Hb)%elem_of_all_owned).
      pose proof (owned_area _ _ _ _ _ _ _ I Hi Hb) as Ha. unfold in_data in Ha. fold start in Ha. split; [lia|].
      apply (fi_dbit _ _ _ _ I); [lia|]. exists i, n. split; [done|]. fold start. by replace (start + (b - start)) with b by lia.
    - intros [Hk (i & n & Hi & Hb)%(fi_dbit _ _ _ _ I)]; [|lia]. exists (start + k). split; [lia|].
      apply elem_of_all_owned. exists i, n. by rewrite elem_of_map_to_list. }
  assert (list_to_set (seqZ 0 cap) = free_set fs cap d ∪ list_to_set l) as E.
  { apply set_eq. intros k. rewrite elem_of_union, elem_of_free, !elem_of_list_to_set, elem_of_seqZ, Hmem, Z.add_0_l.
    destruct (data_bit fs d k); intuition congruence. }
  apply (f_equal base.size) in E. rewrite size_union in E.
  2: { intros k [_ Hf]%elem_of_free [_ Ht]%elem_of_list_to_set%Hmem. congruence. }
  rewrite !size_list_to_set in E by (done || apply NoDup_seqZ). rewrite length_seqZ in E. unfold free_count.
  unfold l in E. rewrite length_fmap in E. lia.
Qed.

(** ** Writing through a descriptor, for any kind of file *)

Lemma uaccess_fits p n : 0 < p -> 0 <= n -> p + n <= USER_ASPACE_END -> uaccess_ok p n = true.
Proof.
  unfold uaccess_ok, USER_ASPACE_END. intros Hp Hn Hb. rewrite u64_small by lia.
  rewrite (proj2 (Z.eqb_neq _ _)), !(proj2 (Z.leb_le _ _)) by lia. done.
Qed.

Lemma read_array_has um p l : has um p l -> 0 < Zlength l <= CHUNK_SIZE -> 0 < p -> p + Zlength l <= USER_ASPACE_END ->
  read_array um p CHUNK_SIZE (Zlength l) = Ok l.
Proof.
  intros Hl Hn Hp Hb. unfold read_array, ptr_check, copy_from_user. rewrite (uaccess_fits p 1) by lia. rewrite Z.mod_1_r.
  cbn [andb Z.eqb rassert mbind res_bind]. rewrite Z.min_l, Z.mul_1_r by lia. unfold USER_ASPACE_END in Hb.
  rewrite u64_small, uaccess_fits by (unfold USER_ASPACE_END; lia). cbn [rassert mbind res_bind].
  rewrite Nat2Z.id. by apply rd_bytes_has.
Qed.

Section chunks.
Context {W F : Type} `{FileOps W F} (um : UMem) (file : F) (buf : Z) (l : list Z).
Context (Hbuf : 0 < buf) (Hend : buf + Zlength l <= USER_ASPACE_END) (Hl : has um buf l).

(** The part of the buffer a round writes. *)
Definition chunk (k : nat) : list Z := take 256 (drop k l).

Lemma chunk_length k : (k < length l)%nat -> Zlength (chunk k) = Z.min CHUNK_SIZE (Zlength l - Z.of_nat k).
Proof. intros Hk. unfold chunk, CHUNK_SIZE. rewrite length_take, length_drop. lia. Qed.

Lemma chunk_app k : take (k + length (chunk k)) l = take k l ++ chunk k.
Proof.
  unfold chunk. rewrite <- take_take_drop. f_equal. rewrite length_take. destruct (decide (256 <= length (drop k l))%nat).
  - by rewrite Nat.min_l.
  - by rewrite !take_ge by lia.
Qed.

Lemma chunk_read k : (k < length l)%nat ->
  read_array um (ptr_add buf (Z.of_nat k) 1) CHUNK_SIZE (Z.min CHUNK_SIZE (Zlength l - Z.of_nat k)) = Ok (chunk k).
Proof.
  intros Hk. pose proof (chunk_length k Hk) as Hc. unfold CHUNK_SIZE, USER_ASPACE_END in *.
  rewrite <- Hc. unfold ptr_add. rewrite u64_small by lia. apply read_array_has; unfold CHUNK_SIZE, USER_ASPACE_END; [|lia..].
  rewrite Z.mul_1_r. intros i b Hi. unfold chunk in Hi. apply lookup_take_Some in Hi as [Hi _]. rewrite lookup_drop in Hi.
  replace (buf + Z.of_nat k + Z.of_nat i) with (buf + Z.of_nat (k + i)) by lia. by apply Hl.
Qed.

(** One round of the loop. *)
Lemma write_chunks_step fuel k : (k < length l)%nat ->
  write_chunks (S fuel) um file buf (Zlength l) (Z.of_nat k) =
  (_len ← write file (chunk k);
   _ ← slift (rassert (_len =? Zlength (chunk k)));
   write_chunks fuel um file buf (Zlength l) (Z.of_nat (k + length (chunk k)))).
Proof.
  intros Hk. cbn [write_chunks]. rewrite (proj2 (Z.ltb_lt _ _)) by lia. rewrite (chunk_read k Hk).
  rewrite <- (chunk_length k Hk), Nat2Z.inj_add. done.
Qed.

Context (P : list Z -> W -> Prop).
Context (Hwrite : forall k w, (k < length l)%nat -> P (take k l) w ->
  swp (write file (chunk k)) w (fun n w' => n = Zlength (chunk k) /\ P (take (k + length (chunk k)) l) w')).

(** A property of what has been written that every round extends holds of the whole. *)
Lemma write_chunks_wp fuel : forall k w, (k <= length l)%nat -> (length l - k + 256 <= 256 * fuel)%nat -> P (take k l) w ->
  swp (write_chunks fuel um file buf (Zlength l) (Z.of_nat k)) w (fun n w' => n = Zlength l /\ P l w').
Proof.
  induction fuel as [|fuel IH]; intros k w Hk Hf HP; [lia|]. destruct (decide (k = length l)) as [->|Hne].
  - cbn [write_chunks]. rewrite Z.ltb_irrefl. apply swp_ret. split; [done|]. by rewrite take_ge in HP by lia.
  - pose proof (chunk_length k ltac:(lia)) as Hc. unfold CHUNK_SIZE in Hc. rewrite write_chunks_step by lia.
    apply swp_bind. eapply swp_mono; [apply Hwrite; [lia|done]|]. intros n w' [-> HP'].
    eapply swp_lift_bind; [rewrite Z.eqb_refl; done|]. apply IH; [lia| |done]. lia.
Qed.
End chunks.

Section sys_write.
Context {W F : Type} `{FileOps W F}.

(** [sys_write] on a descriptor of a writable file is the loop over its chunks. *)
Lemma sys_write_wp t um fd file (buf : Z) l (P : list Z -> W -> Prop) w :
  0 <= fd -> t !! Z.to_nat fd = Some (Some file) -> writable file w = Ok (true, w) ->
  0 < buf -> buf + Zlength l <= USER_ASPACE_END -> has um buf l -> P [] w ->
  (forall k w, (k < length l)%nat -> P (take k l) w ->
    swp (write file (chunk l k)) w (fun n w' => n = Zlength (chunk l k) /\ P (take (k + length (chunk l k)) l) w')) ->
  swp (sys_write t um fd buf (Zlength l)) w (fun n w' => n = Zlength l /\ P l w').
Proof.
  intros Hfd Ht Hw Hb He Hl HP Hwr. unfold sys_write. apply lookup_lt_Some in Ht as Hlt.
  rewrite (proj2 (Z.leb_gt _ _)) by lia. rewrite Ht. apply swp_bind. exists true, w. split; [done|]. cbn [negb].
  apply swp_bind. eapply swp_mono.
  - apply (write_chunks_wp um file buf l Hb He Hl P Hwr _ 0 w); [lia| |done].
    unfold CHUNK_SIZE. pose proof (Z.mod_pos_bound (Zlength l) 256). pose proof (Z.div_mod (Zlength l) 256). lia.
  - intros n w' [-> HP']. apply swp_ret. split; [|done]. unfold USER_ASPACE_END in He. apply as_isize_small. lia.
Qed.
End sys_write.

(** ** Files on the disk *)

(** The disk [d] holds the abstract file system [A]. *)
Definition fs_state (fs : EasyFileSystem) (cap : Z) (d : content) (A : gmap Z (DiskInodeType * list Z)) : Prop :=
  exists N, fs_inv fs cap d N /\ abs d N = A.

Definition world_ok (fs : EasyFileSystem) (cap : Z) (w : World) (A : gmap Z (DiskInodeType * list Z)) : Prop :=
  exists d, disk w = mkDisk d ∅ /\ fs_state fs cap d A.

Lemma on_disk_wp {A} (p : prog A) w d Q : disk w = mkDisk d ∅ -> wp ∅ p d Q ->
  swp (on_disk p) w (fun a w' => exists d', w' = mkWorld (mkDisk d' ∅) (handles w) (console w) /\ Q a d').
Proof. intros Ed (a & d' & E & HQ). unfold swp, on_disk. rewrite Ed, E. eauto 10. Qed.

Lemma file_max fs cap d A i ty f : fs_state fs cap d A -> A !! i = Some (ty, f) -> Zlength f <= MAX_SIZE.
Proof.
  intros (N & I & <-) Hf. destruct (abs_lookup fs cap d N i ty f I Hf) as (n & Hn & _ & <- & Hfl & _).
  rewrite Hfl. apply (no_file _ _ _ _ _ (fi_node _ _ _ _ I _ _ Hn)).
Qed.

Lemma space_left fs cap d A : fs_state fs cap d A -> 0 <= cap - used_blocks A.
Proof. intros (N & I & <-). rewrite <- (free_count_abs fs cap d N I). unfold free_count. lia. Qed.

Lemma total_blocks_mono s s' : 0 <= s <= s' -> s' <= MAX_SIZE -> total_blocks s <= total_blocks s'.
Proof.
  intros H1 H2. destruct (Z_of_nat_complete (_data_blocks s)) as [t Ht]; [apply data_blocks_max; lia|].
  destruct (Z_of_nat_complete (_data_blocks s')) as [u Hu]; [apply data_blocks_max; lia|].
  rewrite (total_blocks_count s t), (total_blocks_count s' u) by (done || lia).
  rewrite data_blocks_eq in Ht, Hu by lia. assert (Z.of_nat t <= Z.of_nat u).
  { rewrite <- Ht, <- Hu. apply Z.div_le_mono; lia. }
  unfold index_count, sub_count. pose proof (Nat.Div0.div_le_mono (t - 156 + 127) (u - 156 + 127) 128 ltac:(lia)).
  repeat case_decide; lia.
Qed.

Lemma awrite_lookup f off l i : 0 <= off -> awrite f off l !! i =
  if decide (off <= Z.of_nat i < off + Zlength l) then l !! (i - Z.to_nat off)%nat
  else (f ++ zeros (Z.to_nat (off + Zlength l - Zlength f))) !! i.
Proof.
  intros Ho. unfold awrite. case_decide.
  - apply lookup_splice_in; rewrite ?length_app, ?length_replicate; lia.
  - apply lookup_splice_out; rewrite ?length_app, ?length_replicate; lia.
Qed.

Lemma pad_lookup (f : list Z) n i : (f ++ zeros n) !! i =
  if decide (i < length f)%nat then f !! i else if decide (i < length f + n)%nat then Some 0 else None.
Proof.
  case_decide; [by apply lookup_app_l|]. rewrite lookup_app_r by lia. case_decide.
  - apply lookup_replicate_2. lia.
  - apply lookup_ge_None. rewrite length_replicate. lia.
Qed.

Lemma awrite_app f off l l' : 0 <= off -> awrite (awrite f off l) (off + Zlength l) l' = awrite f off (l ++ l').
Proof.
  intros Ho. pose proof (awrite_length f off l Ho) as Hl. apply list_eq. intros i.
  rewrite !awrite_lookup, !pad_lookup, !awrite_lookup, !pad_lookup, !length_app by lia. repeat case_decide;
    solve [lia|done|by rewrite lookup_app_l by lia|rewrite lookup_app_r by lia; f_equal; lia].
Qed.

(** The bytes of a file after writing [l] at [off]; writing nothing changes nothing. *)
Definition written (f : list Z) (off : Z) (l : list Z) : list Z :=
  match l with [] => f | _ => awrite f off l end.

Lemma written_app f off l l' : 0 <= off -> l' <> [] -> written f off (l ++ l') = awrite (written f off l) (off + Zlength l) l'.
Proof.
  intros Ho Hl. destruct l as [|b l]; cbn [app written].
  - rewrite Z.add_0_r. by destruct l'.
  - symmetry. apply (awrite_app f off (b :: l) l' Ho).
Qed.

Lemma written_length f off l : 0 <= off -> l <> [] -> Zlength (written f off l) = Z.max (Zlength f) (off + Zlength l).
Proof. intros Ho Hl. destruct l; [done|]. by apply awrite_length. Qed.

(** The handle [h] of the world is the file [o] open at [off]. *)
Definition advance (w : World) (h : nat) (o : OSInode) (n : Z) (d : content) : World :=
  mkWorld (mkDisk d ∅) (<[h := set_offset o (os_offset o + n)]> (handles w)) (console w).

Section inode_file.
Context (fs : EasyFileSystem) (cap : Z).
Implicit Types (A : gmap Z (DiskInodeType * list Z)) (w : World) (o : OSInode).

Lemma OSInode_write_wp d A o i ty f l : fs_state fs cap d A -> os_inode o = Inode_of fs i ->
  A !! i = Some (ty, f) -> bytes_ok l -> 0 <= os_offset o -> l <> [] -> os_offset o + Zlength l <= MAX_SIZE ->
  needed (Zlength f) (os_offset o + Zlength l) <= cap - used_blocks A ->
  wp ∅ (OSInode_write fs o l) d (fun r d' => r = (Zlength l, set_offset o (os_offset o + Zlength l)) /\
    fs_state fs cap d' (<[i := (ty, awrite f (os_offset o) l)]> A)).
Proof.
  intros (N & I & <-) Hi Hf Hb Ho Hl Hmax Hfree. unfold OSInode_write. apply wp_bind. rewrite Hi. eapply wp_mono.
  - apply (Inode_write_at_wp fs cap d N i ty f); [done|done|done|done| |done|by rewrite (free_count_abs fs cap d N I)].
    destruct l; [done|]. simpl. lia.
  - intros k d' (-> & N' & I' & EA). apply wp_ret. change MAX_SIZE with 8468480 in Hmax. rewrite u64_small by lia.
    split; [done|]. by exists N'.
Qed.

Lemma OSInode_read_wp d A o i ty f buf : fs_state fs cap d A -> os_inode o = Inode_of fs i -> A !! i = Some (ty, f) ->
  0 <= os_offset o -> os_offset o + Zlength buf < 2 ^ 64 ->
  let v := slice f (os_offset o) (Zlength buf) in
  wp ∅ (OSInode_read o buf) d (fun r d' => r = (Zlength v, v ++ drop (length v) buf, set_offset o (os_offset o + Zlength v)) /\ d' = d).
Proof.
  intros (N & I & <-) Hi Hf Ho Hmax v. unfold OSInode_read. apply wp_bind. rewrite Hi. eapply wp_mono.
  - by apply (Inode_read_at_wp fs cap d N i ty f).
  - intros [k buf'] d' (-> & -> & ->). apply wp_ret. fold v. split; [|done]. rewrite u64_small; [done|].
    pose proof (length_take_le (drop (Z.to_nat (os_offset o)) f) (length buf)). unfold v, slice in *. rewrite length_take. lia.
Qed.

(** What an operation on the file behind a handle does to the world. *)
Lemma handle_wp {B} (p : OSInode -> prog (B * OSInode)) w d h o b n (Q : content -> Prop) :
  disk w = mkDisk d ∅ -> handles w !! h = Some o ->
  wp ∅ (p o) d (fun r d' => r = (b, set_offset o (os_offset o + n)) /\ Q d') ->
  swp (o ← get_handle h; r ← on_disk (p o); _ ← put_handle h r.2; mret r.1) w
    (fun b' w' => b' = b /\ exists d', w' = advance w h o n d' /\ Q d').
Proof.
  intros Ed Hh Hp. apply swp_bind, swp_get_bind. eapply swp_lift; [by rewrite Hh|]. apply swp_bind.
  eapply swp_mono; [by apply (on_disk_wp _ w d)|]. intros r w' (d' & -> & -> & HQ).
  exists b, (advance w h o n d'). split; [done|]. split; [done|]. by exists d'.
Qed.

Lemma file_write_wp w A h o i ty f l : world_ok fs cap w A -> handles w !! h = Some o ->
  os_inode o = Inode_of fs i -> A !! i = Some (ty, f) -> bytes_ok l -> 0 <= os_offset o -> l <> [] ->
  os_offset o + Zlength l <= MAX_SIZE -> needed (Zlength f) (os_offset o + Zlength l) <= cap - used_blocks A ->
  swp (file_write fs (FInode h) l) w (fun n w' => n = Zlength l /\ exists d, w' = advance w h o (Zlength l) d /\
    fs_state fs cap d (<[i := (ty, awrite f (os_offset o) l)]> A)).
Proof. intros (d & Ed & HA) Hh **. apply (handle_wp (fun o => OSInode_write fs o l) w d); [done..|]. by apply OSInode_write_wp. Qed.

Lemma file_read_wp w A h o i ty f buf : world_ok fs cap w A -> handles w !! h = Some o ->
  os_inode o = Inode_of fs i -> A !! i = Some (ty, f) -> 0 <= os_offset o -> os_offset o + Zlength buf < 2 ^ 64 ->
  let v := slice f (os_offset o) (Zlength buf) in
  swp (file_read (FInode h) buf) w (fun r w' => r = (Zlength v, v ++ drop (length v) buf) /\
    exists d, w' = advance w h o (Zlength v) d /\ disk w = mkDisk d ∅).
Proof.
  intros (d & Ed & HA) Hh Hi Hf Ho Hm v. apply (handle_wp (fun o => OSInode_read o buf) w d); [done..|].
  eapply wp_mono; [by eapply OSInode_read_wp|]. intros r d' [-> ->]. by rewrite Ed.
Qed.

Lemma advance_0 w h o d : disk w = mkDisk d ∅ -> handles w !! h = Some o -> w = advance w h o 0 d.
Proof.
  intros Ed Hh. unfold advance. destruct w, o; simpl in *; subst. rewrite Z.add_0_r. f_equal.
  symmetry. by apply list_insert_id.
Qed.

Lemma advance_advance w h o n m d d' : advance (advance w h o n d) h (set_offset o (os_offset o + n)) m d' = advance w h o (n + m) d'.
Proof. unfold advance. cbn. by rewrite list_insert_insert_eq, Z.add_assoc. Qed.

Lemma space_step A i ty f off l k c : A !! i = Some (ty, f) -> 0 <= off -> off + k + c <= off + l -> 0 <= k -> 0 < c ->
  Zlength f <= MAX_SIZE -> off + l <= MAX_SIZE -> needed (Zlength f) (off + l) <= cap - used_blocks A ->
  forall g, (k = 0 /\ g = f \/ Zlength g = Z.max (Zlength f) (off + k)) ->
  0 <= cap - used_blocks (<[i := (ty, g)]> A) -> needed (Zlength g) (off + k + c) <= cap - used_blocks (<[i := (ty, g)]> A).
Proof.
  intros Hf Ho Hl Hk Hc Hfm Hm Hn g Hg H0. unfold needed in *. destruct (Z.ltb_spec (off + k + c) (Zlength g)) as [|Hge]; [done|].
  rewrite (used_blocks_insert A i ty f ty g Hf). assert (Zlength f <= Zlength g) by (destruct Hg as [[_ ->] | ->]; lia).
  pose proof (total_blocks_mono (off + k + c) (off + l) ltac:(lia) Hm).
  rewrite (proj2 (Z.ltb_ge _ _)) in Hn by lia. lia.
Qed.

Lemma sys_write_inode t um fd h w A o i ty f (buf : Z) l :
  0 <= fd -> t !! Z.to_nat fd = Some (Some (FInode h)) -> world_ok fs cap w A -> handles w !! h = Some o ->
  os_writable o = true -> os_inode o = Inode_of fs i -> A !! i = Some (ty, f) -> bytes_ok l -> 0 <= os_offset o ->
  os_offset o + Zlength l <= MAX_SIZE -> needed (Zlength f) (os_offset o + Zlength l) <= cap - used_blocks A ->
  0 < buf -> buf + Zlength l <= USER_ASPACE_END -> has um buf l ->
  swp (sys_write (H := world_files fs) t um fd buf (Zlength l)) w (fun n w' => n = Zlength l /\
    exists d, w' = advance w h o (Zlength l) d /\ fs_state fs cap d (<[i := (ty, written f (os_offset o) l)]> A)).
Proof.
  intros Hfd Ht Hw Hh Hwr Hi Hf Hl Ho Hmax Hfree Hb He Hum. pose proof Hw as (d0 & Ed0 & HA0).
  pose proof (file_max _ _ _ _ _ _ _ HA0 Hf) as Hfm.
  apply (sys_write_wp t um fd (FInode h) buf l (fun v w' => exists d, w' = advance w h o (Zlength v) d /\
    fs_state fs cap d (<[i := (ty, written f (os_offset o) v)]> A))); try done.
  - cbn [writable world_files file_writable]. unfold get_handle, mbind, st_bind, sget, slift. by rewrite Hh, <- Hwr.
  - exists d0. split; [by apply advance_0|]. cbn [written]. by rewrite insert_id.
  - intros k w' Hk (d & -> & HA). apply lookup_lt_Some in Hh as Hlen.
    pose proof (chunk_length l k Hk) as Hc. unfold CHUNK_SIZE in Hc.
    assert (length (take k l) = k) as Hkl by (rewrite length_take; lia). rewrite Hkl in *.
    assert (chunk l k <> []) as Hne by (intros E; rewrite E in Hc; simpl in Hc; lia).
    rewrite chunk_app, written_app, Hkl by done. rewrite length_app, Hkl, Nat2Z.inj_add.
    eapply swp_mono; [eapply (file_write_wp _ _ h _ i ty (written f (os_offset o) (take k l)) (chunk l k))|].
    + by exists d.
    + cbn [handles advance]. by apply list_lookup_insert_eq.
    + done.
    + apply lookup_insert_eq.
    + by apply Forall_take, Forall_drop.
    + cbn. lia.
    + done.
    + cbn. lia.
    + cbn. apply (space_step A i ty f (os_offset o) (Zlength l)); try done; try lia.
      * destruct (decide (k = 0%nat)) as [->|]; [by left|]. right. rewrite written_length, Hkl; [done|done|].
        intros E. rewrite E in Hkl. simpl in Hkl. lia.
      * by eapply space_left.
    + intros n w' (-> & d' & -> & HA'). split; [done|]. exists d'. split; [apply advance_advance|].
      cbn in HA'. by rewrite insert_insert_eq in HA'.
Qed.

Lemma sys_read_inode t um fd h w A o i ty f (buf len : Z) :
  0 <= fd -> t !! Z.to_nat fd = Some (Some (FInode h)) -> world_ok fs cap w A -> handles w !! h = Some o ->
  os_readable o = true -> os_inode o = Inode_of fs i -> A !! i = Some (ty, f) -> 0 <= os_offset o <= MAX_SIZE ->
  0 < buf -> 0 < len -> buf + len <= USER_ASPACE_END -> mapped um buf (buf + len) ->
  let v := slice f (os_offset o) len in
  swp (sys_read (H := world_files fs) t um fd buf len) w (fun '(n, um') w' => n = Zlength v /\
    has um' buf (v ++ zeros (Z.to_nat len - length v)) /\ same_but um um' buf (buf + len) /\
    exists d, w' = advance w h o (Zlength v) d /\ disk w = mkDisk d ∅).
Proof.
  intros Hfd Ht Hw Hh Hr Hi Hf Ho Hb Hl He Hm v. unfold sys_read. apply lookup_lt_Some in Ht as Hlt.
  rewrite (proj2 (Z.leb_gt _ _)) by lia. rewrite Ht. apply swp_bind. exists true, w. split.
  { cbn [readable world_files file_readable]. unfold get_handle, mbind, st_bind, sget, slift. by rewrite Hh, <- Hr. }
  cbn [negb]. unfold USER_ASPACE_END in He. change MAX_SIZE with 8468480 in Ho. apply swp_bind.
  assert (Zlength (zeros (Z.to_nat len)) = len) as Ez by (rewrite length_replicate; lia).
  eapply swp_mono; [apply (file_read_wp w A h o i ty f (zeros (Z.to_nat len))); try done; lia|].
  intros [n bytes] w' ([= -> ->] & d & -> & Ed). rewrite Ez. fold v. rewrite drop_replicate.
  set (l := v ++ zeros (Z.to_nat len - length v)).
  assert (length v <= Z.to_nat len)%nat as Hv by (unfold v, slice; rewrite length_take; lia).
  assert (Zlength l = len) as El by (unfold l; rewrite length_app, length_replicate; lia).
  destruct (wr_bytes_spec l um buf) as (um' & E & Hh' & Hs); [by rewrite El|]. rewrite El in Hs.
  eapply swp_lift_bind.
  - unfold write_buf, ptr_check, copy_to_user. rewrite Z.mod_1_r, (uaccess_fits buf 1), El, u64_small, uaccess_fits; [exact E|..];
      unfold USER_ASPACE_END; try lia.
  - apply swp_ret. split_and!; [|done|done|by exists d]. apply as_isize_small. lia.
Qed.
End inode_file.

(** ** Whole files *)

Lemma slice_to_end {A} (f : list A) off n : 0 <= off -> Zlength f <= off + n -> slice f off n = drop (Z.to_nat off) f.
Proof. intros Ho Hn. unfold slice. rewrite take_ge; [done|]. rewrite length_drop. lia. Qed.

Lemma read_all_loop_wp fs cap d N i ty f fuel : fs_inv fs cap d N -> abs d N !! i = Some (ty, f) ->
  forall o buffer v, os_inode o = Inode_of fs i -> 0 <= os_offset o <= MAX_SIZE -> length buffer = 512%nat ->
  Z.max 0 (Zlength f - os_offset o) + 512 <= 512 * Z.of_nat fuel ->
  wp ∅ (read_all_loop fuel o buffer v) d (fun r d' => d' = d /\
    r = (v ++ drop (Z.to_nat (os_offset o)) f, set_offset o (Z.max (Zlength f) (os_offset o)))).
Proof.
  intros I Hf. pose proof (file_max fs cap d (abs d N) i ty f (ex_intro _ N (conj I eq_refl)) Hf) as Hfm.
  change MAX_SIZE with 8468480 in *.
  induction fuel as [|fuel IH]; intros o buffer v Hi Ho Hb Hfu; [lia|]. cbn [read_all_loop].
  apply wp_bind. rewrite Hi. eapply wp_mono; [apply (Inode_read_at_wp fs cap d N i ty f); [done|done|lia|rewrite Hb; lia]|].
  intros [k buf'] d' (-> & Hk & Hbuf). rewrite Hb in Hk, Hbuf. change (Z.of_nat 512) with 512 in Hk, Hbuf.
  set (s := slice f (os_offset o) 512) in *.
  assert (Zlength s = Z.max 0 (Z.min 512 (Zlength f - os_offset o))) as Hs.
  { unfold s, slice. rewrite length_take, length_drop. lia. }
  destruct (Z.eqb_spec k 0) as [E|E].
  - apply wp_ret. split; [done|]. rewrite drop_ge, app_nil_r by lia. rewrite Z.max_r by lia. by destruct o.
  - rewrite u64_small by lia. replace (take (Z.to_nat k) buf') with s by (rewrite Hk, Hbuf, Nat2Z.id, take_app_length; done).
    eapply wp_mono; [apply IH; [done|cbn; lia| |cbn; lia]|].
    { rewrite Hbuf, length_app, length_drop. lia. }
    intros r d' [-> ->]. split; [done|]. cbn [os_offset set_offset os_readable os_writable os_inode].
    rewrite <- app_assoc. replace (Z.max (Zlength f) (os_offset o + k)) with (Z.max (Zlength f) (os_offset o)) by lia.
    replace (s ++ drop (Z.to_nat (os_offset o + k)) f) with (drop (Z.to_nat (os_offset o)) f); [done|].
    rewrite <- (take_drop 512 (drop (Z.to_nat (os_offset o)) f)), drop_drop. unfold s, slice. f_equal.
    destruct (decide (k = 512)) as [->|]; [f_equal; lia|]. rewrite !drop_ge by lia. done.
Qed.

(** ** Standard output *)

Section stdout.
Context (fs : EasyFileSystem).

Definition printed (w : World) (l : list Z) : World := mkWorld (disk w) (handles w) (console w ++ l).

Lemma stdout_chunks t um fd (buf : Z) l w : 0 <= fd -> t !! Z.to_nat fd = Some (Some FStdout) ->
  0 < buf -> buf + Zlength l <= USER_ASPACE_END -> has um buf l ->
  (forall j, (256 * j < length l)%nat -> utf8_ok (chunk l (256 * j)) = true) ->
  swp (sys_write (H := world_files fs) t um fd buf (Zlength l)) w (fun n w' => n = Zlength l /\ w' = printed w l).
Proof.
  intros Hfd Ht Hb He Hl Hok. eapply swp_mono.
  - apply (sys_write_wp t um fd FStdout buf l
      (fun v w' => w' = printed w v /\ ((exists j, length v = 256 * j)%nat \/ v = l))); try done.
    + split; [|left; by exists 0%nat]. unfold printed. rewrite app_nil_r. by destruct w.
    + intros k w' Hk [-> Hv]. assert (length (take k l) = k) as Ek by (rewrite length_take; lia). rewrite Ek in Hv.
      destruct Hv as [[j ->]|E]; [|rewrite <- E in Hk; rewrite Ek in Hk; lia]. rewrite chunk_app.
      cbn [write world_files file_write]. unfold Stdout_write, from_utf8. rewrite Hok by done.
      eexists _, _. split; [done|]. split; [done|]. unfold printed. cbn [disk handles console]. split; [by rewrite <- app_assoc|].
      pose proof (chunk_length l _ Hk) as Hc. unfold CHUNK_SIZE in Hc.
      destruct (decide (256 <= length l - 256 * j)%nat).
      * left. exists (S j). rewrite length_app, Ek. lia.
      * right. rewrite <- chunk_app. apply take_ge. lia.
  - by intros n w' (-> & -> & _).
Qed.

Lemma stdout_bad_chunk um (buf : Z) l j : 0 < buf -> buf + Zlength l <= USER_ASPACE_END -> has um buf l ->
  (256 * j < length l)%nat -> utf8_ok (chunk l (256 * j)) = false ->
  forall fuel m w, (m <= j)%nat -> (j - m < fuel)%nat ->
  write_chunks (H := world_files fs) fuel um FStdout buf (Zlength l) (Z.of_nat (256 * m)) w = Err Panic.
Proof.
  intros Hb He Hl Hj Hbad. induction fuel as [|fuel IH]; intros m w Hm Hf; [lia|].
  rewrite write_chunks_step by (done || lia). unfold mbind, st_bind. cbn [write world_files file_write].
  unfold Stdout_write, from_utf8. destruct (utf8_ok (chunk l (256 * m))) eqn:E; [|done].
  assert (m <> j) by congruence. rewrite Z.eqb_refl. cbn [slift rassert].
  pose proof (chunk_length l (256 * m) ltac:(lia)) as Hc. unfold CHUNK_SIZE in Hc.
  replace (256 * m + length (chunk l (256 * m)))%nat with (256 * S m)%nat by lia. apply IH; lia.
Qed.

Lemma stdout_panics t um fd (buf : Z) l w j : 0 <= fd -> t !! Z.to_nat fd = Some (Some FStdout) ->
  0 < buf -> buf + Zlength l <= USER_ASPACE_END -> has um buf l ->
  (256 * j < length l)%nat -> utf8_ok (chunk l (256 * j)) = false ->
  sys_write (H := world_files fs) t um fd buf (Zlength l) w = Err Panic.
Proof.
  intros Hfd Ht Hb He Hl Hj Hbad. unfold sys_write. apply lookup_lt_Some in Ht as Hlt.
  rewrite (proj2 (Z.leb_gt _ _)) by lia. rewrite Ht. unfold mbind, st_bind. cbn [writable world_files file_writable mret st_ret negb].
  pose proof (stdout_bad_chunk um buf l j Hb He Hl Hj Hbad) as HP. rewrite (HP _ 0%nat); [done|lia|].
  unfold CHUNK_SIZE. pose proof (Z.mod_pos_bound (Zlength l) 256). pose proof (Z.div_mod (Zlength l) 256). lia.
Qed.
End stdout.

(** ** Opening *)

(** [fd] is the lowest free descriptor of [t], and [t'] is [t] with [file] there. *)
Definition takes_fd {F} (t : list (option F)) (file : F) (fd : Z) (t' : list (option F)) : Prop :=
  0 <= fd <= Zlength t /\ (forall k, Z.of_nat k < fd -> exists g, t !! k = Some (Some g)) /\
  (forall g, t !! Z.to_nat fd <> Some (Some g)) /\ t' !! Z.to_nat fd = Some (Some file) /\
  forall k, k <> Z.to_nat fd -> t' !! k = t !! k.

Lemma alloc_fd_spec {F} (t : list (option F)) file : takes_fd t file (alloc_fd t (Some file)).1 (alloc_fd t (Some file)).2.
Proof.
  unfold alloc_fd, takes_fd. destruct (find_index _ t) as [[k x]|] eqn:E; cbn [fst snd].
  - apply find_index_Some in E as (Hk & Hx & Hmin). destruct x; [done|]. apply lookup_lt_Some in Hk as Hlt. rewrite Nat2Z.id.
    split_and!; [lia|lia| |by rewrite Hk|by apply list_lookup_insert_eq|intros j Hj; by apply list_lookup_insert_ne].
    intros j Hj. destruct (lookup_lt_is_Some_2 t j) as [[g|] Hg]; [lia|by exists g|]. by apply Hmin in Hg; [|lia].
  - apply find_index_None in E. rewrite Nat2Z.id. rewrite Forall_forall in E.
    split_and!; [lia|lia| |rewrite lookup_ge_None_2 by lia; done|by rewrite lookup_app_r, Nat.sub_diag by lia|].
    + intros j Hj. destruct (lookup_lt_is_Some_2 t j) as [[g|] Hg]; [lia|by exists g|].
      apply list_elem_of_lookup_2, E in Hg. done.
    + intros j Hj. destruct (decide (j < length t)%nat); [by rewrite lookup_app_l|].
      rewrite (lookup_ge_None_2 t) by lia. apply lookup_ge_None_2. rewrite length_app. simpl. lia.
Qed.

(** [dup] shares the file on the lowest free descriptor; [close] frees exactly one descriptor. *)
Lemma dup_close_spec {F} (t : list (option F)) fd file : 0 <= fd -> t !! Z.to_nat fd = Some (Some file) ->
  takes_fd t file (sys_dup t fd).1 (sys_dup t fd).2 /\ sys_close t fd = (0, <[Z.to_nat fd := None]> t).
Proof.
  intros Hfd Ht. apply lookup_lt_Some in Ht as Hlt. unfold sys_dup, sys_close.
  rewrite (proj2 (Z.leb_gt _ _)) by lia. rewrite Ht. split; [apply alloc_fd_spec|done].
Qed.

(** What opening [nm] with [flags] does to the files [A], whose root directory has the entries [es]. *)
Definition opened (fs : EasyFileSystem) (A : gmap Z (DiskInodeType * list Z)) (es : list (list Z * Z)) (nm : list Z)
    (flags : Z) (r : option OSInode) (A' : gmap Z (DiskInodeType * list Z)) : Prop :=
  let handle id := Some (OSInode_new (read_write flags).1 (read_write flags).2 (Inode_of fs id)) in
  match dir_find nm es with
  | Some id => r = handle id /\ exists ty f, A !! id = Some (ty, f) /\
      A' = if flag_set flags CREATE || flag_set flags TRUNC then <[id := (ty, [])]> A else A
  | None =>
      if flag_set flags CREATE then exists id, r = handle id /\ A !! id = None /\ (forall k, 0 <= k < id -> is_Some (A !! k)) /\
        A' = <[0 := (Directory, dir_bytes (es ++ [(nm, id)]))]> (<[id := (File, [])]> A)
      else r = None /\ A' = A
  end.

(** There is room in the file system for one more name. *)
Definition can_create (fs : EasyFileSystem) (cap : Z) (A : gmap Z (DiskInodeType * list Z)) (es : list (list Z * Z)) (nm : list Z) : Prop :=
  name_ok nm /\ (exists k, 0 <= k < maximum (inode_bitmap fs) /\ A !! k = None) /\ (Zlength es + 1) * 32 <= MAX_SIZE /\
  needed (Zlength es * 32) ((Zlength es + 1) * 32) <= cap - used_blocks A.

Lemma abs_dom d N k : k ∉ dom N <-> abs d N !! k = None.
Proof. unfold abs. rewrite not_elem_of_dom, lookup_fmap. by destruct (N !! k). Qed.

(** Opening a file that exists, cleared if [b]. *)
Lemma open_existing_wp fs cap d N id ty f (b : bool) (o : OSInode) : fs_inv fs cap d N -> abs d N !! id = Some (ty, f) ->
  wp ∅ (_ ← (if b then Inode_clear fs (Inode_of fs id) else Ret tt); Ret (Some o)) d (fun r d' => r = Some o /\
    fs_state fs cap d' (if b then <[id := (ty, [])]> (abs d N) else abs d N)).
Proof.
  intros I Hf. apply wp_bind. destruct b; [|apply wp_ret, wp_ret; split; [done|by exists N]].
  eapply wp_mono; [by apply (Inode_clear_wp fs cap d N id ty f)|]. intros _ d' (N' & I' & EA). apply wp_ret.
  split; [done|by exists N'].
Qed.

Lemma open_file_wp fs cap d A es nm flags : fs_state fs cap d A -> Forall entry_ok es ->
  A !! 0 = Some (Directory, dir_bytes es) -> (forall id, dir_find nm es = Some id -> is_Some (A !! id)) ->
  (dir_find nm es = None -> flag_set flags CREATE = true -> can_create fs cap A es nm) ->
  wp ∅ (open_file fs nm flags) d (fun r d' => exists A', opened fs A es nm flags r A' /\ fs_state fs cap d' A').
Proof.
  intros (N & I & <-) Hes Hroot Hent Hnew. unfold open_file, opened. destruct (read_write flags) as [rd wr]. cbn [fst snd].
  pose proof (Inode_find_wp fs cap d N 0 es nm I Hes Hroot) as Hfind. change (Inode_of fs 0) with (root_inode fs) in Hfind.
  destruct (flag_set flags CREATE) eqn:Ec; apply wp_bind; (eapply wp_mono; [exact Hfind|]); intros r d' [-> ->];
    destruct (dir_find nm es) as [id|] eqn:Ef; cbn [option_map orb].
  - destruct (Hent id eq_refl) as [[ty f] Hf].
    eapply wp_mono; [by apply (open_existing_wp fs cap d N id ty f true)|]. intros r d' [-> HA']. eauto 10.
  - destruct (Hnew eq_refl eq_refl) as (Hnm & Hk & Hmax & Hn). apply wp_bind. eapply wp_mono.
    + apply (Inode_create_wp fs cap d N 0 es nm); try done; [|by rewrite (free_count_abs _ _ _ _ I)].
      destruct Hk as (k & Hk & HkN). exists k. by rewrite (abs_dom d).
    + intros r d' (id & N' & -> & Hid & Hlow & I' & EA). apply wp_ret. eexists. split; [|by exists N'].
      exists id. split_and!; [done|by apply abs_dom| |done]. intros k Hk'. apply not_eq_None_Some. rewrite <- abs_dom.
      intros Hk0. by apply Hk0, Hlow.
  - destruct (Hent id eq_refl) as [[ty f] Hf].
    eapply wp_mono; [by apply (open_existing_wp fs cap d N id ty f (flag_set flags TRUNC))|]. intros r d' [-> HA']. eauto 10.
  - apply wp_ret. eexists. split; [done|by exists N].
Qed.

Lemma sys_open_wp fs cap t um path nm flags w A es : world_ok fs cap w A -> Forall entry_ok es ->
  A !! 0 = Some (Directory, dir_bytes es) -> (forall id, dir_find nm es = Some id -> is_Some (A !! id)) ->
  (dir_find nm es = None -> flag_set flags CREATE = true -> can_create fs cap A es nm) ->
  OpenFlags_from_bits flags = Some flags -> has um path (nm ++ [0]) -> 0 ∉ nm -> utf8_ok nm = true ->
  0 < path -> path + Zlength nm + 1 <= 2 ^ 48 ->
  swp (sys_open fs t um path flags) w (fun '(fd, t') w' => exists r A', opened fs A es nm flags r A' /\
    world_ok fs cap w' A' /\ console w' = console w /\
    match r with
    | Some o => handles w' = handles w ++ [o] /\ takes_fd t (FInode (length (handles w))) fd t'
    | None => fd = -1 /\ t' = t /\ handles w' = handles w
    end).
Proof.
  intros (d & Ed & HA) Hes Hroot Hent Hnew Hfl Hp Hz Hu Hp0 Hpe. unfold sys_open.
  eapply swp_lift_bind; [by apply (read_c_str_has um path nm)|]. eapply swp_lift_bind; [done|].
  eapply swp_lift_bind; [by rewrite Hfl|]. apply swp_bind.
  eapply swp_mono; [eapply (on_disk_wp _ w d); [exact Ed|by apply (open_file_wp fs cap d A es nm flags)]|].
  intros r w' (d' & -> & A' & Hop & HA'). destruct r as [o|].
  - apply swp_bind. eexists _, _. split; [done|]. pose proof (alloc_fd_spec t (FInode (length (handles w)))) as Ht.
    apply swp_ret. cbn [handles]. destruct (alloc_fd t _) as [fd t']. exists (Some o), A'.
    split_and!; [done|by exists d'|done|done|done].
  - apply swp_ret. exists None, A'. split_and!; [done|by exists d'|done..].
Qed.

(** ** The theorems *)

(** C16: Writing a buffer of any length through a descriptor, in chunks of 256 bytes,
    leaves in the file what one write at the descriptor's offset would (nothing, if the
    buffer is empty), moves the offset by the length and touches no other file; reading
    it back through another descriptor of the same file at the same offset gives the
    bytes that were written.  The space needed is that of the final file. *)
Theorem file_write_read fs cap t um fd fd2 h h2 w A o o2 i ty f (buf buf2 : Z) l :
  0 <= fd -> t !! Z.to_nat fd = Some (Some (FInode h)) -> 0 <= fd2 -> t !! Z.to_nat fd2 = Some (Some (FInode h2)) -> h <> h2 ->
  world_ok fs cap w A -> handles w !! h = Some o -> handles w !! h2 = Some o2 ->
  os_writable o = true -> os_readable o2 = true -> os_inode o = Inode_of fs i -> os_inode o2 = Inode_of fs i ->
  os_offset o2 = os_offset o -> A !! i = Some (ty, f) -> bytes_ok l -> l <> [] -> 0 <= os_offset o ->
  os_offset o + Zlength l <= MAX_SIZE -> needed (Zlength f) (os_offset o + Zlength l) <= cap - used_blocks A ->
  0 < buf -> buf + Zlength l <= USER_ASPACE_END -> has um buf l ->
  0 < buf2 -> buf2 + Zlength l <= USER_ASPACE_END -> mapped um buf2 (buf2 + Zlength l) ->
  let A' := <[i := (ty, awrite f (os_offset o) l)]> A in
  swp (sys_write (H := world_files fs) t um fd buf (Zlength l)) w (fun n w' =>
    n = Zlength l /\ world_ok fs cap w' A' /\ console w' = console w /\
    handles w' = <[h := set_offset o (os_offset o + Zlength l)]> (handles w) /\
    swp (sys_read (H := world_files fs) t um fd2 buf2 (Zlength l)) w' (fun '(n', um') w'' =>
      n' = Zlength l /\ has um' buf2 l /\ same_but um um' buf2 (buf2 + Zlength l) /\ world_ok fs cap w'' A')).
Proof.
  intros Hfd Ht Hfd2 Ht2 Hne Hw Hh Hh2 Hwr Hrd Hi Hi2 Hoo Hf Hb Hl Ho Hmax Hfree Hb0 Hbe Hum Hb2 Hbe2 Hm2 A'.
  eapply swp_mono; [by apply (sys_write_inode fs cap t um fd h w A o i ty f buf l)|].
  intros n w' (-> & d & -> & HA). replace (written f (os_offset o) l) with (awrite f (os_offset o) l) in HA by (by destruct l).
  assert (world_ok fs cap (advance w h o (Zlength l) d) A') as Hw' by (by exists d).
  split_and!; [done|done|done|done|]. eapply swp_mono.
  - eapply (sys_read_inode fs cap t um fd2 h2 _ A' o2 i ty (awrite f (os_offset o) l) buf2 (Zlength l)); try done; try lia.
    + cbn [advance handles]. by rewrite list_lookup_insert_ne.
    + apply lookup_insert_eq.
    + destruct l; [done|]. simpl. lia.
  - rewrite Hoo, awrite_slice by done. rewrite Nat2Z.id, Nat.sub_diag, app_nil_r.
    intros [n' um'] w'' (-> & Hhas & Hs & d' & -> & Ed'). split_and!; [done|done|done|]. exists d'. split; [done|].
    by injection Ed' as ->.
Qed.

(** Two pages of user memory that hold the letter a. *)
Definition demo_umem : UMem := gset_to_gmap 97 (list_to_set (seqZ 4096 8192)).

Lemma demo_umem_lookup a : 4096 <= a < 12288 -> demo_umem !! a = Some 97.
Proof. intros Ha. apply lookup_gset_to_gmap_Some. split; [|done]. apply elem_of_list_to_set, elem_of_seqZ. lia. Qed.

Lemma demo_umem_has a n : 4096 <= a -> a + Z.of_nat n <= 12288 -> has demo_umem a (replicate n 97).
Proof. intros H1 H2 i b [-> Hi]%lookup_replicate. apply demo_umem_lookup. lia. Qed.

Lemma demo_umem_mapped a b : 4096 <= a -> b <= 12288 -> mapped demo_umem a b.
Proof. intros H1 H2 x Hx. exists 97. apply demo_umem_lookup. lia. Qed.

(** A world with the formatted file system, whose root is open for writing and for reading. *)
Definition demo_world (d : content) : World :=
  mkWorld (mkDisk d ∅) [OSInode_new false true (Inode_of demo_fs 0); OSInode_new true false (Inode_of demo_fs 0)] [].

Lemma demo_world_ok : exists d, world_ok demo_fs demo_cap (demo_world d) {[ 0 := (Directory, []) ]}.
Proof. destruct demo_inv as (d & N & I & E & _). exists d, d. split; [done|]. by exists N. Qed.

Lemma file_write_read_witness : exists w,
  swp (sys_write (H := world_files demo_fs) [Some (FInode 0); Some (FInode 1)] demo_umem 0 4096 300) w (fun n w' => n = 300 /\
    swp (sys_read (H := world_files demo_fs) [Some (FInode 0); Some (FInode 1)] demo_umem 1 8192 300) w' (fun '(n', um') _ =>
      n' = 300 /\ has um' 8192 (replicate 300 97))).
Proof.
  destruct demo_world_ok as [d Hw]. exists (demo_world d). change 300 with (Zlength (replicate 300 97)) at 1. eapply swp_mono.
  - apply (file_write_read demo_fs demo_cap [Some (FInode 0); Some (FInode 1)] demo_umem 0 1 0 1 (demo_world d)
      {[ 0 := (Directory, []) ]} (OSInode_new false true (Inode_of demo_fs 0)) (OSInode_new true false (Inode_of demo_fs 0))
      0 Directory [] 4096 8192 (replicate 300 97));
      [lia|reflexivity|lia|reflexivity|lia|exact Hw|reflexivity|reflexivity|reflexivity|reflexivity|reflexivity|reflexivity|
       reflexivity|reflexivity| |discriminate|cbn; lia|vm_compute; discriminate|vm_compute; discriminate|lia|
       vm_compute; discriminate| |lia|vm_compute; discriminate| ].
    + apply Forall_replicate. unfold is_byte. lia.
    + apply demo_umem_has; lia.
    + apply demo_umem_mapped; vm_compute; discriminate.
  - intros n w' (-> & _ & _ & _ & Hr). split; [done|]. eapply swp_mono; [exact Hr|]. intros [n' um'] w'' (-> & Hh & _). done.
Defined.

(** [read_all] ends and returns every byte of the file from the offset on, leaving
    the offset at the end and the disk as it was: a loop of one round for each 512
    bytes and one more is enough. *)
Theorem read_all_whole_file fs cap d N i ty f fuel o :
  fs_inv fs cap d N -> abs d N !! i = Some (ty, f) -> os_inode o = Inode_of fs i -> 0 <= os_offset o <= MAX_SIZE ->
  Z.max 0 (Zlength f - os_offset o) + 512 <= 512 * Z.of_nat fuel ->
  wp ∅ (read_all fuel o) d (fun r d' => d' = d /\
    r = (drop (Z.to_nat (os_offset o)) f, set_offset o (Z.max (Zlength f) (os_offset o)))).
Proof. intros I Hf Hi Ho Hfu. by apply (read_all_loop_wp fs cap d N i ty f fuel I Hf o (replicate 512 0) []). Qed.

Lemma read_all_whole_file_witness : exists d,
  wp ∅ (read_all 2 (OSInode_new true false (Inode_of demo_fs 0))) d (fun r d' => d' = d /\
    r = ([], OSInode_new true false (Inode_of demo_fs 0))).
Proof.
  destruct demo_inv as (d & N & I & E & _). exists d.
  apply (read_all_whole_file demo_fs demo_cap d N 0 Directory [] 2 (OSInode_new true false (Inode_of demo_fs 0)));
    [exact I|rewrite E; reflexivity|reflexivity|vm_compute; split; discriminate|vm_compute; discriminate].
Defined.

(** C36: Opening a path finds the file of that name in the root directory, empties it
    if CREATE or TRUNC is given, makes an empty file with the lowest free inode if there
    is none and CREATE is given, and otherwise gives -1 and changes nothing.  The file
    is opened at offset 0, readable unless WRONLY is given and writable unless no flag
    is, on the lowest free descriptor.  Flags that do not exist panic the kernel. *)
Theorem sys_open_file fs cap t um path nm flags w A es :
  world_ok fs cap w A -> Forall entry_ok es -> A !! 0 = Some (Directory, dir_bytes es) ->
  has um path (nm ++ [0]) -> 0 ∉ nm -> utf8_ok nm = true -> 0 < path -> path + Zlength nm + 1 <= 2 ^ 48 ->
  (forall id, dir_find nm es = Some id -> is_Some (A !! id)) ->
  (dir_find nm es = None -> flag_set flags CREATE = true -> can_create fs cap A es nm) ->
  (OpenFlags_from_bits flags = Some flags ->
    swp (sys_open fs t um path flags) w (fun '(fd, t') w' => exists r A', opened fs A es nm flags r A' /\
      world_ok fs cap w' A' /\ console w' = console w /\
      match r with
      | Some o => handles w' = handles w ++ [o] /\ takes_fd t (FInode (length (handles w))) fd t'
      | None => fd = -1 /\ t' = t /\ handles w' = handles w
      end)) /\
  (OpenFlags_from_bits flags = None -> sys_open fs t um path flags w = Err Panic).
Proof.
  intros Hw Hes Hroot Hp Hz Hu H0 He Hent Hnew. split; [intros Hfl; by eapply sys_open_wp|]. intros Hfl.
  unfold sys_open, mbind, st_bind, slift. change (as_c_str um path) with (read_c_str um path).
  rewrite (read_c_str_has um path nm) by done. by rewrite Hfl.
Qed.

Lemma sys_open_file_witness : exists w, swp (sys_open demo_fs [None] (<[4098 := 0]> demo_umem) 4096 CREATE) w
  (fun '(fd, t') w' => fd = 0 /\ t' = [Some (FInode 2)] /\ exists id, id <> 0 /\
    handles w' !! 2%nat = Some (OSInode_new true true (Inode_of demo_fs id))).
Proof.
  destruct demo_world_ok as [d Hw]. exists (demo_world d). eapply swp_mono.
  - refine (proj1 (sys_open_file demo_fs demo_cap [None] (<[4098 := 0]> demo_umem) 4096 [97; 97] CREATE (demo_world d)
      {[ 0 := (Directory, []) ]} [] Hw (Forall_nil_2 _) _ _ _ _ _ _ _ _) _).
    + reflexivity.
    + intros [|[|[|i]]] b; cbn; intros [= <-].
      * rewrite lookup_insert_ne by done. apply demo_umem_lookup. lia.
      * rewrite lookup_insert_ne by done. apply demo_umem_lookup. lia.
      * apply lookup_insert_eq.
    + set_solver.
    + reflexivity.
    + lia.
    + vm_compute. discriminate.
    + discriminate.
    + intros _ _. split_and!; [apply (bool_decide_unpack _); vm_compute; exact Logic.I| |vm_compute; discriminate..].
      exists 1. split; [vm_compute; split; [discriminate|reflexivity]|reflexivity].
    + reflexivity.
  - intros [fd t'] w' (r & A' & (id & -> & Hid & _) & _ & _ & Hh & Hfd & Hlow & _ & Hat & Hoth). change (handles (demo_world d)) with
      [OSInode_new false true (Inode_of demo_fs 0); OSInode_new true false (Inode_of demo_fs 0)] in *.
    assert (fd = 0) as ->.
    { cbn [length] in Hfd. destruct (decide (fd = 1)) as [->|]; [|lia]. destruct (Hlow 0%nat) as [? [=]]. lia. }
    split_and!; [done| |].
    + destruct t' as [|x [|y t']]; cbn in Hat; [done|by injection Hat as ->|]. by specialize (Hoth 1%nat ltac:(done)).
    + exists id. rewrite Hh. split; [|done]. intros ->. done.
Defined.

(** Writing to standard output prints the buffer if each of its chunks of 256
    bytes is well-formed UTF-8 on its own, and panics the kernel otherwise, also when
    the buffer as a whole is well formed. *)
Theorem stdout_utf8_chunks fs t um fd (buf : Z) l w : 0 <= fd -> t !! Z.to_nat fd = Some (Some FStdout) ->
  0 < buf -> buf + Zlength l <= USER_ASPACE_END -> has um buf l ->
  ((forall j, (256 * j < length l)%nat -> utf8_ok (chunk l (256 * j)) = true) ->
    sys_write (H := world_files fs) t um fd buf (Zlength l) w = Ok (Zlength l, mkWorld (disk w) (handles w) (console w ++ l))) /\
  (forall j, (256 * j < length l)%nat -> utf8_ok (chunk l (256 * j)) = false ->
    sys_write (H := world_files fs) t um fd buf (Zlength l) w = Err Panic).
Proof.
  intros Hfd Ht Hb He Hl. split.
  - intros Hok. destruct (stdout_chunks fs t um fd buf l w) as (n & w' & E & -> & ->); done.
  - intros j Hj Hbad. by eapply stdout_panics.
Qed.

(** 255 letters and a character of two bytes: well formed, but split by the chunks. *)
Definition split_text : list Z := replicate 255 97 ++ [195; 169].
Definition split_umem : UMem := <[4351 := 195]> (<[4352 := 169]> demo_umem).

Lemma split_umem_has : has split_umem 4096 split_text.
Proof.
  apply has_app. split.
  - intros i b [-> Hi]%lookup_replicate. unfold split_umem. rewrite !lookup_insert_ne by lia. apply demo_umem_lookup. lia.
  - rewrite length_replicate. intros [|[|i]] b; cbn; intros [= <-]; [apply lookup_insert_eq|].
    unfold split_umem. rewrite lookup_insert_ne by done. apply lookup_insert_eq.
Qed.

Lemma stdout_utf8_chunks_witness : utf8_ok split_text = true /\
  (forall w, sys_write (H := world_files demo_fs) [None; Some FStdout] split_umem 1 4096 257 w = Err Panic) /\
  (forall w, sys_write (H := world_files demo_fs) [None; Some FStdout] demo_umem 1 4096 300 w =
    Ok (300, mkWorld (disk w) (handles w) (console w ++ replicate 300 97))).
Proof.
  split_and!; [vm_compute; reflexivity| |]; intros w.
  - refine (proj2 (stdout_utf8_chunks demo_fs [None; Some FStdout] split_umem 1 4096 split_text w _ _ _ _ _) 0%nat _ _);
      [lia|reflexivity|lia|vm_compute; discriminate|exact split_umem_has|vm_compute; lia|vm_compute; reflexivity].
  - refine (proj1 (stdout_utf8_chunks demo_fs [None; Some FStdout] demo_umem 1 4096 (replicate 300 97) w _ _ _ _ _) _);
      [lia|reflexivity|lia|vm_compute; discriminate|apply demo_umem_has; lia|].
    intros [|[|j]] Hj; [vm_compute; reflexivity|vm_compute; reflexivity|]. rewrite length_replicate in Hj. lia.
Defined.
