(* ===== verification/Pack.v ===== *)
(** The image builder (easy-fs-fuse/src/main.rs): it formats an image and writes the
    applications to it, which the kernel mounts, opens and reads whole. *)
From S2P Require Import Prelude ByteCodec BlockCache DiskLogic Bitmap Layout InodeMap InodeIO Efs Vfs FsInv VfsSpec Directory Format EasyFs State OsFile OsFileSpec.

(** ** [easy_fs_pack] *)

(** The name of a source file without its extension. *)
Definition strip_ext (name_with_ext : list Z) : res (list Z) :=
  '(i, _) ← unwrap (find_index (fun c => c =? 46) name_with_ext);
  Ok (take i name_with_ext).
Fixpoint app_names (dir : list (list Z)) : res (list (list Z)) :=
  match dir with
  | [] => Ok []
  | dir_entry :: dir => name ← strip_ext dir_entry; names ← app_names dir; Ok (name :: names)
  end.

Section pack.
(** The files of the target directory on the host. *)
Context (host_file : list Z -> option (list Z)).

Fixpoint pack_apps (efs : EasyFileSystem) (root : Inode) (apps : list (list Z)) : prog unit :=
  match apps with
  | [] => Ret tt
  | app :: apps =>
      all_data ← lift (unwrap (host_file app));
      o ← Inode_create efs root app;
      inode ← lift (unwrap o);
      _ ← Inode_write_at efs inode 0 all_data;
      pack_apps efs root apps
  end.

(** Formatting and packing, for the names in the source directory. *)
Definition pack_image (dir : list (list Z)) : prog EasyFileSystem :=
  efs ← create_fs (16 * 2048) 1;
  apps ← lift (app_names dir);
  _ ← pack_apps efs (root_inode efs) apps;
  Ret efs.
(** With the listing it prints. *)
Definition easy_fs_pack (dir : list (list Z)) : prog (list (list Z)) :=
  efs ← pack_image dir;
  Inode_ls (root_inode efs).
End pack.

(** ** Directories by name *)

Lemma dir_find_None nm es : dir_find nm es = None <-> nm ∉ es.*1.
Proof.
  unfold dir_find. destruct (find_index _ es) as [[i [nm' id]]|] eqn:E.
  - apply find_index_Some in E as (Hi & Hn & _). apply bool_decide_eq_true in Hn. simpl in Hn. subst. split; [done|].
    intros []. apply list_elem_of_fmap. exists (nm, id). split; [done|]. by eapply list_elem_of_lookup_2.
  - split; [|done]. intros _ (e & -> & He)%list_elem_of_fmap. apply find_index_None in E. rewrite Forall_forall in E.
    specialize (E e He). by rewrite bool_decide_eq_false in E.
Qed.

Lemma dir_find_Some nm es i id : NoDup es.*1 -> es !! i = Some (nm, id) -> dir_find nm es = Some id.
Proof.
  intros Hnd Hi. unfold dir_find. replace (find_index _ es) with (Some (i, (nm, id))); [done|]. symmetry.
  apply find_index_Some. split_and!; [done|by apply bool_decide_eq_true|].
  intros j e Hj He. apply bool_decide_eq_false. intros E. assert (j = i); [|lia].
  eapply NoDup_lookup; [done|..]; rewrite list_lookup_fmap; [rewrite He; simpl; by rewrite E|by rewrite Hi].
Qed.

Lemma used_blocks_new A i x : A !! i = None -> used_blocks (<[i := x]> A) = used_blocks A + total_blocks (Zlength x.2).
Proof.
  intros Hi. unfold used_blocks. fold (weight (K := Z) (fun y : DiskInodeType * list Z => total_blocks (Zlength y.2)) (map_to_list (<[i := x]> A))).
  rewrite (weight_perm _ _ ((i, x) :: map_to_list A)) by (by apply map_to_list_insert). simpl. unfold weight. lia.
Qed.

Lemma NoDup_pairs_fun {K V} (l : list (K * V)) k v v' : NoDup l.*1 -> (k, v) ∈ l -> (k, v') ∈ l -> v = v'.
Proof.
  intros Hnd [i Hi]%list_elem_of_lookup_1 [j Hj]%list_elem_of_lookup_1. assert (i = j) as <-; [|congruence].
  eapply NoDup_lookup; [done|..]; rewrite list_lookup_fmap; [by rewrite Hi|by rewrite Hj].
Qed.

(** ** The image while it is packed *)

(** The blocks of the files [files], and of their directory. *)
Definition files_blocks (files : list (list Z * list Z)) : Z := weight (fun data => total_blocks (Zlength data)) files.

(** The file system [A] holds exactly [files], under the entries [es]. *)
Record packed (A : gmap Z (DiskInodeType * list Z)) (files : list (list Z * list Z)) (es : list (list Z * Z)) : Prop := {
  pa_root : A !! 0 = Some (Directory, dir_bytes es);
  pa_names : es.*1 = files.*1;
  pa_ok : Forall entry_ok es;
  pa_files : Forall2 (fun f e => A !! e.2 = Some (File, f.2) /\ e.2 <> 0) files es;
  pa_dom k : is_Some (A !! k) -> k = 0 \/ k ∈ es.*2;
  pa_used : used_blocks A = total_blocks (Zlength es * 32) + files_blocks files;
}.

(** A file that can be packed. *)
Definition app_ok (f : list Z * list Z) : Prop :=
  name_ok f.1 /\ bytes_ok f.2 /\ f.2 <> [] /\ Zlength f.2 <= MAX_SIZE.

Lemma packed_empty : packed {[ 0 := (Directory, []) ]} [] [].
Proof.
  split; [done|done|constructor|constructor| |].
  - intros k [x [-> _]%lookup_singleton_Some]. by left.
  - reflexivity.
Qed.

Lemma total_blocks_nonneg s : 0 <= s <= MAX_SIZE -> 0 <= total_blocks s.
Proof. intros Hs. pose proof (total_blocks_mono 0 s ltac:(lia) ltac:(lia)). change (total_blocks 0) with 0 in H. lia. Qed.

Lemma files_blocks_nonneg files : Forall app_ok files -> 0 <= files_blocks files.
Proof.
  induction 1 as [|f files (_ & _ & _ & Hm) _ IH]; [done|]. unfold files_blocks in *. simpl.
  pose proof (total_blocks_nonneg (Zlength f.2) ltac:(lia)). lia.
Qed.

Lemma files_blocks_app l l' : files_blocks (l ++ l') = files_blocks l + files_blocks l'.
Proof. unfold files_blocks, weight. induction l as [|x l IH]; [done|]. cbn [app foldr]. rewrite IH. lia. Qed.

Section packing.
Context (fs : EasyFileSystem) (cap : Z).
Implicit Types (A : gmap Z (DiskInodeType * list Z)).

(** A free inode is found while there are fewer files than inodes. *)
Lemma packed_free A files es : packed A files es -> Zlength es + 1 < maximum (inode_bitmap fs) ->
  exists k, 0 <= k < maximum (inode_bitmap fs) /\ A !! k = None.
Proof.
  intros P Hn. destruct (decide (Exists (fun k => A !! k = None) (seqZ 0 (maximum (inode_bitmap fs))))) as [Hk|Hno].
  - apply Exists_exists in Hk as (k & Hk & HA). exists k. apply elem_of_seqZ in Hk. split; [lia|done].
  - exfalso. assert (seqZ 0 (maximum (inode_bitmap fs)) ⊆+ 0 :: es.*2) as Hsub%submseteq_length.
    { apply NoDup_submseteq; [apply NoDup_seqZ|]. intros k Hk. apply elem_of_cons, (pa_dom _ _ _ P), not_eq_None_Some.
      intros E. apply Hno, Exists_exists. eauto. }
    cbn [length] in Hsub. rewrite length_seqZ, length_fmap in Hsub. lia.
Qed.

Lemma pack_create_wp d A files es nm : fs_state fs cap d A -> packed A files es -> name_ok nm -> nm ∉ files.*1 ->
  Zlength es + 1 < maximum (inode_bitmap fs) -> (Zlength es + 1) * 32 <= MAX_SIZE ->
  total_blocks ((Zlength es + 1) * 32) + files_blocks files <= cap ->
  wp ∅ (Inode_create fs (root_inode fs) nm) d (fun r d' => exists id A', r = Some (Inode_of fs id) /\
    fs_state fs cap d' A' /\ entry_ok (nm, id) /\ id <> 0 /\ A !! id = None /\
    A' = <[0 := (Directory, dir_bytes (es ++ [(nm, id)]))]> (<[id := (File, [])]> A)).
Proof.
  intros (N & I & <-) P Hnm Hnew Hino Hmax Hcap. eapply wp_mono.
  - apply (Inode_create_wp fs cap d N 0 es nm); [done|apply P|apply P| |done| |done|].
    + apply dir_find_None. by rewrite (pa_names _ _ _ P).
    + destruct (packed_free _ _ _ P Hino) as (k & Hk & HA). exists k. by rewrite (abs_dom d).
    + rewrite (free_count_abs _ _ _ _ I), (pa_used _ _ _ P). unfold needed. rewrite (proj2 (Z.ltb_ge _ _)) by lia. lia.
  - intros r d' (id & N' & -> & Hid & _ & I' & EA). exists id. eexists. split; [done|].
    assert (abs d N !! id = None) as HA by (by apply abs_dom).
    assert (id <> 0) as H0 by (intros ->; by rewrite (pa_root _ _ _ P) in HA).
    assert (id ∈ dom N') as Hd.
    { apply dec_stable. rewrite (abs_dom d'), EA, lookup_insert_ne, lookup_insert_eq by done. done. }
    pose proof (fi_idom _ _ _ _ I' id Hd). pose proof (ge_imax _ _ _ (fi_geom _ _ _ _ I')).
    split_and!; [by exists N'|split; [done|]|done|done|done]. unfold is_word. simpl. lia.
Qed.

(** The state after a file has been created and filled. *)
Lemma packed_add A files es nm id data : packed A files es -> entry_ok (nm, id) -> id <> 0 -> A !! id = None ->
  packed (<[id := (File, data)]> (<[0 := (Directory, dir_bytes (es ++ [(nm, id)]))]> (<[id := (File, [])]> A)))
    (files ++ [(nm, data)]) (es ++ [(nm, id)]).
Proof.
  intros [Hroot Hn Hok Hf Hd Hu] He H0 HA. rewrite insert_insert_ne, insert_insert_eq by done.
  set (A1 := <[id := (File, data)]> A). assert (A1 !! 0 = Some (Directory, dir_bytes es)) as H1.
  { unfold A1. by rewrite lookup_insert_ne. }
  split.
  - apply lookup_insert_eq.
  - by rewrite !fmap_app, Hn.
  - apply Forall_app. split; [done|by constructor].
  - apply Forall2_app.
    + eapply Forall2_impl; [exact Hf|]. intros f e [Hl Hne]. split; [|done].
      rewrite lookup_insert_ne by done. unfold A1. rewrite lookup_insert_ne; [done|]. intros ->. congruence.
    + constructor; [|constructor]. split; [|done]. rewrite lookup_insert_ne by done. apply lookup_insert_eq.
  - intros k. rewrite fmap_app, elem_of_app. cbn [fmap list_fmap snd]. rewrite list_elem_of_singleton. unfold A1.
    destruct (decide (k = 0)), (decide (k = id)); [tauto..|]. rewrite !lookup_insert_ne by done.
    intros Hk%Hd. tauto.
  - rewrite (used_blocks_insert A1 0 _ _ _ _ H1). unfold A1. rewrite used_blocks_new, Hu, files_blocks_app by done.
    change (files_blocks [(nm, data)]) with (total_blocks (Zlength data) + 0). cbn [snd].
    rewrite !dir_bytes_length, length_app by (rewrite ?Forall_app, ?Forall_singleton; done). cbn [length].
    replace (Z.of_nat (length es + 1) * 32) with ((Zlength es + 1) * 32) by lia. lia.
Qed.

Lemma packed_length A files es : packed A files es -> length es = length files.
Proof. intros P. rewrite <- (length_fmap fst es), (pa_names _ _ _ P). apply length_fmap. Qed.

(** A set of files that fits the file system. *)
Record fits (files : list (list Z * list Z)) : Prop := {
  ft_ok : Forall app_ok files;
  ft_names : NoDup files.*1;
  ft_inodes : Zlength files < maximum (inode_bitmap fs);
  ft_dir : Zlength files * 32 <= MAX_SIZE;
  ft_blocks : total_blocks (Zlength files * 32) + files_blocks files <= cap;
}.

Lemma pack_file_wp host d A files es nm data rest : fs_state fs cap d A -> packed A files es ->
  fits (files ++ (nm, data) :: rest) -> host nm = Some data ->
  forall Q, (forall d' A' es', fs_state fs cap d' A' -> packed A' (files ++ [(nm, data)]) es' ->
    wp ∅ (pack_apps host fs (root_inode fs) rest.*1) d' Q) ->
  wp ∅ (pack_apps host fs (root_inode fs) (nm :: rest.*1)) d Q.
Proof.
  intros Hs P [Hok Hnd Hino Hdir Hbl] Hhost Q HQ. pose proof (packed_length _ _ _ P) as Hlen.
  apply Forall_app in Hok as [Hokf [(Hnm & Hb & Hne & Hm) Hokr]%Forall_cons].
  rewrite files_blocks_app in Hbl. change (files_blocks ((nm, data) :: rest)) with (total_blocks (Zlength data) + files_blocks rest) in Hbl.
  pose proof (files_blocks_nonneg rest Hokr) as Hr0. rewrite length_app in Hino, Hdir, Hbl. cbn [length fst snd] in *.
  pose proof (total_blocks_mono ((Zlength es + 1) * 32) (Z.of_nat (length files + S (length rest)) * 32) ltac:(lia) Hdir) as Hmono.
  pose proof (total_blocks_nonneg (Zlength data) ltac:(lia)).
  cbn [pack_apps]. eapply wp_lift_bind; [by rewrite Hhost|]. apply wp_bind. eapply wp_mono.
  - apply (pack_create_wp d A files es nm); try done; [|lia..].
    rewrite fmap_app, fmap_cons in Hnd. cbn [fst] in Hnd. apply NoDup_app in Hnd as (_ & Hdis & _).
    intros Hin. eapply Hdis; [done|]. apply list_elem_of_here.
  - intros r d' (id & A' & -> & Hs' & He & H0 & HA & ->). eapply wp_lift_bind; [done|]. apply wp_bind.
    destruct Hs' as (N' & I' & EA). assert (abs d' N' !! id = Some (File, [])) as Hid.
    { rewrite EA, lookup_insert_ne by done. apply lookup_insert_eq. }
    eapply wp_mono; [apply (Inode_write_at_wp fs cap d' N' id File [] 0 data I' Hid Hb)|]; [lia|destruct data; [done|simpl; lia]|lia| |].
    + rewrite (free_count_abs _ _ _ _ I'), EA. unfold needed. rewrite (proj2 (Z.ltb_ge _ _)) by (simpl; lia).
      change (total_blocks (Zlength [])) with 0. rewrite Z.add_0_l.
      rewrite (used_blocks_insert (<[id := (File, [])]> A) 0 Directory (dir_bytes es)) by (rewrite lookup_insert_ne by done; apply P).
      rewrite used_blocks_new by done. rewrite !dir_bytes_length by (rewrite ?Forall_app, ?Forall_singleton; split_and?; (done || apply P)).
      rewrite (pa_used _ _ _ P), length_app. cbn [length snd]. change (total_blocks (Z.of_nat 0)) with 0.
      replace (Z.of_nat (length es + 1) * 32) with ((Zlength es + 1) * 32) by lia. lia.
    + intros k d2 (_ & N2 & I2 & EA2). apply (HQ d2 (<[id := (File, data)]> (abs d' N')) (es ++ [(nm, id)])).
      * exists N2. split; [done|]. rewrite EA2. unfold awrite. cbn [app length]. by rewrite splice_full by (rewrite length_replicate; lia).
      * rewrite EA. by apply packed_add.
Qed.

Lemma pack_apps_wp host rest : forall d A files es, fs_state fs cap d A -> packed A files es -> fits (files ++ rest) ->
  Forall (fun f => host f.1 = Some f.2) rest ->
  wp ∅ (pack_apps host fs (root_inode fs) rest.*1) d (fun _ d' => exists A' es', fs_state fs cap d' A' /\ packed A' (files ++ rest) es').
Proof.
  induction rest as [|[nm data] rest IH]; intros d A files es Hs P Hf Hh.
  - apply wp_ret. exists A, es. by rewrite app_nil_r.
  - apply Forall_cons in Hh as [Hh Hh']. eapply (pack_file_wp host d A files es nm data rest); try done.
    intros d' A' es' Hs' P'. replace (files ++ (nm, data) :: rest) with ((files ++ [(nm, data)]) ++ rest) in *
      by (by rewrite <- app_assoc). by eapply IH.
Qed.
End packing.

(** ** What is on the device when packing is done *)

Section durable.
Context {D : Type} `{BlockDeviceLaws D}.
Implicit Types (s : BlockCacheManager D).

(** The device alone holds the content of the abstract disk. *)
Definition clean s (a : Disk) : Prop := cache_rel (crash s) (mkDisk (dat a) ∅).

(** After [p] everything is on the device; and, it stays so if it was before. *)
Definition ends_clean {A} (p : prog A) : Prop := forall s a v a' v' s', cache_rel s a ->
  run_disk p a = Ok (v, a') -> run_cache p s = Ok (v', s') -> clean s' a'.
Definition keeps_clean {A} (p : prog A) : Prop := forall s a v a' v' s', cache_rel s a -> clean s a ->
  run_disk p a = Ok (v, a') -> run_cache p s = Ok (v', s') -> clean s' a'.

Lemma ends_keeps {A} (p : prog A) : ends_clean p -> keeps_clean p.
Proof. intros Hp s a v a' v' s' Hr _. by apply Hp. Qed.

Lemma run_bind_split {A B} (p : prog A) (f : A -> prog B) s a v a' v' s' : cache_rel s a ->
  run_disk (p ≫= f) a = Ok (v, a') -> run_cache (p ≫= f) s = Ok (v', s') ->
  exists x a1 s1, run_disk p a = Ok (x, a1) /\ run_cache p s = Ok (x, s1) /\ cache_rel s1 a1 /\
    run_disk (f x) a1 = Ok (v, a') /\ run_cache (f x) s1 = Ok (v', s').
Proof.
  intros Hr Ed Ec. rewrite run_disk_bind in Ed. rewrite run_cache_bind in Ec. pose proof (run_refines p s a Hr) as Hag.
  destruct (run_disk p a) as [[x a1]|]; [|done]. destruct (run_cache p s) as [[y s1]|]; [|done].
  destruct Hag as [-> Hr1]. eauto 10.
Qed.

Lemma ends_bind_r {A B} (p : prog A) (f : A -> prog B) : (forall v, ends_clean (f v)) -> ends_clean (p ≫= f).
Proof.
  intros Hf s a v a' v' s' Hr Ed Ec. destruct (run_bind_split p f s a v a' v' s' Hr Ed Ec) as (x & a1 & s1 & _ & _ & Hr1 & Ed1 & Ec1).
  exact (Hf x s1 a1 v a' v' s' Hr1 Ed1 Ec1).
Qed.

Lemma ends_bind_l {A B} (p : prog A) (f : A -> prog B) : ends_clean p -> (forall v, keeps_clean (f v)) -> ends_clean (p ≫= f).
Proof.
  intros Hp Hf s a v a' v' s' Hr Ed Ec. destruct (run_bind_split p f s a v a' v' s' Hr Ed Ec) as (x & a1 & s1 & Ed0 & Ec0 & Hr1 & Ed1 & Ec1).
  exact (Hf x s1 a1 v a' v' s' Hr1 (Hp s a x a1 x s1 Hr Ed0 Ec0) Ed1 Ec1).
Qed.

Lemma keeps_bind {A B} (p : prog A) (f : A -> prog B) : keeps_clean p -> (forall v, keeps_clean (f v)) -> keeps_clean (p ≫= f).
Proof.
  intros Hp Hf s a v a' v' s' Hr Hc Ed Ec. destruct (run_bind_split p f s a v a' v' s' Hr Ed Ec) as (x & a1 & s1 & Ed0 & Ec0 & Hr1 & Ed1 & Ec1).
  exact (Hf x s1 a1 v a' v' s' Hr1 (Hp s a x a1 x s1 Hr Hc Ed0 Ec0) Ed1 Ec1).
Qed.

Lemma keeps_ret {A} (v : A) : keeps_clean (Ret v).
Proof. intros s a v1 a' v' s' _ Hc. simpl. by intros [= _ <-] [= _ <-]. Qed.

Lemma keeps_lift {A} (r : res A) : keeps_clean (lift r).
Proof. destruct r; [apply keeps_ret|]. intros s a v1 a' v' s' _ _. done. Qed.

Lemma ends_sync_all : ends_clean sync_all.
Proof.
  intros s a v a' v' s' Hr. simpl. case_decide as Hh; [|done]. intros [= <- <- ].
  destruct (sync_all_rel s a Hr Hh) as (s2 & -> & Hr2 & Hd). simpl. intros [= _ <-]. pose proof (cr_dev _ _ Hr2).
  unfold clean. split; simpl; auto; try done. apply NoDup_nil_2.
Qed.
End durable.

#[export] Hint Resolve ends_keeps keeps_bind ends_bind_l keeps_ret keeps_lift ends_sync_all : clean.

Section image.
Context {D : Type} `{BlockDeviceLaws D}.

Lemma ends_write_at efs ino offset buf : ends_clean (D := D) (Inode_write_at efs ino offset buf).
Proof. apply ends_bind_r. intros n. auto with clean. Qed.

Lemma ends_create_fs total ib : ends_clean (D := D) (create_fs total ib).
Proof.
  unfold create_fs. do 4 (apply ends_bind_r; intros ?). destruct (get_disk_inode_pos _ 0). apply ends_bind_r. intros _. auto with clean.
Qed.

Lemma keeps_pack_apps host efs root apps : keeps_clean (D := D) (pack_apps host efs root apps).
Proof.
  induction apps as [|app apps IH]; cbn [pack_apps]; [auto with clean|]. apply keeps_bind; [auto with clean|]. intros data.
  apply ends_keeps. do 2 (apply ends_bind_r; intros ?). apply ends_bind_l; [apply ends_write_at|done].
Qed.

Lemma ends_pack_image host dir : ends_clean (D := D) (pack_image host dir).
Proof. apply ends_bind_l; [apply ends_create_fs|]. intros efs. pose proof (keeps_pack_apps host efs). auto with clean. Qed.
End image.

(** What the kernel does to load an application: it mounts the file system, opens
    the file and reads it. *)
Definition load_app (fuel : nat) (name : list Z) : prog (option (list Z)) :=
  efs ← open_fs;
  o ← open_file efs name 0;
  match o with
  | Some elf_data => r ← read_all fuel elf_data; Ret (Some r.1)
  | None => Ret None
  end.

Lemma load_app_wp fs cap d A files es fuel nm : fs_state fs cap d A -> packed A files es -> NoDup files.*1 ->
  (forall data, (nm, data) ∈ files -> Zlength data + 512 <= 512 * Z.of_nat fuel) ->
  wp ∅ (load_app fuel nm) d (fun r d' => d' = d /\ match r with Some data => (nm, data) ∈ files | None => nm ∉ files.*1 end).
Proof.
  intros (N & I & EA) P Hnd Hfu. unfold load_app. apply wp_bind. eapply wp_mono; [by eapply open_fs_wp|]. intros ? ? [-> ->].
  apply wp_bind. change (open_file fs nm 0) with (o ← Inode_find fs (Inode_of fs 0) nm;
    match o with Some inode => _ ← Ret tt; Ret (Some (OSInode_new true false inode)) | None => Ret None end).
  apply wp_bind. eapply wp_mono; [apply (Inode_find_wp fs cap d N 0 es nm); [done|apply P|rewrite EA; apply P]|].
  intros r d' [-> ->]. destruct (dir_find nm es) as [id|] eqn:Ef; cbn [option_map].
  - apply wp_bind, wp_ret, wp_ret. assert (nm ∈ es.*1) as Hin.
    { apply dec_stable. rewrite <- dir_find_None. by rewrite Ef. }
    apply list_elem_of_fmap in Hin as ([nm' id'] & Heq & [i Hi]%list_elem_of_lookup_1). simpl in Heq. subst nm'.
    rewrite (dir_find_Some nm es i id') in Ef; [|by rewrite (pa_names _ _ _ P)|done]. injection Ef as ->.
    destruct (Forall2_lookup_r _ _ _ _ _ (pa_files _ _ _ P) Hi) as ([nm' data] & Hfi & HA & _).
    assert (nm' = nm) as ->.
    { pose proof (f_equal (.!! i) (pa_names _ _ _ P)) as E. cbn beta in E. rewrite !list_lookup_fmap, Hi, Hfi in E. by injection E as ->. }
    apply list_elem_of_lookup_2 in Hfi. apply wp_bind. eapply wp_mono.
    + apply (read_all_loop_wp fs cap d N id File data fuel I); [by rewrite EA|done|split; vm_compute; discriminate|done|]. cbn [os_offset OSInode_new].
      specialize (Hfu data Hfi). rewrite Z.sub_0_r, Z.max_r by lia. done.
    + intros r d' [-> ->]. apply wp_ret. by split.
  - apply wp_ret, wp_ret. split; [done|]. by rewrite <- (pa_names _ _ _ P), <- dir_find_None.
Qed.

Lemma pack_image_wp host dir files d : disk_ok d -> (forall b, 0 <= b < 16 * 2048 -> b ∈ dom d) ->
  app_names dir = Ok files.*1 -> Forall (fun f => host f.1 = Some f.2) files ->
  fits (format_fs (16 * 2048) 1) (format_cap (16 * 2048) 1) files ->
  wp ∅ (pack_image host dir) d (fun efs d' => efs = format_fs (16 * 2048) 1 /\ exists A es,
    fs_state efs (format_cap (16 * 2048) 1) d' A /\ packed A files es).
Proof.
  intros Hd Hdom Hn Hh Hf. unfold pack_image. apply wp_bind. eapply wp_mono; [apply create_fs_wp; [|done|done]|].
  { unfold format_ok, format_ia. lia. }
  intros efs d1 (-> & N & I & EA). eapply wp_lift_bind; [exact Hn|]. apply wp_bind. eapply wp_mono.
  - apply (pack_apps_wp _ (format_cap (16 * 2048) 1) host files d1 {[ 0 := (Directory, []) ]} [] []); try done; [by exists N|apply packed_empty].
  - intros _ d2 (A & es & HA & P). apply wp_ret. split; [done|]. by exists A, es.
Qed.

(** C15: The image the builder makes boots: packing a directory of applications succeeds
    and lists their names; when the kernel then mounts the image file with an empty cache,
    it finds each application under its name and reads exactly the bytes of the host's
    file, and finds nothing under any other name. *)
Theorem packed_apps_load {D} `{BlockDeviceLaws D} (s : BlockCacheManager D) d host dir files fuel :
  cache_rel s (mkDisk d ∅) -> disk_ok d -> (forall b, 0 <= b < 16 * 2048 -> b ∈ dom d) ->
  app_names dir = Ok files.*1 -> Forall (fun f => host f.1 = Some f.2) files ->
  fits (format_fs (16 * 2048) 1) (format_cap (16 * 2048) 1) files ->
  (forall f, f ∈ files -> Zlength f.2 + 512 <= 512 * Z.of_nat fuel) ->
  (exists s', run_cache (easy_fs_pack host dir) s = Ok (files.*1, s')) /\
  exists s', run_cache (pack_image host dir) s = Ok (format_fs (16 * 2048) 1, s') /\
    (forall nm data, (nm, data) ∈ files -> exists s'', run_cache (load_app fuel nm) (crash s') = Ok (Some data, s'')) /\
    (forall nm, nm ∉ files.*1 -> exists s'', run_cache (load_app fuel nm) (crash s') = Ok (None, s'')).
Proof.
  intros Hrel Hd Hdom Hn Hh Hf Hfu. pose proof (pack_image_wp host dir files d Hd Hdom Hn Hh Hf) as Hwp. split.
  - destruct (wp_run_cache (easy_fs_pack host dir) s d (fun r _ => r = files.*1) Hrel) as (r & d' & s' & E & _ & ->); [|eauto].
    apply wp_bind. eapply wp_mono; [exact Hwp|]. intros efs d' (-> & A & es & (N & I & EA) & P).
    eapply wp_mono; [eapply (Inode_ls_wp _ _ d' N 0 es); [done|apply P|rewrite EA; apply P]|].
    intros r d2 [_ ->]. apply P.
  - pose proof Hwp as (efs & d' & Ed & -> & A & es & HA & P). pose proof (run_refines (pack_image host dir) s _ Hrel) as Hag.
    rewrite Ed in Hag. destruct (run_cache (pack_image host dir) s) as [[efs' s']|] eqn:Ec; [|done]. destruct Hag as [-> _].
    exists s'. split; [done|]. pose proof (ends_pack_image host dir s _ _ _ _ _ Hrel Ed Ec) as Hcl. unfold clean in Hcl. cbn [dat] in Hcl.
    assert (forall nm, exists r s'', run_cache (load_app fuel nm) (crash s') = Ok (r, s'') /\
      match r with Some data => (nm, data) ∈ files | None => nm ∉ files.*1 end) as Hload.
    { intros nm. destruct (wp_run_cache (load_app fuel nm) (crash s') d' _ Hcl (load_app_wp _ _ d' A files es fuel nm HA P (ft_names _ _ _ Hf)
        (fun data Hin => Hfu (nm, data) Hin))) as (r & d2 & s'' & E & _ & _ & Hr). eauto. }
    split; intros nm.
    + intros data Hin. destruct (Hload nm) as ([data'|] & s'' & E & Hr).
      * exists s''. by rewrite E, (NoDup_pairs_fun files nm data data' (ft_names _ _ _ Hf) Hin Hr).
      * destruct Hr. apply list_elem_of_fmap. by exists (nm, data).
    + intros Hno. destruct (Hload nm) as ([data'|] & s'' & E & Hr); [|eauto].
      destruct Hno. apply list_elem_of_fmap. by exists (nm, data').
Qed.

(** Two applications, from the source files a.rs and sh.rs. *)
Definition demo_apps : list (list Z * list Z) := [([97], [127; 69; 76; 70]); ([115; 104], replicate 700 7)].
Definition demo_host (nm : list Z) : option (list Z) :=
  '(_, f) ← list_find (fun f => f.1 = nm) demo_apps; Some f.2.

Lemma demo_apps_fit : fits (format_fs (16 * 2048) 1) (format_cap (16 * 2048) 1) demo_apps.
Proof.
  split.
  - repeat (apply Forall_cons; split); [| |apply Forall_nil_2].
    + split_and!; [apply (bool_decide_unpack _); vm_compute; exact Logic.I| |done|vm_compute; discriminate].
      repeat constructor; unfold is_byte; lia.
    + split_and!; [apply (bool_decide_unpack _); vm_compute; exact Logic.I| |done|vm_compute; discriminate].
      apply Forall_replicate. unfold is_byte. lia.
  - apply (bool_decide_unpack _). vm_compute. exact Logic.I.
  - vm_compute. reflexivity.
  - vm_compute. discriminate.
  - vm_compute. discriminate.
Qed.

Lemma packed_apps_load_witness : exists s s' s'' : BlockCacheManager BlockFile,
  run_cache (pack_image demo_host [[97; 46; 114; 115]; [115; 104; 46; 114; 115]]) s = Ok (format_fs (16 * 2048) 1, s') /\
  run_cache (load_app 4 [115; 104]) (crash s') = Ok (Some (replicate 700 7), s'').
Proof.
  destruct (zero_image_rel (Z.to_nat (16 * 2048))) as (Hrel & Hok & Hdom). rewrite Z2Nat.id in Hdom by lia.
  destruct (proj2 (packed_apps_load (mkManager (zero_image (Z.to_nat (16 * 2048))) []) _ demo_host
    [[97; 46; 114; 115]; [115; 104; 46; 114; 115]] demo_apps 4 Hrel Hok Hdom eq_refl
    ltac:(repeat constructor) demo_apps_fit
    ltac:(intros f Hf; unfold demo_apps in Hf; rewrite !elem_of_cons in Hf; destruct Hf as [-> | [-> | Hf]];
          [vm_compute; discriminate|vm_compute; discriminate|by apply elem_of_nil in Hf]))) as (s' & E & Hload & _).
  destruct (Hload [115; 104] (replicate 700 7)) as [s'' E''].
  { apply list_elem_of_further, list_elem_of_here. }
  exists (mkManager (zero_image (Z.to_nat (16 * 2048))) []), s', s''. split; [exact E|exact E''].
Defined.
