(* ===== verification/Shell.v ===== *)
(** The shell (user/src/bin/user_shell.rs): how it reads a line, takes it apart into
    commands with their redirections, and connects the commands of a pipeline through
    descriptors. *)
From S2P Require Import Prelude State UserAccess OsFile.

From Stdlib Require Import ZifyNat.
#[local] Ltac Zify.zify_post_hook ::= Z.to_euclidean_division_equations.

(** ** Reading a line *)

Definition LF : Z := 0x0a.
Definition CR : Z := 0x0d.
Definition DL : Z := 0x7f.
Definition BS : Z := 0x08.

(** What a key does: it ends the line, which is then run and cleared, or edits it. *)
Inductive event := RunLine (line : list Z) | Edit (line : list Z).
Definition on_key (line : list Z) (c : Z) : event :=
  if (c =? LF) || (c =? CR) then RunLine line
  else if (c =? BS) || (c =? DL) then Edit (take (length line - 1) line)
  else Edit (line ++ [c]).

(** ** Taking it apart *)

(** [str::split] at a character. *)
Fixpoint split (sep : Z) (s : list Z) : list (list Z) :=
  match s with
  | [] => [[]]
  | c :: s =>
      if c =? sep then [] :: split sep s else
      match split sep s with w :: ws => (c :: w) :: ws | [] => [[c]] end
  end.

(** [args_addr] is the addresses of [args_copy] and a null pointer. *)
Record ProcessArguments := mkArgs { input : list Z; output : list Z; args_copy : list (list Z) }.

(** The operand of the first redirection with [sym], and the arguments without it. *)
Definition redirection (sym : Z) (args_copy : list (list Z)) : res (list Z * list (list Z)) :=
  match find_index (fun arg => bool_decide (arg = [sym; 0])) args_copy with
  | Some (idx, _) =>
      file ← unwrap (args_copy !! S idx);
      Ok (file, take idx args_copy ++ drop (S (S idx)) args_copy)
  | None => Ok ([], args_copy)
  end.
Definition ProcessArguments_new (command : list Z) : res ProcessArguments :=
  let args_copy := (fun arg => arg ++ [0]) <$> filter (fun arg => arg <> []) (split 32 command) in
  '(input, args_copy) ← redirection 60 args_copy;
  '(output, args_copy) ← redirection 62 args_copy;
  Ok (mkArgs input output args_copy).
Fixpoint parse_commands (splited : list (list Z)) : res (list ProcessArguments) :=
  match splited with
  | [] => Ok []
  | cmd :: splited => pa ← ProcessArguments_new cmd; pas ← parse_commands splited; Ok (pa :: pas)
  end.
Definition parse_line (line : list Z) : res (list ProcessArguments) := parse_commands (split 124 line).

Definition is_empty {A} (l : list A) : bool := match l with [] => true | _ => false end.

(** Only the first command may redirect its input and only the last its output. *)
Definition valid_at (n i : nat) (pa : ProcessArguments) : bool :=
  if (i =? 0)%nat then is_empty (output pa)
  else if (i =? n - 1)%nat then is_empty (input pa)
  else is_empty (output pa) && is_empty (input pa).
Fixpoint valid_from (n i : nat) (pas : list ProcessArguments) : bool :=
  match pas with [] => true | pa :: pas => valid_at n i pa && valid_from n (S i) pas end.
Definition valid (pas : list ProcessArguments) : bool :=
  if (length pas =? 1)%nat then true else valid_from (length pas) 0 pas.

(** ** Connecting the commands *)

Section plumbing.
Context {F : Type}.
Abbreviation table := (list (option F)).
(** The ends of the [k]-th pipe, and what [open] of a name gives. *)
Context (pipe_read pipe_write : nat -> F) (open_input open_output : list Z -> option F).

Definition pipe (t : table) (k : nat) : (Z * Z) * table :=
  let '(read_fd, t) := alloc_fd t (Some (pipe_read k)) in
  let '(write_fd, t) := alloc_fd t (Some (pipe_write k)) in
  ((read_fd, write_fd), t).
Fixpoint create_pipes (n k : nat) (t : table) : list (Z * Z) * table :=
  match n with
  | O => ([], t)
  | S n =>
      let '(pipe_fd, t) := pipe t k in
      let '(pipes_fd, t) := create_pipes n (S k) t in
      (pipe_fd :: pipes_fd, t)
  end.
Fixpoint close_pipes (pipes_fd : list (Z * Z)) (t : table) : table :=
  match pipes_fd with
  | [] => t
  | pipe_fd :: pipes_fd => close_pipes pipes_fd (sys_close (sys_close t pipe_fd.1).2 pipe_fd.2).2
  end.

(** [close(fd); assert_eq!(dup(from), fd)]. *)
Definition move_fd (t : table) (fd from : Z) : res table :=
  let t := (sys_close t fd).2 in
  let '(r, t) := sys_dup t from in
  _ ← rassert (r =? fd);
  Ok t.
(** A redirection of [fd] to the file [f] that [open] returned. *)
Definition redirect (t : table) (fd : Z) (f : F) : res table :=
  let '(file_fd, t) := alloc_fd t (Some f) in
  t ← move_fd t fd file_fd;
  Ok (sys_close t file_fd).2.

(** What a child does: it starts its program, or returns -4. *)
Inductive child_end := Exec (path : list Z) (args : list (list Z)) (t : table) | Failed.

Definition redirect_to (name : list Z) (open : list Z -> option F) (fd : Z) (t : table) : res (option table) :=
  if is_empty name then Ok (Some t) else
  match open name with
  | None => Ok None
  | Some f => t ← redirect t fd f; Ok (Some t)
  end.
Definition connect (n i : nat) (pipes_fd : list (Z * Z)) (t : table) : res table :=
  t ← (if (0 <? i)%nat then p ← unwrap (pipes_fd !! (i - 1)%nat); move_fd t 0 p.1 else Ok t);
  if (i <? n - 1)%nat then p ← unwrap (pipes_fd !! i); move_fd t 1 p.2 else Ok t.
Definition child (n i : nat) (pa : ProcessArguments) (pipes_fd : list (Z * Z)) (t : table) : res child_end :=
  o ← redirect_to (input pa) open_input 0 t;
  match o with
  | None => Ok Failed
  | Some t =>
      o ← redirect_to (output pa) open_output 1 t;
      match o with
      | None => Ok Failed
      | Some t =>
          t ← connect n i pipes_fd t;
          let t := close_pipes pipes_fd t in
          path ← unwrap (head (args_copy pa));
          Ok (Exec path (args_copy pa) t)
      end
  end.

(** A pipeline: what each child does with its copy of the table, and the table of
    the shell afterwards. *)
Definition run_pipeline (pas : list ProcessArguments) (t : table) : list (res child_end) * table :=
  let n := length pas in
  let '(pipes_fd, t) := create_pipes (n - 1) 0 t in
  (imap (fun i pa => child n i pa pipes_fd t) pas, close_pipes pipes_fd t).
(** [None]: the line is not run. *)
Definition run_line (line : list Z) (t : table) : res (option (list (res child_end)) * table) :=
  if is_empty line then Ok (None, t) else
  pas ← parse_line line;
  if valid pas then let '(children, t) := run_pipeline pas t in Ok (Some children, t) else Ok (None, t).
End plumbing.

(** ** Descriptors as a map *)

Section views.
Context {F : Type}.
Implicit Types (t : list (option F)).

(** The file behind a descriptor. *)
Definition at_fd t (k : Z) : option F := if 0 <=? k then mjoin (t !! Z.to_nat k) else None.

(** Every descriptor below [k] is in use. *)
Definition full_below t (k : Z) : Prop := forall j, 0 <= j < k -> is_Some (at_fd t j).

Lemma at_fd_nat t k : at_fd t (Z.of_nat k) = mjoin (t !! k).
Proof. unfold at_fd. rewrite (proj2 (Z.leb_le _ _)) by lia. by rewrite Nat2Z.id. Qed.

Lemma at_fd_Some t k f : at_fd t k = Some f <-> 0 <= k /\ t !! Z.to_nat k = Some (Some f).
Proof.
  unfold at_fd. destruct (Z.leb_spec 0 k); [|split; [done|lia]]. destruct (t !! Z.to_nat k) as [[g|]|]; simpl; naive_solver.
Qed.

Lemma alloc_fd_at t f : let '(fd, t') := alloc_fd t (Some f) in
  0 <= fd /\ full_below t fd /\ at_fd t fd = None /\ at_fd t' fd = Some f /\ forall k, k <> fd -> at_fd t' k = at_fd t k.
Proof.
  unfold alloc_fd. destruct (find_index _ t) as [[k x]|] eqn:E; cbn [fst snd].
  - apply find_index_Some in E as (Hk & Hx & Hmin). destruct x; [done|]. apply lookup_lt_Some in Hk as Hlt.
    split_and!; [lia| | | |].
    + intros j Hj. replace j with (Z.of_nat (Z.to_nat j)) by lia. rewrite at_fd_nat.
      destruct (lookup_lt_is_Some_2 t (Z.to_nat j)) as [[g|] Hg]; [lia|rewrite Hg; by exists g|]. by apply Hmin in Hg; [|lia].
    + by rewrite at_fd_nat, Hk.
    + by rewrite at_fd_nat, list_lookup_insert_eq.
    + intros j Hj. unfold at_fd. destruct (Z.leb_spec 0 j); [|done]. rewrite list_lookup_insert_ne by lia. done.
  - apply find_index_None in E. rewrite Forall_forall in E. split_and!; [lia| | | |].
    + intros j Hj. replace j with (Z.of_nat (Z.to_nat j)) by lia. rewrite at_fd_nat.
      destruct (lookup_lt_is_Some_2 t (Z.to_nat j)) as [[g|] Hg]; [lia|rewrite Hg; by exists g|].
      apply list_elem_of_lookup_2, E in Hg. done.
    + by rewrite at_fd_nat, lookup_ge_None_2 by lia.
    + by rewrite at_fd_nat, lookup_app_r, Nat.sub_diag by lia.
    + intros j Hj. unfold at_fd. destruct (Z.leb_spec 0 j); [|done]. destruct (decide (j < Zlength t)).
      * by rewrite lookup_app_l by lia.
      * rewrite !lookup_ge_None_2; rewrite ?length_app; simpl; lia || done.
Qed.

(** The lowest free descriptor is the one below which all are used. *)
Lemma alloc_fd_lowest t f k : 0 <= k -> full_below t k -> at_fd t k = None -> (alloc_fd t (Some f)).1 = k.
Proof.
  intros H0 Hf Hn. pose proof (alloc_fd_at t f) as Ha. destruct (alloc_fd t (Some f)) as [fd t'].
  destruct Ha as (Hfd & Hfull & Hnone & _). cbn [fst]. destruct (Z.lt_trichotomy fd k) as [Hlt|[?|Hgt]]; [|done|].
  - destruct (Hf fd ltac:(lia)). congruence.
  - destruct (Hfull k ltac:(lia)). congruence.
Qed.

Lemma close_at t fd k : 0 <= fd -> at_fd (sys_close t fd).2 k = if decide (k = fd) then None else at_fd t k.
Proof.
  intros Hfd. unfold sys_close, at_fd. destruct (Z.leb_spec 0 k) as [Hk|]; [|by case_decide].
  destruct (Z.leb_spec (Zlength t) fd) as [Hge|Hlt]; cbn [snd].
  { case_decide as E; [subst; by rewrite lookup_ge_None_2 by lia|done]. }
  destruct (t !! Z.to_nat fd) as [[f|]|] eqn:Ef; cbn [snd]; case_decide as E; subst; try done.
  - by rewrite list_lookup_insert_eq by lia.
  - by rewrite list_lookup_insert_ne by lia.
  - by rewrite Ef.
  - by rewrite Ef.
Qed.

Lemma dup_alloc t fd f : at_fd t fd = Some f -> sys_dup t fd = alloc_fd t (Some f).
Proof.
  intros [Hfd Hf]%at_fd_Some. unfold sys_dup. apply lookup_lt_Some in Hf as Hlt.
  rewrite (proj2 (Z.leb_gt _ _)) by lia. by rewrite Hf.
Qed.

(** Moving descriptor [from] to [fd] when everything below [fd] is in use. *)
Lemma move_fd_at t fd from f : 0 <= fd -> full_below t fd -> from <> fd -> at_fd t from = Some f ->
  exists t', move_fd t fd from = Ok t' /\ forall k, at_fd t' k = if decide (k = fd) then Some f else at_fd t k.
Proof.
  intros Hfd Hfull Hne Hf. unfold move_fd. pose proof (close_at t fd) as Hc. set (t1 := (sys_close t fd).2) in *.
  rewrite (dup_alloc t1 from f) by (rewrite Hc by done; by rewrite decide_False).
  assert ((alloc_fd t1 (Some f)).1 = fd) as Hlow.
  { apply alloc_fd_lowest; [done| |rewrite Hc by done; by rewrite decide_True].
    intros j Hj. rewrite Hc, decide_False by lia. by apply Hfull. }
  pose proof (alloc_fd_at t1 f) as Ha. destruct (alloc_fd t1 (Some f)) as [r t2]. cbn [fst] in Hlow. subst r.
  rewrite Z.eqb_refl. exists t2. split; [done|]. intros k. destruct Ha as (_ & _ & _ & Hat & Hoth).
  case_decide as E; [by rewrite E|]. rewrite Hoth, Hc, decide_False by done. done.
Qed.

Lemma redirect_at t fd f : 0 <= fd -> full_below t (fd + 1) ->
  exists t', redirect t fd f = Ok t' /\ forall k, at_fd t' k = if decide (k = fd) then Some f else at_fd t k.
Proof.
  intros Hfd Hfull. unfold redirect. pose proof (alloc_fd_at t f) as Ha. destruct (alloc_fd t (Some f)) as [p t1].
  destruct Ha as (Hp & _ & Hnone & Hat & Hoth). assert (fd < p) as Hlt.
  { destruct (decide (fd < p)); [done|]. destruct (Hfull p ltac:(lia)). congruence. }
  destruct (move_fd_at t1 fd p f) as (t2 & -> & H2); [done| |lia|done|].
  { intros j Hj. rewrite Hoth by lia. apply Hfull. lia. }
  eexists. split; [done|]. intros k. rewrite close_at, H2 by done.
  repeat case_decide; subst; try lia; try congruence. by apply Hoth.
Qed.

Lemma close_pipes_at pipes : forall t k, Forall (fun p => 0 <= p.1 /\ 0 <= p.2) pipes ->
  at_fd (close_pipes pipes t) k = if decide (Exists (fun p => k = p.1 \/ k = p.2) pipes) then None else at_fd t k.
Proof.
  induction pipes as [|p pipes IH]; intros t k Hp; cbn [close_pipes].
  - rewrite decide_False; [done|]. intros He. inversion He.
  - apply Forall_cons in Hp as [[H1 H2] Hp]. rewrite IH, !close_at by done.
    destruct (decide (Exists _ (p :: pipes))) as [He|He]; rewrite Exists_cons in He; repeat case_decide; try done; tauto.
Qed.
End views.

(** ** Pipelines *)

Section pipeline.
Context {F : Type} (pipe_read pipe_write : nat -> F) (open_input open_output : list Z -> option F).
(** Standard input, output and error of the shell. *)
Context (std : Z -> F).
Implicit Types (t : list (option F)).

(** The descriptors of the shell while [m] pipes are open. *)
Record piped (m : nat) t : Prop := {
  pi_std k : 0 <= k < 3 -> at_fd t k = Some (std k);
  pi_ends j : (j < m)%nat -> at_fd t (3 + 2 * Z.of_nat j) = Some (pipe_read j) /\
    at_fd t (4 + 2 * Z.of_nat j) = Some (pipe_write j);
  pi_rest k : 3 + 2 * Z.of_nat m <= k -> at_fd t k = None;
}.

Lemma piped_full m t : piped m t -> full_below t (3 + 2 * Z.of_nat m).
Proof.
  intros P k Hk. destruct (decide (k < 3)); [rewrite (pi_std m t P); [by eexists|lia]|].
  destruct (pi_ends m t P (Z.to_nat ((k - 3) / 2))) as [H1 H2]; [lia|].
  rewrite Z2Nat.id in * by lia.
  destruct (decide ((k - 3) `mod` 2 = 0)).
  - replace k with (3 + 2 * ((k - 3) / 2)) by lia. rewrite H1. by eexists.
  - replace k with (4 + 2 * ((k - 3) / 2)) by lia. rewrite H2. by eexists.
Qed.

Lemma pipe_at m t : piped m t ->
  let '(fds, t') := pipe pipe_read pipe_write t m in fds = (3 + 2 * Z.of_nat m, 4 + 2 * Z.of_nat m) /\ piped (S m) t'.
Proof.
  intros P. unfold pipe. pose proof (piped_full m t P) as Hfull.
  pose proof (alloc_fd_at t (pipe_read m)) as H1.
  pose proof (alloc_fd_lowest t (pipe_read m) (3 + 2 * Z.of_nat m) ltac:(lia) Hfull (pi_rest m t P (3 + 2 * Z.of_nat m) ltac:(lia))) as E1.
  destruct (alloc_fd t (Some (pipe_read m))) as [r t1]. cbn [fst] in E1. subst r. destruct H1 as (_ & _ & _ & Hr & Ho1).
  pose proof (alloc_fd_at t1 (pipe_write m)) as H2.
  assert ((alloc_fd t1 (Some (pipe_write m))).1 = 4 + 2 * Z.of_nat m) as E2.
  { apply alloc_fd_lowest; [lia| |rewrite Ho1 by lia; apply P; lia]. intros k Hk.
    destruct (decide (k = 3 + 2 * Z.of_nat m)) as [->|]; [rewrite Hr; by eexists|]. rewrite Ho1 by done. apply Hfull. lia. }
  destruct (alloc_fd t1 (Some (pipe_write m))) as [w t2]. cbn [fst] in E2. subst w. destruct H2 as (_ & _ & _ & Hw & Ho2).
  split; [done|]. split.
  - intros k Hk. rewrite Ho2, Ho1 by lia. by apply P.
  - intros j Hj. destruct (decide (j = m)) as [->|].
    + rewrite Ho2 by lia. done.
    + rewrite !Ho2, !Ho1 by lia. apply P. lia.
  - intros k Hk. rewrite Ho2, Ho1 by lia. apply P. lia.
Qed.

Definition pipe_fds (k : nat) : Z * Z := (3 + 2 * Z.of_nat k, 4 + 2 * Z.of_nat k).

Lemma create_pipes_at n : forall m t, piped m t ->
  let '(fds, t') := create_pipes pipe_read pipe_write n m t in fds = pipe_fds <$> seq m n /\ piped (m + n) t'.
Proof.
  induction n as [|n IH]; intros m t P; cbn [create_pipes seq].
  - rewrite Nat.add_0_r. done.
  - pose proof (pipe_at m t P) as Hp. destruct (pipe pipe_read pipe_write t m) as [fd t1]. destruct Hp as [-> P1].
    specialize (IH (S m) t1 P1). destruct (create_pipes pipe_read pipe_write n (S m) t1) as [fds t2]. destruct IH as [-> P2].
    split; [done|]. by replace (m + S n)%nat with (S m + n)%nat by lia.
Qed.

(** After closing the pipes, the descriptors from 3 on are free. *)
Lemma close_pipes_std n t k : (forall j, 3 + 2 * Z.of_nat n <= j -> at_fd t j = None) ->
  at_fd (close_pipes (pipe_fds <$> seq 0 n) t) k = if decide (k < 3) then at_fd t k else None.
Proof.
  intros Hr. rewrite close_pipes_at.
  2: { apply Forall_fmap, Forall_forall. intros j _. unfold pipe_fds. simpl. lia. }
  destruct (decide (Exists _ _)) as [He|He].
  - apply Exists_fmap, Exists_exists in He as (j & _ & Hj). unfold pipe_fds in Hj. simpl in Hj. rewrite decide_False by lia. done.
  - case_decide; [done|]. destruct (decide (3 + 2 * Z.of_nat n <= k)); [by apply Hr|]. destruct He.
    apply Exists_fmap, Exists_exists. exists (Z.to_nat ((k - 3) / 2)). unfold pipe_fds. simpl.
    rewrite elem_of_seq, Z2Nat.id by lia. split; [lia|]. lia.
Qed.

(** The descriptors the [i]-th of [n] commands is started with. *)
Definition child_fd (n i : nat) (pa : ProcessArguments) (k : Z) : option F :=
  if k =? 0 then
    if (0 <? i)%nat then Some (pipe_read (i - 1)) else if is_empty (input pa) then Some (std 0) else open_input (input pa)
  else if k =? 1 then
    if (i <? n - 1)%nat then Some (pipe_write i) else if is_empty (output pa) then Some (std 1) else open_output (output pa)
  else if k =? 2 then Some (std 2) else None.

(** The files the command names can be opened, and it has a program. *)
Definition runnable (pa : ProcessArguments) : Prop :=
  (input pa <> [] -> is_Some (open_input (input pa))) /\ (output pa <> [] -> is_Some (open_output (output pa))) /\
  args_copy pa <> [].

Lemma redirect_to_at name open fd t : 0 <= fd -> full_below t (fd + 1) -> (name <> [] -> is_Some (open name)) ->
  exists t', redirect_to name open fd t = Ok (Some t') /\
    forall k, at_fd t' k = if decide (k = fd) then if is_empty name then at_fd t fd else open name else at_fd t k.
Proof.
  intros Hfd Hfull Hopen. unfold redirect_to. destruct name as [|c name].
  - exists t. split; [done|]. intros k. case_decide; by subst.
  - cbn [is_empty]. destruct (Hopen ltac:(done)) as [f ->]. destruct (redirect_at t fd f Hfd Hfull) as (t' & -> & Ht'). by exists t'.
Qed.

Lemma connect_at n i t t0 : piped (n - 1) t0 -> (i < n)%nat -> (forall k, 2 <= k -> at_fd t k = at_fd t0 k) ->
  is_Some (at_fd t 0) -> exists t', connect n i (pipe_fds <$> seq 0 (n - 1)) t = Ok t' /\
    forall k, at_fd t' k = if k =? 0 then if (0 <? i)%nat then Some (pipe_read (i - 1)) else at_fd t 0
      else if k =? 1 then if (i <? n - 1)%nat then Some (pipe_write i) else at_fd t 1 else at_fd t k.
Proof.
  intros P Hi Hk H0. unfold connect.
  assert (exists t1, (if (0 <? i)%nat then p ← unwrap ((pipe_fds <$> seq 0 (n - 1)) !! (i - 1)%nat); move_fd t 0 p.1 else Ok t) = Ok t1 /\
    forall k, at_fd t1 k = if k =? 0 then if (0 <? i)%nat then Some (pipe_read (i - 1)) else at_fd t 0 else at_fd t k) as (t1 & -> & H1).
  { destruct (Nat.ltb_spec 0 i) as [Hlt|].
    - rewrite list_lookup_fmap, lookup_seq_lt by lia. cbn [unwrap fmap option_fmap option_map mbind res_bind]. rewrite Nat.add_0_l.
      destruct (pi_ends _ _ P (i - 1)%nat ltac:(lia)) as [Hr _].
      destruct (move_fd_at t 0 (pipe_fds (i - 1)).1 (pipe_read (i - 1))) as (t1 & -> & H1); [done|intros j Hj; lia|cbn; lia|cbn; rewrite Hk by lia; done|].
      exists t1. split; [done|]. intros k. rewrite H1. destruct (Z.eqb_spec k 0), (decide (k = 0)); done.
    - exists t. split; [done|]. intros k. by destruct (Z.eqb_spec k 0) as [->|]. }
  cbn [mbind res_bind]. destruct (Nat.ltb_spec i (n - 1)) as [Hlt|].
  - rewrite list_lookup_fmap, lookup_seq_lt by lia. cbn [unwrap fmap option_fmap option_map mbind res_bind]. rewrite Nat.add_0_l.
    destruct (pi_ends _ _ P i ltac:(lia)) as [_ Hw].
    destruct (move_fd_at t1 1 (pipe_fds i).2 (pipe_write i)) as (t2 & -> & H2); [done| |cbn; lia|cbn|].
    + intros j Hj. replace j with 0 by lia. rewrite H1. cbn [Z.eqb]. destruct (0 <? i)%nat; [by eexists|done].
    + rewrite H1, (proj2 (Z.eqb_neq _ _)), Hk by lia. done.
    + exists t2. split; [done|]. intros k. rewrite H2, H1. destruct (Z.eqb_spec k 0), (Z.eqb_spec k 1), (decide (k = 1)); done || lia.
  - exists t1. split; [done|]. intros k. rewrite H1. destruct (Z.eqb_spec k 0), (Z.eqb_spec k 1) as [->|]; done.
Qed.

Lemma child_at n i pa t : piped (n - 1) t -> (i < n)%nat -> runnable pa ->
  exists path t', child open_input open_output n i pa (pipe_fds <$> seq 0 (n - 1)) t = Ok (Exec path (args_copy pa) t') /\
    head (args_copy pa) = Some path /\ forall k, at_fd t' k = child_fd n i pa k.
Proof.
  intros P Hi (Hin & Hout & Hargs). unfold child. pose proof (piped_full _ _ P) as Hfull.
  destruct (redirect_to_at (input pa) open_input 0 t) as (t1 & -> & H1); [done|intros j Hj; apply Hfull; lia|done|].
  cbn [mbind res_bind]. destruct (redirect_to_at (output pa) open_output 1 t1) as (t2 & -> & H2); [done| |done|].
  { intros j Hj. rewrite H1. case_decide; [|apply Hfull; lia].
    destruct (input pa); cbn [is_empty]; [apply Hfull; lia|by apply Hin]. }
  cbn [mbind res_bind]. destruct (connect_at n i t2 t P Hi) as (t3 & -> & H3).
  - intros k Hk. by rewrite H2, decide_False, H1, decide_False by lia.
  - rewrite H2, decide_False, H1, decide_True by done. destruct (input pa); cbn [is_empty]; [apply Hfull; lia|by apply Hin].
  - cbn [mbind res_bind]. destruct (args_copy pa) as [|path args]; [done|]. eexists path, _. split_and!; [done|done|].
    intros k. rewrite close_pipes_std.
    + unfold child_fd. rewrite H3. destruct (Z.eqb_spec k 0) as [->|]; [|destruct (Z.eqb_spec k 1) as [->|]].
      * rewrite (decide_True (P := 0 < 3)), (H2 0), (decide_False (P := 0 = 1)), (H1 0), decide_True, (pi_std _ _ P) by lia. done.
      * rewrite (decide_True (P := 1 < 3)), (H2 1), (decide_True (P := 1 = 1)), (H1 1), decide_False, (pi_std _ _ P) by lia. done.
      * rewrite H2, (decide_False (P := k = 1)), H1, (decide_False (P := k = 0)) by lia. destruct (Z.eqb_spec k 2) as [->|]; [by rewrite (pi_std _ _ P)|].
        case_decide; [|done]. unfold at_fd. by rewrite (proj2 (Z.leb_gt _ _)) by lia.
    + intros j Hj. rewrite H3, !(proj2 (Z.eqb_neq _ _)), H2, decide_False, H1, decide_False by lia. apply P. lia.
Qed.

Lemma run_pipeline_at pas t : piped 0 t -> Forall runnable pas ->
  let '(children, t') := run_pipeline pipe_read pipe_write open_input open_output pas t in
  length children = length pas /\
  (forall i pa, pas !! i = Some pa -> exists path tc, children !! i = Some (Ok (Exec path (args_copy pa) tc)) /\
    head (args_copy pa) = Some path /\ forall k, at_fd tc k = child_fd (length pas) i pa k) /\
  piped 0 t'.
Proof.
  intros P Hr. unfold run_pipeline. pose proof (create_pipes_at (length pas - 1) 0 t P) as Hc.
  destruct (create_pipes _ _ (length pas - 1) 0 t) as [fds t1]. destruct Hc as [-> P1]. cbn [Nat.add] in P1.
  split_and!; [apply length_imap| |].
  - intros i pa Hi. rewrite list_lookup_imap, Hi. cbn [fmap option_fmap option_map].
    destruct (child_at (length pas) i pa t1) as (path & tc & -> & Hh & Hfd); [done|by eapply lookup_lt_Some|by eapply Forall_lookup_1|]. eauto.
  - assert (forall k, at_fd (close_pipes (pipe_fds <$> seq 0 (length pas - 1)) t1) k = if decide (k < 3) then at_fd t1 k else None) as Hcl.
    { intros k. apply close_pipes_std. apply P1. }
    split; [|lia|]; intros k Hk; rewrite Hcl; [rewrite decide_True by lia; by apply P1|by rewrite decide_False by lia].
Qed.
End pipeline.

(** ** Lines as they are typed *)

Definition word_ok (w : list Z) : Prop := w <> [] /\ 32 ∉ w /\ 124 ∉ w /\ w <> [60] /\ w <> [62].

(** The words [ws] spelled with blanks between, before and after them. *)
Inductive spelled : list (list Z) -> list Z -> Prop :=
| spelled_nil n : spelled [] (replicate n 32)
| spelled_last n w : spelled [w] (replicate n 32 ++ w)
| spelled_cons n w ws s : spelled ws s -> spelled (w :: ws) (replicate n 32 ++ w ++ 32 :: s).

(** A command: its words and its redirections, and the words it is typed with. *)
Record command := mkCmd { words : list (list Z); inp : option (list Z); outp : option (list Z) }.
Definition command_words (c : command) : list (list Z) :=
  words c ++ match inp c with Some f => [[60]; f] | None => [] end ++ match outp c with Some f => [[62]; f] | None => [] end.
Definition command_ok (c : command) : Prop :=
  words c <> [] /\ Forall word_ok (words c) /\ (forall f, inp c = Some f -> word_ok f) /\ (forall f, outp c = Some f -> word_ok f).

(** What the shell makes of it: every string ends with a zero for the kernel. *)
Definition c_string (w : list Z) : list Z := w ++ [0].
Definition command_args (c : command) : ProcessArguments :=
  mkArgs (from_option c_string [] (inp c)) (from_option c_string [] (outp c)) (c_string <$> words c).

Fixpoint join (sep : Z) (ss : list (list Z)) : list Z :=
  match ss with [] => [] | [s] => s | s :: ss => s ++ sep :: join sep ss end.

Lemma split_sep sep l s : sep ∉ l -> split sep (l ++ sep :: s) = l :: split sep s.
Proof.
  induction l as [|c l IH]; intros Hl; cbn [app split]; [by rewrite Z.eqb_refl|].
  apply not_elem_of_cons in Hl as [Hc Hl]. rewrite (proj2 (Z.eqb_neq _ _)) by done. by rewrite IH.
Qed.

Lemma split_one sep l : sep ∉ l -> split sep l = [l].
Proof.
  induction l as [|c l IH]; intros Hl; cbn [split]; [done|].
  apply not_elem_of_cons in Hl as [Hc Hl]. rewrite (proj2 (Z.eqb_neq _ _)) by done. by rewrite IH.
Qed.

Lemma split_join sep ss : ss <> [] -> Forall (fun s => sep ∉ s) ss -> split sep (join sep ss) = ss.
Proof.
  intros Hne H. induction H as [|s ss Hs Hss IH]; [done|]. destruct ss as [|s' ss]; [by apply split_one|].
  change (join sep (s :: s' :: ss)) with (s ++ sep :: join sep (s' :: ss)). by rewrite split_sep, IH.
Qed.

Lemma tokens_blanks n s : filter (fun arg => arg <> []) (split 32 (replicate n 32 ++ s)) = filter (fun arg => arg <> []) (split 32 s).
Proof.
  induction n as [|n IH]; [done|]. cbn [replicate app split]. rewrite Z.eqb_refl. rewrite filter_cons_False by (intros []; done). done.
Qed.

Lemma spelled_tokens ws s : spelled ws s -> Forall (fun w => w <> [] /\ 32 ∉ w) ws -> filter (fun arg => arg <> []) (split 32 s) = ws.
Proof.
  induction 1 as [n|n w|n w ws s H IH]; intros Hw.
  - rewrite <- (app_nil_r (replicate n 32)), tokens_blanks. done.
  - apply Forall_cons in Hw as [[H0 H1] _]. rewrite tokens_blanks, split_one by done. by rewrite filter_cons_True.
  - apply Forall_cons in Hw as [[H0 H1] Hw]. rewrite tokens_blanks, split_sep by done. rewrite filter_cons_True by done. by rewrite IH.
Qed.

Lemma spelled_no_bar ws s : spelled ws s -> Forall (fun w => 124 ∉ w) ws -> 124 ∉ s.
Proof.
  assert (forall n, 124 ∉ replicate n 32) as Hr by (intros n [? _]%elem_of_replicate; done).
  induction 1 as [n|n w|n w ws s H IH]; intros Hw; [done|apply Forall_cons in Hw as [Hw _]|apply Forall_cons in Hw as [Hw Hws]];
    rewrite !not_elem_of_app, ?not_elem_of_cons; naive_solver.
Qed.

Lemma c_string_sym w sym : c_string w = [sym; 0] -> w = [sym].
Proof. unfold c_string. destruct w as [|c [|c' w]]; simpl; intros [=]; [by subst|]. by destruct w. Qed.

(** The first redirection with [sym], after words other than it. *)
Lemma redirection_found sym pre f post : [sym] ∉ pre ->
  redirection sym (c_string <$> pre ++ [sym] :: f :: post) = Ok (c_string f, c_string <$> pre ++ post).
Proof.
  intros Hp. unfold redirection. rewrite !fmap_app, !fmap_cons. rewrite find_index_middle.
  - rewrite length_fmap. rewrite lookup_app_r, length_fmap by (rewrite length_fmap; lia).
    replace (S (length pre) - length pre)%nat with 1%nat by lia. cbn [lookup list_lookup unwrap mbind res_bind].
    rewrite take_app_length' by (by rewrite length_fmap). rewrite drop_app_ge by (rewrite length_fmap; lia). rewrite length_fmap.
    by replace (S (S (length pre)) - length pre)%nat with 2%nat by lia.
  - apply Forall_fmap, Forall_forall. intros w Hw. simpl. apply bool_decide_eq_false. intros ->%c_string_sym. done.
  - by apply bool_decide_eq_true.
Qed.

Lemma redirection_none sym ws : [sym] ∉ ws -> redirection sym (c_string <$> ws) = Ok ([], c_string <$> ws).
Proof.
  intros Hp. unfold redirection. replace (find_index _ (c_string <$> ws)) with (@None (nat * list Z)); [done|]. symmetry.
  apply find_index_None, Forall_fmap, Forall_forall. intros w Hw. simpl. apply bool_decide_eq_false. by intros ->%c_string_sym.
Qed.

Lemma words_no_sym ws : Forall word_ok ws -> [60] ∉ ws /\ [62] ∉ ws.
Proof. rewrite Forall_forall. intros H. split; intros Hin%H; by destruct Hin as (_ & _ & _ & ? & ?). Qed.

Lemma parse_command c s : command_ok c -> spelled (command_words c) s -> ProcessArguments_new s = Ok (command_args c).
Proof.
  intros (Hne & Hw & Hi & Ho) Hs. destruct (words_no_sym _ Hw) as [H60 H62]. unfold ProcessArguments_new.
  assert (Forall (fun w => w <> [] /\ 32 ∉ w) (command_words c)) as Hcw.
  { unfold command_words. repeat (apply Forall_app; split).
    - eapply Forall_impl; [exact Hw|]. by intros w (? & ? & _).
    - destruct (inp c) as [f|]; [|constructor]. destruct (Hi f eq_refl) as (? & ? & _). repeat constructor; set_solver.
    - destruct (outp c) as [f|]; [|constructor]. destruct (Ho f eq_refl) as (? & ? & _). repeat constructor; set_solver. }
  rewrite (spelled_tokens _ _ Hs Hcw). fold c_string. change (fun arg => arg ++ [0]) with c_string. unfold command_words, command_args.
  assert (redirection 60 (c_string <$> words c ++ match inp c with Some f => [[60]; f] | None => [] end ++
    match outp c with Some f => [[62]; f] | None => [] end) = Ok (from_option c_string [] (inp c),
    c_string <$> words c ++ match outp c with Some f => [[62]; f] | None => [] end)) as ->.
  { destruct (inp c) as [f|]; cbn [app from_option]; [by apply redirection_found|]. apply redirection_none.
    rewrite not_elem_of_app. split; [done|]. destruct (outp c) as [g|]; [|apply not_elem_of_nil].
    destruct (Ho g eq_refl) as (_ & _ & _ & Hg & _). rewrite !not_elem_of_cons. split_and!; [done|by intros <-|apply not_elem_of_nil]. }
  cbn [mbind res_bind]. destruct (outp c) as [g|]; cbn [from_option].
  - rewrite (redirection_found 62 (words c) g []) by done. cbn [mbind res_bind]. by rewrite app_nil_r.
  - rewrite app_nil_r, redirection_none by done. done.
Qed.

Lemma command_no_bar c s : command_ok c -> spelled (command_words c) s -> 124 ∉ s.
Proof.
  intros (_ & Hw & Hi & Ho) Hs. eapply spelled_no_bar; [done|]. unfold command_words. repeat (apply Forall_app; split).
  - eapply Forall_impl; [exact Hw|]. by intros w (_ & _ & ? & _).
  - destruct (inp c) as [f|]; [|constructor]. destruct (Hi f eq_refl) as (_ & _ & ? & _). repeat constructor; set_solver.
  - destruct (outp c) as [f|]; [|constructor]. destruct (Ho f eq_refl) as (_ & _ & ? & _). repeat constructor; set_solver.
Qed.

Lemma parse_line_commands cmds ss : cmds <> [] -> Forall command_ok cmds -> Forall2 spelled (command_words <$> cmds) ss ->
  parse_line (join 124 ss) = Ok (command_args <$> cmds).
Proof.
  intros Hne Hok Hs. unfold parse_line. rewrite split_join.
  - clear Hne. revert ss Hs. induction Hok as [|c cmds Hc Hok IH]; intros ss Hs; inversion Hs as [|? s ? ss' Hsp Hs']; subst; [done|].
    cbn [parse_commands fmap list_fmap]. rewrite (parse_command c s) by done. cbn [mbind res_bind]. by rewrite (IH ss').
  - destruct cmds; [done|]. inversion Hs. done.
  - clear Hne. revert ss Hs. induction Hok as [|c cmds Hc Hok IH]; intros ss Hs; inversion Hs as [|? s ? ss' Hsp Hs']; subst; [constructor|].
    constructor; [by eapply command_no_bar|by apply IH].
Qed.

(** C24: A line that spells a pipeline of commands, with any blanks between words, runs it:
    each command is started with its own words, standard input from its file, the
    previous command or the shell, standard output to its file, the next command or the
    shell, and no other descriptor open than standard error; the shell is left with
    its own descriptors, so that no end of a pipe stays open behind the commands'
    backs.  A line in which a redirection collides with a pipe is not run. *)
Theorem shell_runs_line {F} (pipe_read pipe_write : nat -> F) (open_input open_output : list Z -> option F) (std : Z -> F) cmds ss t :
  cmds <> [] -> Forall command_ok cmds -> Forall2 spelled (command_words <$> cmds) ss -> piped pipe_read pipe_write std 0 t ->
  let pas := command_args <$> cmds in
  let run := run_line pipe_read pipe_write open_input open_output (join 124 ss) t in
  (valid pas = false -> run = Ok (None, t)) /\
  (valid pas = true -> Forall (runnable open_input open_output) pas -> exists children t', run = Ok (Some children, t') /\
    length children = length cmds /\ piped pipe_read pipe_write std 0 t' /\
    forall i c, cmds !! i = Some c -> exists path tc, children !! i = Some (Ok (Exec path (c_string <$> words c) tc)) /\
      head (c_string <$> words c) = Some path /\
      forall k, at_fd tc k = child_fd pipe_read pipe_write open_input open_output std (length cmds) i (command_args c) k).
Proof.
  intros Hne Hok Hs P pas run. pose proof (parse_line_commands cmds ss Hne Hok Hs) as Hp. fold pas in Hp.
  assert (is_empty (join 124 ss) = false) as He.
  { destruct (join 124 ss); [|done]. exfalso. destruct cmds as [|c cmds]; [done|]. apply Forall_cons in Hok as [[Hw _] _].
    change (parse_line []) with (Ok [mkArgs [] [] []]) in Hp. injection Hp as _ _ Hp _. by destruct (words c). }
  unfold run, run_line. rewrite He, Hp. cbn [mbind res_bind]. split; intros Hv; rewrite Hv; [done|]. intros Hr.
  pose proof (run_pipeline_at pipe_read pipe_write open_input open_output std pas t P Hr) as Hrun.
  destruct (run_pipeline _ _ _ _ pas t) as [children t']. destruct Hrun as (Hlen & Hch & P').
  exists children, t'. unfold pas in *. rewrite length_fmap in *. split_and!; [done|done|done|]. intros i c Hi.
  destruct (Hch i (command_args c)) as (path & tc & ? & ? & ?); [by rewrite list_lookup_fmap, Hi|]. eauto 10.
Qed.

(** A redirection without operand ([cat <]) stops the shell. *)
Example redirection_without_operand : parse_line [99; 97; 116; 32; 60] = Err Panic.
Proof. reflexivity. Qed.

(** "cat < f | wc" typed with an extra blank. *)
Definition demo_cmds : list command := [mkCmd [[99; 97; 116]] (Some [102]) None; mkCmd [[119; 99]] None None].
Definition demo_line : list Z := [99; 97; 116; 32; 32; 60; 32; 102; 32] ++ 124 :: [32; 119; 99].

Lemma shell_runs_line_witness :
  exists children t', run_line (fun k => 10 + Z.of_nat k) (fun k => 20 + Z.of_nat k) (fun _ => Some 30) (fun _ => None) demo_line
    [Some 0; Some 1; Some 2] = Ok (Some children, t') /\ exists path1 tc1 path2 tc2,
    children = [Ok (Exec path1 [[99; 97; 116; 0]] tc1); Ok (Exec path2 [[119; 99; 0]] tc2)] /\
    at_fd tc1 0 = Some 30 /\ at_fd tc1 1 = Some 20 /\ at_fd tc2 0 = Some 10 /\ at_fd tc2 1 = Some 1 /\ at_fd tc2 3 = None.
Proof.
  destruct (proj2 (shell_runs_line (fun k => 10 + Z.of_nat k) (fun k => 20 + Z.of_nat k) (fun _ => Some 30) (fun _ => None) (fun k => k)
    demo_cmds [[99; 97; 116; 32; 32; 60; 32; 102; 32]; [32; 119; 99]] [Some 0; Some 1; Some 2] ltac:(done)
    ltac:(repeat constructor; try done; try (simpl; intros f [= <-]; split_and!); set_solver)
    ltac:(constructor; [apply (spelled_cons 0 [99; 97; 116]), (spelled_cons 1 [60]), (spelled_cons 0 [102]), (spelled_nil 0)
      |constructor; [apply (spelled_last 1)|constructor]])
    ltac:(split; [intros k Hk; assert (k = 0 \/ k = 1 \/ k = 2) as [-> | [-> | -> ]] by lia; done|lia|
      intros k Hk; unfold at_fd; destruct (Z.leb_spec 0 k); [|done]; by rewrite lookup_ge_None_2 by (simpl; lia)]))
    eq_refl ltac:(repeat constructor; try done; by eexists)) as (children & t' & E & Hlen & _ & Hch).
  exists children, t'. split; [exact E|].
  destruct (Hch 0%nat _ eq_refl) as (p1 & tc1 & H1 & _ & F1). destruct (Hch 1%nat _ eq_refl) as (p2 & tc2 & H2 & _ & F2).
  exists p1, tc1, p2, tc2. rewrite !F1, !F2. split_and!; try reflexivity.
  destruct children as [|x [|y [|z children]]]; cbn in Hlen, H1, H2; try lia. by injection H1 as ->; injection H2 as ->.
Defined.
