(* ===== verification/Spin.v ===== *)
(** The kernel's spin lock (os/src/sync/spin.rs) on any number of processors with
    interrupts, and cells that are set once (os/src/sync/lazy_init.rs). *)
From S2P Require Import Prelude.

(** ** Code that uses locks *)

(** Where an activity (a task, or an interrupt handler) is.  [Run]: in code outside of
    lock operations.  The others are inside [lock], [try_lock] or the drop of a guard;
    [b] is [irq_enabled_before]. *)
Inductive pc :=
| Run
| Disable (try : bool) (l : nat) (b : bool)
| Cas (l : nat) (b : bool)
| SpinLoop (l : nat) (b : bool)
| TryCas (l : nat) (b : bool)
| Restore (b : bool).

(** The guards it has, the last one taken first, each with its [irq_enabled_before]. *)
Record activity := mkAct { at_pc : pc; guards : list (nat * bool) }.

(** What it does next.  [CasFails]: [compare_exchange_weak] may fail for no reason.
    [DropGuard]: guards are dropped in the reverse order of their creation. *)
Inductive cmd := CallLock (l : nat) | CallTryLock (l : nat) | CasFails | Step | DropGuard | EnableIrqs | DisableIrqs.

(** One step: the locks that are taken, whether interrupts are enabled on the processor,
    and the activity, before and after. *)
Definition act_step (c : cmd) (locked : gset nat) (irq : bool) (a : activity) : option (gset nat * bool * activity) :=
  match at_pc a, c with
  | Run, CallLock l => Some (locked, irq, mkAct (Disable false l irq) (guards a))
  | Run, CallTryLock l => Some (locked, irq, mkAct (Disable true l irq) (guards a))
  | Disable try l b, Step => Some (locked, false, mkAct (if try then TryCas l b else Cas l b) (guards a))
  | Cas l b, Step =>
      if decide (l ∈ locked) then Some (locked, irq, mkAct (SpinLoop l b) (guards a))
      else Some ({[l]} ∪ locked, irq, mkAct Run ((l, b) :: guards a))
  | Cas l b, CasFails => Some (locked, irq, mkAct (SpinLoop l b) (guards a))
  | SpinLoop l b, Step =>
      if decide (l ∈ locked) then Some (locked, irq, a) else Some (locked, irq, mkAct (Cas l b) (guards a))
  | TryCas l b, Step =>
      if decide (l ∈ locked) then Some (locked, irq, mkAct (Restore b) (guards a))
      else Some ({[l]} ∪ locked, irq, mkAct Run ((l, b) :: guards a))
  | Run, DropGuard =>
      match guards a with
      | (l, b) :: gs => Some (locked ∖ {[l]}, irq, mkAct (Restore b) gs)
      | [] => None
      end
  | Restore b, Step => Some (locked, if b then true else irq, mkAct Run (guards a))
  (** Code without guards may switch interrupts itself. *)
  | Run, EnableIrqs => match guards a with [] => Some (locked, true, a) | _ => None end
  | Run, DisableIrqs => match guards a with [] => Some (locked, false, a) | _ => None end
  | _, _ => None
  end.

(** ** Processors *)

(** [running] may have interrupted the activities in [suspended]. *)
Record Cpu := mkCpu { irqs : bool; running : activity; suspended : list activity }.
Record machine := mkMachine { locked : gset nat; cpus : list Cpu }.

Definition set_cpu (m : machine) (locked : gset nat) (i : nat) (c : Cpu) : machine := mkMachine locked (<[i := c]> (cpus m)).

Inductive step (m : machine) : machine -> Prop :=
| step_act i c o l b a : cpus m !! i = Some c -> act_step o (locked m) (irqs c) (running c) = Some (l, b, a) ->
    step m (set_cpu m l i (mkCpu b a (suspended c)))
(** An interrupt, which masks interrupts. *)
| step_irq i c : cpus m !! i = Some c -> irqs c = true ->
    step m (set_cpu m (locked m) i (mkCpu false (mkAct Run []) (running c :: suspended c)))
(** The return from its handler, which restores the mask. *)
| step_iret i c a s : cpus m !! i = Some c -> running c = mkAct Run [] -> suspended c = a :: s ->
    step m (set_cpu m (locked m) i (mkCpu true a s)).

Definition boot (n : nat) : machine := mkMachine ∅ (replicate n (mkCpu false (mkAct Run []) [])).

(** ** The invariant *)

Definition act_locks (a : activity) : list nat := (guards a).*1.
Definition cpu_locks (c : Cpu) : list nat := act_locks (running c) ++ concat (act_locks <$> suspended c).

(** The flag the operation under way would restore. *)
Definition pc_flag (p : pc) : option bool :=
  match p with
  | Run => None
  | Disable _ _ b | Cas _ b | SpinLoop _ b | TryCas _ b | Restore b => Some b
  end.
(** Interrupts are off from the switch in [lock] to the end of the drop. *)
Definition pc_masks (p : pc) : bool := match p with Run | Disable _ _ _ => false | _ => true end.

(** Only the oldest guard can have been taken with interrupts on. *)
Fixpoint nested (gs : list (nat * bool)) : Prop :=
  match gs with
  | [] => True
  | (_, b) :: gs => (gs <> [] -> b = false) /\ nested gs
  end.

Record cpu_ok (c : Cpu) : Prop := {
  co_mask : guards (running c) <> [] \/ pc_masks (at_pc (running c)) = true -> irqs c = false;
  co_nested : nested (guards (running c));
  co_flag b : pc_flag (at_pc (running c)) = Some b -> guards (running c) <> [] -> b = false;
  co_susp : Forall (fun a => guards a = [] /\ pc_masks (at_pc a) = false) (suspended c);
}.

Definition machine_locks (m : machine) : list nat := concat (cpu_locks <$> cpus m).
Record spin_ok (m : machine) : Prop := {
  so_cpus : Forall cpu_ok (cpus m);
  so_once : NoDup (machine_locks m);
  so_locked l : l ∈ locked m <-> l ∈ machine_locks m;
}.

Lemma locks_split m i c : cpus m !! i = Some c -> exists rest, machine_locks m ≡ₚ cpu_locks c ++ rest /\
  forall l c', machine_locks (set_cpu m l i c') ≡ₚ cpu_locks c' ++ rest.
Proof.
  intros Hi. exists (concat (cpu_locks <$> take i (cpus m)) ++ concat (cpu_locks <$> drop (S i) (cpus m))). unfold machine_locks, set_cpu. cbn [cpus].
  assert (forall (l1 l2 : list Cpu) c, concat (cpu_locks <$> l1 ++ c :: l2) ≡ₚ cpu_locks c ++ concat (cpu_locks <$> l1) ++ concat (cpu_locks <$> l2)) as Hp.
  { intros l1 l2 x. rewrite fmap_app, fmap_cons, concat_app. cbn [concat]. rewrite !app_assoc.
    by rewrite (Permutation_app_comm (concat _) (cpu_locks x)). }
  split; [rewrite <- Hp; by rewrite take_drop_middle|]. intros _ c'. rewrite <- Hp.
  by rewrite insert_take_drop by (by eapply lookup_lt_Some).
Qed.

(** A step that keeps the guards of a processor. *)
Lemma spin_ok_same m i c l' c' : spin_ok m -> cpus m !! i = Some c -> l' = locked m ->
  cpu_locks c' ≡ₚ cpu_locks c -> cpu_ok c' -> spin_ok (set_cpu m l' i c').
Proof.
  intros [Hc Hn Hl] Hi -> Hs Hok. destruct (locks_split m i c Hi) as (rest & E & E'). split.
  - by apply Forall_insert.
  - rewrite (E' _ c'), Hs, <- E. done.
  - intros l. cbn [locked set_cpu]. rewrite (E' _ c'), Hs, <- E. apply Hl.
Qed.

Lemma spin_ok_take m i c l c' : spin_ok m -> cpus m !! i = Some c -> l ∉ locked m ->
  cpu_locks c' = l :: cpu_locks c -> cpu_ok c' -> spin_ok (set_cpu m ({[l]} ∪ locked m) i c').
Proof.
  intros [Hc Hn Hl] Hi Hnew Hs Hok. destruct (locks_split m i c Hi) as (rest & E & E'). split.
  - by apply Forall_insert.
  - rewrite (E' _ c'), Hs. cbn [app]. rewrite <- E. apply NoDup_cons. by rewrite <- Hl.
  - intros k. cbn [locked set_cpu]. rewrite (E' _ c'), Hs. cbn [app]. rewrite <- E, elem_of_cons, elem_of_union, elem_of_singleton. by rewrite Hl.
Qed.

Lemma spin_ok_drop m i c l c' : spin_ok m -> cpus m !! i = Some c ->
  cpu_locks c = l :: cpu_locks c' -> cpu_ok c' -> spin_ok (set_cpu m (locked m ∖ {[l]}) i c').
Proof.
  intros [Hc Hn Hl] Hi Hs Hok. destruct (locks_split m i c Hi) as (rest & E & E'). rewrite E, Hs in Hn. cbn [app] in Hn.
  apply NoDup_cons in Hn as [Hnin Hn]. split.
  - by apply Forall_insert.
  - by rewrite (E' _ c').
  - intros k. cbn [locked set_cpu]. rewrite (E' _ c'), elem_of_difference, elem_of_singleton, Hl, E, Hs. cbn [app]. rewrite elem_of_cons.
    split; [naive_solver|]. intros Hk. split; [by right|]. by intros ->.
Qed.

(** What a step of an activity does to its processor and to the locks. *)
Lemma act_step_ok o lk c l b a : cpu_ok c -> act_step o lk (irqs c) (running c) = Some (l, b, a) ->
  cpu_ok (mkCpu b a (suspended c)) /\
  (l = lk /\ guards a = guards (running c) \/
   (exists k f, k ∉ lk /\ l = {[k]} ∪ lk /\ guards a = (k, f) :: guards (running c)) \/
   (exists k f, l = lk ∖ {[k]} /\ guards (running c) = (k, f) :: guards a)).
Proof.
  intros [Hm Hn Hf Hs] E. destruct c as [irq [p gs] sus]. cbn [irqs running suspended at_pc guards] in *.
  destruct p, o; cbn in E; try done; repeat case_match; simplify_eq/=;
    (split; [split; cbn in *; try done; try naive_solver|eauto 10]).
  all: intros; destruct gs; naive_solver.
Qed.

Lemma cpu_locks_eq b a s : cpu_locks (mkCpu b a s) = (guards a).*1 ++ concat (act_locks <$> s).
Proof. done. Qed.

Lemma spin_step_ok m m' : spin_ok m -> step m m' -> spin_ok m'.
Proof.
  intros Hok Hst. pose proof (so_cpus m Hok) as Hc. destruct Hst as [i c o l b a Hi E|i c Hi Hirq|i c a s Hi Hr Hsu];
    pose proof (Forall_lookup_1 _ _ _ _ Hc Hi) as Hci.
  - destruct (act_step_ok o (locked m) c l b a Hci E) as [Hok' Hg].
    destruct c as [irq a0 sus]. cbn [irqs running suspended] in *. destruct Hg as [[-> Hg]|[(k & f & Hk & -> & Hg)|(k & f & -> & Hg)]].
    + eapply spin_ok_same; [done..| |done]. by rewrite !cpu_locks_eq, Hg.
    + eapply spin_ok_take; [done..| |done]. by rewrite !cpu_locks_eq, Hg.
    + eapply spin_ok_drop; [done..| |done]. by rewrite !cpu_locks_eq, Hg.
  - destruct Hci as [Hm Hn Hf Hs]. destruct c as [irq a0 sus]. cbn [irqs running suspended] in *. subst irq.
    eapply spin_ok_same; [done..|done|]. split; cbn; try done. apply Forall_cons. split; [|done]. split.
    + destruct (guards a0); [done|]. assert (true = false) by (apply Hm; by left). done.
    + destruct (pc_masks (at_pc a0)); [|done]. assert (true = false) by (apply Hm; by right). done.
  - destruct Hci as [Hm Hn Hf Hs]. destruct c as [irq a0 sus]. cbn [irqs running suspended] in *. subst.
    apply Forall_cons in Hs as [[Hg Hp] Hs]. eapply spin_ok_same; [done..| |].
    + by rewrite !cpu_locks_eq.
    + split; cbn; rewrite ?Hg; try done. intros [?|?]; [done|congruence].
Qed.

Lemma boot_ok n : spin_ok (boot n).
Proof.
  assert (machine_locks (boot n) = []) as E by (unfold machine_locks; cbn; by induction n).
  split; [apply Forall_replicate; by split; cbn; [intros [?|?]|..]|rewrite E; apply NoDup_nil_2|].
  intros l. rewrite E. cbn. set_solver.
Qed.


(** Two processors; the first has the lock, the second waits for it. *)
Definition demo_machine : machine := mkMachine ({[7%nat]} ∪ ∅)
  [mkCpu false (mkAct Run [(7, false)]) []; mkCpu false (mkAct (SpinLoop 7 false) []) []]%nat.


(** ** Cells that are set once *)

Section lazy.
Context {T : Type}.
Record LazyInit := mkLazy { inited : bool; data : option T }.
Definition LazyInit_new : LazyInit := mkLazy false None.
Definition is_init (c : LazyInit) : bool := inited c.
Definition init_by (c : LazyInit) (v : T) : res LazyInit :=
  _ ← rassert (negb (is_init c));
  Ok (mkLazy true (Some v)).
(** Reading memory that was never written is undefined. *)
Definition assume_init (o : option T) : res T := match o with Some v => Ok v | None => Err Undefined end.
Definition try_get (c : LazyInit) : res (option T) :=
  if is_init c then v ← assume_init (data c); Ok (Some v) else Ok None.
Definition get (c : LazyInit) : res T := _ ← rassert (is_init c); assume_init (data c).

(** A cell is empty until it is set, then has its value for ever; setting it twice and
    reading it too early panic, and no read is undefined. *)
Lemma lazy_once v v' : exists c, init_by LazyInit_new v = Ok c /\ get c = Ok v /\ try_get c = Ok (Some v) /\
  init_by c v' = Err Panic /\ get LazyInit_new = Err Panic /\ try_get LazyInit_new = Ok None.
Proof. eexists. split; [done|]. done. Qed.
End lazy.
Arguments LazyInit T : clear implicits.
