(* ===== verification/Gic.v ===== *)
(** The interrupt controller (os/src/arch/aarch64/gicv2.rs) and the timer's use of it
    (os/src/timer.rs): registers, set-up, masking and acknowledgement. *)
From S2P Require Import Prelude State Spin.

From Stdlib Require Import ZifyNat.
#[local] Ltac Zify.zify_post_hook ::= Z.to_euclidean_division_equations.

Definition GIC_BASE : Z := 0x08000000.
Definition GICD_BASE : Z := GIC_BASE.
Definition GICC_BASE : Z := GIC_BASE + 0x10000.
Definition SPI_BASE : Z := 32.
Definition PHYS_TIMER_IRQ_NUM : Z := 30.

(** The registers of the distributor ([GICD]) and of the processor interface ([GICC])
    that the kernel uses. *)
Inductive reg :=
| GICD_CTLR | GICD_TYPER
| ISENABLER (n : Z) | ICENABLER (n : Z) | ICPENDR (n : Z) | ITARGETSR (n : Z) | ICFGR (n : Z)
| GICC_CTLR | GICC_PMR | GICC_IAR | GICC_EOIR.

(** How many registers of 32 bits an array has. *)
Definition reg_count (r : reg) : Z :=
  match r with
  | ISENABLER _ | ICENABLER _ | ICPENDR _ => 0x20
  | ITARGETSR _ => 0x100
  | ICFGR _ => 0x40
  | _ => 1
  end.
Definition reg_index (r : reg) : Z :=
  match r with ISENABLER n | ICENABLER n | ICPENDR n | ITARGETSR n | ICFGR n => n | _ => 0 end.
(** The address of a register. *)
Definition reg_addr (r : reg) : Z :=
  match r with
  | GICD_CTLR => GICD_BASE | GICD_TYPER => GICD_BASE + 0x4
  | ISENABLER n => GICD_BASE + 0x100 + 4 * n | ICENABLER n => GICD_BASE + 0x180 + 4 * n
  | ICPENDR n => GICD_BASE + 0x280 + 4 * n | ITARGETSR n => GICD_BASE + 0x800 + 4 * n
  | ICFGR n => GICD_BASE + 0xc00 + 4 * n
  | GICC_CTLR => GICC_BASE | GICC_PMR => GICC_BASE + 0x4 | GICC_IAR => GICC_BASE + 0xc | GICC_EOIR => GICC_BASE + 0x10
  end.

(** ** The device *)

(** What software sees of a controller: the values it reads, what writing and
    acknowledging do, and the state behind the registers. *)
Class GicDevice (G : Type) := {
  rd : G -> reg -> Z;
  wr : G -> reg -> Z -> G;
  ack : G -> G;
  enabled : G -> Z -> bool;
  pending : G -> Z -> bool;
  edge : G -> Z -> bool;
}.

(** Interrupt [k] is bit [k mod 32] of register [k / 32] of the enable and pending arrays;
    its trigger is the upper of two bits in register [k / 16] of the configuration array. *)
Definition in_reg (n v k : Z) : bool := (k / 32 =? n) && Z.testbit v (k `mod` 32).
Definition edge_bit (v k : Z) : bool := Z.testbit v (2 * (k `mod` 16) + 1).
Definition is_reg (r r' : reg) : bool :=
  match r, r' with
  | ISENABLER _, ISENABLER _ | ICENABLER _, ICENABLER _ | ICPENDR _, ICPENDR _ | ICFGR _, ICFGR _ => true
  | _, _ => false
  end.

(** The behaviour of the architecture that the kernel relies on. *)
Class GicLaws (G : Type) `{GicDevice G} := {
  rd_range g r : 0 <= rd g r < 2 ^ 32;
  rd_typer g r v : rd (wr g r v) GICD_TYPER = rd g GICD_TYPER;
  set_enable_law g n v k : enabled (wr g (ISENABLER n) v) k = enabled g k || in_reg n v k;
  clear_enable_law g n v k : enabled (wr g (ICENABLER n) v) k = enabled g k && negb (in_reg n v k);
  enabled_other g r v k : is_reg r (ISENABLER 0) = false -> is_reg r (ICENABLER 0) = false -> enabled (wr g r v) k = enabled g k;
  clear_pending_law g n v k : pending (wr g (ICPENDR n) v) k = pending g k && negb (in_reg n v k);
  pending_other g r v k : is_reg r (ICPENDR 0) = false -> pending (wr g r v) k = pending g k;
  edge_read g k : 32 <= k -> edge g k = edge_bit (rd g (ICFGR (k / 16))) k;
  edge_write g n v k : 32 <= k -> 0 <= v < 2 ^ 32 -> edge (wr g (ICFGR n) v) k = if k / 16 =? n then edge_bit v k else edge g k;
  edge_other g r v k : is_reg r (ICFGR 0) = false -> edge (wr g r v) k = edge g k;
}.

Section gic.
Context {G : Type} `{GicDevice G}.

(** Access through [register_structs]: an index out of range panics. *)
Definition reg_get (r : reg) : st G Z := fun g =>
  if (0 <=? reg_index r) && (reg_index r <? reg_count r) then Ok (rd g r, match r with GICC_IAR => ack g | _ => g end) else Err Panic.
Definition reg_set (r : reg) (v : Z) : st G unit := fun g =>
  if (0 <=? reg_index r) && (reg_index r <? reg_count r) then Ok (tt, wr g r v) else Err Panic.

(** ** [Gic] *)

Inductive TriggerMode := Edge | Level.
Inductive Polarity := ActiveHigh | ActiveLow.
Record Gic := mkGic { max_irqs : Z }.

Definition Gic_new : st G Gic :=
  typer ← reg_get GICD_TYPER;
  mret (mkGic ((Z.land typer 31 + 1) * 32)).
Definition cpu_num : st G Z :=
  typer ← reg_get GICD_TYPER;
  mret (Z.land (Z.shiftr typer 5) 7 + 1).

Definition configure_interrupt (gic : Gic) (vector : Z) (tm : TriggerMode) (pol : Polarity) : st G unit :=
  _ ← slift (rassert (vector <? max_irqs gic));
  _ ← slift (rassert (SPI_BASE <=? vector));
  _ ← slift (rassert (match pol with ActiveHigh => true | ActiveLow => false end));
  let reg_ndx := Z.shiftr vector 4 in
  let bit_shift := Z.shiftl (Z.land vector 0xf) 1 + 1 in
  reg_val ← reg_get (ICFGR reg_ndx);
  reg_set (ICFGR reg_ndx) (match tm with
    | Edge => Z.lor reg_val (u32 (Z.shiftl 1 bit_shift))
    | Level => Z.land reg_val (u32 (Z.lnot (Z.shiftl 1 bit_shift)))
    end).

Definition set_enable (gic : Gic) (vector : Z) (enable : bool) : st G unit :=
  _ ← slift (rassert (vector <? max_irqs gic));
  let reg := vector / 32 in
  let mask := u32 (Z.shiftl 1 (vector `mod` 32)) in
  if enable then reg_set (ISENABLER reg) mask else reg_set (ICENABLER reg) mask.

Definition pending_irq : st G (option Z) :=
  iar ← reg_get GICC_IAR;
  mret (if 0x3fe <=? iar then None else Some iar).
Definition eoi (vector : Z) : st G unit := reg_set GICC_EOIR (u32 vector).

(** [(from..to).step_by(s)]. *)
Definition step_by (from to s : Z) : list Z := (fun k => from + s * k) <$> seqZ 0 ((to - from + s - 1) / s).
Fixpoint for_each (l : list Z) (f : Z -> st G unit) : st G unit :=
  match l with [] => mret tt | i :: l => _ ← f i; for_each l f end.

Definition clear_irqs (i : Z) : st G unit :=
  _ ← reg_set (ICENABLER (i / 32)) (2 ^ 32 - 1);
  reg_set (ICPENDR (i / 32)) (2 ^ 32 - 1).
Definition target_cpu0 (i : Z) : st G unit := reg_set (ITARGETSR (i / 4)) 0x01010101.

Definition Gic_init (gic : Gic) : st G unit :=
  _ ← for_each (step_by 0 (max_irqs gic) 32) clear_irqs;
  n ← cpu_num;
  _ ← (if 1 <? n then for_each (step_by SPI_BASE (max_irqs gic) 4) target_cpu0 else mret tt);
  _ ← for_each (step_by SPI_BASE (max_irqs gic) 1) (fun i => configure_interrupt gic i Edge ActiveHigh);
  _ ← reg_set GICD_CTLR 1;
  _ ← reg_set GICC_CTLR 1;
  reg_set GICC_PMR 0xff.

(** [gicv2::init], up to the cell the result is kept in. *)
Definition gic_init : st G Gic :=
  gic ← Gic_new;
  _ ← Gic_init gic;
  mret gic.
Definition irq_set_mask (gic : Gic) (vector : Z) (masked : bool) : st G unit := set_enable gic vector (negb masked).

Inductive IrqHandlerResult := Reschedule | NoReschedule.
(** [set_next_trigger] programs the timer, which is not part of the controller. *)
Definition handle_irq : st G (IrqHandlerResult * bool) :=
  o ← pending_irq;
  match o with
  | Some vector =>
      let r := if vector =? PHYS_TIMER_IRQ_NUM then Reschedule else NoReschedule in
      _ ← eoi vector;
      mret (r, vector =? PHYS_TIMER_IRQ_NUM)
  | None => mret (NoReschedule, false)
  end.

(** Set-up of controller and timer, as [rust_main] does it. *)
Definition irq_boot : st G Gic :=
  gic ← gic_init;
  _ ← irq_set_mask gic PHYS_TIMER_IRQ_NUM false;
  mret gic.
End gic.

(** ** What the operations do *)

Section laws.
Context {G : Type} `{GicLaws G}.
Implicit Types (g : G).

Lemma get_wp r g Q : 0 <= reg_index r < reg_count r -> Q (rd g r) (match r with GICC_IAR => ack g | _ => g end) -> swp (reg_get r) g Q.
Proof.
  intros Hr HQ. unfold swp, reg_get. rewrite (proj2 (Z.leb_le _ _)), (proj2 (Z.ltb_lt _ _)) by lia. eauto.
Qed.
Lemma set_wp r v g (Q : unit -> G -> Prop) : 0 <= reg_index r < reg_count r -> Q tt (wr g r v) -> swp (reg_set r v) g Q.
Proof.
  intros Hr HQ. unfold swp, reg_set. rewrite (proj2 (Z.leb_le _ _)), (proj2 (Z.ltb_lt _ _)) by lia. eauto.
Qed.

(** A loop, by an invariant over the values it has been through. *)
Lemma for_each_wp l f (P : list Z -> G -> Prop) : (forall seen i g, i ∈ l -> P seen g -> swp (f i) g (fun _ g' => P (seen ++ [i]) g')) ->
  forall seen g, P seen g -> swp (for_each l f) g (fun _ g' => P (seen ++ l) g').
Proof.
  induction l as [|i l IH]; intros Hf seen g HP; cbn [for_each].
  - apply swp_ret. by rewrite app_nil_r.
  - apply swp_bind. eapply swp_mono; [apply Hf; [apply list_elem_of_here|exact HP]|]. intros u g' HP'.
    replace (seen ++ i :: l) with ((seen ++ [i]) ++ l) by (by rewrite <- app_assoc).
    apply IH; [|done]. intros seen' j g0 Hj. apply Hf. by apply list_elem_of_further.
Qed.

Lemma elem_of_step_by from to s i : 0 < s -> i ∈ step_by from to s <-> exists k, 0 <= k /\ i = from + s * k /\ i < to.
Proof.
  intros Hs. unfold step_by. rewrite list_elem_of_fmap. setoid_rewrite elem_of_seqZ. split.
  - intros (k & -> & Hk). exists k. split_and!; [lia|done|]. nia.
  - intros (k & Hk & -> & Hlt). exists k. split; [done|]. split; [done|]. nia.
Qed.

Lemma testbit_one n k : 0 <= n -> 0 <= k -> Z.testbit (Z.shiftl 1 n) k = (k =? n).
Proof.
  intros Hn Hk. rewrite Z.shiftl_1_l. destruct (Z.eqb_spec k n) as [->|Hne]; [by apply Z.pow2_bits_true|by apply Z.pow2_bits_false; lia].
Qed.

Lemma shiftl_range n w : 0 <= n < w -> 0 <= Z.shiftl 1 n < 2 ^ w.
Proof. intros Hn. rewrite Z.shiftl_1_l. split; [apply Z.pow_nonneg; lia|apply Z.pow_lt_mono_r; lia]. Qed.

Lemma bits_high w a i : 0 <= a < 2 ^ w -> 0 <= w <= i -> Z.testbit a i = false.
Proof. intros Ha Hi. rewrite <- (Z.mod_small a (2 ^ w)) by done. apply Z.mod_pow2_bits_high. lia. Qed.

Lemma bits_range w z : 0 <= w -> 0 <= z -> (forall i, w <= i -> Z.testbit z i = false) -> 0 <= z < 2 ^ w.
Proof.
  intros Hw Hz Hi. replace z with (z `mod` 2 ^ w); [apply Z.mod_pos_bound; lia|]. apply Z.bits_inj'. intros i Hi0.
  destruct (decide (i < w)); [by apply Z.mod_pow2_bits_low|]. rewrite Z.mod_pow2_bits_high by lia. symmetry. apply Hi. lia.
Qed.

Lemma lor_range w a b : 0 <= w -> 0 <= a < 2 ^ w -> 0 <= b < 2 ^ w -> 0 <= Z.lor a b < 2 ^ w.
Proof.
  intros Hw Ha Hb. apply bits_range; [done|apply Z.lor_nonneg; lia|]. intros i Hi.
  by rewrite Z.lor_spec, !(bits_high w) by lia.
Qed.

Lemma land_range w a b : 0 <= w -> 0 <= a < 2 ^ w -> 0 <= b -> 0 <= Z.land a b < 2 ^ w.
Proof.
  intros Hw Ha Hb. apply bits_range; [done|apply Z.land_nonneg; lia|]. intros i Hi.
  by rewrite Z.land_spec, (bits_high w a) by lia.
Qed.

Lemma in_reg_mask v k : 0 <= k -> 0 <= v -> in_reg (v / 32) (u32 (Z.shiftl 1 (v `mod` 32))) k = (k =? v).
Proof.
  intros Hk Hv. unfold in_reg. rewrite u32_small by (apply (shiftl_range _ 32); lia). rewrite testbit_one by lia.
  destruct (Z.eqb_spec k v) as [->|Hne]; [by rewrite !Z.eqb_refl|].
  destruct (Z.eqb_spec (k / 32) (v / 32)), (Z.eqb_spec (k `mod` 32) (v `mod` 32)); try done. lia.
Qed.

Lemma in_reg_all n k : 0 <= k -> in_reg n (2 ^ 32 - 1) k = (k / 32 =? n).
Proof.
  intros Hk. unfold in_reg. change (2 ^ 32 - 1) with (Z.ones 32). rewrite Z.ones_spec_low by lia. apply andb_true_r.
Qed.

(** The part of the state a write to another register keeps. *)
Lemma wr_other g r v : is_reg r (ISENABLER 0) = false -> is_reg r (ICENABLER 0) = false -> is_reg r (ICPENDR 0) = false ->
  is_reg r (ICFGR 0) = false -> forall k, enabled (wr g r v) k = enabled g k /\ pending (wr g r v) k = pending g k /\ edge (wr g r v) k = edge g k.
Proof. intros. split_and!; [by apply enabled_other|by apply pending_other|by apply edge_other]. Qed.

(** [set_enable] changes one interrupt. *)
Lemma set_enable_wp gic v b g : 0 <= v < max_irqs gic -> max_irqs gic <= 1024 ->
  swp (set_enable gic v b) g (fun _ g' => forall k, 0 <= k ->
    enabled g' k = (if k =? v then b else enabled g k) /\ pending g' k = pending g k /\ edge g' k = edge g k).
Proof.
  intros Hv Hm. unfold set_enable. eapply swp_lift_bind; [by rewrite (proj2 (Z.ltb_lt _ _)) by lia|]. destruct b.
  - apply set_wp; [cbn; lia|]. intros k Hk. rewrite set_enable_law, in_reg_mask, pending_other, edge_other by (done || lia).
    split_and!; [|done|done]. destruct (k =? v); [apply orb_true_r|apply orb_false_r].
  - apply set_wp; [cbn; lia|]. intros k Hk. rewrite clear_enable_law, in_reg_mask, pending_other, edge_other by (done || lia).
    split_and!; [|done|done]. destruct (k =? v); [apply andb_false_r|apply andb_true_r].
Qed.

(** [configure_interrupt] changes the trigger of one interrupt. *)
Lemma configure_wp gic v tm g : SPI_BASE <= v < max_irqs gic -> max_irqs gic <= 1024 ->
  swp (configure_interrupt gic v tm ActiveHigh) g (fun _ g' => forall k, 0 <= k ->
    enabled g' k = enabled g k /\ pending g' k = pending g k /\
    (32 <= k -> edge g' k = if k =? v then match tm with Edge => true | Level => false end else edge g k)).
Proof.
  unfold SPI_BASE. intros Hv Hm. unfold configure_interrupt.
  eapply swp_lift_bind; [by rewrite (proj2 (Z.ltb_lt _ _)) by lia|].
  eapply swp_lift_bind; [unfold SPI_BASE; by rewrite (proj2 (Z.leb_le _ _)) by lia|]. eapply swp_lift_bind; [done|]. cbn zeta.
  rewrite Z.shiftr_div_pow2 by lia. change (2 ^ 4) with 16. change 0xf with (Z.ones 4). rewrite Z.land_ones, (Z.shiftl_mul_pow2 _ 1) by lia.
  change (2 ^ 4) with 16. change (2 ^ 1) with 2. apply swp_bind, get_wp; [cbn; lia|]. apply set_wp; [cbn; lia|].
  pose proof (rd_range g (ICFGR (v / 16))) as Hr. set (n := v `mod` 16 * 2 + 1). assert (0 <= n < 32) as Hn by (unfold n; lia).
  intros k Hk. split_and!; [by apply enabled_other|by apply pending_other|]. intros Hk32.
  rewrite (u32_small (Z.shiftl 1 n)) by (by apply (shiftl_range n 32)).
  rewrite edge_write; [|done|destruct tm; [apply (lor_range 32); [lia|done|by apply (shiftl_range n 32)]|apply (land_range 32); [lia|done|apply u32_range]]].
  rewrite (edge_read g k Hk32). destruct (Z.eqb_spec (k / 16) (v / 16)) as [E|E].
  - unfold edge_bit. rewrite E. assert (0 <= 2 * (k `mod` 16) + 1 < 32) as Hp by lia.
    destruct tm; [rewrite Z.lor_spec|rewrite Z.land_spec; unfold u32; rewrite Z.mod_pow2_bits_low, Z.lnot_spec by lia];
      rewrite testbit_one by lia; destruct (Z.eqb_spec (2 * (k `mod` 16) + 1) n) as [E2|E2], (Z.eqb_spec k v) as [E3|E3]; unfold n in *; try lia;
      by rewrite ?orb_true_r, ?orb_false_r, ?andb_false_r, ?andb_true_r.
  - rewrite (proj2 (Z.eqb_neq k v)) by (intros ->; done). done.
Qed.

(** ** Set-up *)

Definition gic_ok (gic : Gic) : Prop := max_irqs gic `mod` 32 = 0 /\ 32 <= max_irqs gic <= 1024.

Lemma land_mask a n : 0 <= n -> 0 <= a -> 0 <= Z.land a (Z.ones n) < 2 ^ n.
Proof. intros Hn Ha. rewrite Z.land_ones by done. apply Z.mod_pos_bound. lia. Qed.

Lemma Gic_new_wp g : swp Gic_new g (fun gic g' => g' = g /\ gic_ok gic).
Proof.
  apply swp_bind, get_wp; [cbn; lia|]. apply swp_ret. split; [done|]. pose proof (rd_range g GICD_TYPER).
  pose proof (land_mask (rd g GICD_TYPER) 5 ltac:(lia) ltac:(lia)) as Hl. change (Z.ones 5) with 31 in Hl.
  unfold gic_ok. cbn [max_irqs]. lia.
Qed.

(** Nothing enabled, nothing pending. *)
Lemma clear_loop_wp gic g : gic_ok gic -> swp (for_each (step_by 0 (max_irqs gic) 32) clear_irqs) g (fun _ g' =>
  forall k, 0 <= k < max_irqs gic -> enabled g' k = false /\ pending g' k = false).
Proof.
  intros [Hm Hr]. eapply swp_mono.
  - apply (for_each_wp _ _ (fun seen g' => forall k i, 0 <= k -> i ∈ seen -> k / 32 = i / 32 -> enabled g' k = false /\ pending g' k = false));
      [|intros k i _ Hi; by apply elem_of_nil in Hi].
    intros seen i g' (j & Hj & -> & Hlt)%elem_of_step_by HP; [|lia]. unfold clear_irqs.
    apply swp_bind, set_wp; [cbn; lia|]. apply set_wp; [cbn; lia|]. intros k i Hk Hi Hki.
    rewrite clear_pending_law, enabled_other, clear_enable_law, !in_reg_all, pending_other by (done || lia).
    apply elem_of_app in Hi as [Hi|Hi%list_elem_of_singleton].
    + destruct (HP k i Hk Hi Hki) as [-> ->]. done.
    + subst i. rewrite Hki, Z.eqb_refl. by rewrite !andb_false_r.
  - intros u g' HP k Hk. apply (HP k (k / 32 * 32)); [lia| |lia]. apply elem_of_step_by; [lia|]. exists (k / 32). lia.
Qed.

(** Writing other registers in a loop keeps the state behind these. *)
Lemma target_loop_wp l g : (forall i, i ∈ l -> 0 <= i < 1024) -> swp (for_each l target_cpu0) g (fun _ g' =>
  forall k, enabled g' k = enabled g k /\ pending g' k = pending g k).
Proof.
  intros Hl. refine (for_each_wp l target_cpu0 (fun _ g' => forall k, enabled g' k = enabled g k /\ pending g' k = pending g k) _ [] g _); [|done].
  intros seen i g' Hi HP. specialize (Hl i Hi). apply set_wp; [cbn; lia|]. intros k.
  rewrite enabled_other, pending_other by done. apply HP.
Qed.

Lemma edge_loop_wp gic g : gic_ok gic ->
  swp (for_each (step_by SPI_BASE (max_irqs gic) 1) (fun i => configure_interrupt gic i Edge ActiveHigh)) g (fun _ g' =>
    (forall k, 0 <= k -> enabled g' k = enabled g k /\ pending g' k = pending g k) /\
    forall k, SPI_BASE <= k < max_irqs gic -> edge g' k = true).
Proof.
  intros [Hm Hr]. unfold SPI_BASE. eapply swp_mono.
  - apply (for_each_wp _ _ (fun seen g' => (forall k, 0 <= k -> enabled g' k = enabled g k /\ pending g' k = pending g k) /\
      forall k, k ∈ seen -> 32 <= k -> edge g' k = true)); [|split; [done|intros k Hk; by apply elem_of_nil in Hk]].
    intros seen i g' (j & Hj & -> & Hlt)%elem_of_step_by [HP He]; [|lia].
    eapply swp_mono; [apply configure_wp; unfold SPI_BASE; lia|]. intros u g2 Hc. split.
    + intros k Hk. destruct (Hc k Hk) as (-> & -> & _). by apply HP.
    + intros k Hk Hk32. destruct (Hc k ltac:(lia)) as (_ & _ & ->); [|done].
      apply elem_of_app in Hk as [Hk|Hk%list_elem_of_singleton]; [|by rewrite Hk, Z.eqb_refl].
      rewrite (He k Hk Hk32). by destruct (_ =? _).
  - intros u g' [HP He]. split; [done|]. intros k Hk. apply He; [|lia]. apply elem_of_step_by; [lia|]. exists (k - 32). lia.
Qed.

Lemma Gic_init_wp gic g : gic_ok gic -> swp (Gic_init gic) g (fun _ g' =>
  (forall k, 0 <= k < max_irqs gic -> enabled g' k = false /\ pending g' k = false) /\
  forall k, SPI_BASE <= k < max_irqs gic -> edge g' k = true).
Proof.
  intros Hok. pose proof Hok as [Hm Hr]. unfold Gic_init. apply swp_bind. eapply swp_mono; [by apply clear_loop_wp|]. intros u g1 H1.
  apply swp_bind. unfold cpu_num. apply swp_bind, get_wp; [cbn; lia|]. apply swp_ret. apply swp_bind.
  assert (forall b : bool, swp (if b then for_each (step_by SPI_BASE (max_irqs gic) 4) target_cpu0 else mret tt) g1 (fun _ g' =>
    forall k, enabled g' k = enabled g1 k /\ pending g' k = pending g1 k)) as Ht.
  { intros [|]; [|by apply swp_ret]. apply target_loop_wp. intros i (j & Hj & -> & Hlt)%elem_of_step_by; unfold SPI_BASE in *; lia. }
  eapply swp_mono; [apply Ht|]. intros u2 g2 H2. apply swp_bind. eapply swp_mono; [by apply edge_loop_wp|]. intros u3 g3 [H3 He].
  apply swp_bind, set_wp; [cbn; lia|]. apply swp_bind, set_wp; [cbn; lia|]. apply set_wp; [cbn; lia|]. split.
  - intros k Hk. rewrite !enabled_other, !pending_other by done. destruct (H3 k ltac:(lia)) as [-> ->], (H2 k) as [-> ->]. by apply H1.
  - intros k Hk. rewrite !edge_other by done. by apply He.
Qed.

Lemma irq_boot_wp g : swp irq_boot g (fun gic g' => gic_ok gic /\ forall k, 0 <= k < max_irqs gic ->
  enabled g' k = (k =? PHYS_TIMER_IRQ_NUM) /\ pending g' k = false /\ (SPI_BASE <= k -> edge g' k = true)).
Proof.
  unfold irq_boot, gic_init. apply swp_bind, swp_bind. eapply swp_mono; [apply Gic_new_wp|]. intros gic g0 [-> Hok].
  pose proof Hok as [Hm Hr]. apply swp_bind. eapply swp_mono; [by apply Gic_init_wp|]. intros u g1 [H1 He]. apply swp_ret.
  apply swp_bind. eapply swp_mono; [apply set_enable_wp; unfold PHYS_TIMER_IRQ_NUM; lia|]. intros u2 g2 H2. apply swp_ret.
  split; [done|]. intros k Hk. destruct (H2 k ltac:(lia)) as (-> & -> & ->). destruct (H1 k Hk) as [-> ->].
  split_and!; [by destruct (k =? _)|done|]. intros Hk2. apply He. lia.
Qed.
End laws.


(** A controller for examples. *)
Record sim := mkSim { s_typer : Z; s_iar : Z; s_enabled : Z -> bool; s_pending : Z -> bool; s_cfg : Z -> Z }.
Definition sim_rd (g : sim) (r : reg) : Z :=
  match r with GICD_TYPER => u32 (s_typer g) | GICC_IAR => u32 (s_iar g) | ICFGR n => u32 (s_cfg g n) | _ => 0 end.
Definition sim_wr (g : sim) (r : reg) (v : Z) : sim :=
  match r with
  | ISENABLER n => mkSim (s_typer g) (s_iar g) (fun k => s_enabled g k || in_reg n v k) (s_pending g) (s_cfg g)
  | ICENABLER n => mkSim (s_typer g) (s_iar g) (fun k => s_enabled g k && negb (in_reg n v k)) (s_pending g) (s_cfg g)
  | ICPENDR n => mkSim (s_typer g) (s_iar g) (s_enabled g) (fun k => s_pending g k && negb (in_reg n v k)) (s_cfg g)
  | ICFGR n => mkSim (s_typer g) (s_iar g) (s_enabled g) (s_pending g) (fun m => if m =? n then v else s_cfg g m)
  | _ => g
  end.
#[export] Instance sim_device : GicDevice sim := {
  rd := sim_rd; wr := sim_wr; ack g := g; enabled := s_enabled; pending := s_pending;
  edge g k := edge_bit (u32 (s_cfg g (k / 16))) k;
}.
#[export] Instance sim_laws : GicLaws sim.
Proof.
  split; try done.
  - intros g r. cbn. destruct r; cbn; try lia; apply u32_range.
  - intros g r v. by destruct r.
  - intros g r v k. by destruct r.
  - intros g r v k. by destruct r.
  - intros g n v k _ Hv. cbn. destruct (Z.eqb_spec (k / 16) n); [|done]. by rewrite u32_small.
  - intros g r v k. by destruct r.
Qed.

