(* ===== verification/Abi.v ===== *)
(** System calls across the boundary: how the user library puts a call into registers
    (user/src/syscall.rs, user/src/lib.rs), how the kernel takes it out of the trap
    frame and chooses the operation (os/src/trap/mod.rs, os/src/syscall/mod.rs), and how
    the result gets back. *)
From S2P Require Import Prelude State Signal.

(** The operations of the kernel, with the arguments they are called with. *)
Inductive request :=
| Read (fd buf len : Z) | Write (fd buf len : Z) | Exit (exit_code : Z) | ExitGroup (exit_code : Z)
| Yield | GetTime | GetPid | Fork | Exec (path args : Z) | WaitPid (pid exit_code_ptr : Z)
| Open (path flags : Z) | Close (fd : Z) | Dup (fd : Z) | Pipe (pipe : Z)
| Kill (pid signum : Z) | SigAction (signum action old_action : Z) | SigProcMask (mask : Z) | SigReturn
| Sleep (ms : Z) | ThreadCreate (entry arg : Z) | GetTid | WaitTid (tid : Z)
| MutexCreate (blocking : bool) | MutexLock (id : Z) | MutexUnlock (id : Z)
| SemaphoreCreate (res_count : Z) | SemaphoreUp (id : Z) | SemaphoreDown (id : Z)
| CondvarCreate (arg : Z) | CondvarSignal (id : Z) | CondvarWait (id mutex_id : Z).

(** ** The user's side *)

Module User.
Definition SYSCALL_DUP : Z := 24.
Definition SYSCALL_OPEN : Z := 56.
Definition SYSCALL_CLOSE : Z := 57.
Definition SYSCALL_PIPE2 : Z := 59.
Definition SYSCALL_READ : Z := 63.
Definition SYSCALL_WRITE : Z := 64.
Definition SYSCALL_EXIT : Z := 93.
Definition SYSCALL_EXIT_GROUP : Z := 94.
Definition SYSCALL_SLEEP : Z := 101.
Definition SYSCALL_YIELD : Z := 124.
Definition SYSCALL_KILL : Z := 129.
Definition SYSCALL_SIGACTION : Z := 134.
Definition SYSCALL_SIGPROCMASK : Z := 135.
Definition SYSCALL_SIGRETURN : Z := 139.
Definition SYSCALL_GET_TIME : Z := 169.
Definition SYSCALL_GETPID : Z := 172.
Definition SYSCALL_FORK : Z := 220.
Definition SYSCALL_EXEC : Z := 221.
Definition SYSCALL_WAITPID : Z := 260.
Definition SYSCALL_THREAD_CREATE : Z := 1000.
Definition SYSCALL_GETTID : Z := 1001.
Definition SYSCALL_WAITTID : Z := 1002.
Definition SYSCALL_MUTEX_CREATE : Z := 1010.
Definition SYSCALL_MUTEX_LOCK : Z := 1011.
Definition SYSCALL_MUTEX_UNLOCK : Z := 1012.
Definition SYSCALL_SEMAPHORE_CREATE : Z := 1020.
Definition SYSCALL_SEMAPHORE_UP : Z := 1021.
Definition SYSCALL_SEMAPHORE_DOWN : Z := 1022.
Definition SYSCALL_CONDVAR_CREATE : Z := 1030.
Definition SYSCALL_CONDVAR_SIGNAL : Z := 1031.
Definition SYSCALL_CONDVAR_WAIT : Z := 1032.

(** [as usize] of a signed value and of a truth value. *)
Definition of_bool (b : bool) : Z := if b then 1 else 0.

(** Number and arguments of a call. *)
Abbreviation call := (Z * (Z * Z * Z))%type.
Definition sys_read (fd buf len : Z) : call := (SYSCALL_READ, (fd, buf, len)).
Definition sys_write (fd buf len : Z) : call := (SYSCALL_WRITE, (fd, buf, len)).
Definition sys_dup (fd : Z) : call := (SYSCALL_DUP, (fd, 0, 0)).
Definition sys_pipe (pipe : Z) : call := (SYSCALL_PIPE2, (pipe, 0, 0)).
Definition sys_exit (exit_code : Z) : call := (SYSCALL_EXIT, (usize exit_code, 0, 0)).
Definition sys_exit_group (exit_code : Z) : call := (SYSCALL_EXIT_GROUP, (usize exit_code, 0, 0)).
Definition sys_sleep (sleep_ms : Z) : call := (SYSCALL_SLEEP, (sleep_ms, 0, 0)).
Definition sys_yield : call := (SYSCALL_YIELD, (0, 0, 0)).
Definition sys_get_time : call := (SYSCALL_GET_TIME, (0, 0, 0)).
Definition sys_getpid : call := (SYSCALL_GETPID, (0, 0, 0)).
Definition sys_fork : call := (SYSCALL_FORK, (0, 0, 0)).
Definition sys_exec (path args : Z) : call := (SYSCALL_EXEC, (path, args, 0)).
Definition sys_waitpid (pid exit_code : Z) : call := (SYSCALL_WAITPID, (usize pid, exit_code, 0)).
Definition sys_open (path flags : Z) : call := (SYSCALL_OPEN, (path, flags, 0)).
Definition sys_close (fd : Z) : call := (SYSCALL_CLOSE, (fd, 0, 0)).
Definition sys_thread_create (entry arg : Z) : call := (SYSCALL_THREAD_CREATE, (entry, arg, 0)).
Definition sys_gettid : call := (SYSCALL_GETTID, (0, 0, 0)).
Definition sys_waittid (tid : Z) : call := (SYSCALL_WAITTID, (tid, 0, 0)).
Definition sys_sigaction (signum action old_action : Z) : call := (SYSCALL_SIGACTION, (usize signum, action, old_action)).
Definition sys_sigprocmask (mask : Z) : call := (SYSCALL_SIGPROCMASK, (mask, 0, 0)).
Definition sys_sigreturn : call := (SYSCALL_SIGRETURN, (0, 0, 0)).
Definition sys_kill (pid signal : Z) : call := (SYSCALL_KILL, (pid, usize signal, 0)).
Definition sys_mutex_create (blocking : bool) : call := (SYSCALL_MUTEX_CREATE, (of_bool blocking, 0, 0)).
Definition sys_mutex_lock (id : Z) : call := (SYSCALL_MUTEX_LOCK, (id, 0, 0)).
Definition sys_mutex_unlock (id : Z) : call := (SYSCALL_MUTEX_UNLOCK, (id, 0, 0)).
Definition sys_semaphore_create (res_count : Z) : call := (SYSCALL_SEMAPHORE_CREATE, (res_count, 0, 0)).
Definition sys_semaphore_up (sem_id : Z) : call := (SYSCALL_SEMAPHORE_UP, (sem_id, 0, 0)).
Definition sys_semaphore_down (sem_id : Z) : call := (SYSCALL_SEMAPHORE_DOWN, (sem_id, 0, 0)).
Definition sys_condvar_create (arg : Z) : call := (SYSCALL_CONDVAR_CREATE, (arg, 0, 0)).
Definition sys_condvar_signal (condvar_id : Z) : call := (SYSCALL_CONDVAR_SIGNAL, (condvar_id, 0, 0)).
Definition sys_condvar_wait (condvar_id mutex_id : Z) : call := (SYSCALL_CONDVAR_WAIT, (condvar_id, mutex_id, 0)).

(** The functions of the library, by the request they make.  [wait], [waitpid] and
    [waittid] repeat theirs. *)
Definition lib (q : request) : call :=
  match q with
  | Read fd buf len => sys_read fd buf len
  | Write fd buf len => sys_write fd buf len
  | Exit c => sys_exit c
  | ExitGroup c => sys_exit_group c
  | Yield => sys_yield
  | GetTime => sys_get_time
  | GetPid => sys_getpid
  | Fork => sys_fork
  | Exec path args => sys_exec path args
  | WaitPid pid p => sys_waitpid pid p
  | Open path flags => sys_open path flags
  | Close fd => sys_close fd
  | Dup fd => sys_dup fd
  | Pipe p => sys_pipe p
  | Kill pid s => sys_kill pid s
  | SigAction s a o => sys_sigaction s a o
  | SigProcMask m => sys_sigprocmask m
  | SigReturn => sys_sigreturn
  | Sleep ms => sys_sleep ms
  | ThreadCreate e a => sys_thread_create e a
  | GetTid => sys_gettid
  | WaitTid t => sys_waittid t
  | MutexCreate b => sys_mutex_create b
  | MutexLock i => sys_mutex_lock i
  | MutexUnlock i => sys_mutex_unlock i
  | SemaphoreCreate n => sys_semaphore_create n
  | SemaphoreUp i => sys_semaphore_up i
  | SemaphoreDown i => sys_semaphore_down i
  | CondvarCreate a => sys_condvar_create a
  | CondvarSignal i => sys_condvar_signal i
  | CondvarWait i m => sys_condvar_wait i m
  end.
(** Functions of the library with a constant argument. *)
Definition mutex_create : request := MutexCreate false.
Definition mutex_blocking_create : request := MutexCreate true.
Definition condvar_create : request := CondvarCreate 0.
Definition wait_request (exit_code : Z) : request := WaitPid (-1) exit_code.
Definition waitpid_request (pid exit_code : Z) : request := WaitPid (as_isize pid) exit_code.

(** [svc #0]: the frame the trap saves. *)
Definition syscall (tf : TrapFrame) (c : call) : TrapFrame :=
  let '(id, (a0, a1, a2)) := c in set_r (set_r (set_r (set_r tf 0 a0) 1 a1) 2 a2) 8 id.
(** The result, from x0. *)
Definition ret (tf : TrapFrame) : res Z := v ← unwrap (r tf !! 0%nat); Ok (as_isize v).

(** [wait], [waitpid] and [waittid]: they yield while the kernel says -2. *)
Section waiting.
Context {W : Type} (sys_wait : st W Z) (sched_yield : st W unit).
Fixpoint wait_loop (fuel : nat) : st W Z :=
  match fuel with
  | O => slift (Err NoFuel)
  | S fuel =>
      exit_pid ← sys_wait;
      if exit_pid =? -2 then _ ← sched_yield; wait_loop fuel else mret exit_pid
  end.
End waiting.
End User.

(** ** The kernel's side *)

Module Kernel.
Definition SYSCALL_READ : Z := 63.
Definition SYSCALL_WRITE : Z := 64.
Definition SYSCALL_EXIT : Z := 93.
Definition SYSCALL_EXIT_GROUP : Z := 94.
Definition SYSCALL_YIELD : Z := 124.
Definition SYSCALL_GET_TIME : Z := 169.
Definition SYSCALL_GETPID : Z := 172.
Definition SYSCALL_FORK : Z := 220.
Definition SYSCALL_EXEC : Z := 221.
Definition SYSCALL_WAITPID : Z := 260.
Definition SYSCALL_OPEN : Z := 56.
Definition SYSCALL_CLOSE : Z := 57.
Definition SYSCALL_PIPE2 : Z := 59.
Definition SYSCALL_DUP3 : Z := 24.
Definition SYSCALL_KILL : Z := 129.
Definition SYSCALL_SIGACTION : Z := 134.
Definition SYSCALL_SIGPROCMASK : Z := 135.
Definition SYSCALL_SIGRETURN : Z := 139.
Definition SYSCALL_SLEEP : Z := 101.
Definition SYSCALL_THREAD_CREATE : Z := 1000.
Definition SYSCALL_GETTID : Z := 1001.
Definition SYSCALL_WAITTID : Z := 1002.
Definition SYSCALL_MUTEX_CREATE : Z := 1010.
Definition SYSCALL_MUTEX_LOCK : Z := 1011.
Definition SYSCALL_MUTEX_UNLOCK : Z := 1012.
Definition SYSCALL_SEMAPHORE_CREATE : Z := 1020.
Definition SYSCALL_SEMAPHORE_UP : Z := 1021.
Definition SYSCALL_SEMAPHORE_DOWN : Z := 1022.
Definition SYSCALL_CONDVAR_CREATE : Z := 1030.
Definition SYSCALL_CONDVAR_SIGNAL : Z := 1031.
Definition SYSCALL_CONDVAR_WAIT : Z := 1032.

(** The operation a number stands for; [None]: the task is killed with -1. *)
Definition syscall (syscall_id : Z) (args : Z * Z * Z) : option request :=
  let '(a0, a1, a2) := args in
  if syscall_id =? SYSCALL_READ then Some (Read a0 a1 a2) else
  if syscall_id =? SYSCALL_WRITE then Some (Write a0 a1 a2) else
  if syscall_id =? SYSCALL_EXIT then Some (Exit (as_i32 a0)) else
  if syscall_id =? SYSCALL_EXIT_GROUP then Some (ExitGroup (as_i32 a0)) else
  if syscall_id =? SYSCALL_YIELD then Some (Yield) else
  if syscall_id =? SYSCALL_GET_TIME then Some (GetTime) else
  if syscall_id =? SYSCALL_GETPID then Some (GetPid) else
  if syscall_id =? SYSCALL_FORK then Some (Fork) else
  if syscall_id =? SYSCALL_EXEC then Some (Exec a0 a1) else
  if syscall_id =? SYSCALL_WAITPID then Some (WaitPid (as_isize a0) a1) else
  if syscall_id =? SYSCALL_OPEN then Some (Open a0 (u32 a1)) else
  if syscall_id =? SYSCALL_CLOSE then Some (Close a0) else
  if syscall_id =? SYSCALL_DUP3 then Some (Dup a0) else
  if syscall_id =? SYSCALL_PIPE2 then Some (Pipe a0) else
  if syscall_id =? SYSCALL_KILL then Some (Kill a0 (as_i32 a1)) else
  if syscall_id =? SYSCALL_SIGACTION then Some (SigAction (as_i32 a0) a1 a2) else
  if syscall_id =? SYSCALL_SIGPROCMASK then Some (SigProcMask (u32 a0)) else
  if syscall_id =? SYSCALL_SIGRETURN then Some (SigReturn) else
  if syscall_id =? SYSCALL_SLEEP then Some (Sleep a0) else
  if syscall_id =? SYSCALL_THREAD_CREATE then Some (ThreadCreate a0 a1) else
  if syscall_id =? SYSCALL_GETTID then Some (GetTid) else
  if syscall_id =? SYSCALL_WAITTID then Some (WaitTid a0) else
  if syscall_id =? SYSCALL_MUTEX_CREATE then Some (MutexCreate (a0 =? 1)) else
  if syscall_id =? SYSCALL_MUTEX_LOCK then Some (MutexLock a0) else
  if syscall_id =? SYSCALL_MUTEX_UNLOCK then Some (MutexUnlock a0) else
  if syscall_id =? SYSCALL_SEMAPHORE_CREATE then Some (SemaphoreCreate a0) else
  if syscall_id =? SYSCALL_SEMAPHORE_UP then Some (SemaphoreUp a0) else
  if syscall_id =? SYSCALL_SEMAPHORE_DOWN then Some (SemaphoreDown a0) else
  if syscall_id =? SYSCALL_CONDVAR_CREATE then Some (CondvarCreate a0) else
  if syscall_id =? SYSCALL_CONDVAR_SIGNAL then Some (CondvarSignal a0) else
  if syscall_id =? SYSCALL_CONDVAR_WAIT then Some (CondvarWait a0 a1) else
  None.

(** [handle_sync_exception], by the class of the exception. *)
Inductive exception_class := Unknown | SVC64 | DataAbortLowerEL | DataAbortCurrentEL | InstrAbortLowerEL | InstrAbortCurrentEL | OtherClass.
Inductive action := Do (q : request) | KillTask (exit_code : Z) | KernelPanic.
Definition handle_sync_exception (ec : exception_class) (tf : TrapFrame) : res action :=
  match ec with
  | Unknown | DataAbortLowerEL | DataAbortCurrentEL | InstrAbortLowerEL | InstrAbortCurrentEL => Ok (KillTask (-1))
  | SVC64 =>
      id ← unwrap (r tf !! 8%nat);
      a0 ← unwrap (r tf !! 0%nat);
      a1 ← unwrap (r tf !! 1%nat);
      a2 ← unwrap (r tf !! 2%nat);
      Ok (match syscall id (a0, a1, a2) with Some q => Do q | None => KillTask (-1) end)
  | OtherClass => Ok KernelPanic
  end.
(** The result goes to x0. *)
Definition return_value (tf : TrapFrame) (ret : Z) : TrapFrame := set_r tf 0 (u64 ret).
End Kernel.

(** ** The two sides agree *)

Definition is_usize (z : Z) : Prop := 0 <= z < 2 ^ 64.
Definition is_u32 (z : Z) : Prop := 0 <= z < 2 ^ 32.
Definition is_i32 (z : Z) : Prop := - 2 ^ 31 <= z < 2 ^ 31.
Definition is_isize (z : Z) : Prop := - 2 ^ 63 <= z < 2 ^ 63.

(** The arguments have the types of the library's functions. *)
Definition request_ok (q : request) : Prop :=
  match q with
  | Exit c | ExitGroup c => is_i32 c
  | WaitPid pid p => is_isize pid /\ is_usize p
  | Open path flags => is_usize path /\ is_u32 flags
  | Kill pid s => is_usize pid /\ is_i32 s
  | SigAction s a o => is_i32 s /\ is_usize a /\ is_usize o
  | SigProcMask m => is_u32 m
  | _ => True
  end.

Lemma as_i32_usize z : is_i32 z -> as_i32 (usize z) = z.
Proof.
  unfold is_i32. intros Hz. unfold as_i32, u32, u64. rewrite <- Znumtheory.Zmod_div_mod; [|lia|lia|by exists (2 ^ 32)].
  destruct (decide (0 <= z)).
  - rewrite Z.mod_small by lia. by rewrite (proj2 (Z.ltb_lt _ _)) by lia.
  - rewrite <- (Z.mod_unique z (2 ^ 32) (-1) (z + 2 ^ 32)) by lia. rewrite (proj2 (Z.ltb_ge _ _)); lia.
Qed.

Lemma as_isize_u64 z : is_isize z -> as_isize (u64 z) = z.
Proof.
  intros Hz. transitivity (as_isize z); [|by apply as_isize_small]. unfold as_isize, u64. by rewrite Z.mod_mod.
Qed.

Lemma decode_lib q : request_ok q -> Kernel.syscall (User.lib q).1 (User.lib q).2 = Some q.
Proof.
  destruct q; intros Hq; cbn in Hq; cbn; repeat match goal with H : _ /\ _ |- _ => destruct H end;
    rewrite ?as_i32_usize, ?as_isize_u64, ?u32_small by done; try reflexivity.
  by destruct blocking.
Qed.

Lemma decode_range id args q : Kernel.syscall id args = Some q -> (User.lib q).1 = id.
Proof.
  destruct args as [[a0 a1] a2]. unfold Kernel.syscall.
  repeat (match goal with |- (if ?b then _ else _) = _ -> _ => destruct b eqn:?E; [apply Z.eqb_eq in E; subst; by intros [= <-]|clear E] end). done.
Qed.

(** A lookup through the registers written by [User.syscall]. *)
Ltac svc_lookup :=
  repeat first [rewrite list_lookup_insert_eq by (rewrite ?length_insert; lia); reflexivity
               |rewrite list_lookup_insert_ne by lia].

Lemma svc_decode tf id a0 a1 a2 :
  r tf !! 8%nat = Some id -> r tf !! 0%nat = Some a0 -> r tf !! 1%nat = Some a1 -> r tf !! 2%nat = Some a2 ->
  Kernel.handle_sync_exception Kernel.SVC64 tf =
    Ok (match Kernel.syscall id (a0, a1, a2) with Some q => Kernel.Do q | None => Kernel.KillTask (-1) end).
Proof. intros H8 H0 H1 H2. unfold Kernel.handle_sync_exception. by rewrite H8, H0, H1, H2. Qed.

(** C17: User library and kernel agree on every system call: the operation that the kernel
    takes out of the trap frame is the one the library was called for, with its
    arguments (negative numbers and flags survive the way through registers); the
    result comes back as it was; every number the kernel knows is the library's number
    for that operation; and any other number kills the task. *)
Theorem syscall_abi q tf : request_ok q -> length (r tf) = 31%nat ->
  let tf' := User.syscall tf (User.lib q) in
  Kernel.handle_sync_exception Kernel.SVC64 tf' = Ok (Kernel.Do q) /\
  (forall ret, is_isize ret -> User.ret (Kernel.return_value tf' ret) = Ok ret) /\
  (forall i, i <> 0%nat -> i <> 1%nat -> i <> 2%nat -> i <> 8%nat -> r tf' !! i = r tf !! i) /\
  (forall id args q', Kernel.syscall id args = Some q' -> (User.lib q').1 = id) /\
  (forall tf2 id, r tf2 !! 8%nat = Some id -> length (r tf2) = 31%nat -> (forall q', (User.lib q').1 <> id) ->
    Kernel.handle_sync_exception Kernel.SVC64 tf2 = Ok (Kernel.KillTask (-1))).
Proof.
  intros Hq Hl tf'. pose proof (decode_lib q Hq) as Hd. unfold tf', User.syscall.
  destruct (User.lib q) as [id [[a0 a1] a2]] eqn:El. cbn [fst snd] in Hd. split_and!.
  - rewrite (svc_decode _ id a0 a1 a2) by (cbn [r set_r]; svc_lookup). by rewrite Hd.
  - intros ret Hr. unfold User.ret, Kernel.return_value. cbn [r set_r].
    rewrite list_lookup_insert_eq by (rewrite !length_insert; lia). cbn [unwrap mbind res_bind]. by rewrite as_isize_u64.
  - intros i H0 H1 H2 H8. cbn [r set_r]. by rewrite !list_lookup_insert_ne by done.
  - intros id' args q'. apply decode_range.
  - intros tf2 id2 Hid Hl2 Hno.
    destruct (lookup_lt_is_Some_2 (r tf2) 0) as [b0 H0]; [lia|]. destruct (lookup_lt_is_Some_2 (r tf2) 1) as [b1 H1]; [lia|].
    destruct (lookup_lt_is_Some_2 (r tf2) 2) as [b2 H2]; [lia|]. rewrite (svc_decode _ id2 b0 b1 b2) by done.
    destruct (Kernel.syscall id2 (b0, b1, b2)) as [q'|] eqn:E; [|done]. by apply decode_range in E; destruct (Hno q').
Qed.

Lemma syscall_abi_witness :
  Kernel.handle_sync_exception Kernel.SVC64 (User.syscall (TF_new_user 4096 8192) (User.lib (WaitPid (-1) 4000))) =
    Ok (Kernel.Do (WaitPid (-1) 4000)) /\ User.ret (Kernel.return_value (User.syscall (TF_new_user 4096 8192) (User.lib (WaitPid (-1) 4000))) (-2)) = Ok (-2).
Proof.
  destruct (syscall_abi (WaitPid (-1) 4000) (TF_new_user 4096 8192)) as (H1 & H2 & _).
  - unfold request_ok, is_isize, is_usize. lia.
  - reflexivity.
  - split; [exact H1|]. apply H2. unfold is_isize. lia.
Defined.
