(* ===== verification/KernelSpace.v ===== *)
(** Memory at boot (os/src/mm/mod.rs, os/src/mm/memory_set.rs, os/src/mm/frame_allocator.rs,
    os/src/arch/aarch64/entry.rs): the boot page table, the frame allocator's range, and
    the kernel's own address space, a linear map of the kernel image, of the remaining
    memory and of the devices. *)
From S2P Require Import Prelude ByteCodec Address Allocator State PageEntry PageTable BTree MemorySet AddressSpace UserSpace Spin.

From Stdlib Require Import ZifyNat.
#[local] Ltac Zify.zify_post_hook ::= Z.to_euclidean_division_equations.

(** ** The kernel's own symbols *)

(** Addresses that os/src/linker.ld defines. *)
Record Symbols := mkSyms {
  stext : Z; etext : Z; srodata : Z; erodata : Z; sdata : Z; edata : Z;
  boot_stack : Z; boot_stack_top : Z; sbss : Z; ebss : Z; ekernel : Z;
}.

Definition MMIO_REGIONS : list (Z * Z) :=
  [(0x0a000000, 0x1000); (0x09000000, 0x1000); (0x08000000, 0x20000)].

Record Kernel := mkKernel {
  k_mem : Mem;
  KERNEL_SPACE : LazyInit MemorySet;
  TTBR0_EL1 : Z;
  TTBR1_EL1 : Z;
}.

(** ** Boot page table *)

(** [init_boot_page_table] on the two tables; [l1] is the address of the second. *)
Definition init_boot_page_table (l1 : Z) (tables : list Z * list Z) : res (list Z * list Z) :=
  let '(BOOT_PT_L0, BOOT_PT_L1) := tables in
  BOOT_PT_L0 ← vset BOOT_PT_L0 0 (pte_new_table (PhysAddr_new l1));
  BOOT_PT_L1 ← vset BOOT_PT_L1 0 (pte_new_page (PhysAddr_new 0)
    (Z.lor (Z.lor MemFlags.READ MemFlags.WRITE) MemFlags.DEVICE) true);
  BOOT_PT_L1 ← vset BOOT_PT_L1 1 (pte_new_page (PhysAddr_new 0x40000000)
    (Z.lor (Z.lor (Z.lor MemFlags.READ MemFlags.WRITE) MemFlags.READ) MemFlags.EXECUTE) true);
  Ok (BOOT_PT_L0, BOOT_PT_L1).
Definition boot_tables : list Z * list Z := (replicate 512 0, replicate 512 0).

(** ** Frames *)

Definition init_frame_allocator (s : Symbols) (a : FreeListAllocator) : FreeListAllocator :=
  let start_paddr := align_up (PhysAddr_new (virt_to_phys (ekernel s))) PAGE_SIZE in
  let end_paddr := align_down (PhysAddr_new MEMORY_END) PAGE_SIZE in
  FreeList_init a (start_paddr / PAGE_SIZE) (end_paddr / PAGE_SIZE).

(** ** Kernel address space *)

(** The closure [map_range] of [init_paging]. *)
Definition map_range (ms : MemorySet) (start end_ flags : Z) : st Mem MemorySet :=
  _ ← slift (rassert (start <? end_));
  sva ← slift (VirtAddr_new start);
  _ ← slift (rassert (is_aligned sva PAGE_SIZE));
  eva ← slift (VirtAddr_new end_);
  _ ← slift (rassert (is_aligned eva PAGE_SIZE));
  area ← slift (new_offset sva (PhysAddr_new (virt_to_phys start)) (usize (end_ - start)) flags);
  MemorySet_insert ms area.

Fixpoint map_mmio (ms : MemorySet) (l : list (Z * Z)) : st Mem MemorySet :=
  match l with
  | [] => mret ms
  | (base, size) :: l =>
      ms ← map_range ms (phys_to_virt base) (phys_to_virt (base + size))
        (Z.lor (Z.lor MemFlags.READ MemFlags.WRITE) MemFlags.DEVICE);
      map_mmio ms l
  end.

Definition kernel_space (s : Symbols) : st Mem MemorySet :=
  ms ← MemorySet_new;
  ms ← map_range ms (stext s) (etext s) (Z.lor MemFlags.READ MemFlags.EXECUTE);
  ms ← map_range ms (srodata s) (erodata s) MemFlags.READ;
  ms ← map_range ms (sdata s) (edata s) (Z.lor MemFlags.READ MemFlags.WRITE);
  ms ← map_range ms (sbss s) (ebss s) (Z.lor MemFlags.READ MemFlags.WRITE);
  ms ← map_range ms (boot_stack s) (boot_stack_top s) (Z.lor MemFlags.READ MemFlags.WRITE);
  ms ← map_range ms (ekernel s) (phys_to_virt MEMORY_END) (Z.lor MemFlags.READ MemFlags.WRITE);
  map_mmio ms MMIO_REGIONS.

Definition activate_paging (page_table_root : Z) (is_kernel : bool) (k : Kernel) : Kernel :=
  if is_kernel then mkKernel (k_mem k) (KERNEL_SPACE k) (TTBR0_EL1 k) page_table_root
  else mkKernel (k_mem k) (KERNEL_SPACE k) page_table_root (TTBR1_EL1 k).

Definition init_paging (s : Symbols) (k : Kernel) : res Kernel :=
  '(ms, m) ← kernel_space s (k_mem k);
  let page_table_root := root_paddr (pt ms) in
  c ← init_by (KERNEL_SPACE k) ms;
  let k := mkKernel m c (TTBR0_EL1 k) (TTBR1_EL1 k) in
  Ok (activate_paging 0 false (activate_paging page_table_root true k)).

(** [mm::init], after the heap. *)
Definition mm_init (s : Symbols) (k : Kernel) : res Kernel :=
  let m := k_mem k in
  let m := mkMem (init_frame_allocator s (frames m)) (ram m) in
  init_paging s (mkKernel m (KERNEL_SPACE k) (TTBR0_EL1 k) (TTBR1_EL1 k)).

(** [pt.query(va).unwrap().1.contains(flag)] on the kernel's space. *)
Definition query_has (k : Kernel) (va flag : Z) : res bool :=
  ms ← get (KERNEL_SPACE k);
  '(o, _) ← PageTable_query (pt ms) va (k_mem k);
  x ← unwrap o;
  Ok (contains x.2 flag).
Definition middle (start end_ : Z) : res Z := VirtAddr_new (usize (start + usize (end_ - start) / 2)).
Definition remap_test (s : Symbols) (k : Kernel) : res unit :=
  mid_text ← middle (stext s) (etext s);
  mid_rodata ← middle (srodata s) (erodata s);
  mid_data ← middle (sdata s) (edata s);
  mmio ← unwrap (head MMIO_REGIONS);
  mid_mmio ← VirtAddr_new (phys_to_virt mmio.1);
  w ← query_has k mid_text MemFlags.WRITE;
  _ ← rassert (negb w);
  x ← query_has k mid_rodata MemFlags.EXECUTE;
  _ ← rassert (negb x);
  d ← query_has k mid_mmio MemFlags.DEVICE;
  rassert d.

(** ** What is mapped *)

(** A range of virtual addresses and its flags. *)
Abbreviation region := (Z * Z * Z)%type.
Definition in_region (va : Z) (r : region) : bool := (r.1.1 <=? va) && (va <? r.1.2).
(** The translation the regions describe. *)
Definition linear (R : list region) (va : Z) : option (Z * Z) :=
  match List.find (in_region va) R with
  | Some r => Some (va - PHYS_VIRT_OFFSET, r.2)
  | None => None
  end.

Definition RX : Z := Z.lor MemFlags.READ MemFlags.EXECUTE.
Definition RW : Z := Z.lor MemFlags.READ MemFlags.WRITE.
Definition RWD : Z := Z.lor RW MemFlags.DEVICE.
Definition kernel_regions (s : Symbols) : list region :=
  [(stext s, etext s, RX); (srodata s, erodata s, MemFlags.READ); (sdata s, edata s, RW);
   (sbss s, ebss s, RW); (boot_stack s, boot_stack_top s, RW); (ekernel s, phys_to_virt MEMORY_END, RW)] ++
  ((fun x => (phys_to_virt x.1, phys_to_virt (x.1 + x.2), RWD)) <$> MMIO_REGIONS).

(** The layout of the linker script: page-aligned sections in this order from the load
    address on, none of them empty, with room for the page tables behind the image. *)
Definition page_aligned (a : Z) : Prop := a `mod` 4096 = 0.
Record linked (s : Symbols) : Prop := {
  ln_order : 0xffff000040080000 <= stext s < etext s /\ etext s <= srodata s < erodata s /\
    erodata s <= sdata s < edata s /\ edata s <= boot_stack s < boot_stack_top s /\
    boot_stack_top s <= sbss s < ebss s /\ ebss s <= ekernel s;
  ln_aligned : Forall page_aligned [stext s; etext s; srodata s; erodata s; sdata s; edata s;
    boot_stack s; boot_stack_top s; sbss s; ebss s; ekernel s];
  ln_room : ekernel s + 1031 * 4096 <= PHYS_VIRT_OFFSET + MEMORY_END;
}.

Lemma linear_snoc R r va :
  linear (R ++ [r]) va =
  match linear R va with
  | Some x => Some x
  | None => if in_region va r then Some (va - PHYS_VIRT_OFFSET, r.2) else None
  end.
Proof.
  unfold linear. induction R as [|r' R IH]; cbn [app List.find]; [by destruct (in_region va r)|].
  by destruct (in_region va r').
Qed.

Lemma in_region_spec va r : BoolSpec (r.1.1 <= va < r.1.2) (~ (r.1.1 <= va < r.1.2)) (in_region va r).
Proof. unfold in_region. destruct (Z.leb_spec (r.1.1) va), (Z.ltb_spec va (r.1.2)); constructor; lia. Qed.

(** ** Tables the kernel needs *)

(** Physical addresses below 2 GiB use one table of each of the first two levels, two
    of the third and at most 1024 of the last. *)
Definition table_paths : list (list Z) :=
  [[]; [0]; [0; 0]; [0; 1]] ++ ((fun j => [0; 0; j]) <$> seqZ 0 512) ++ ((fun j => [0; 1; j]) <$> seqZ 0 512).

Lemma kernel_index pa : 0 <= pa < 2 ^ 31 ->
  p4_index (pa + PHYS_VIRT_OFFSET) = 0 /\ (p3_index (pa + PHYS_VIRT_OFFSET) = 0 \/ p3_index (pa + PHYS_VIRT_OFFSET) = 1) /\
  vpn (pa + PHYS_VIRT_OFFSET) = pa / 4096.
Proof.
  intros Hpa. unfold p4_index, p3_index, vpn. change (ENTRY_COUNT - 1) with (Z.ones 9).
  rewrite !Z.land_ones, !Z.shiftr_div_pow2 by lia. unfold PHYS_VIRT_OFFSET.
  replace (pa + 0xffff000000000000) with (pa + 0x1fffe00 * 2 ^ 39) by lia.
  rewrite Z.div_add by lia. replace (0x1fffe00 * 2 ^ 39) with (0x3fffc0000 * 2 ^ (12 + 18)) by lia.
  rewrite Z.div_add by lia. split_and!; lia.
Qed.

Lemma kernel_path pa q : 0 <= pa < 2 ^ 31 -> q `prefix_of` vpath (pa + PHYS_VIRT_OFFSET) -> q ∈ table_paths.
Proof.
  intros Hpa [t E]. destruct (kernel_index pa Hpa) as (H4 & H3 & _).
  destruct (index_range (pa + PHYS_VIRT_OFFSET)) as (_ & _ & R2 & _).
  unfold vpath in E. rewrite H4 in E. revert R2 E. generalize (p2_index (pa + PHYS_VIRT_OFFSET)). intros j Hj E.
  assert (j ∈ seqZ 0 512) as Hin by (apply elem_of_seqZ; lia).
  unfold table_paths. rewrite !elem_of_app, !list_elem_of_fmap.
  rewrite !elem_of_cons.
  destruct q as [|a [|b [|c [|d q]]]]; simplify_eq/=; destruct H3 as [H3 | H3]; rewrite ?H3; naive_solver.
Qed.

Lemma table_count (T : tree) : (forall q, is_Some (T !! q) -> q ∈ table_paths) -> Z.of_nat (size T) <= 1028.
Proof.
  intros HT. rewrite <- size_dom. assert (dom T ⊆ list_to_set table_paths) as Hsub.
  { intros q Hq%elem_of_dom. rewrite elem_of_list_to_set. auto. }
  apply subseteq_size in Hsub. rewrite size_list_to_set in Hsub.
  - change (length table_paths) with 1028%nat in Hsub. lia.
  - apply (bool_decide_eq_true_1 (NoDup table_paths)). by vm_compute.
Qed.

(** ** Mapping regions *)

Record kspace_at (n : Z) (m : Mem) (p : PageTable) (R : list region) (T : tree) (A : gmap Z (Z * Z)) : Prop := {
  ks_mem : mem_ok m;
  ks_pt : pt_rel m p T A;
  ks_map key : A !! key = linear R (key * 4096 + PHYS_VIRT_OFFSET);
  ks_paths q : is_Some (T !! q) -> q ∈ table_paths;
  ks_count : spare m + Z.of_nat (size T) = n;
}.
(** [m] holds the page table [p], which maps exactly [R], and [n] frames that are free
    or hold one of its tables. *)
Definition kspace n m p R : Prop := exists T A, kspace_at n m p R T A.

Record region_ok (R : list region) (r : region) : Prop := {
  rg_range : PHYS_VIRT_OFFSET <= r.1.1 < r.1.2 /\ r.1.2 <= PHYS_VIRT_OFFSET + 2 ^ 31;
  rg_aligned : page_aligned r.1.1 /\ page_aligned r.1.2;
  rg_flags : is_flags r.2;
  rg_apart va : r.1.1 <= va < r.1.2 -> linear R va = None;
}.

Lemma map_offset_page n m p R s va e fl : region_ok R (s, e, fl) -> 1031 <= n ->
  kspace n m p (R ++ [(s, va, fl)]) -> s <= va < e -> page_aligned va ->
  swp (PageTable_map p va (va - PHYS_VIRT_OFFSET) fl) m (fun p' m' => kspace n m' p' (R ++ [(s, va + 4096, fl)])).
Proof.
  intros [Hr [Ha _] Hfl Hap] Hn (T & A & [Hm Hpt Hmap Hpaths Hc]) Hva Hal. unfold page_aligned in *. simpl in *.
  pose proof (table_count T Hpaths) as Hsz. set (pa := va - PHYS_VIRT_OFFSET).
  assert (0 <= pa < 2 ^ 31) as Hpa by (unfold pa; lia).
  destruct (kernel_index pa Hpa) as (_ & _ & Hvpn). replace (pa + PHYS_VIRT_OFFSET) with va in Hvpn by (unfold pa; lia).
  assert (PHYS_VIRT_OFFSET `mod` 4096 = 0) as Ho by reflexivity.
  assert (pa / 4096 * 4096 + PHYS_VIRT_OFFSET = va) as Hback by (unfold pa; lia).
  eapply swp_mono; [apply (PageTable_map_spec m p T A va pa fl)|]; [done|done|lia|unfold PHYS_VIRT_OFFSET in *; lia|lia|done| |].
  - rewrite Hvpn, Hmap, Hback, linear_snoc, (Hap va Hva). destruct (in_region_spec va (s, va, fl)); simpl in *; [lia|done].
  - intros p' m' (T' & Hpt' & _ & _ & Hnew & Hk). exists T', (<[vpn va := (align_down pa PAGE_SIZE, fl)]> A).
    split; [apply Hk|done| | |pose proof (pk_spare _ _ _ _ Hk); lia].
    + intros key. rewrite Hvpn, align_down_eq by lia. destruct (decide (key = pa / 4096)) as [->|Hne].
      * rewrite lookup_insert_eq, Hback, linear_snoc, (Hap va Hva).
        destruct (in_region_spec va (s, va + 4096, fl)); simpl in *; [|lia]. do 2 f_equal. unfold pa in *. lia.
      * rewrite lookup_insert_ne, Hmap, !linear_snoc by done. destruct (linear R _); [done|].
        destruct (in_region_spec (key * 4096 + PHYS_VIRT_OFFSET) (s, va, fl)),
          (in_region_spec (key * 4096 + PHYS_VIRT_OFFSET) (s, va + 4096, fl)); simpl in *; try done; exfalso; unfold pa in *; lia.
    + intros q [Hq|Hq]%Hnew; [auto|]. apply (kernel_path pa); [done|]. by replace (pa + PHYS_VIRT_OFFSET) with va by (unfold pa; lia).
Qed.

Lemma map_offset_loop n R s e fl : region_ok R (s, e, fl) -> 1031 <= n -> forall k fuel m p va,
  (k < fuel)%nat -> s <= va -> va + Z.of_nat k * 4096 = e -> page_aligned va -> kspace n m p (R ++ [(s, va, fl)]) ->
  let a := mkArea s (e - s) fl (Offset PHYS_VIRT_OFFSET) in
  swp (map_area_loop fuel p a va e) m (fun '(p', a') m' => kspace n m' p' (R ++ [(s, e, fl)])).
Proof.
  intros Hok Hn k. pose proof Hok as [Hr Hal _ _]. unfold page_aligned in *. simpl in Hr, Hal.
  induction k as [|k IH]; intros fuel m p va Hf Hs Hk Ha Hks; (destruct fuel as [|fuel]; [lia|]); cbn [map_area_loop].
  - rewrite (proj2 (Z.ltb_ge _ _)) by lia. apply swp_ret. by replace e with va by lia.
  - rewrite (proj2 (Z.ltb_lt _ _)) by lia. unfold PHYS_VIRT_OFFSET in Hr. eapply swp_lift_bind.
    { rewrite VirtAddr_new_eq by lia. by rewrite (proj2 (Z.leb_le _ va)), orb_true_r by lia. }
    apply swp_bind. unfold MapArea_map. eapply swp_lift_bind.
    { rewrite is_aligned_eq by lia. by rewrite (proj2 (Z.eqb_eq _ _)) by done. }
    apply swp_ret. cbn beta iota. unfold PHYS_VIRT_OFFSET. rewrite (u64_small (va - _)), PhysAddr_new_eq by lia.
    apply swp_bind. eapply swp_mono; [apply (map_offset_page n m p R s va e fl); try done; lia|].
    intros p1 m1 Hks1. cbn beta. rewrite u64_small by (unfold PAGE_SIZE; lia).
    apply IH; [lia|unfold PAGE_SIZE; lia|unfold PAGE_SIZE; lia|unfold PAGE_SIZE; lia|done].
Qed.

(** The areas of the set so far are those of the regions. *)
Definition area_keys (ms : MemorySet) (R : list region) : Prop := (areas ms).*1 ≡ₚ R.*1.*1.

Lemma area_keys_free ms R s e fl : area_keys ms R -> region_ok R (s, e, fl) -> Forall (fun r => r.1.1 < r.1.2) R ->
  bt_lookup s (areas ms) = None.
Proof.
  intros Hk [Hr _ _ Hap] HR. apply bt_lookup_None. rewrite Hk. intros (x & -> & Hx)%list_elem_of_fmap.
  apply list_elem_of_fmap in Hx as (r & -> & Hin). simpl in *. rewrite Forall_forall in HR. specialize (HR r Hin).
  specialize (Hap (r.1.1) ltac:(lia)). unfold linear in Hap. destruct (List.find _ R) as [r'|] eqn:E; [done|].
  apply list_elem_of_In in Hin. pose proof (List.find_none _ _ E r Hin) as Hno.
  destruct (in_region_spec (r.1.1) r); [done|lia].
Qed.

Record mapped (n : Z) (R : list region) (ms : MemorySet) (m : Mem) : Prop := {
  mp_space : kspace n m (pt ms) R;
  mp_keys : area_keys ms R;
  mp_sane : Forall (fun r => r.1.1 < r.1.2) R;
}.

Lemma map_range_spec n R ms m s e fl : mapped n R ms m -> region_ok R (s, e, fl) -> 1031 <= n ->
  swp (map_range ms s e fl) m (fun ms' m' => mapped n (R ++ [(s, e, fl)]) ms' m').
Proof.
  intros [Hks Hkeys Hsane] Hok Hn. pose proof Hok as [Hr [Ha1 Ha2] Hfl Hap]. unfold page_aligned, PHYS_VIRT_OFFSET in *. simpl in *.
  assert (forall v, s <= v <= e -> v < 2 ^ 64 /\ VirtAddr_new v = Ok v) as Hva.
  { intros v Hv. split; [lia|]. rewrite VirtAddr_new_eq by lia. by rewrite (proj2 (Z.leb_le _ v)), orb_true_r by lia. }
  unfold map_range. eapply swp_lift_bind; [by rewrite (proj2 (Z.ltb_lt _ _)) by lia|].
  eapply swp_lift_bind; [apply Hva; lia|]. eapply swp_lift_bind; [rewrite is_aligned_eq by lia; by rewrite (proj2 (Z.eqb_eq _ _))|].
  eapply swp_lift_bind; [apply Hva; lia|]. eapply swp_lift_bind; [rewrite is_aligned_eq by lia; by rewrite (proj2 (Z.eqb_eq _ _))|].
  assert (PhysAddr_new (virt_to_phys s) = s - 0xffff000000000000) as Epa.
  { unfold virt_to_phys, PHYS_VIRT_OFFSET. rewrite u64_small, PhysAddr_new_eq; lia. }
  rewrite Epa, (u64_small (e - s)) by lia. eapply swp_lift_bind.
  { unfold new_offset. rewrite !is_aligned_eq by lia. rewrite !(proj2 (Z.eqb_eq _ _)) by lia.
    rewrite u64_small by lia. replace (s - (s - 0xffff000000000000)) with PHYS_VIRT_OFFSET by (unfold PHYS_VIRT_OFFSET; lia). done. }
  unfold MemorySet_insert. cbn [area_size start]. rewrite (proj2 (Z.ltb_lt _ _)) by (apply usize_not_pos; lia).
  pose proof (area_keys_free _ _ _ _ _ Hkeys Hok Hsane) as Hfree. rewrite Hfree.
  unfold map_area. cbn [area_size start]. replace (s + (e - s)) with e by lia. rewrite (u64_small e) by lia.
  apply swp_bind. eapply swp_mono.
  { apply (map_offset_loop n R s e fl Hok Hn (Z.to_nat ((e - s) / 4096))); [unfold area_fuel, PAGE_SIZE; simpl; lia|lia|lia|done|].
    destruct Hks as (T & A & [Hm Hpt Hmap Hp Hc]). exists T, A. split; auto. intros key. rewrite Hmap, linear_snoc.
    destruct (linear R _); [done|]. destruct (in_region_spec (key * 4096 + PHYS_VIRT_OFFSET) (s, s, fl)); [simpl in *; lia|done]. }
  intros [p' a'] m' Hks'. apply swp_ret. split; [done| |].
  - unfold area_keys. cbn [areas]. rewrite bt_insert_perm by done. rewrite !fmap_app. cbn [fmap list_fmap fst].
    rewrite <- Permutation_cons_append. by apply perm_skip.
  - apply Forall_app. split; [done|]. repeat constructor. simpl. lia.
Qed.

Lemma linear_none R va : Forall (fun r => ~ (r.1.1 <= va < r.1.2)) R -> linear R va = None.
Proof.
  unfold linear. induction 1 as [|r R Hr _ IH]; cbn [List.find]; [done|].
  destruct (in_region_spec va r); [done|]. exact IH.
Qed.

Lemma linear_some R va x : linear R va = Some x ->
  exists r, r ∈ R /\ r.1.1 <= va < r.1.2 /\ x = (va - PHYS_VIRT_OFFSET, r.2).
Proof.
  unfold linear. destruct (List.find (in_region va) R) as [r|] eqn:E; [|done]. intros [= <-].
  apply List.find_some in E as [Hin Hr]. exists r. split; [by apply list_elem_of_In|].
  destruct (in_region_spec va r); [by split|done].
Qed.

(** Regions of whole pages translate byte by byte as they do page by page. *)
Lemma linear_page R va : Forall (fun r => page_aligned r.1.1 /\ page_aligned r.1.2) R ->
  linear R va = (fun x => (x.1 + va `mod` 4096, x.2)) <$> linear R (va / 4096 * 4096).
Proof.
  unfold linear, page_aligned. induction 1 as [|r R [Ha1 Ha2] _ IH]; cbn [List.find]; [done|].
  destruct (in_region_spec va r), (in_region_spec (va / 4096 * 4096) r); [|lia|lia|exact IH].
  simpl. do 2 f_equal. lia.
Qed.

(** ** The whole start-up *)

Lemma phys_to_virt_eq pa : 0 <= pa < 2 ^ 48 -> phys_to_virt pa = pa + PHYS_VIRT_OFFSET.
Proof. intros. unfold phys_to_virt, PHYS_VIRT_OFFSET. apply u64_small. lia. Qed.

#[local] Ltac Zify.zify_post_hook ::= idtac.

(** The regions are well formed and apart from each other. *)
Lemma regions_ok s : linked s -> forall i r, kernel_regions s !! i = Some r -> region_ok (take i (kernel_regions s)) r.
Proof.
  intros [Ho Hal Hroom]. rewrite !Forall_cons in Hal. unfold PHYS_VIRT_OFFSET, MEMORY_END, MEMORY_START in Hroom.
  unfold kernel_regions, MMIO_REGIONS. cbn [fmap list_fmap fst snd app]. rewrite !phys_to_virt_eq by (unfold MEMORY_END, MEMORY_START; lia).
  unfold PHYS_VIRT_OFFSET, MEMORY_END, MEMORY_START. intros i r Hi.
  do 9 (destruct i as [|i]; [injection Hi as <-; cbn [take]; split; cbn [fst snd];
    [unfold PHYS_VIRT_OFFSET; lia|split; first [tauto|reflexivity]|unfold is_flags; by vm_compute|
     intros va ?; apply linear_none; repeat (apply List.Forall_cons; [cbn [fst snd]; lia|]); apply List.Forall_nil]|]).
  done.
Qed.

(** One call of [map_range]. *)
Ltac map_region Hsp Hreg H H' :=
  apply swp_bind; eapply swp_mono; [apply (map_range_spec _ _ _ _ _ _ _ H Hreg Hsp)|]; intros ? ? H'.

Lemma kernel_space_spec s m : linked s -> mem_ok m -> 1031 <= spare m ->
  swp (kernel_space s) m (fun ms m' => mapped (spare m) (kernel_regions s) ms m').
Proof.
  intros Hs Hm Hsp. unfold kernel_space. apply swp_bind. unfold MemorySet_new. apply swp_bind.
  eapply swp_mono; [apply PageTable_new_spec; [done|lia]|]. intros p m1 (r & Hr & -> & Hto & Hpt). apply swp_ret.
  assert (mapped (spare m) [] (mkMS (mkPT (r * 4096) [r * 4096]) []) m1) as H0.
  { split; [|unfold area_keys; cbn; reflexivity|constructor]. exists {[ [] := r ]}, ∅. split; [apply Hto|done|done| |].
    - intros q [x [<- _]%lookup_singleton_Some]. apply elem_of_app. left. by left.
    - rewrite map_size_singleton, (tk_left _ _ _ _ Hto). lia. }
  pose proof (regions_ok s Hs) as Hreg.
  map_region Hsp (Hreg 0%nat _ eq_refl) H0 H1.
  map_region Hsp (Hreg 1%nat _ eq_refl) H1 H2.
  map_region Hsp (Hreg 2%nat _ eq_refl) H2 H3.
  map_region Hsp (Hreg 3%nat _ eq_refl) H3 H4.
  map_region Hsp (Hreg 4%nat _ eq_refl) H4 H5.
  map_region Hsp (Hreg 5%nat _ eq_refl) H5 H6.
  cbn [map_mmio MMIO_REGIONS].
  map_region Hsp (Hreg 6%nat _ eq_refl) H6 H7.
  map_region Hsp (Hreg 7%nat _ eq_refl) H7 H8.
  map_region Hsp (Hreg 8%nat _ eq_refl) H8 H9.
  apply swp_ret. exact H9.
Qed.

(** Memory when the frame allocator has its range. *)
Record ram_present (m : Mem) : Prop := {
  rp_new : frames m = FreeList_empty;
  rp_all f : MEMORY_START <= f * 4096 < MEMORY_END -> is_Some (ram m !! f);
  rp_page : map_Forall (fun _ => is_page) (ram m);
}.

Lemma init_frames s m : linked s -> ram_present m ->
  let a := init_frame_allocator s (frames m) in
  mem_ok (mkMem a (ram m)) /\ 1031 <= avail a /\
  range_start a = (ekernel s - PHYS_VIRT_OFFSET) / 4096 /\ range_end a = MEMORY_END / 4096.
Proof.
  intros [Ho Hal Hroom] [Hn Hall Hpg]. rewrite !Forall_cons in Hal. destruct Hal as (_ & _ & _ & _ & _ & _ & _ & _ & _ & _ & Hal & _).
  rewrite Hn. unfold init_frame_allocator, FreeList_init, FreeList_empty, page_aligned, virt_to_phys, MEMORY_START, PHYS_VIRT_OFFSET in *.
  cbn [free_list range_start range_end frames ram].
  change (align_down (PhysAddr_new MEMORY_END) PAGE_SIZE / PAGE_SIZE) with 0x48000. change (MEMORY_END) with 0x48000000 in *.
  rewrite (u64_small (ekernel s - _)), PhysAddr_new_eq, align_up_eq by lia. unfold PAGE_SIZE.
  set (pa := ekernel s - 0xffff000000000000). assert (0x40080000 <= pa <= 0x48000000 - 1031 * 4096) as Hpa by (unfold pa; lia).
  assert ((pa + 4095) / 4096 * 4096 / 0x1000 = pa / 4096 /\ pa / 4096 * 4096 = pa) as [-> Epa].
  { assert (pa `mod` 4096 = 0); [|split; Z.to_euclidean_division_equations; lia].
    unfold pa. change 0xffff000000000000 with (0xffff000000000 * 4096). by rewrite Zminus_mod, Z_mod_mult, Z.sub_0_r, Z.mod_mod. }
  split_and!; [|unfold avail; simpl; lia|done|done].
  split; cbn [frames ram range_start range_end]; [|lia| |done].
  - split; simpl; [lia|lia|apply NoDup_nil_2|constructor].
  - intros f Hf. apply Hall. lia.
Qed.

(** What the boot table says of [va], with the accessors of its entries. *)
Definition boot_lookup (tables : list Z * list Z) (va : Z) : option (bool * Z * res Z) :=
  e0 ← tables.1 !! Z.to_nat (p4_index va);
  if is_present e0 && negb (is_block e0) then
    e1 ← tables.2 !! Z.to_nat (p3_index va);
    Some (is_block e1, pte_paddr e1 + va `mod` 2 ^ 30, pte_flags e1)
  else None.

Lemma kernel_p3 pa : 0 <= pa < 2 ^ 31 -> p3_index (pa + PHYS_VIRT_OFFSET) = pa / 2 ^ 30.
Proof.
  intros Hpa. unfold p3_index. change (ENTRY_COUNT - 1) with (Z.ones 9). rewrite Z.land_ones, Z.shiftr_div_pow2 by lia.
  change PHYS_VIRT_OFFSET with (0x3fffc0000 * 2 ^ (12 + 18)). rewrite Z.div_add by lia.
  Z.to_euclidean_division_equations. lia.
Qed.

(** The boot table maps the first GiB as device memory, the second as normal memory. *)
Lemma boot_table_spec l1 : page_aligned l1 -> exists t, init_boot_page_table l1 boot_tables = Ok t /\
  forall pa, 0 <= pa < 2 ^ 31 -> boot_lookup t (pa + PHYS_VIRT_OFFSET) =
    Some (true, pa, Ok (if pa <? 2 ^ 30 then RWD else Z.lor RW MemFlags.EXECUTE)).
Proof.
  intros Hl1. eexists (<[0%nat := pte_new_table (PhysAddr_new l1)]> (replicate 512 0), _). split; [reflexivity|].
  intros pa Hpa. destruct (kernel_index pa Hpa) as (E4 & _ & _). unfold boot_lookup. cbn [fst snd].
  rewrite E4, kernel_p3, list_lookup_insert_eq by (done || (rewrite length_replicate; lia)). cbn [mbind option_bind].
  destruct (pte_table (PhysAddr_new l1)) as (_ & -> & -> & _); [apply PhysAddr_new_range| |].
  { unfold PhysAddr_new. change PA_MAX with (Z.ones 40). rewrite Z.land_ones by lia. unfold page_aligned in Hl1.
    Z.to_euclidean_division_equations. lia. }
  cbn [negb andb]. assert ((pa + PHYS_VIRT_OFFSET) `mod` 2 ^ 30 = pa `mod` 2 ^ 30) as ->.
  { change PHYS_VIRT_OFFSET with (0x3fffc0000 * 2 ^ 30). apply Z_mod_plus_full. }
  destruct (Z.ltb_spec pa (2 ^ 30)).
  - rewrite Z.div_small, Z.mod_small by lia. reflexivity.
  - replace (pa / 2 ^ 30) with 1 by (Z.to_euclidean_division_equations; lia).
    replace (pa `mod` 2 ^ 30) with (pa - 2 ^ 30) by (Z.to_euclidean_division_equations; lia).
    transitivity (Some (true, 2 ^ 30 + (pa - 2 ^ 30), Ok (Z.lor RW MemFlags.EXECUTE))); [reflexivity|]. do 3 f_equal. lia.
Qed.

(** Rights of each region. *)
Lemma kernel_rights s va pa fl : linked s -> linear (kernel_regions s) va = Some (pa, fl) ->
  pa = va - PHYS_VIRT_OFFSET /\ 0 <= pa < 2 ^ 31 /\ contains fl MemFlags.USER = false /\
  contains fl MemFlags.READ = true /\
  (contains fl MemFlags.EXECUTE = true -> contains fl MemFlags.WRITE = false /\ stext s <= va < etext s) /\
  (if pa <? 2 ^ 30 then fl = RWD else contains (Z.lor RW MemFlags.EXECUTE) fl = true).
Proof.
  intros Hs (r & Hin & Hva & [= -> ->])%linear_some. apply list_elem_of_lookup in Hin as [i Hi].
  pose proof (regions_ok s Hs i r Hi) as [Hr _ _ _]. split; [done|]. split; [lia|].
  pose proof (ln_order s Hs) as Ho. unfold kernel_regions, MMIO_REGIONS in Hi. cbn [fmap list_fmap fst snd app] in Hi.
  rewrite !phys_to_virt_eq in Hi by (unfold MEMORY_END, MEMORY_START; lia). unfold PHYS_VIRT_OFFSET in *.
  do 6 (destruct i as [|i]; [injection Hi as <-; cbn [fst snd] in *; split_and!; [done|done|done|];
    rewrite (proj2 (Z.ltb_ge _ _)) by lia; reflexivity|]).
  do 3 (destruct i as [|i]; [injection Hi as <-; cbn [fst snd] in *; split_and!; [done|done|done|];
    rewrite (proj2 (Z.ltb_lt _ _)) by lia; reflexivity|]). done.
Qed.

Lemma regions_aligned s : linked s -> Forall (fun r => page_aligned r.1.1 /\ page_aligned r.1.2) (kernel_regions s).
Proof. intros Hs. apply Forall_lookup. intros i r Hi. apply (regions_ok s Hs i r Hi). Qed.

(** Queries of the finished table. *)
Lemma kspace_query R p T A m va : mem_ok m -> pt_rel m p T A ->
  (forall key, A !! key = linear R (key * 4096 + PHYS_VIRT_OFFSET)) -> Forall (fun r => page_aligned r.1.1 /\ page_aligned r.1.2) R ->
  PHYS_VIRT_OFFSET <= va < 2 ^ 64 -> PageTable_query p va m = Ok (linear R va, m).
Proof.
  intros Hm Hpt Hmap Hal Hva.
  destruct (PageTable_query_spec m p T A va Hm Hpt ltac:(unfold PHYS_VIRT_OFFSET in *; lia)) as (o & m' & E & -> & ->).
  rewrite E, Hmap, (linear_page R va Hal). do 5 f_equal. unfold vpn, PHYS_VIRT_OFFSET in *.
  Z.to_euclidean_division_equations. lia.
Qed.

Lemma mapped_query n R ms m va : mapped n R ms m -> Forall (fun r => page_aligned r.1.1 /\ page_aligned r.1.2) R ->
  PHYS_VIRT_OFFSET <= va < 2 ^ 64 -> PageTable_query (pt ms) va m = Ok (linear R va, m).
Proof.
  intros [(T & A & [Hm Hpt Hmap _ _]) _ _] Hal Hva. by eapply kspace_query.
Qed.

Lemma query_has_spec n R ms m k va flag x : get (KERNEL_SPACE k) = Ok ms -> k_mem k = m ->
  mapped n R ms m -> Forall (fun r => page_aligned r.1.1 /\ page_aligned r.1.2) R -> PHYS_VIRT_OFFSET <= va < 2 ^ 64 ->
  linear R va = Some x -> query_has k va flag = Ok (contains x.2 flag).
Proof.
  intros Hg Hk HM Hal Hva Hx. unfold query_has. rewrite Hg, Hk. cbn [mbind res_bind].
  by rewrite (mapped_query n R ms m va HM Hal Hva), Hx.
Qed.

Lemma linear_lookup R i r va : R !! i = Some r -> (forall j r', R !! j = Some r' -> region_ok (take j R) r') ->
  r.1.1 <= va < r.1.2 -> linear R va = Some (va - PHYS_VIRT_OFFSET, r.2).
Proof.
  intros Hi Hok Hva. pose proof (rg_apart _ _ (Hok i r Hi) va Hva) as Hno.
  rewrite <- (take_drop_middle R i r Hi), cons_middle, app_assoc.
  generalize (drop (S i) R). intros R2. revert Hno. generalize (take i R). intros R1 Hno.
  assert (linear (R1 ++ [r]) va = Some (va - PHYS_VIRT_OFFSET, r.2)) as E.
  { rewrite linear_snoc, Hno. by destruct (in_region_spec va r). }
  induction R2 as [|r2 R2 IH] using rev_ind; [by rewrite app_nil_r|]. by rewrite app_assoc, linear_snoc, IH.
Qed.

Lemma middle_in a b : PHYS_VIRT_OFFSET <= a < b -> b < 2 ^ 64 -> exists c, middle a b = Ok c /\ a <= c < b.
Proof.
  intros. unfold middle, PHYS_VIRT_OFFSET in *. rewrite (u64_small (b - a)) by lia.
  assert (a <= a + (b - a) / 2 < b) as Hc by (Z.to_euclidean_division_equations; lia).
  rewrite u64_small by lia. exists (a + (b - a) / 2). split; [|done].
  rewrite VirtAddr_new_eq by lia. by rewrite (proj2 (Z.leb_le _ (a + _))), orb_true_r by lia.
Qed.

Lemma remap_test_spec n s ms k : linked s -> get (KERNEL_SPACE k) = Ok ms -> mapped n (kernel_regions s) ms (k_mem k) ->
  remap_test s k = Ok tt.
Proof.
  intros Hs Hg HM. pose proof (ln_order s Hs) as Ho. pose proof (ln_room s Hs) as Hroom.
  pose proof (regions_ok s Hs) as Hok. pose proof (regions_aligned s Hs) as Hal.
  unfold MEMORY_END, MEMORY_START, PHYS_VIRT_OFFSET in Hroom.
  destruct (middle_in (stext s) (etext s)) as (c1 & E1 & H1); [unfold PHYS_VIRT_OFFSET; lia|lia|].
  destruct (middle_in (srodata s) (erodata s)) as (c2 & E2 & H2); [unfold PHYS_VIRT_OFFSET; lia|lia|].
  destruct (middle_in (sdata s) (edata s)) as (c3 & E3 & _); [unfold PHYS_VIRT_OFFSET; lia|lia|].
  assert (linear (kernel_regions s) 0xffff00000a000000 = Some (0x0a000000, RWD)) as H3.
  { apply (linear_lookup (kernel_regions s) 6 (0xffff00000a000000, 0xffff00000a001000, RWD)); [reflexivity|exact Hok|cbn; lia]. }
  assert (forall va flag x, PHYS_VIRT_OFFSET <= va < 2 ^ 64 -> linear (kernel_regions s) va = Some x ->
    query_has k va flag = Ok (contains x.2 flag)) as Q by (intros; by eapply query_has_spec).
  unfold PHYS_VIRT_OFFSET in Q. unfold remap_test. rewrite E1, E2, E3. cbn [mbind res_bind head MMIO_REGIONS fst unwrap].
  change (VirtAddr_new (phys_to_virt 0x0a000000)) with (Ok 0xffff00000a000000). cbn [mbind res_bind].
  rewrite (Q c1 _ _ ltac:(lia) (linear_lookup (kernel_regions s) 0 (stext s, etext s, RX) _ eq_refl Hok H1)). cbn [mbind res_bind snd].
  rewrite (Q c2 _ _ ltac:(lia) (linear_lookup (kernel_regions s) 1 (srodata s, erodata s, MemFlags.READ) _ eq_refl Hok H2)).
  cbn [mbind res_bind snd]. by rewrite (Q 0xffff00000a000000 _ _ ltac:(lia) H3).
Qed.

Lemma mm_init_spec s k : linked s -> ram_present (k_mem k) -> KERNEL_SPACE k = LazyInit_new ->
  exists k' ms, mm_init s k = Ok k' /\ get (KERNEL_SPACE k') = Ok ms /\ TTBR1_EL1 k' = root_paddr (pt ms) /\ TTBR0_EL1 k' = 0 /\
    mapped (avail (init_frame_allocator s (frames (k_mem k)))) (kernel_regions s) ms (k_mem k') /\ remap_test s k' = Ok tt.
Proof.
  intros Hs Hram Hlazy. destruct (init_frames s (k_mem k) Hs Hram) as (Hm & Hsp & _).
  destruct (kernel_space_spec s _ Hs Hm Hsp) as (ms & m' & Ek & HM).
  exists (mkKernel m' (mkLazy true (Some ms)) 0 (root_paddr (pt ms))), ms. split_and!; [|done|done|done|exact HM|].
  - unfold mm_init, init_paging. cbn [k_mem KERNEL_SPACE]. rewrite Ek, Hlazy. reflexivity.
  - eapply remap_test_spec; [done|reflexivity|exact HM].
Qed.

(** C8: Memory start-up: with the kernel image laid out as the linker script does, [mm::init]
    succeeds, and then the kernel's page table, active in the upper half (the lower
    half is off), translates exactly the kernel's sections, the memory behind
    them and the devices, linearly.  Nothing is accessible to user code, only the text
    section is executable, and it is not writable; every frame the allocator can hand
    out is mapped writable at the address the kernel uses for it; [remap_test] passes;
    and the boot table, active until then, gave the same translation with no
    fewer rights, so that the switch does not disturb the running kernel. *)
Theorem kernel_space_boot s k l1 :
  linked s -> ram_present (k_mem k) -> KERNEL_SPACE k = LazyInit_new -> page_aligned l1 ->
  exists k' ms t, mm_init s k = Ok k' /\ init_boot_page_table l1 boot_tables = Ok t /\
  get (KERNEL_SPACE k') = Ok ms /\ TTBR1_EL1 k' = root_paddr (pt ms) /\ TTBR0_EL1 k' = 0 /\
  (forall va, PHYS_VIRT_OFFSET <= va < 2 ^ 64 ->
    PageTable_query (pt ms) va (k_mem k') = Ok (linear (kernel_regions s) va, k_mem k')) /\
  (forall va pa fl, linear (kernel_regions s) va = Some (pa, fl) ->
    contains fl MemFlags.USER = false /\
    (contains fl MemFlags.EXECUTE = true -> contains fl MemFlags.WRITE = false /\ stext s <= va < etext s) /\
    exists fl', boot_lookup t va = Some (true, pa, Ok fl') /\ contains fl' fl = true) /\
  (forall f, range_start (init_frame_allocator s (frames (k_mem k))) <= f < range_end (init_frame_allocator s (frames (k_mem k))) ->
    linear (kernel_regions s) (f * 4096 + PHYS_VIRT_OFFSET) = Some (f * 4096, RW)) /\
  remap_test s k' = Ok tt.
Proof.
  intros Hs Hram Hlazy Hl1. destruct (init_frames s (k_mem k) Hs Hram) as (_ & _ & Hrs & Hre).
  destruct (boot_table_spec l1 Hl1) as (t & Ht & Hboot). destruct (mm_init_spec s k Hs Hram Hlazy) as (k' & ms & E1 & E2 & E3 & E4 & HM & Hrt).
  exists k', ms, t. split_and!; [done..| | | |done].
  - intros va Hva. eapply mapped_query; [exact HM|by apply regions_aligned|done].
  - intros va pa fl Hl. destruct (kernel_rights s va pa fl Hs Hl) as (-> & Hpa & Hu & _ & Hx & Hfl).
    split_and!; [done|done|]. specialize (Hboot _ Hpa). replace (va - PHYS_VIRT_OFFSET + PHYS_VIRT_OFFSET) with va in Hboot by lia.
    eexists. split; [exact Hboot|]. destruct (_ <? _); [by rewrite Hfl|done].
  - intros f Hf. rewrite Hrs, Hre in Hf. replace (f * 4096) with (f * 4096 + PHYS_VIRT_OFFSET - PHYS_VIRT_OFFSET) at 2 by lia.
    apply (linear_lookup _ 5 (ekernel s, phys_to_virt MEMORY_END, RW)); [done|by apply regions_ok|].
    cbn [fst snd]. rewrite phys_to_virt_eq by (unfold MEMORY_END, MEMORY_START; lia). pose proof (ln_aligned s Hs) as Hal.
    rewrite !Forall_cons in Hal. destruct Hal as (_ & _ & _ & _ & _ & _ & _ & _ & _ & _ & Hal & _). unfold page_aligned in Hal.
    unfold PHYS_VIRT_OFFSET, MEMORY_END, MEMORY_START in *. Z.to_euclidean_division_equations. lia.
Qed.

Definition demo_symbols : Symbols :=
  mkSyms 0xffff000040080000 0xffff0000400a0000 0xffff0000400a0000 0xffff0000400b0000 0xffff0000400b0000 0xffff0000400b4000
    0xffff0000400b4000 0xffff0000400b8000 0xffff0000400b8000 0xffff0000404c0000 0xffff0000404c0000.
Definition demo_ram : gmap Z (list Z) := list_to_map ((fun f => (f, zero_page)) <$> seqZ 0x40000 0x8000).
Definition demo_kernel : Kernel := mkKernel (mkMem FreeList_empty demo_ram) LazyInit_new 0x400b0000 0x400b0000.

Lemma demo_symbols_linked : linked demo_symbols.
Proof. split; [cbn; lia|repeat constructor|by vm_compute]. Qed.

Lemma demo_ram_present : ram_present (k_mem demo_kernel).
Proof.
  split; [done| |]; cbn [k_mem demo_kernel ram]; unfold demo_ram.
  - intros f Hf. exists zero_page. apply elem_of_list_to_map_1'.
    + intros y Hy. apply list_elem_of_fmap in Hy as (g & [= _ ->] & _). done.
    + apply list_elem_of_fmap. exists f. split; [done|]. apply elem_of_seqZ. unfold MEMORY_START, MEMORY_END in Hf. unfold MEMORY_START in Hf. lia.
  - intros f l Hl. apply elem_of_list_to_map_2, list_elem_of_fmap in Hl as (g & [= -> ->] & _). apply zero_page_ok.
Qed.

Lemma kernel_space_boot_witness : exists k', mm_init demo_symbols demo_kernel = Ok k' /\ TTBR0_EL1 k' = 0 /\
  remap_test demo_symbols k' = Ok tt.
Proof.
  destruct (kernel_space_boot demo_symbols demo_kernel 0x400b1000 demo_symbols_linked demo_ram_present eq_refl eq_refl)
    as (k' & ms & t & H1 & _ & _ & _ & H2 & _ & _ & _ & H3).
  exists k'. split; [exact H1|]. split; [exact H2|exact H3].
Defined.
