(* ===== verification/Exec.v ===== *)
(** Replacing the program of a process ([Process::exec] of os/src/task/structs.rs, [sys_exec]
    of os/src/syscall/process.rs): the old address space is emptied, the new program
    loaded, and its arguments are pushed on the new stack, through the page table that
    the processor uses. *)
From S2P Require Import Prelude ByteCodec Address Signal UserAccess Allocator State PageEntry PageTable BTree MemorySet AddressSpace UserSpace LoadUser Sched Process ProcessInv.

From Stdlib Require Import ZifyNat.
#[local] Ltac Zify.zify_post_hook ::= Z.to_euclidean_division_equations.

(** ** Stores to user addresses *)

(** A store of the kernel to a user address is translated with the table at [ttbr0]; a page that
    is missing or read-only aborts it. *)
Definition user_wr (ttbr0 va b : Z) : st Mem unit :=
  o ← PageTable_query (mkPT ttbr0 []) va;
  match o with
  | Some (pa, flags) =>
      if contains flags MemFlags.WRITE then copy_to_frame (align_down pa PAGE_SIZE) (page_offset pa PAGE_SIZE) [b]
      else slift (Err DataAbort)
  | None => slift (Err DataAbort)
  end.
Fixpoint user_wr_bytes (ttbr0 a : Z) (l : list Z) : st Mem unit :=
  match l with [] => mret tt | b :: l => _ ← user_wr ttbr0 a b; user_wr_bytes ttbr0 (a + 1) l end.

Definition push_stack (ttbr0 stack val : Z) : st Mem Z :=
  _ ← user_wr_bytes ttbr0 (usize (stack - 8)) (le_bytes 8 val);
  mret (usize (stack - 8)).
Definition push_c_str (ttbr0 stack : Z) (val : list Z) : st Mem Z :=
  let len := Zlength val + 1 in
  _ ← user_wr_bytes ttbr0 (usize (stack - len)) val;
  _ ← user_wr ttbr0 (usize (stack - len) + (len - 1)) 0;
  mret (usize (stack - len)).
Fixpoint push_strs (ttbr0 ustack_top : Z) (args : list (list Z)) (argv_vec : list Z) : st Mem (Z * list Z) :=
  match args with
  | [] => mret (ustack_top, argv_vec)
  | arg :: args =>
      ustack_top ← push_c_str ttbr0 ustack_top arg;
      push_strs ttbr0 ustack_top args (argv_vec ++ [ustack_top])
  end.
Fixpoint push_ptrs (ttbr0 ustack_top : Z) (argv_vec : list Z) : st Mem Z :=
  match argv_vec with
  | [] => mret ustack_top
  | arg :: argv_vec => ustack_top ← push_stack ttbr0 ustack_top arg; push_ptrs ttbr0 ustack_top argv_vec
  end.
(** The arguments on the new stack, and the new frame. *)
Definition exec_args (ttbr0 entry ustack_top : Z) (args : list (list Z)) : st Mem TrapFrame :=
  '(ustack_top, argv_vec) ← push_strs ttbr0 ustack_top (rev args) [];
  let ustack_top := Z.land ustack_top (usize (Z.lnot 0xF)) in
  argv_base ← push_ptrs ttbr0 ustack_top argv_vec;
  mret (TF_new_user_arg entry argv_base (Zlength args) argv_base).

(** ** The operation *)

Section exec.
Context (parse : list Z -> option ElfFile).

(** [file] is what [open_file] and [read_all] give for the path.  The argument of [get_or_insert]
    is built in any case, and dropped when the process has an address space. *)
Definition exec (pid : Z) (file : option (list Z)) (args : list (list Z)) (ttbr0 : Z) (tf : TrapFrame) : st PS (Z * TrapFrame) :=
  p ← get_proc pid;
  _ ← slift (rassert (negb (is_kernel p)));
  n ← task_count pid;
  _ ← slift (rassert (n =? 1));
  match file with
  | None => mret (-1, tf)
  | Some elf_data =>
      new ← on_mem MemorySet_new;
      ms ← match vm p with Some ms => _ ← on_mem (MemorySet_drop new); mret ms | None => mret new end;
      ms ← on_mem (MemorySet_clear ms);
      '(entry_top, ms) ← on_mem (load_user parse ms elf_data);
      _ ← modify_proc pid (fun p => with_vm p (Some ms));
      tf ← on_mem (exec_args ttbr0 entry_top.1 entry_top.2 args);
      mret (Zlength args, tf)
  end.

Definition MAX_STR_LEN : Z := 256.
(** [open] is the file system: the bytes of the file at a path; [um] is the caller's memory. *)
Definition sys_exec (open : list Z -> option (list Z)) (um : UserAccess.UMem) (path args ttbr0 : Z) (tf : TrapFrame) : st PS (Z * TrapFrame) :=
  path_buf ← slift (UserAccess.read_str um path MAX_STR_LEN);
  path ← slift (unwrap (from_utf8 path_buf));
  t ← cur_task;
  args ← slift (UserAccess.read_argvs um args);
  exec t.1 (open path) args ttbr0 tf.
End exec.

(** ** User memory and physical memory *)

(** [um] is part of what the process can write in [m]. *)
Definition sees (m : Mem) (A : gmap Z (Z * Z)) (um : UMem) : Prop :=
  forall va b, um !! va = Some b -> exists fl, ubyte m A va = Some (b, fl) /\ contains fl MemFlags.WRITE = true.

(** Different pages have different frames. *)
Lemma frames_inj m L : areas_ok m L -> forall k a l v pa k' a' l' v' pa',
  (k, a) ∈ L -> mapper a = Framed l -> bt_lookup v l = Some pa ->
  (k', a') ∈ L -> mapper a' = Framed l' -> bt_lookup v' l' = Some pa' -> pa / 4096 = pa' / 4096 -> v = v'.
Proof.
  induction L as [|[k0 a0] L IH]; intros K k a l v pa k' a' l' v' pa' Hin Hm Hl Hin' Hm' Hl' E; [by apply elem_of_nil in Hin|].
  destruct (ak_area _ _ K k0 a0) as (_ & l0 & Ho0); [by apply elem_of_cons; left|].
  destruct (areas_ok_cons m k0 a0 l0 L K (ao_mapper _ _ _ Ho0)) as (K' & [_ _ Hfr _] & _ & Hd & _).
  assert (forall k a l v pa, (k, a) ∈ L -> mapper a = Framed l -> bt_lookup v l = Some pa -> pa / 4096 ∈ ms_set L) as Htl.
  { intros k1 a1 l1 v1 pa1 Hin1 Hm1 Hl1. eapply area_frames_sub; [exact Hin1|exact Hm1|]. apply elem_of_fset; [|eauto].
    destruct (ak_area _ _ K' k1 a1 Hin1) as (_ & l1' & Ho1). rewrite (ao_mapper _ _ _ Ho1) in Hm1. simplify_eq. apply Ho1. }
  assert (forall v pa, bt_lookup v l0 = Some pa -> pa / 4096 ∈ fset l0) as Hhd by (intros; apply elem_of_fset; [apply Hfr|eauto]).
  apply elem_of_cons in Hin as [[= -> ->]|Hin], Hin' as [[= -> ->]|Hin']; try rewrite (ao_mapper _ _ _ Ho0) in Hm; try rewrite (ao_mapper _ _ _ Ho0) in Hm'; simplify_eq.
  - apply (bt_lookup_elem _ _ _ (fo_bt _ _ _ Hfr)), list_elem_of_lookup in Hl as [i Hi].
    apply (bt_lookup_elem _ _ _ (fo_bt _ _ _ Hfr)), list_elem_of_lookup in Hl' as [j Hj].
    assert (frame_nums l !! i = Some (pa / 4096)) as Fi by (unfold frame_nums; by rewrite list_lookup_fmap, Hi).
    assert (frame_nums l !! j = Some (pa / 4096)) as Fj by (unfold frame_nums; rewrite list_lookup_fmap, Hj, E; done).
    rewrite (NoDup_lookup _ _ _ _ (fo_nodup _ _ _ Hfr) Fi Fj) in Hi. congruence.
  - exfalso. apply (Hd (pa / 4096)); [eapply Hhd; eassumption|]. rewrite E. eapply Htl; eassumption.
  - exfalso. apply (Hd (pa' / 4096)); [eapply Hhd; eassumption|]. rewrite <- E. eapply Htl; eassumption.
  - exact (IH K' _ _ _ _ _ _ _ _ _ _ Hin Hm Hl Hin' Hm' Hl' E).
Qed.

Lemma mapped_inj m p T A L k x k' x' : space_inv m p T A L -> A !! k = Some x -> A !! k' = Some x' ->
  x.1 / 4096 = x'.1 / 4096 -> k = k'.
Proof.
  intros I Hx Hx' E. apply (si_maps _ _ _ _ _ I) in Hx as (k1 & a1 & l1 & pa1 & Hi1 & Hm1 & Hl1 & ->).
  apply (si_maps _ _ _ _ _ I) in Hx' as (k2 & a2 & l2 & pa2 & Hi2 & Hm2 & Hl2 & ->).
  pose proof (frames_inj m L (si_areas _ _ _ _ _ I) _ _ _ _ _ _ _ _ _ _ Hi1 Hm1 Hl1 Hi2 Hm2 Hl2 E). lia.
Qed.

Lemma mapped_range m p T A L k x : space_inv m p T A L -> A !! k = Some x -> 0 <= k /\ k * 4096 + 4096 <= 2 ^ 48.
Proof.
  intros I Hx. apply (si_maps _ _ _ _ _ I) in Hx as (k0 & a & l & pa & Hin & Hm & Hl & ->).
  destruct (ak_area _ _ (si_areas _ _ _ _ _ I) k0 a Hin) as (_ & l' & Ho). rewrite (ao_mapper _ _ _ Ho) in Hm. simplify_eq.
  destruct (page_user a _ (ao_shape _ _ _ Ho) (fo_page _ _ _ (ao_fr _ _ _ Ho) _ _ Hl)). lia.
Qed.

Lemma ubyte_split m A va b fl : ubyte m A va = Some (b, fl) <-> exists x c,
  A !! (va / 4096) = Some x /\ ram m !! (x.1 / 4096) = Some c /\ c !! Z.to_nat (va `mod` 4096) = Some b /\ fl = x.2.
Proof.
  unfold ubyte, view. split.
  - intros (y & (x & Hx & (c & Hc & [= <-])%bind_Some)%bind_Some & (b' & Hb & [= <- <-])%bind_Some)%bind_Some. eauto 10.
  - intros (x & c & Hx & Hc & Hb & ->). rewrite Hx. cbn [mbind option_bind]. rewrite Hc. cbn [mbind option_bind fst snd]. by rewrite Hb.
Qed.

(** From [m], seen as [um], to [m'], seen as [um']: only bytes of [um] changed. *)
Record stored (p : PageTable) (T : tree) (A : gmap Z (Z * Z)) (L : list (Z * MapArea)) (m : Mem) (um : UMem) (m' : Mem) (um' : UMem) : Prop := {
  sd_inv : space_inv m' p T A L;
  sd_sees : sees m' A um';
  sd_frames : frames m' = frames m;
  sd_dom va : is_Some (um' !! va) <-> is_Some (um !! va);
  sd_else va : um !! va = None -> ubyte m' A va = ubyte m A va;
}.

Lemma query_root p ttbr0 va : root_paddr p = ttbr0 -> PageTable_query (mkPT ttbr0 []) va = PageTable_query p va.
Proof. by intros <-. Qed.

(** A byte of a frame of the address space changes. *)
Lemma data_write m p T A L x c off b va : space_inv m p T A L -> A !! (va / 4096) = Some x -> ram m !! (x.1 / 4096) = Some c ->
  off = va `mod` 4096 -> forall m', mem_ok m' -> frames m' = frames m -> ram m' = <[x.1 / 4096 := splice c off [b]]> (ram m) ->
  space_inv m' p T A L /\ ubyte m' A va = Some (b, x.2) /\ forall va', va' <> va -> ubyte m' A va' = ubyte m A va'.
Proof.
  intros I HA Hc -> m' Hm' Hf Hr. pose proof (mapped_frame _ _ _ _ _ _ _ I HA) as Hin.
  assert (Zlength c = 4096) as Hlen by apply (mo_page _ (si_mem _ _ _ _ _ I) _ _ Hc).
  split_and!.
  - destruct I as [Hm Hpt K M D]. split; auto.
    + eapply pt_rel_frame; [exact Hpt| |].
      * rewrite Hf. eapply table_frames_used, Hpt.
      * intros f Ht. rewrite Hr, lookup_insert_ne; [done|]. intros <-. by apply (D _ Ht).
    + eapply areas_ok_frame; [exact K|]. rewrite Hf. by apply ms_set_used.
  - apply ubyte_split. exists x, (splice c (va `mod` 4096) [b]). rewrite Hr, lookup_insert_eq. split_and!; [done|done| |done].
    rewrite lookup_splice_in by (simpl; lia). by rewrite Nat.sub_diag.
  - intros va' Hne. unfold ubyte, view. destruct (A !! (va' / 4096)) as [x'|] eqn:HA'; cbn [mbind option_bind]; [|done].
    rewrite Hr. destruct (decide (x.1 / 4096 = x'.1 / 4096)) as [E|E]; [|by rewrite lookup_insert_ne].
    pose proof (mapped_inj _ _ _ _ _ _ _ _ _ I HA HA' E) as Ek. rewrite <- E, lookup_insert_eq, Hc. cbn [mbind option_bind fst snd].
    rewrite lookup_splice_out; [done|lia|simpl; lia|simpl; lia].
Qed.

Lemma user_wr_spec p T A L ttbr0 m um va b um' : space_inv m p T A L -> root_paddr p = ttbr0 -> sees m A um -> is_byte b ->
  wr um va b = Ok um' -> swp (user_wr ttbr0 va b) m (fun _ m' => stored p T A L m um m' um').
Proof.
  intros I Hroot Hs Hb. unfold wr. destruct (um !! va) as [b0|] eqn:Hum; [|done]. intros [= <-].
  destruct (Hs va b0 Hum) as (fl & Hu & Hw). apply ubyte_split in Hu as (x & c & HA & Hc & Hb0 & ->).
  destruct (mapped_range _ _ _ _ _ _ _ I HA) as [Hk0 Hk1]. destruct (pr_ok _ _ _ _ (si_pt _ _ _ _ _ I) _ _ HA) as (Hx & Hal & _).
  unfold user_wr. rewrite (query_root p) by done. apply swp_bind.
  eapply swp_mono; [apply (PageTable_query_spec m p T A va (si_mem _ _ _ _ _ I) (si_pt _ _ _ _ _ I)); lia|].
  intros o m1 [-> ->]. rewrite vpn_user, HA by lia. cbn [fmap option_fmap option_map fst snd]. rewrite Hw.
  rewrite align_down_eq, page_offset_eq by lia. replace ((x.1 + va `mod` 4096) / 4096 * 4096) with x.1 by lia.
  replace ((x.1 + va `mod` 4096) `mod` 4096) with (va `mod` 4096) by lia.
  eapply swp_mono; [apply (copy_to_frame_spec m x.1 (va `mod` 4096) [b] c)|]; [apply I|done| |done|lia|simpl; lia|apply Forall_cons; split; [done|apply Forall_nil_2]|].
  { eapply ms_set_used; [apply I|]. by eapply mapped_frame. }
  intros _ m' (Hm' & Hf & Hr). destruct (data_write m p T A L x c _ b va I HA Hc eq_refl m' Hm' Hf Hr) as (I' & Hbyte & Helse).
  split; auto.
  - intros v b'. destruct (decide (v = va)) as [->|Hne]; [rewrite lookup_insert_eq; intros [= <-]; eauto|].
    rewrite lookup_insert_ne, Helse by done. apply Hs.
  - intros v. rewrite lookup_insert_is_Some. destruct (decide (va = v)) as [->|]; [rewrite Hum; naive_solver|naive_solver].
  - intros v Hv. apply Helse. congruence.
Qed.

Lemma stored_refl p T A L m um : space_inv m p T A L -> sees m A um -> stored p T A L m um m um.
Proof. by split. Qed.

Lemma stored_trans p T A L m um m1 um1 m2 um2 : stored p T A L m um m1 um1 -> stored p T A L m1 um1 m2 um2 -> stored p T A L m um m2 um2.
Proof.
  intros [_ _ F1 D1 E1] [I2 S2 F2 D2 E2]. split; auto.
  - by rewrite F2.
  - intros va. by rewrite D2.
  - intros va Hva. rewrite E2; [auto|]. apply eq_None_not_Some. rewrite D1, Hva. by intros [? ?].
Qed.

(** The pushes do to physical memory what they do to user memory. *)
Section pushes.
Context (p : PageTable) (T : tree) (A : gmap Z (Z * Z)) (L : list (Z * MapArea)) (ttbr0 : Z) (Hroot : root_paddr p = ttbr0).

Definition sim {B} (f : res (UMem * B)) (g : st Mem B) (m : Mem) (um : UMem) : Prop :=
  space_inv m p T A L -> sees m A um -> forall um' v, f = Ok (um', v) ->
  swp g m (fun v' m' => v' = v /\ stored p T A L m um m' um').

Lemma sim_bind {B C} (f : res (UMem * B)) g (f' : UMem -> B -> res (UMem * C)) g' m um :
  sim f g m um -> (forall m1 um1 v, sim (f' um1 v) (g' v) m1 um1) ->
  sim ('(um, v) ← f; f' um v) (g ≫= g') m um.
Proof.
  intros H1 H2 I S um' v E. apply bind_Ok in E as ([um1 v1] & E1 & E2).
  apply swp_bind. eapply swp_mono; [by apply (H1 I S um1 v1)|]. intros v1' m1 [-> St].
  eapply swp_mono; [by apply (H2 m1 um1 v1 (sd_inv _ _ _ _ _ _ _ _ St) (sd_sees _ _ _ _ _ _ _ _ St))|].
  intros v' m2 [-> St2]. split; [done|]. by eapply stored_trans.
Qed.

Lemma sim_ret {B} (v : B) m um : sim (Ok (um, v)) (mret v) m um.
Proof. intros I S um' v' [= <- <-]. apply swp_ret. split; [done|]. by apply stored_refl. Qed.

Lemma sim_wr m um va b : is_byte b -> sim (um' ← wr um va b; Ok (um', tt)) (user_wr ttbr0 va b) m um.
Proof.
  intros Hb I S um' [] E. apply bind_Ok in E as (um1 & E & [= ->]).
  eapply swp_mono; [by eapply user_wr_spec|]. by intros [] m' St.
Qed.

Lemma sim_wr_bytes l : forall m um a, bytes_ok l -> sim (um' ← wr_bytes um a l; Ok (um', tt)) (user_wr_bytes ttbr0 a l) m um.
Proof.
  induction l as [|b l IH]; intros m um a Hb; cbn [wr_bytes user_wr_bytes]; [apply sim_ret|].
  apply Forall_cons in Hb as [Hb Hl]. intros I S um' v E. apply (sim_bind (um' ← wr um a b; Ok (um', tt)) _
    (fun um1 _ => um' ← wr_bytes um1 (a + 1) l; Ok (um', tt)) (fun _ => user_wr_bytes ttbr0 (a + 1) l) m um); auto; [by apply sim_wr|].
  destruct (wr um a b); [|done]. exact E.
Qed.

(** Pushing bytes and going on. *)
Lemma sim_store {C} l m um a (f : UMem -> res (UMem * C)) (g : st Mem C) : bytes_ok l -> (forall m1 um1, sim (f um1) g m1 um1) ->
  sim (um1 ← wr_bytes um a l; f um1) (_ ← user_wr_bytes ttbr0 a l; g) m um.
Proof.
  intros Hb Hf I S um' v E. apply (sim_bind (um' ← wr_bytes um a l; Ok (um', tt)) _ (fun um1 _ => f um1) (fun _ => g) m um); auto.
  - by apply sim_wr_bytes.
  - destruct (wr_bytes um a l); [|done]. exact E.
Qed.

Lemma sim_push_stack m um stack val : sim (UserAccess.push_stack um stack val) (push_stack ttbr0 stack val) m um.
Proof. apply sim_store; [apply le_bytes_ok|]. intros. apply sim_ret. Qed.

Lemma sim_push_c_str m um stack val : bytes_ok val -> sim (UserAccess.push_c_str um stack val) (push_c_str ttbr0 stack val) m um.
Proof.
  intros Hb. apply sim_store; [done|]. intros m1 um1 I S um' v E.
  set (a := usize (stack - (Zlength val + 1)) + (Zlength val + 1 - 1)) in *.
  apply (sim_bind (um' ← wr um1 a 0; Ok (um', tt)) (user_wr ttbr0 a 0) (fun um2 _ => Ok (um2, usize (stack - (Zlength val + 1)))) (fun _ => mret (usize (stack - (Zlength val + 1)))) m1 um1); auto.
  - apply sim_wr. unfold is_byte. lia.
  - intros. apply sim_ret.
  - unfold mbind, res_bind in *. by destruct (wr um1 a 0).
Qed.

Lemma sim_push_ptrs l : forall m um top, sim (UserAccess.push_ptrs um top l) (push_ptrs ttbr0 top l) m um.
Proof.
  induction l as [|x l IH]; intros m um top; [apply sim_ret|]. apply (sim_bind _ _ (fun um1 t => UserAccess.push_ptrs um1 t l)); [apply sim_push_stack|].
  intros. apply IH.
Qed.

Lemma sim_push_strs args : forall m um top vec, Forall (fun s => bytes_ok s) args ->
  sim ('(um1, top1, vec1) ← UserAccess.push_strs um top args vec; Ok (um1, (top1, vec1))) (push_strs ttbr0 top args vec) m um.
Proof.
  induction args as [|s args IH]; intros m um top vec Hb; cbn [UserAccess.push_strs push_strs]; [apply sim_ret|].
  apply Forall_cons in Hb as [Hs Hb]. intros I S um' v E.
  apply (sim_bind (UserAccess.push_c_str um top s) _ (fun um1 t => '(um2, top2, vec2) ← UserAccess.push_strs um1 t args (vec ++ [t]); Ok (um2, (top2, vec2)))
    (fun t => push_strs ttbr0 t args (vec ++ [t])) m um); auto; [by apply sim_push_c_str|].
  destruct (UserAccess.push_c_str um top s) as [[um1 t]|]; [|done]. exact E.
Qed.

Lemma sim_exec_args m um entry top args : Forall (fun s => bytes_ok s) args ->
  sim (UserAccess.exec_args um entry top args) (exec_args ttbr0 entry top args) m um.
Proof.
  intros Hb I S um' v E. apply (sim_bind ('(um1, top1, vec1) ← UserAccess.push_strs um top (rev args) []; Ok (um1, (top1, vec1))) _
    (fun um1 x => '(um2, base) ← UserAccess.push_ptrs um1 (Z.land x.1 (usize (Z.lnot 0xF))) x.2; Ok (um2, TF_new_user_arg entry base (Zlength args) base))
    (fun x => let '(top1, vec1) := x in base ← push_ptrs ttbr0 (Z.land top1 (usize (Z.lnot 0xF))) vec1; mret (TF_new_user_arg entry base (Zlength args) base)) m um); auto.
  - apply sim_push_strs. by apply Forall_rev.
  - intros m1 um1 [top1 vec1]. apply (sim_bind _ _ (fun um2 base => Ok (um2, TF_new_user_arg entry base (Zlength args) base))); [apply sim_push_ptrs|].
    intros. apply sim_ret.
  - unfold UserAccess.exec_args in E. destruct (UserAccess.push_strs um top (rev args) []) as [[[um1 top1] vec1]|]; [exact E|done].
Qed.
End pushes.

(** ** The root table stays *)

(** Takes a sequence that returned apart. *)
Ltac st_inv :=
  repeat match goal with
  | H : (_ ≫= _) _ = Ok (_, _) |- _ => let a := fresh "a" in let s := fresh "s" in let E := fresh "E" in apply st_bind_Ok in H as (a & s & E & H)
  | H : mret _ _ = Ok (_, _) |- _ => injection H; clear H; intros; subst
  | H : slift ?r _ = Ok (_, _) |- _ => unfold slift in H; destruct r; [|discriminate H]
  | H : (let '(_, _) := ?x in _) _ = Ok _ |- _ => destruct x
  end.

Lemma next_create_root pt0 pa i m o p' m' : next_table_mut_or_create pt0 pa i m = Ok ((o, p'), m') -> root_paddr p' = root_paddr pt0.
Proof.
  unfold next_table_mut_or_create, alloc_intrm_table. intros H. st_inv. destruct (is_unused a); st_inv; [|done].
  by simplify_eq.
Qed.

Lemma PageTable_map_root pt0 va pa fl m p' m' : PageTable_map pt0 va pa fl m = Ok (p', m') -> root_paddr p' = root_paddr pt0.
Proof.
  unfold PageTable_map, get_entry_mut_or_create. intros H. st_inv. destruct (negb _); [done|]. st_inv.
  repeat match goal with
  | H : next_table_mut_or_create _ _ _ _ = Ok _ |- _ => apply next_create_root in H
  | H : match ?o with Some _ => _ | None => _ end _ = Ok _ |- _ => destruct o
  | _ => progress st_inv
  end; congruence.
Qed.

Lemma map_area_root pt0 a m p' a' m' : map_area pt0 a m = Ok ((p', a'), m') -> root_paddr p' = root_paddr pt0.
Proof.
  unfold map_area. generalize (area_fuel a) (start a) (usize (start a + area_size a)). intros fuel. revert pt0 a m.
  induction fuel as [|fuel IH]; intros pt0 a m va e; cbn [map_area_loop]; [done|]. destruct (va <? e); [|by intros [= <- <- <-]].
  intros H. st_inv. apply IH in H. rewrite H. match goal with H : PageTable_map _ _ _ _ _ = Ok _ |- _ => by apply PageTable_map_root in H end.
Qed.

Lemma MemorySet_insert_root ms a m ms' m' : MemorySet_insert ms a m = Ok (ms', m') -> root_paddr (pt ms') = root_paddr (pt ms).
Proof.
  unfold MemorySet_insert. destruct (_ <? _); [|by intros [= <- <-]]. destruct (bt_lookup _ _); [done|]. intros H. st_inv.
  match goal with H : map_area _ _ _ = Ok _ |- _ => by apply map_area_root in H end.
Qed.

Lemma load_user_root parse ms elf_data m r ms' m' : load_user parse ms elf_data m = Ok ((r, ms'), m') ->
  root_paddr (pt ms') = root_paddr (pt ms).
Proof.
  assert (forall l ms m ms' m', load_segments ms l m = Ok (ms', m') -> root_paddr (pt ms') = root_paddr (pt ms)) as Hseg.
  { induction l as [|ph l IH]; intros ms0 m0 ms1 m1; cbn [load_segments]; [by intros [= <- <-]|]. intros H. st_inv. apply IH in H. rewrite H.
    match goal with H : load_segment _ _ _ = Ok _ |- _ => revert H end. unfold load_segment. destruct (ph_load ph); [|by intros [= <- <-]].
    intros H2. st_inv. by apply MemorySet_insert_root in H2. }
  unfold load_user. intros H. st_inv.
  repeat match goal with
  | H : MemorySet_insert _ _ _ = Ok _ |- _ => apply MemorySet_insert_root in H
  | H : load_segments _ _ _ = Ok _ |- _ => apply Hseg in H
  end. congruence.
Qed.

(** ** The whole operation *)

Lemma MemorySet_clear_spec m ms T A : space_inv m (pt ms) T A (areas ms) ->
  swp (MemorySet_clear ms) m (fun ms' m' => ms' = mkMS (pt ms) [] /\ space_inv m' (pt ms) T ∅ [] /\ gives m (ms_set (areas ms)) m').
Proof.
  intros I. apply swp_bind. eapply swp_mono; [by apply (unmap_areas_spec (pt ms) T (areas ms) m A)|].
  intros L' m1 (-> & I1 & V1 & _). apply swp_bind. eexists tt, m1. split; [apply drop_areas_empty|]. by apply swp_ret.
Qed.

(** A new address space that is dropped at once leaves nothing behind. *)
Lemma new_dropped m p T A L : space_inv m p T A L -> 0 < spare m ->
  swp (new ← MemorySet_new; MemorySet_drop new) m (fun _ m' => space_inv m' p T A L /\ used m' = used m /\ spare m' = spare m).
Proof.
  intros I Hsp. pose proof (own_used _ _ _ _ _ I) as Hu. apply swp_bind. eapply swp_mono; [apply MemorySet_new_spec; [apply I|done]|].
  intros new m1 (T1 & Ea & I1 & G & Hs1). rewrite <- Ea in I1.
  assert (forall f, f ∈ own T1 [] -> f ∉ used m) as Hfresh.
  { intros f Hf Hin. by apply (not_elem_of_empty (C := gset Z) f), (gr_fresh _ _ _ _ G). }
  eapply swp_mono; [by apply (MemorySet_drop_spec m1 new T1 ∅)|]. intros _ m2 [[K2 U2 P2] R2]. rewrite Ea in U2, P2.
  assert (used m2 = used m) as HU.
  { rewrite U2. apply set_eq. intros f. rewrite elem_of_difference, (gr_used _ _ _ _ G). specialize (Hfresh f). tauto. }
  split_and!; [|done|pose proof (gr_spare _ _ _ _ G) as Hg; rewrite size_empty in Hg; lia].
  eapply space_inv_frame; [exact I|done|by rewrite HU|]. intros f Hf. rewrite R2.
  - apply (gr_ram _ _ _ _ G); [by apply Hu|apply not_elem_of_empty].
  - intros Ht. apply (Hfresh f); [by apply elem_of_union_l|by apply Hu].
Qed.

Definition fresh_stack : UMem := gset_to_gmap 0 (list_to_set (seqZ (USER_STACK_TOP - USER_STACK_SIZE) USER_STACK_SIZE)).

Lemma fresh_stack_lookup va b : fresh_stack !! va = Some b <-> in_area stack_area va /\ b = 0.
Proof.
  unfold fresh_stack, in_area. rewrite lookup_gset_to_gmap_Some, elem_of_list_to_set, elem_of_seqZ. cbn [start area_size stack_area].
  naive_solver lia.
Qed.

Definition arg_ok (s : list Z) : Prop := 0 ∉ s /\ utf8_ok s = true /\ bytes_ok s.

(** The memory part: load, then push the arguments. *)
Lemma load_and_push parse elf_data elf m ms T args : parse elf_data = Some elf -> program_ok elf ->
  space_inv m (pt ms) T ∅ (areas ms) -> areas ms = [] -> 5 * (segs_pages (elf_ph elf) + 4) <= spare m ->
  Forall arg_ok args -> args_size args <= USER_STACK_SIZE ->
  swp ('(entry_top, ms') ← load_user parse ms elf_data;
       tf ← exec_args (root_paddr (pt ms)) entry_top.1 entry_top.2 args; mret (ms', tf)) m
    (fun '(ms', tf) m' => exists T' A' um, space_inv m' (pt ms') T' A' (areas ms') /\ root_paddr (pt ms') = root_paddr (pt ms) /\
      (forall f, f ∈ used m' <-> f ∈ used m \/ f ∈ own T' (areas ms')) /\
      elr tf = elf_entry elf /\ r tf !! 0%nat = Some (Zlength args) /\ r tf !! 1%nat = Some (usp tf) /\
      (forall va, 0 <= va -> ~ in_area stack_area va -> ubyte m' A' va = image (elf_ph elf) va None) /\
      sees m' A' um /\ UserAccess.start um (Zlength args) (usp tf) = Ok args).
Proof.
  intros Hp Hok I Ea Hsp Hargs Hfit. apply swp_bind.
  destruct (load_user_spec parse elf_data elf m ms T Hp Hok I Ea Hsp) as ([r ms1] & m1 & El & T1 & A1 & -> & I1 & G1 & V1).
  exists (elf_entry elf, USER_STACK_TOP, ms1), m1. split; [done|]. cbn beta iota. cbn [fst snd].
  pose proof (load_user_root _ _ _ _ _ _ _ El) as Hroot.
  assert (sees m1 A1 fresh_stack) as Hs.
  { intros va b [Hin ->]%fresh_stack_lookup. exists (flags stack_area). split; [|done].
    rewrite V1, decide_True; [done|done|]. destruct Hin as [Hin _]. cbn [start stack_area] in Hin. unfold USER_STACK_TOP, USER_STACK_SIZE in Hin. lia. }
  destruct (exec_args_spec fresh_stack (elf_entry elf) USER_STACK_TOP args) as (um & tf & Ee & H1 & H2 & H3 & _ & _ & Hsame & Hstart).
  { unfold USER_STACK_TOP, USER_STACK_SIZE in *. lia. } { unfold USER_STACK_TOP. lia. }
  { intros a Ha. exists 0. apply fresh_stack_lookup. split; [|done]. unfold in_area. cbn [start area_size stack_area]. unfold USER_STACK_TOP, USER_STACK_SIZE in *. lia. }
  { eapply Forall_impl; [exact Hargs|]. by intros s (? & ? & _). }
  apply swp_bind. eapply swp_mono.
  { apply (sim_exec_args (pt ms1) T1 A1 (areas ms1) _ Hroot m1 fresh_stack (elf_entry elf) USER_STACK_TOP args) with (um' := um) (v := tf); auto.
    eapply Forall_impl; [exact Hargs|]. by intros s (_ & _ & ?). }
  intros tf' m2 [-> [I2 S2 F2 _ E2]]. apply swp_ret. exists T1, A1, um. split_and!; auto.
  - intros f. rewrite F2, (gr_used _ _ _ _ G1). done.
  - intros va Hva Hn. assert (fresh_stack !! va = None) as Hno.
    { apply eq_None_not_Some. intros [b Hb]. apply fresh_stack_lookup in Hb as [Hb _]. exact (Hn Hb). }
    rewrite (E2 va Hno), (V1 va Hva). apply decide_False, Hn.
Qed.

(** A path in the caller's memory. *)
Lemma read_str_has um path name n : has um path (name ++ [0]) -> 0 ∉ name -> Zlength name < n - 1 ->
  0 < path -> path + Zlength name + 1 <= 2 ^ 48 -> UserAccess.read_str um path n = Ok name.
Proof.
  intros H Hz Hn H0 Hend. unfold UserAccess.read_str, ptr_check, copy_from_user_str.
  rewrite !(proj2 (uaccess_ok_range path 1 ltac:(lia) ltac:(lia))) by lia. rewrite Z.mod_1_r. cbn [Z.eqb andb rassert mbind res_bind].
  assert (length name < Z.to_nat (n - 1))%nat as Hf by lia. clear Hn. revert Hf. generalize (Z.to_nat (n - 1)). intros fuel. revert fuel path H Hz H0 Hend.
  induction name as [|b name IH]; intros [|fuel] path H Hz H0 Hend Hf; cbn [length] in *; try lia; apply has_cons in H as [Hb H];
    cbn [copy_str]; unfold USER_ASPACE_END, rd; rewrite (proj2 (Z.ltb_lt _ _)) by lia; rewrite Hb; cbn [rassert mbind res_bind]; [done|].
  apply not_elem_of_cons in Hz as [Hb0 Hz]. rewrite (proj2 (Z.eqb_neq _ _)) by done. unfold USER_ASPACE_END in IH. rewrite IH; [done|done|done|lia|lia|lia].
Qed.

(** Process [pid], which was [p] with address space [ms] in [s], runs program [elf] with [args]
    in [s'], from the frame [tf'] on. *)
Record started (s : PS) (pid : Z) (p : Process) (ms : MemorySet) (elf : ElfFile) (args : list (list Z)) (tf' : TrapFrame)
    (s' : PS) (ms' : MemorySet) (T' : tree) (A' : gmap Z (Z * Z)) (um' : UMem) : Prop := {
  st_rest : psched s' = psched s /\ proc_map s' = proc_map s /\ next_pid s' = next_pid s;
  st_proc : procs s' = <[pid := with_vm p (Some ms')]> (procs s);
  st_space : space_inv (pmem s') (pt ms') T' A' (areas ms');
  st_root : root_paddr (pt ms') = root_paddr (pt ms);
  st_frames f : f ∈ used (pmem s') <-> f ∈ used (pmem s) /\ f ∉ ms_set (areas ms) \/ f ∈ own T' (areas ms');
  st_regs : elr tf' = elf_entry elf /\ r tf' !! 0%nat = Some (Zlength args) /\ r tf' !! 1%nat = Some (usp tf');
  st_image va : 0 <= va -> ~ in_area stack_area va -> ubyte (pmem s') A' va = image (elf_ph elf) va None;
  st_sees : sees (pmem s') A' um';
  st_args : UserAccess.start um' (Zlength args) (usp tf') = Ok args;
}.

Lemma exec_spec parse pid s p ms T A elf_data elf args tf :
  procs s !! pid = Some p -> is_kernel p = false -> task_count pid s = Ok (1, s) -> vm p = Some ms ->
  space_inv (pmem s) (pt ms) T A (areas ms) -> parse elf_data = Some elf -> program_ok elf ->
  Forall arg_ok args -> args_size args <= USER_STACK_SIZE ->
  0 < spare (pmem s) -> 5 * (segs_pages (elf_ph elf) + 4) <= spare (pmem s) + Z.of_nat (size (ms_set (areas ms))) ->
  swp (exec parse pid (Some elf_data) args (root_paddr (pt ms)) tf) s (fun '(ret, tf') s' =>
    ret = Zlength args /\ exists ms' T' A' um', started s pid p ms elf args tf' s' ms' T' A' um').
Proof.
  intros Hp Hk Htc Hv I Hparse Hok Hargs Hfit Hsp Hroom.
  destruct (new_dropped _ _ _ _ _ I Hsp) as ([] & m1 & E1 & I1 & U1 & P1). apply st_bind_Ok in E1 as (new & m0 & E0 & E1).
  destruct (MemorySet_clear_spec m1 ms T A I1) as (ms2 & m2 & E2 & -> & I2 & [_ U2 P2]).
  destruct (load_and_push parse elf_data elf m2 (mkMS (pt ms) []) T args) as ([ms' tf'] & m4 & E4 & T' & A' & um' & I4 & Hroot & U4 & R0 & R1 & R2 & V & S4 & St);
    [done|done|exact I2|done|lia|done|done|].
  apply st_bind_Ok in E4 as ([et ms3] & m3 & E3 & E4). apply st_bind_Ok in E4 as (tf3 & m5 & E5 & E4). injection E4; clear E4; intros; subst.
  unfold exec. apply swp_bind. eapply get_proc_swp; [exact Hp|]. rewrite Hk. eapply swp_lift_bind; [done|].
  apply swp_bind. exists 1, s. split; [done|]. eapply swp_lift_bind; [done|].
  apply swp_bind, on_mem_swp. exists new, m0. split; [done|]. rewrite Hv. apply swp_bind, swp_bind, on_mem_swp. exists tt, m1. split; [done|].
  apply swp_ret. apply swp_bind, on_mem_swp. exists (mkMS (pt ms) []), m2. split; [done|].
  apply swp_bind, on_mem_swp. exists (et, ms'), m3. split; [done|]. cbn beta iota. apply swp_bind.
  eapply modify_proc_swp; [exact Hp|]. apply swp_bind, on_mem_swp. exists tf', m4. split; [done|]. apply swp_ret.
  split; [done|]. exists ms', T', A', um'. split; auto. intros f. cbn [pmem]. rewrite U4, U2, U1, elem_of_difference. done.
Qed.

(** A file that is no ELF file stops the kernel, whoever names it. *)
Lemma exec_bad_elf_panics parse pid s p ms T A elf_data args tf :
  procs s !! pid = Some p -> is_kernel p = false -> task_count pid s = Ok (1, s) -> vm p = Some ms ->
  space_inv (pmem s) (pt ms) T A (areas ms) -> 0 < spare (pmem s) -> parse elf_data = None ->
  exec parse pid (Some elf_data) args (root_paddr (pt ms)) tf s = Err Panic.
Proof.
  intros Hp Hk Htc Hv I Hsp Hparse.
  destruct (new_dropped _ _ _ _ _ I Hsp) as ([] & m1 & E1 & I1 & _). apply st_bind_Ok in E1 as (new & m0 & E0 & E1).
  destruct (MemorySet_clear_spec m1 ms T A I1) as (ms2 & m2 & E2 & _).
  assert (load_user parse ms2 elf_data m2 = Err Panic) as E3 by (unfold load_user, mbind, st_bind; by rewrite Hparse).
  unfold exec. eapply st_bind_step; [unfold get_proc; eapply st_bind_step; [done|]; by rewrite Hp|].
  rewrite Hk. eapply st_bind_step; [done|]. eapply st_bind_step; [exact Htc|]. eapply st_bind_step; [done|].
  eapply st_bind_step; [unfold on_mem; by rewrite E0|]. rewrite Hv.
  eapply st_bind_step; [eapply st_bind_step; [unfold on_mem; cbn [pmem]; by rewrite E1|done]|].
  eapply st_bind_step; [unfold on_mem; cbn [pmem]; by rewrite E2|].
  cbv [mbind st_bind on_mem]. cbn [pmem]. by rewrite E3.
Qed.

(** C2: The [exec] system call runs a program: when the path names a file that holds a
    program that fits, the caller gets the argument count back and returns to user mode at
    the entry of the program with its arguments where [_start] looks for them; its address
    space (under the same root table) is exactly the image of the program and a stack,
    its former pages are free again, and no other process changes.  When the path names no
    file, it returns -1 and nothing changes. *)
Theorem exec_runs_program parse open um path name argv ptrs args s p ms T A tf : let pid := (current (psched s)).1 in
  has um path (name ++ [0]) -> 0 ∉ name -> utf8_ok name = true -> Zlength name < 255 -> 0 < path -> path + Zlength name + 1 <= 2 ^ 48 ->
  argv_ok um argv ptrs args -> Forall (fun a => bytes_ok a) args ->
  procs s !! pid = Some p -> is_kernel p = false -> task_count pid s = Ok (1, s) -> vm p = Some ms ->
  space_inv (pmem s) (pt ms) T A (areas ms) ->
  match open name with
  | None => sys_exec parse open um path argv (root_paddr (pt ms)) tf s = Ok ((-1, tf), s)
  | Some elf_data => forall elf, parse elf_data = Some elf -> program_ok elf -> args_size args <= USER_STACK_SIZE ->
      0 < spare (pmem s) -> 5 * (segs_pages (elf_ph elf) + 4) <= spare (pmem s) + Z.of_nat (size (ms_set (areas ms))) ->
      swp (sys_exec parse open um path argv (root_paddr (pt ms)) tf) s (fun '(ret, tf') s' =>
        ret = Zlength args /\ exists ms' T' A' um', started s pid p ms elf args tf' s' ms' T' A' um')
  end.
Proof.
  intros pid Hpath Hz Hu Hn H0 Hend Hav Hb Hp Hk Htc Hv I.
  assert (sys_exec parse open um path argv (root_paddr (pt ms)) tf s = exec parse pid (open name) args (root_paddr (pt ms)) tf s) as Heq.
  { unfold sys_exec. rewrite (read_str_has um path name MAX_STR_LEN) by (done || (unfold MAX_STR_LEN; lia)).
    rewrite (read_argvs_spec _ _ _ _ Hav). cbv [mbind st_bind slift]. unfold from_utf8. rewrite Hu. reflexivity. }
  destruct (open name) as [elf_data|].
  2: { rewrite Heq. unfold exec. cbv [mbind st_bind slift get_proc sget]. rewrite Hp. cbn [unwrap]. rewrite Hk. cbn [negb rassert]. by rewrite Htc. }
  intros elf Hparse Hok Hfit Hsp Hroom. eapply swp_ext; [exact Heq|]. eapply exec_spec; eauto.
  apply Forall_and; split; [eapply Forall_impl; [apply (av_utf8 _ _ _ _ Hav)|by intros a [? _]]|].
  apply Forall_and; split; [eapply Forall_impl; [apply (av_utf8 _ _ _ _ Hav)|by intros a [_ ?]]|done].
Qed.

(** Process 2 replaces its program by a file "ab" with arguments "ab" and "c". *)
Lemma exec_runs_program_witness : exists ms m, swp (sys_exec (fun _ => Some demo_elf) (fun _ => Some []) demo_caller 0x1000 0x2000 (root_paddr (pt ms)) (TF_new_user 0 0))
  (demo_ps (Some ms) m) (fun '(ret, tf') s' => ret = 2 /\ elr tf' = 0x10078 /\ exists um', UserAccess.start um' 2 (usp tf') = Ok demo_args).
Proof.
  destruct (MemorySet_new_spec (fresh_mem 100) (fresh_mem_ok 100 ltac:(lia)) ltac:(reflexivity)) as (ms & m & _ & T & Ea & I & G & Hs).
  change (spare (fresh_mem 100)) with 100 in Hs. rewrite <- Ea in I. exists ms, m.
  eapply swp_mono; [eapply (exec_runs_program (fun _ => Some demo_elf) (fun _ => Some []) demo_caller 0x1000 [97; 98] 0x2000 [0x1000; 0x1003] demo_args
    (demo_ps (Some ms) m) (demo_proc (Some ms) [3] PNormal 0) ms T ∅ (TF_new_user 0 0))|].
  - repeat (apply has_cons; split; [vm_compute; reflexivity|]). intros i b Hi. discriminate Hi.
  - intros H. apply list_elem_of_In in H. simpl in H. lia.
  - reflexivity.
  - simpl. lia.
  - lia.
  - simpl. lia.
  - exact demo_argv_ok.
  - repeat (apply Forall_cons; split; [repeat (apply Forall_cons; split; [unfold is_byte; lia|]); apply Forall_nil_2|]). apply Forall_nil_2.
  - reflexivity.
  - reflexivity.
  - reflexivity.
  - reflexivity.
  - exact I.
  - reflexivity.
  - exact demo_elf_ok.
  - vm_compute. congruence.
  - cbn [pmem demo_ps]. lia.
  - cbn [pmem demo_ps]. rewrite Ea, Hs. vm_compute. congruence.
  - intros [ret tf'] s' (H1 & ms' & T' & A' & um' & [_ _ _ _ _ (H2 & _) _ _ H3]). split; [exact H1|]. split; [exact H2|]. exists um'. exact H3.
Defined.
