(* ===== verification/Switch.v ===== *)
(** Context switches: the kernel's [TaskContext::switch_to] (os/src/task/switch.rs) and the
    [switch] of the coroutine runtime (user/src/bin/stackful_coroutine.rs).  Both are
    sequences of instructions; their text is executed by a model of the few
    instructions they use. *)
From S2P Require Import Prelude.

(** ** Instructions *)

(** General registers by number, memory as 64-bit words by address. *)
Record cpu := mkCpu { x : nat -> Z; sp : Z; tpidr_el0 : Z; ttbr0_el1 : Z; pc : Z; mem : gmap Z Z }.

Inductive instr :=
  | Stp (a b base : nat) (off : Z)
  | Ldp (a b base : nat) (off : Z)
  | Str (a base : nat) (off : Z)
  | Ldr (a base : nat) (off : Z)
  | MovFromSp (d : nat)
  | MovToSp (s : nat)
  | Mrs (d : nat)
  | Msr (s : nat)
  | Br (s : nat).
(** [ret] jumps to x30. *)
Abbreviation Ret := (Br 30).

Definition upd (f : nat -> Z) (n : nat) (v : Z) : nat -> Z := fun m => if Nat.eqb m n then v else f m.
Definition set_x (c : cpu) (n : nat) (v : Z) : cpu :=
  mkCpu (upd (x c) n v) (sp c) (tpidr_el0 c) (ttbr0_el1 c) (pc c) (mem c).
Definition set_mem (c : cpu) (m : gmap Z Z) : cpu := mkCpu (x c) (sp c) (tpidr_el0 c) (ttbr0_el1 c) (pc c) m.

Definition load (c : cpu) (a : Z) : res Z := match mem c !! a with Some v => Ok v | None => Err DataAbort end.
Definition store (c : cpu) (a v : Z) : res cpu :=
  match mem c !! a with Some _ => Ok (set_mem c (<[a := v]> (mem c))) | None => Err DataAbort end.

Definition exec_instr (i : instr) (c : cpu) : res cpu :=
  match i with
  | Stp a b base off =>
      c1 ← store c (x c base + off) (x c a);
      store c1 (x c base + (off + 8)) (x c b)
  | Ldp a b base off =>
      va ← load c (x c base + off);
      vb ← load c (x c base + (off + 8));
      Ok (set_x (set_x c a va) b vb)
  | Str a base off => store c (x c base + off) (x c a)
  | Ldr a base off => v ← load c (x c base + off); Ok (set_x c a v)
  | MovFromSp d => Ok (set_x c d (sp c))
  | MovToSp s => Ok (mkCpu (x c) (x c s) (tpidr_el0 c) (ttbr0_el1 c) (pc c) (mem c))
  | Mrs d => Ok (set_x c d (tpidr_el0 c))
  | Msr s => Ok (mkCpu (x c) (sp c) (x c s) (ttbr0_el1 c) (pc c) (mem c))
  | Br s => Ok (mkCpu (x c) (sp c) (tpidr_el0 c) (ttbr0_el1 c) (x c s) (mem c))
  end.
Fixpoint exec_code (l : list instr) (c : cpu) : res cpu :=
  match l with [] => Ok c | i :: l => c ← exec_instr i c; exec_code l c end.

(** ** The kernel's switch *)

(** The fields of [TaskContext], in the order of its words. *)
Record TaskContext := mkCtx {
  c_sp : Z; c_tpidr_el0 : Z; r19 : Z; r20 : Z; r21 : Z; r22 : Z; r23 : Z; r24 : Z; r25 : Z; r26 : Z; r27 : Z; r28 : Z;
  r29 : Z; lr : Z; c_ttbr0_el1 : Z;
}.
Definition TaskContext_default : TaskContext := mkCtx 0 0 0 0 0 0 0 0 0 0 0 0 0 0 0.
Definition TaskContext_init (c : TaskContext) (entry kstack_top page_table_root : Z) : TaskContext :=
  mkCtx kstack_top (c_tpidr_el0 c) (r19 c) (r20 c) (r21 c) (r22 c) (r23 c) (r24 c) (r25 c) (r26 c) (r27 c) (r28 c)
    (r29 c) entry page_table_root.

Definition context_switch : list instr :=
  [Stp 29 30 0 (12 * 8);
   Stp 27 28 0 (10 * 8);
   Stp 25 26 0 (8 * 8);
   Stp 23 24 0 (6 * 8);
   Stp 21 22 0 (4 * 8);
   Stp 19 20 0 (2 * 8);
   MovFromSp 19;
   Mrs 20;
   Stp 19 20 0 0;
   Ldp 19 20 1 0;
   MovToSp 19;
   Msr 20;
   Ldp 19 20 1 (2 * 8);
   Ldp 21 22 1 (4 * 8);
   Ldp 23 24 1 (6 * 8);
   Ldp 25 26 1 (8 * 8);
   Ldp 27 28 1 (10 * 8);
   Ldp 29 30 1 (12 * 8);
   Ret].

(** [switch_to]: [self] and [next_ctx] are the addresses of the contexts, passed in x0 and x1. *)
Definition switch_to (self next_ctx : Z) (c : cpu) : res cpu :=
  root ← load c (next_ctx + 14 * 8);
  let c := mkCpu (x c) (sp c) (tpidr_el0 c) root (pc c) (mem c) in
  exec_code context_switch (set_x (set_x c 0 self) 1 next_ctx).

(** ** The coroutines' switch *)

Definition switch : list instr :=
  [Str 19 0 (1 * 8);
   MovFromSp 19;
   Str 19 0 (0 * 8);
   Stp 20 21 0 (2 * 8);
   Stp 22 23 0 (4 * 8);
   Stp 24 25 0 (6 * 8);
   Stp 26 27 0 (8 * 8);
   Stp 28 29 0 (10 * 8);
   Stp 30 30 0 (12 * 8);
   Ldr 19 1 (0 * 8);
   MovToSp 19;
   Ldr 19 1 (1 * 8);
   Ldp 20 21 1 (2 * 8);
   Ldp 22 23 1 (4 * 8);
   Ldp 24 25 1 (6 * 8);
   Ldp 26 27 1 (8 * 8);
   Ldp 28 29 1 (10 * 8);
   Ldp 30 9 1 (12 * 8);
   Br 9].

(** ** What the switches do *)

(** The registers a function must preserve, as the kernel's contexts hold them. *)
Definition regs_of (c : cpu) : list Z :=
  [sp c; tpidr_el0 c; x c 19; x c 20; x c 21; x c 22; x c 23; x c 24; x c 25; x c 26; x c 27; x c 28; x c 29; x c 30].
(** The words of memory at [a]. *)
Definition offsets : list Z := [0; 8; 16; 24; 32; 40; 48; 56; 64; 72; 80; 88; 96; 104].
Definition has_words (m : gmap Z Z) (a : Z) (l : list Z) : Prop := Forall2 (fun off v => m !! (a + off) = Some v) offsets l.
Definition room (m : gmap Z Z) (a : Z) : Prop := Forall (fun off => is_Some (m !! (a + off))) offsets.
(** Two contexts of 15 words. *)
Definition apart (a b : Z) : Prop := a + 120 <= b \/ b + 120 <= a.
(** [m'] differs from [m] at most in the first 14 words at [a]. *)
Definition only_at (a : Z) (m m' : gmap Z Z) : Prop := forall b, ~ a <= b < a + 112 -> m' !! b = m !! b.

Lemma has_room m a l : has_words m a l -> room m a.
Proof. intros H. unfold room. induction H; constructor; eauto. Qed.

Lemma only_at_words a b m m' l : only_at a m m' -> apart a b -> has_words m b l -> has_words m' b l.
Proof.
  intros Ho Ha H. unfold has_words in *. assert (Forall (fun off => 0 <= off < 112) offsets) as Hoff by (repeat constructor; lia).
  revert Hoff. induction H as [|off v offs l Hv _ IH]; intros Hoff; constructor; apply Forall_cons in Hoff as [? ?].
  - rewrite Ho; [done|]. unfold apart in Ha. lia.
  - by apply IH.
Qed.

Lemma exec_app l l' c : exec_code (l ++ l') c = c ← exec_code l c; exec_code l' c.
Proof. revert c. induction l as [|i l IH]; intros c; cbn; [done|]. destruct (exec_instr i c); cbn; [apply IH|done]. Qed.

Lemma store_ok c a v : is_Some (mem c !! a) -> store c a v = Ok (set_mem c (<[a := v]> (mem c))).
Proof. intros [w Hw]. unfold store. by rewrite Hw. Qed.

Lemma load_ok c a v : mem c !! a = Some v -> load c a = Ok v.
Proof. intros Hv. unfold load. by rewrite Hv. Qed.

(** One instruction at a time. *)
Section steps.
Context (X : nat -> Z) (S T R P : Z) (M : gmap Z Z) (l : list instr) (r : res cpu).

Lemma stp_step a b base off p : X base = p -> is_Some (M !! (p + off)) -> is_Some (M !! (p + (off + 8))) ->
  exec_code l (mkCpu X S T R P (<[p + (off + 8) := X b]> (<[p + off := X a]> M))) = r ->
  exec_code (Stp a b base off :: l) (mkCpu X S T R P M) = r.
Proof.
  intros <- H1 H2 <-. cbn [exec_code exec_instr x]. rewrite store_ok by exact H1. cbn [mbind res_bind].
  rewrite store_ok by (cbn; apply lookup_insert_is_Some'; by right). done.
Qed.

Lemma str_step a base off p : X base = p -> is_Some (M !! (p + off)) ->
  exec_code l (mkCpu X S T R P (<[p + off := X a]> M)) = r -> exec_code (Str a base off :: l) (mkCpu X S T R P M) = r.
Proof. intros <- H1 <-. cbn [exec_code exec_instr x]. by rewrite store_ok by exact H1. Qed.

Lemma ldp_step a b base off p va vb : X base = p -> M !! (p + off) = Some va -> M !! (p + (off + 8)) = Some vb ->
  exec_code l (mkCpu (upd (upd X a va) b vb) S T R P M) = r -> exec_code (Ldp a b base off :: l) (mkCpu X S T R P M) = r.
Proof.
  intros <- H1 H2 <-. cbn [exec_code exec_instr x]. rewrite (load_ok _ (X base + off) va) by exact H1. cbn [mbind res_bind]. by rewrite (load_ok _ (X base + (off + 8)) vb) by exact H2.
Qed.

Lemma ldr_step a base off p v : X base = p -> M !! (p + off) = Some v ->
  exec_code l (mkCpu (upd X a v) S T R P M) = r -> exec_code (Ldr a base off :: l) (mkCpu X S T R P M) = r.
Proof. intros <- H1 <-. cbn [exec_code exec_instr x]. by rewrite (load_ok _ _ v) by exact H1. Qed.
End steps.

Ltac in_room := repeat (apply lookup_insert_is_Some'; right); assumption.
Ltac run_instr H :=
  lazymatch goal with
  | |- exec_code (Stp _ _ _ _ :: _) _ = _ => eapply stp_step; [exact H|in_room|in_room|]
  | |- exec_code (Str _ _ _ :: _) _ = _ => eapply str_step; [exact H|in_room|]
  | |- exec_code (Ldp _ _ _ _ :: _) _ = _ => eapply ldp_step; [exact H|eassumption|eassumption|]
  | |- exec_code (Ldr _ _ _ :: _) _ = _ => eapply ldr_step; [exact H|eassumption|]
  | |- exec_code (MovFromSp ?d :: ?l) (mkCpu ?X ?S ?T ?R ?P ?M) = ?r => change (exec_code l (mkCpu (upd X d S) S T R P M) = r)
  | |- exec_code (Mrs ?d :: ?l) (mkCpu ?X ?S ?T ?R ?P ?M) = ?r => change (exec_code l (mkCpu (upd X d T) S T R P M) = r)
  | |- exec_code (MovToSp ?d :: ?l) (mkCpu ?X ?S ?T ?R ?P ?M) = ?r => change (exec_code l (mkCpu X (X d) T R P M) = r)
  | |- exec_code (Msr ?d :: ?l) (mkCpu ?X ?S ?T ?R ?P ?M) = ?r => change (exec_code l (mkCpu X S (X d) R P M) = r)
  | |- exec_code (Br ?d :: ?l) (mkCpu ?X ?S ?T ?R ?P ?M) = ?r => change (exec_code l (mkCpu X S T R (X d) M) = r)
  end.

Lemma save_spec c self : x c 0 = self -> room (mem c) self ->
  exists c1, exec_code (take 9 context_switch) c = Ok c1 /\ has_words (mem c1) self (regs_of c) /\
    only_at self (mem c) (mem c1) /\ x c1 1 = x c 1 /\ ttbr0_el1 c1 = ttbr0_el1 c.
Proof.
  destruct c as [X S T R P M]. cbn [x mem]. intros H0 Hr. unfold room, offsets in Hr. rewrite !Forall_cons in Hr. destruct_and! Hr.
  eexists. split; [cbn [take context_switch]; do 9 run_instr H0; reflexivity|].
  split_and!; [| |done|done].
  - unfold has_words, offsets. repeat apply List.Forall2_cons; [..|apply List.Forall2_nil]; cbn [mem];
      repeat first [rewrite lookup_insert_eq; reflexivity|rewrite lookup_insert_ne by lia].
  - intros b Hb. cbn [mem]. rewrite !lookup_insert_ne by lia. done.
Qed.

Lemma restore_spec c next ws : x c 1 = next -> has_words (mem c) next ws ->
  exists c1, exec_code (drop 9 context_switch) c = Ok c1 /\ regs_of c1 = ws /\ Some (pc c1) = ws !! 13%nat /\
    mem c1 = mem c /\ ttbr0_el1 c1 = ttbr0_el1 c.
Proof.
  destruct c as [X S T R P M]. cbn [x mem]. intros H1 Hw. unfold has_words, offsets in Hw.
  repeat match goal with H : Forall2 _ (_ :: _) _ |- _ => let v := fresh "v" in let ws := fresh "ws" in let Hv := fresh "Hv" in
    apply Forall2_cons_inv_l in H as (v & ws & Hv & H & ->) end. apply Forall2_nil_inv_l in Hw as ->.
  eexists. split; [cbn [drop context_switch]; do 10 run_instr H1; reflexivity|]. done.
Qed.

(** The words of a context; its root table is the word after them. *)
Definition ctx_words (t : TaskContext) : list Z :=
  [c_sp t; c_tpidr_el0 t; r19 t; r20 t; r21 t; r22 t; r23 t; r24 t; r25 t; r26 t; r27 t; r28 t; r29 t; lr t].

Lemma switch_to_spec c self next ws root : room (mem c) self -> has_words (mem c) next ws -> mem c !! (next + 112) = Some root -> apart self next ->
  exists c', switch_to self next c = Ok c' /\ regs_of c' = ws /\ Some (pc c') = ws !! 13%nat /\ ttbr0_el1 c' = root /\
    has_words (mem c') self (regs_of c) /\ only_at self (mem c) (mem c').
Proof.
  intros Hr Hw Hroot Ha. unfold switch_to. change (14 * 8) with 112. rewrite (load_ok _ _ root) by done. cbn [mbind res_bind].
  set (c0 := set_x _ 1 next). destruct (save_spec c0 self eq_refl Hr) as (c1 & E1 & Hs & Ho & Hx1 & Ht1).
  destruct (restore_spec c1 next ws Hx1) as (c2 & E2 & Hregs & Hpc & Hm2 & Ht2); [by eapply only_at_words|].
  exists c2. change context_switch with (take 9 context_switch ++ drop 9 context_switch). rewrite exec_app, E1. cbn [mbind res_bind].
  rewrite Hm2. split_and!; [done|done|done|by rewrite Ht2, Ht1|done|done].
Qed.

(** ** Tasks that switch to each other *)

Section tasks.
(** The contexts of the tasks. *)
Context (n : nat) (ctx : nat -> Z).

Definition same_contexts (m m' : gmap Z Z) : Prop :=
  forall a off, (a < n)%nat -> 0 <= off < 120 -> m' !! (ctx a + off) = m !! (ctx a + off).

(** The current task and the processor: a task runs, without touching the contexts, or
    switches to another one. *)
Inductive kstep : nat * cpu -> nat * cpu -> Prop :=
  | k_run i c c' : same_contexts (mem c) (mem c') -> kstep (i, c) (i, c')
  | k_switch i j c c' : i <> j -> (j < n)%nat -> switch_to (ctx i) (ctx j) c = Ok c' -> kstep (i, c) (j, c').
(** Steps that do not come back to task [i]. *)
Definition away (i : nat) (s s' : nat * cpu) : Prop := kstep s s' /\ s'.1 <> i.

Definition context_at (m : gmap Z Z) (a : Z) (t : TaskContext) : Prop :=
  has_words m a (ctx_words t) /\ m !! (a + 112) = Some (c_ttbr0_el1 t).
Definition ctx_room (m : gmap Z Z) (a : Z) : Prop := room m a /\ is_Some (m !! (a + 112)).

Hypothesis Hapart : forall a b, (a < n)%nat -> (b < n)%nat -> a <> b -> apart (ctx a) (ctx b).

Lemma room_words m a : room m a -> exists ws, has_words m a ws.
Proof.
  unfold room, has_words. induction offsets as [|off offs IH]; [exists []; constructor|].
  intros [[v Hv] H]%Forall_cons. destruct (IH H) as [ws Hws]. exists (v :: ws). by constructor.
Qed.

(** What holds while task [i], which left with registers [l] and has root table [root], is away. *)
Record away_ok (i : nat) (l : list Z) (root : Z) (s : nat * cpu) : Prop := {
  aw_cur : (s.1 < n)%nat /\ s.1 <> i;
  aw_room a : (a < n)%nat -> ctx_room (mem s.2) (ctx a);
  aw_regs : has_words (mem s.2) (ctx i) l;
  aw_root : mem s.2 !! (ctx i + 112) = Some root;
}.

Lemma words_eq m m' a l : (forall off, 0 <= off < 120 -> m' !! (a + off) = m !! (a + off)) -> has_words m a l -> has_words m' a l.
Proof.
  intros He H. unfold has_words in *. assert (Forall (fun off => 0 <= off < 120) offsets) as Hoff by (repeat constructor; lia).
  revert Hoff. induction H as [|off v offs l Hv _ IH]; intros Hoff; constructor; apply Forall_cons in Hoff as [? ?]; [by rewrite He|by apply IH].
Qed.

Lemma ctx_room_eq m m' a : (forall off, 0 <= off < 120 -> m' !! (a + off) = m !! (a + off)) -> ctx_room m a -> ctx_room m' a.
Proof.
  intros He [Hr Hx]. split; [|rewrite He by lia; done]. destruct (room_words m a Hr) as [ws Hws]. eapply has_room, words_eq, Hws. done.
Qed.

(** A switch keeps all contexts, and the content of those of the others. *)
Lemma switch_keeps i m m' : (i < n)%nat -> only_at (ctx i) m m' -> room m' (ctx i) ->
  (forall a, (a < n)%nat -> ctx_room m (ctx a)) -> (forall a, (a < n)%nat -> ctx_room m' (ctx a)) /\
  forall a off, (a < n)%nat -> a <> i -> 0 <= off < 120 -> m' !! (ctx a + off) = m !! (ctx a + off).
Proof.
  intros Hi Ho Hr Hall.
  assert (forall a off, (a < n)%nat -> a <> i -> 0 <= off < 120 -> m' !! (ctx a + off) = m !! (ctx a + off)) as Hne.
  { intros a off Ha Hai Hoff. apply Ho. specialize (Hapart a i Ha Hi Hai). unfold apart in Hapart. lia. }
  split; [|done]. intros a Ha. destruct (decide (a = i)) as [->|Hai].
  - split; [done|]. rewrite Ho by lia. by apply Hall.
  - eapply ctx_room_eq; [|by apply Hall]. auto.
Qed.

Lemma switch_at i j c ws root : (i < n)%nat -> (j < n)%nat -> i <> j -> (forall a, (a < n)%nat -> ctx_room (mem c) (ctx a)) ->
  has_words (mem c) (ctx j) ws -> mem c !! (ctx j + 112) = Some root ->
  exists c', switch_to (ctx i) (ctx j) c = Ok c' /\ regs_of c' = ws /\ Some (pc c') = ws !! 13%nat /\ ttbr0_el1 c' = root /\
    has_words (mem c') (ctx i) (regs_of c) /\ mem c' !! (ctx i + 112) = mem c !! (ctx i + 112) /\
    (forall a, (a < n)%nat -> ctx_room (mem c') (ctx a)) /\
    forall a off, (a < n)%nat -> a <> i -> 0 <= off < 120 -> mem c' !! (ctx a + off) = mem c !! (ctx a + off).
Proof.
  intros Hi Hj Hne Hall Hw Hroot.
  destruct (switch_to_spec c (ctx i) (ctx j) ws root (proj1 (Hall i Hi)) Hw Hroot (Hapart i j Hi Hj Hne)) as (c' & E & H1 & H2 & H3 & H4 & H5).
  destruct (switch_keeps i _ _ Hi H5 (has_room _ _ _ H4) Hall) as [Hr He]. exists c'. split_and!; try done. apply H5. lia.
Qed.

Lemma away_step i l root s s' : (i < n)%nat -> away_ok i l root s -> away i s s' -> away_ok i l root s'.
Proof.
  intros Hi [[Hcur Hne] Hr Hw Hroot] [Hstep Hi']. destruct Hstep as [k c c' Hsame|k j c c' Hkj Hj E]; cbn [fst snd] in *.
  - split; cbn [fst snd]; [done| | |].
    + intros a Ha. eapply ctx_room_eq; [|by apply Hr]. intros off Hoff. by apply Hsame.
    + eapply words_eq; [|exact Hw]. intros off Hoff. by apply Hsame.
    + rewrite Hsame; [done|done|lia].
  - destruct (Hr j Hj) as [Hrj [rootj Hrootj]]. destruct (room_words _ _ Hrj) as [wj Hwj].
    destruct (switch_at k j c wj rootj Hcur Hj Hkj Hr Hwj Hrootj) as (c2 & E2 & _ & _ & _ & _ & _ & Hr2 & He). rewrite E in E2. injection E2 as <-.
    split; cbn [fst snd]; [done|done| |].
    + eapply words_eq; [|exact Hw]. intros off Hoff. by apply He.
    + rewrite He; [done|done|done|lia].
Qed.

(** C18: A context switch is exact: it puts the next task where its context says (its
    registers, stack, thread pointer and return address, under its own page table), and
    after any run of other tasks, whatever they do to the registers and however they
    switch, the switch back to the first one returns from its call with all the registers
    it must find unchanged, its stack and its page table. *)
Theorem switch_resumes i j c tc : (i < n)%nat -> (j < n)%nat -> i <> j -> (forall a, (a < n)%nat -> context_at (mem c) (ctx a) (tc a)) ->
  exists c1, switch_to (ctx i) (ctx j) c = Ok c1 /\
    regs_of c1 = ctx_words (tc j) /\ pc c1 = lr (tc j) /\ ttbr0_el1 c1 = c_ttbr0_el1 (tc j) /\
    forall k c2, rtc (away i) (j, c1) (k, c2) ->
      exists c3, switch_to (ctx k) (ctx i) c2 = Ok c3 /\ regs_of c3 = regs_of c /\ pc c3 = x c 30 /\ ttbr0_el1 c3 = c_ttbr0_el1 (tc i).
Proof.
  intros Hi Hj Hne Hctx. assert (forall a, (a < n)%nat -> ctx_room (mem c) (ctx a)) as Hall.
  { intros a Ha. destruct (Hctx a Ha) as [H1 H2]. split; [by eapply has_room|by eexists]. }
  destruct (Hctx j Hj) as [Hwj Hrj]. destruct (switch_at i j c _ _ Hi Hj Hne Hall Hwj Hrj) as (c1 & E & H1 & H2 & H3 & H4 & H5 & H6 & _).
  exists c1. split_and!; [done|done|by injection H2|done|]. intros k c2 Hrun.
  assert (away_ok i (regs_of c) (c_ttbr0_el1 (tc i)) (k, c2)) as [[Hk Hki] Hr Hw Hroot].
  { eapply (rtc_ind_r (away_ok i (regs_of c) (c_ttbr0_el1 (tc i)))); [| |exact Hrun].
    - split; cbn [fst snd]; [done|done|done|]. rewrite H5. apply (Hctx i Hi).
    - intros s s' _ Hs Hok. by eapply away_step. }
  cbn [fst snd] in *. destruct (switch_at k i c2 _ _ Hk Hi Hki Hr Hw Hroot) as (c3 & E3 & R1 & R2 & R3 & _).
  exists c3. split_and!; [done|done|by injection R2|done].
Qed.
End tasks.

(** ** Witness *)

(** Two tasks with contexts at 4096 and 8192; the second is new, with entry 77 and stack 9000. *)
Fixpoint put_words (m : gmap Z Z) (a : Z) (l : list Z) : gmap Z Z :=
  match l with [] => m | v :: l => <[a := v]> (put_words m (a + 8) l) end.
Definition demo_ctx (a : nat) : Z := match a with O => 4096 | _ => 8192 end.
Definition demo_tc (a : nat) : TaskContext := match a with O => TaskContext_default | _ => TaskContext_init TaskContext_default 77 9000 5 end.
Definition demo_mem : gmap Z Z :=
  put_words (put_words ∅ 4096 (ctx_words (demo_tc 0) ++ [c_ttbr0_el1 (demo_tc 0)])) 8192 (ctx_words (demo_tc 1) ++ [c_ttbr0_el1 (demo_tc 1)]).
Definition demo_cpu : cpu := mkCpu (fun r => 1000 + Z.of_nat r) 6000 3 0 0 demo_mem.

Lemma switch_resumes_witness : exists c1 c3, switch_to 4096 8192 demo_cpu = Ok c1 /\ pc c1 = 77 /\ sp c1 = 9000 /\
  switch_to 8192 4096 c1 = Ok c3 /\ regs_of c3 = regs_of demo_cpu /\ pc c3 = 1030.
Proof.
  destruct (switch_resumes 2 demo_ctx) with (i := 0%nat) (j := 1%nat) (c := demo_cpu) (tc := demo_tc) as (c1 & E & R & P & _ & H).
  - intros a b Ha Hb Hne. unfold apart, demo_ctx. destruct a as [|[|a]], b as [|[|b]]; lia.
  - lia.
  - lia.
  - lia.
  - intros a Ha. destruct a as [|[|a]]; [| |lia]; (split; [repeat constructor|reflexivity]).
  - destruct (H 1%nat c1 (rtc_refl _ _)) as (c3 & E3 & R3 & P3 & _). exists c1, c3.
    split; [exact E|]. split; [exact P|]. split; [injection R; intros; congruence|]. split; [exact E3|]. split; [exact R3|exact P3].
Defined.
