(* ===== verification/Coroutine.v ===== *)
(** The coroutine runtime of user/src/bin/stackful_coroutine.rs: round-robin scheduling of
    a fixed number of tasks, each with a stack and a saved context, switched by
    the instructions of [Switch.switch]. *)
From S2P Require Import Prelude Switch.

Definition MAX_TASKS : nat := 5.

Inductive State := Available | Running | Ready.
#[export] Instance State_eq_dec : EqDecision State.
Proof. solve_decision. Defined.

Record Runtime := mkRt { tasks : list State; current : nat }.

(** A base task that runs, and the other slots. *)
Definition Runtime_new : Runtime := mkRt (Running :: replicate (MAX_TASKS - 1) Available) 0.

(** The loop of [t_yield]: the next task that is ready, from [pos] on; [None] when the
    search comes back to the current task. *)
Fixpoint find_ready (fuel : nat) (rt : Runtime) (pos : nat) : res (option nat) :=
  match fuel with
  | O => Err NoFuel
  | S fuel =>
      st ← unwrap (tasks rt !! pos);
      if decide (st = Ready) then Ok (Some pos) else
      let pos := S pos in
      let pos := if Nat.eqb pos (length (tasks rt)) then O else pos in
      if Nat.eqb pos (current rt) then Ok None else find_ready fuel rt pos
  end.

(** The result and the runtime when the task that is chosen goes on. *)
Definition t_yield (rt : Runtime) : res (bool * Runtime) :=
  o ← find_ready (S (length (tasks rt))) rt (current rt);
  match o with
  | None => Ok (false, rt)
  | Some pos =>
      st ← unwrap (tasks rt !! current rt);
      let ts := if decide (st = Available) then tasks rt else <[current rt := Ready]> (tasks rt) in
      Ok (true, mkRt (<[pos := Running]> ts) pos)
  end.

(** [t_return], which [guard] calls when the function of a task returns. *)
Definition t_return (rt : Runtime) : res Runtime :=
  if Nat.eqb (current rt) 0 then Ok rt else
  '(_, rt) ← t_yield (mkRt (<[current rt := Available]> (tasks rt)) (current rt));
  Ok rt.

(** The slot of the new task. *)
Fixpoint find_available (l : list State) : option nat :=
  match l with
  | [] => None
  | st :: l => if decide (st = Available) then Some O else S <$> find_available l
  end.
Definition spawn (rt : Runtime) : res (nat * Runtime) :=
  i ← unwrap (find_available (tasks rt));
  Ok (i, mkRt (<[i := Ready]> (tasks rt)) (current rt)).

(** ** The program

    The function of a task prints and yields a number of times and returns; [left] are the
    times that are left, [trace] is who printed, the last first. *)
Record world := mkWorld { rt : Runtime; left : list nat; trace : list nat }.
Inductive status := More (w : world) | Done (w : world).

Definition spawn_task (w : world) (n : nat) : res world :=
  '(i, r) ← spawn (rt w);
  Ok (mkWorld r (<[i := n]> (left w)) (trace w)).
Fixpoint spawn_tasks (w : world) (ns : list nat) : res world :=
  match ns with [] => Ok w | n :: ns => w ← spawn_task w n; spawn_tasks w ns end.

(** The current task up to its next switch; the base task is in [run]. *)
Definition step (w : world) : res status :=
  match current (rt w) with
  | O =>
      '(again, r) ← t_yield (rt w);
      Ok (if again : bool then More (mkWorld r (left w) (trace w)) else Done w)
  | S _ as i =>
      n ← unwrap (left w !! i);
      match n with
      | O => r ← t_return (rt w); Ok (More (mkWorld r (left w) (trace w)))
      | S n =>
          '(_, r) ← t_yield (rt w);
          Ok (More (mkWorld r (<[i := n]> (left w)) (i :: trace w)))
      end
  end.
Fixpoint run (fuel : nat) (w : world) : res world :=
  match fuel with
  | O => Err NoFuel
  | S fuel => s ← step w; match s with Done w => Ok w | More w => run fuel w end
  end.
Definition main (fuel : nat) (ns : list nat) : res world :=
  w ← spawn_tasks (mkWorld Runtime_new (replicate MAX_TASKS 0%nat) []) ns;
  run fuel w.

(** ** Contexts *)

(** The words of [TaskContext], and what [spawn] sets of them: the first run begins at [f],
    which returns to [guard]. *)
Record TaskContext := mkCo {
  c_sp : Z; c_r19 : Z; c_r20 : Z; c_r21 : Z; c_r22 : Z; c_r23 : Z; c_r24 : Z; c_r25 : Z; c_r26 : Z; c_r27 : Z; c_r28 : Z; c_r29 : Z;
  c_r30 : Z; nx1 : Z;
}.
Definition co_words (t : TaskContext) : list Z :=
  [c_sp t; c_r19 t; c_r20 t; c_r21 t; c_r22 t; c_r23 t; c_r24 t; c_r25 t; c_r26 t; c_r27 t; c_r28 t; c_r29 t; c_r30 t; nx1 t].
Definition spawn_context (t : TaskContext) (guard f stack_end : Z) : TaskContext :=
  mkCo (Z.land stack_end (usize (Z.lnot 7)) - 32) (c_r19 t) (c_r20 t) (c_r21 t) (c_r22 t) (c_r23 t) (c_r24 t) (c_r25 t) (c_r26 t) (c_r27 t)
    (c_r28 t) (c_r29 t) guard f.
(** The registers, as a context holds them: its last two words are both the return address. *)
Definition co_regs (c : cpu) : list Z :=
  [sp c; x c 19; x c 20; x c 21; x c 22; x c 23; x c 24; x c 25; x c 26; x c 27; x c 28; x c 29; x c 30].

Lemma co_save_spec c self : x c 0 = self -> room (mem c) self ->
  exists c1, exec_code (take 9 switch) c = Ok c1 /\ has_words (mem c1) self (co_regs c ++ [x c 30]) /\
    only_at self (mem c) (mem c1) /\ x c1 1 = x c 1.
Proof.
  destruct c as [X S T R P M]. cbn [x mem]. intros H0 Hr. unfold room, offsets in Hr. rewrite !Forall_cons in Hr. destruct_and! Hr.
  eexists. split; [cbn [take switch]; do 9 run_instr H0; reflexivity|].
  split_and!; [| |done].
  - unfold has_words, offsets, co_regs. cbn [app]. repeat apply List.Forall2_cons; [..|apply List.Forall2_nil]; cbn [mem];
      repeat first [rewrite lookup_insert_eq; reflexivity|rewrite lookup_insert_ne by lia].
  - intros b Hb. cbn [mem]. rewrite !lookup_insert_ne by lia. done.
Qed.

Lemma co_restore_spec c next t : x c 1 = next -> has_words (mem c) next (co_words t) ->
  exists c1, exec_code (drop 9 switch) c = Ok c1 /\ co_regs c1 ++ [pc c1] = co_words t /\ mem c1 = mem c.
Proof.
  destruct c as [X S T R P M]. cbn [x mem]. intros H1 Hw. unfold has_words, offsets, co_words in Hw.
  repeat match goal with H : Forall2 _ (_ :: _) (_ :: _) |- _ => let Hv := fresh "Hv" in apply Forall2_cons_1 in H as [Hv H] end.
  eexists. split; [cbn [drop switch]; do 10 run_instr H1; reflexivity|]. done.
Qed.

(** [switch] leaves the old task so that its call returns when it is switched back to, and
    goes on in the new task as its context says. *)
Lemma co_switch_spec c old new t : x c 0 = old -> x c 1 = new -> room (mem c) old -> has_words (mem c) new (co_words t) -> apart old new ->
  exists c', exec_code switch c = Ok c' /\ co_regs c' ++ [pc c'] = co_words t /\
    has_words (mem c') old (co_regs c ++ [x c 30]) /\ only_at old (mem c) (mem c').
Proof.
  intros H0 H1 Hr Hw Ha. destruct (co_save_spec c old H0 Hr) as (c1 & E1 & Hs & Ho & Hx).
  destruct (co_restore_spec c1 new t) as (c2 & E2 & Hc & Hm); [congruence|by eapply only_at_words|].
  exists c2. change switch with (take 9 switch ++ drop 9 switch). rewrite exec_app, E1. cbn [mbind res_bind].
  rewrite Hm. by split_and!.
Qed.

(** ** Rounds *)

(** The slots of the tasks that may be spawned: how often the task in it still prints. *)
Abbreviation slots := (list (option nat)).
Definition slot_state (o : option nat) : State := match o with Some _ => Ready | None => Available end.
(** Between two rounds the base task runs. *)
Definition world_of (ss : slots) (tr : list nat) : world :=
  mkWorld (mkRt (Running :: (slot_state <$> ss)) 0) (0%nat :: (default 0%nat <$> ss)) tr.

Fixpoint alive (ss : slots) : nat := match ss with [] => 0 | Some _ :: ss => S (alive ss) | None :: ss => alive ss end.
Definition next_round (ss : slots) : slots := (fun o => match o with Some (S n) => Some n | _ => None end) <$> ss.
(** Who prints in a round, in the order of the slots from [i] on. *)
Fixpoint prints (i : nat) (ss : slots) : list nat :=
  match ss with
  | [] => []
  | Some (S _) :: ss => i :: prints (S i) ss
  | _ :: ss => prints (S i) ss
  end.

Lemma run_round ss tr fuel : length ss = 4%nat -> alive ss <> 0%nat ->
  run (S (alive ss) + fuel) (world_of ss tr) = run fuel (world_of (next_round ss) (rev (prints 1 ss) ++ tr)).
Proof.
  intros Hl Ha. destruct ss as [|a [|b [|c [|d [|e ss]]]]]; try done.
  destruct a as [[|a]|], b as [[|b]|], c as [[|c]|], d as [[|d]|]; first [by destruct Ha|reflexivity].
Qed.

Lemma run_end ss tr fuel : length ss = 4%nat -> alive ss = 0%nat -> run (S fuel) (world_of ss tr) = Ok (world_of ss tr).
Proof.
  intros Hl Ha. destruct ss as [|a [|b [|c [|d [|e ss]]]]]; try done.
  destruct a, b, c, d; done.
Qed.

(** The slots after [k] rounds. *)
Definition slots_at (cs : slots) (k : nat) : slots := (fun o => n ← o; if (k <=? n)%nat then Some (n - k)%nat else None) <$> cs.

Lemma slots_at_0 cs : slots_at cs 0 = cs.
Proof. induction cs as [|[n|] cs IH]; cbn; [done|..]; rewrite ?Nat.sub_0_r; by f_equal. Qed.

Lemma slots_at_next cs k : next_round (slots_at cs k) = slots_at cs (S k).
Proof.
  unfold next_round, slots_at. rewrite <- list_fmap_compose. apply list_fmap_ext. intros _ [n|] _; unfold compose; cbn [mbind option_bind]; [|done].
  destruct (Nat.leb_spec k n), (Nat.leb_spec (S k) n); try lia; [| |done].
  - by replace (n - k)%nat with (S (n - S k)) by lia.
  - by replace (n - k)%nat with 0%nat by lia.
Qed.

(** Who prints in round [k]: those that print more than [k] times. *)
Fixpoint printing (i k : nat) (cs : slots) : list nat :=
  match cs with
  | [] => []
  | o :: cs => (if (k <? default 0 o)%nat then [i] else []) ++ printing (S i) k cs
  end.
Lemma prints_at cs : forall i k, prints i (slots_at cs k) = printing i k cs.
Proof.
  induction cs as [|[n|] cs IH]; intros i k; [done| |apply IH].
  change (slots_at (Some n :: cs) k) with ((if (k <=? n)%nat then Some (n - k)%nat else None) :: slots_at cs k).
  change (printing i k (Some n :: cs)) with ((if (k <? n)%nat then [i] else []) ++ printing (S i) k cs). rewrite <- IH.
  destruct (Nat.leb_spec k n), (Nat.ltb_spec k n); try lia; [|by replace (n - k)%nat with 0%nat by lia|done].
  by replace (n - k)%nat with (S (n - S k)) by lia.
Qed.

(** The longest task. *)
Definition longest (cs : slots) : nat := foldr (fun o m => max (default 0 o) m)%nat 0%nat cs.
Lemma alive_at cs k : alive (slots_at cs k) = 0%nat <-> Forall (fun o => forall n, o = Some n -> (n < k)%nat) cs.
Proof.
  induction cs as [|[n|] cs IH]; cbn; [by split|..]; fold (slots_at cs k); rewrite Forall_cons, <- IH.
  - destruct (Nat.leb_spec k n); cbn; split; try done; [intros [Hn _]; specialize (Hn n eq_refl); lia|intros; split; [|done]; by intros ? [= <-]|by intros [_ ?]].
  - split; [intros; by split|by intros [_ ?]].
Qed.
Lemma longest_le cs : Forall (fun o => forall n, o = Some n -> (n <= longest cs)%nat) cs.
Proof.
  induction cs as [|o cs IH]; constructor; cbn.
  - intros n ->. cbn. lia.
  - eapply Forall_impl; [exact IH|]. intros o' H n Hn. specialize (H n Hn). fold (longest cs). lia.
Qed.

Lemma alive_le ss : (alive ss <= length ss)%nat.
Proof. induction ss as [|[n|] ss IH]; cbn; lia. Qed.

Lemma ended ss tr : length ss = 4%nat -> alive ss = 0%nat -> rt (world_of ss tr) = mkRt (Running :: replicate 4 Available) 0.
Proof. intros Hl Ha. by destruct ss as [|[|] [|[|] [|[|] [|[|] [|? ?]]]]]. Qed.

Lemma printing_none cs k l : alive (slots_at cs k) = 0%nat -> (forall r, r ∈ l -> (k <= r)%nat) ->
  concat ((fun r => printing 1 r cs) <$> l) = [].
Proof.
  intros Ha%alive_at Hl. assert (forall i r, (k <= r)%nat -> printing i r cs = []) as Hp.
  { clear Hl. induction Ha as [|o cs Ho _ IH]; intros i r Hr; [done|]. cbn [printing]. rewrite IH by done.
    destruct o as [n|]; cbn [default]; [specialize (Ho n eq_refl)|]; by rewrite (proj2 (Nat.ltb_ge _ _)) by (cbn; lia). }
  induction l as [|r l IH]; [done|]. cbn. rewrite Hp by (apply Hl; by left). apply IH. intros r' Hr'. apply Hl. by right.
Qed.

(** Fuel: a step of the base task and one of every task for each round, and the last search. *)
Definition fuel_for (cs : slots) : nat := 5 * S (S (longest cs)).

Lemma run_rounds cs : length cs = 4%nat -> forall j k fuel tr, (k + j = S (longest cs))%nat -> (5 * S j <= fuel)%nat ->
  exists w, run fuel (world_of (slots_at cs k) tr) = Ok w /\ rt w = mkRt (Running :: replicate 4 Available) 0 /\
    rev (trace w) = rev tr ++ concat ((fun r => printing 1 r cs) <$> seq k j).
Proof.
  intros Hl. induction j as [|j IH]; intros k fuel tr Hk Hf; pose proof (longest_le cs) as Hle;
    (assert (length (slots_at cs k) = 4%nat) as Hl' by (unfold slots_at; by rewrite length_fmap)).
  - assert (alive (slots_at cs k) = 0%nat) as Ha.
    { apply alive_at. eapply Forall_impl; [exact Hle|]. intros o H n Hn. specialize (H n Hn). lia. }
    destruct fuel as [|fuel]; [lia|]. rewrite run_end by done. eexists. split; [done|]. split; [by apply ended|by rewrite app_nil_r].
  - destruct (decide (alive (slots_at cs k) = 0%nat)) as [Ha|Ha].
    + destruct fuel as [|fuel]; [lia|]. rewrite run_end by done. eexists. split; [done|]. split; [by apply ended|].
      rewrite (printing_none cs k); [by rewrite app_nil_r|done|]. intros r Hr%elem_of_seq. lia.
    + pose proof (alive_le (slots_at cs k)) as Hd.
      replace fuel with (S (alive (slots_at cs k)) + (fuel - S (alive (slots_at cs k))))%nat by lia.
      rewrite run_round, slots_at_next by done.
      destruct (IH (S k) (fuel - S (alive (slots_at cs k)))%nat (rev (prints 1 (slots_at cs k)) ++ tr)) as (w & E & Hrt & Htr); [lia|lia|].
      exists w. split_and!; [done|done|]. rewrite Htr, rev_app_distr, rev_involutive, prints_at, <- app_assoc. done.
Qed.

Definition slots_of (ns : list nat) : slots := (Some <$> ns) ++ replicate (4 - length ns) None.

Lemma spawn_all ns : (length ns <= 4)%nat ->
  spawn_tasks (mkWorld Runtime_new (replicate MAX_TASKS 0%nat) []) ns = Ok (world_of (slots_of ns) []).
Proof.
  intros Hl. destruct ns as [|a [|b [|c [|d [|e ns]]]]]; [reflexivity..|]. cbn in Hl. lia.
Qed.

(** The coroutine program ends, and runs its tasks in turn: with at most four tasks that
    print [ns] times, the scheduler returns to the base task with all slots available
    again, and the tasks have printed in rounds, in round [r] exactly those
    that print more than [r] times, in the order of their slots.  A fifth task panics. *)
Theorem coroutines_take_turns ns : (length ns <= 4)%nat ->
  (exists w, main (fuel_for (slots_of ns)) ns = Ok w /\ rt w = Runtime_new /\
    rev (trace w) = concat ((fun r => printing 1 r (slots_of ns)) <$> seq 0 (S (longest (slots_of ns))))) /\
  forall fuel n1 n2 n3 n4 n5 more, main fuel (n1 :: n2 :: n3 :: n4 :: n5 :: more) = Err Panic.
Proof.
  intros Hl. split; [|reflexivity]. assert (length (slots_of ns) = 4%nat) as Hs.
  { unfold slots_of. rewrite length_app, length_fmap, length_replicate. lia. }
  destruct (run_rounds (slots_of ns) Hs (S (longest (slots_of ns))) 0 (fuel_for (slots_of ns)) []) as (w & E & Hr & Ht); [lia|unfold fuel_for; lia|].
  exists w. unfold main. rewrite spawn_all by done. rewrite slots_at_0 in E. by split_and!.
Qed.

Lemma coroutines_take_turns_witness : exists w, main 90 [4; 8; 12; 16]%nat = Ok w /\
  take 4 (rev (trace w)) = [1; 2; 3; 4]%nat /\ length (trace w) = 40%nat.
Proof.
  destruct (coroutines_take_turns [4; 8; 12; 16]%nat) as [(w & E & _ & H) _]; [cbn; lia|].
  exists w. split; [exact E|]. split; [rewrite H; reflexivity|]. rewrite <- length_rev, H. reflexivity.
Defined.
