(* ===== verification/Boot.v ===== *)
(** Start of the kernel (os/src/main.rs, [init] and [run] of os/src/task/mod.rs,
    os/src/task/percpu.rs, [task_entry] of os/src/task/structs.rs): memory, interrupts, the
    first processes, and the turns of the kernel's own tasks until the shell runs. *)
From S2P Require Import Prelude State Spin Address Allocator PageEntry PageTable BTree MemorySet AddressSpace UserSpace LoadUser Signal Sched Process ProcessInv Gic KernelSpace.

(** ** First processes *)

Definition new_idle : st PS Z :=
  _ ← new_arc 0 (Process_new_common true);
  id ← alloc_pid;
  _ ← slift (rassert (id =? 0));
  tid ← alloc_tid 0;
  task ← Task_new_common 0 tid true (EntryKernel 0 0);
  _ ← on_psched (set_state (0, tid) Running);
  _ ← add_task 0 tid task;
  mret 0.

(** The statics that boot fills, beside the state of the processes: what [TASK_MANAGER] and
    [PROC_MAP] hold are the ready queue and the process table of [ps]. *)
Record Boot := mkBoot {
  ps : PS;
  CPUS : list (LazyInit Z);
  TASK_MANAGER : LazyInit unit;
  PROC_MAP : LazyInit unit;
  ROOT : LazyInit Z;
  irqs_enabled : bool;
}.
Definition on_ps {A} (m : st PS A) : st Boot A := fun b =>
  match m (ps b) with
  | Ok (a, x) => Ok (a, mkBoot x (CPUS b) (TASK_MANAGER b) (PROC_MAP b) (ROOT b) (irqs_enabled b))
  | Err e => Err e
  end.

Definition PerCpu_new : st PS Z :=
  idle_proc ← new_idle;
  idle_task ← proc_task idle_proc;
  _ ← on_psched (set_current_task idle_task);
  mret idle_proc.
Definition init_percpu : st Boot unit :=
  let cpu_id := 0 in
  cpu ← on_ps (PerCpu_new);
  b ← sget;
  c ← slift (vget (CPUS b) cpu_id);
  c ← slift (init_by c cpu);
  l ← slift (vset (CPUS b) cpu_id c);
  sput (mkBoot (ps b) l (TASK_MANAGER b) (PROC_MAP b) (ROOT b) (irqs_enabled b)).

(** [manager::init]. *)
Definition manager_init : st Boot unit :=
  b ← sget;
  tm ← slift (init_by (TASK_MANAGER b) tt);
  pm ← slift (init_by (PROC_MAP b) tt);
  let s := ps b in
  let s := mkPS (mkSched (states (psched s)) [] (current (psched s))) (procs s) ∅ (next_pid s) (pmem s) in
  sput (mkBoot s (CPUS b) tm pm (ROOT b) (irqs_enabled b)).

Definition set_root (root : Z) : st Boot unit :=
  b ← sget;
  c ← slift (init_by (ROOT b) root);
  sput (mkBoot (ps b) (CPUS b) (TASK_MANAGER b) (PROC_MAP b) c (irqs_enabled b)).

(** [m.spawn(p.task())]. *)
Definition spawn_first (p : Z) : st Boot unit :=
  t ← on_ps (proc_task p);
  on_ps (spawn_task t).

Definition task_is_root (t : TaskRef) : bool := is_root t.1 && (t.2 =? 0).

Section boot.
(** The parser of ELF files, and the addresses of the closures that the kernel's tasks run. *)
Context (parse : list Z -> option ElfFile) (root_fn test_fn : Z).

(** [user_shell] is what the file system holds under that name. *)
Definition task_init (user_shell : option (list Z)) : st Boot unit :=
  _ ← init_percpu;
  _ ← manager_init;
  p ← on_ps (new_kernel root_fn 0);
  _ ← set_root p;
  b ← sget;
  _ ← slift (get (TASK_MANAGER b));
  root ← slift (get (ROOT b));
  root_task ← on_ps (proc_task root);
  _ ← slift (rassert (task_is_root root_task));
  _ ← on_ps (spawn_task root_task);
  p ← on_ps (new_kernel test_fn 0xdead);
  _ ← spawn_first p;
  p ← on_ps (new_kernel test_fn 0xbeef);
  _ ← spawn_first p;
  p ← on_ps (new_user parse user_shell);
  spawn_first p.

(** [run], up to the switch away from the idle task. *)
Definition task_run : st Boot unit :=
  b ← sget;
  _ ← sput (mkBoot (ps b) (CPUS b) (TASK_MANAGER b) (PROC_MAP b) (ROOT b) true);
  on_ps (on_psched yield_now).

(** ** Turns of the kernel's tasks *)

(** [while curr_proc.waitpid(-1, &mut exit_code) > 0 {}]. *)
Fixpoint reap (fuel : nat) (self : Z) : st PS unit :=
  match fuel with
  | O => slift (Err NoFuel)
  | S fuel =>
      '(ret, _) ← waitpid self (-1);
      if 0 <? ret then reap fuel self else mret tt
  end.
(** One round of the loop of the root task; [false] when it waits for an interrupt. *)
Definition root_round : st PS bool :=
  t ← cur_task;
  p ← get_proc t.1;
  _ ← reap (S (length (children p))) t.1;
  p ← get_proc t.1;
  if (Zlength (children p) =? 0) then mret false
  else _ ← on_psched yield_now; mret true.

(** What it prints is not modelled. *)
Definition test_kernel_task (arg : Z) : st PS Z :=
  t ← cur_task;
  _ ← get_proc t.1;
  mret 0.

(** The current task runs until it gives up the processor: a kernel task its code, or
    for the root task a round of its loop; a user task goes to user mode with its frame. *)
Definition task_entry : st PS (option TrapFrame) :=
  t ← cur_task;
  p ← get_proc t.1;
  task ← slift (unwrap (bt_lookup t.2 (tasks p)));
  match entry task with
  | EntryKernel pc arg =>
      if pc =? root_fn then _ ← root_round; mret None
      else if pc =? test_fn then
        ret ← test_kernel_task arg;
        _ ← CurrentTask_exit (as_i32 ret);
        mret None
      else slift (Err Undefined)
  | EntryUser tf => mret (Some tf)
  end.
Fixpoint turns (n : nat) : st PS (option TrapFrame) :=
  match n with
  | O => mret None
  | S n => o ← task_entry; match o with Some tf => mret (Some tf) | None => turns n end
  end.

(** ** [rust_main] *)

(** Before boot there are no processes, and no static is set. *)
Definition boot_statics (m : Mem) : Boot :=
  mkBoot (mkPS (mkSched ∅ [] (0, 0)) ∅ ∅ 0 m) [LazyInit_new] LazyInit_new LazyInit_new LazyInit_new false.

Definition rust_main {G} `{GicDevice G} (s : Symbols) (user_shell : option (list Z)) (k : Kernel) (g : G) : res (Kernel * Boot * G) :=
  k ← mm_init s k;
  _ ← remap_test s k;
  '(gic, g) ← irq_boot g;
  '(_, b) ← task_init user_shell (boot_statics (k_mem k));
  '(_, b) ← task_run b;
  Ok (mkKernel (pmem (ps b)) (KERNEL_SPACE k) (TTBR0_EL1 k) (TTBR1_EL1 k), b, g).
End boot.

(** ** Reaping *)

Lemma filter_children_delete s (l : list Z) i c : l !! i = Some c -> zombie_proc s c = true ->
  filter (fun d => zombie_proc s d = false) (delete i l) = filter (fun d => zombie_proc s d = false) l.
Proof.
  intros Hi Hz. rewrite delete_take_drop. rewrite <- (take_drop_middle _ _ _ Hi) at 3.
  rewrite !filter_app, filter_cons_False; [done|]. congruence.
Qed.

(** The processes without the exited children of [self]. *)
Definition reaped_all (s : PS) (self : Z) (p : Process) (s' : PS) : Prop :=
  psched s' = psched s /\ pmem s' = pmem s /\ next_pid s' = next_pid s /\
  procs s' !! self = Some (with_children p (filter (fun c => zombie_proc s c = false) (children p))) /\
  forall q, q <> self -> procs s' !! q = if decide (q ∈ children p /\ zombie_proc s q = true) then None else procs s !! q.

Lemma reap_spec self fuel : forall s p, tree_ok s -> procs s !! self = Some p -> (length (children p) < fuel)%nat ->
  swp (reap fuel self) s (fun _ s' => tree_ok s' /\ reaped_all s self p s').
Proof.
  induction fuel as [|fuel IH]; intros s p T Hp Hf; [lia|]. cbn [reap]. apply swp_bind.
  eapply swp_mono; [by apply waitpid_spec|]. intros [ret code] s1 [T1 Hw].
  assert (forall c, matching (-1) c && zombie_proc s c = zombie_proc s c) as Hm by done.
  destruct (find_index _ (children p)) as [[i c]|] eqn:F.
  - destruct Hw as (x & Hx & -> & _ & ->). apply find_index_Some in F as (Hi & Hz & _). rewrite Hm in Hz.
    pose proof (list_elem_of_lookup_2 _ _ _ Hi) as Hc. destruct (tk_child _ T _ _ _ Hp Hc) as [_ Hlt]. pose proof (tk_pids _ T _ _ Hp).
    rewrite (proj2 (Z.ltb_lt _ _)) by lia. set (p1 := with_children p (delete i (children p))).
    assert (procs (reaped s self p i c) !! self = Some p1) as Hp1.
    { unfold reaped. cbn [procs]. rewrite lookup_delete_ne by lia. apply lookup_insert_eq. }
    pose proof (lookup_lt_Some _ _ _ Hi). pose proof (length_delete (children p) i ltac:(eauto)) as Hl.
    eapply swp_mono; [apply (IH _ p1); [done|done|cbn [children p1 with_children]; lia]|].
    intros _ s2 (T2 & E1 & E2 & E3 & E4 & E5). split; [done|]. unfold reaped_all. cbn [children p1 with_children] in *.
    destruct (reaped_children s self p i c T Hp Hi) as [Hsc Hch].
    assert (forall d, d <> c -> zombie_proc (reaped s self p i c) d = zombie_proc s d) as Hzs.
    { intros d Hd. unfold zombie_proc, reaped. cbn [procs]. rewrite lookup_delete_ne by done.
      destruct (decide (d = self)) as [->|]; [by rewrite lookup_insert_eq, Hp|by rewrite lookup_insert_ne]. }
    destruct (Hch self p1 (lookup_insert_eq _ _ _)) as [Hnc _]. cbn [children p1 with_children] in Hnc.
    split_and!; [by rewrite E1|by rewrite E2|by rewrite E3| |].
    + rewrite E4. f_equal. unfold p1. cbn [with_children]. f_equal. rewrite <- (filter_children_delete s _ _ _ Hi Hz).
      apply filter_same. intros d Hd. rewrite Hzs; [done|]. by intros ->.
    + intros q Hq. rewrite (E5 q Hq). unfold reaped. cbn [procs].
      assert (q ∈ children p <-> q = c \/ q ∈ delete i (children p)) as Hq'.
      { rewrite delete_take_drop. rewrite <- (take_drop_middle _ _ _ Hi) at 1. set_solver. }
      destruct (decide (q = c)) as [->|Hqc].
      * rewrite lookup_delete_eq. rewrite (decide_True (P := _ /\ zombie_proc s c = true)) by auto. by destruct (decide _).
      * rewrite lookup_delete_ne, lookup_insert_ne by done. fold (reaped s self p i c). rewrite (Hzs q Hqc). apply decide_ext. tauto.
  - destruct Hw as (-> & _ & ->).
    assert ((0 <? (if existsb (matching (-1)) (children p) then -2 else -1)) = false) as -> by (by destruct (existsb _ _)).
    apply swp_ret. pose proof (proj1 (find_index_None _ _) F) as Hn. split; [done|]. unfold reaped_all.
    assert (filter (fun c => zombie_proc s c = false) (children p) = children p) as ->.
    { apply filter_all, Hn. }
    split_and!; [done|done|done|by destruct p|]. intros q Hq. rewrite decide_False; [done|]. intros [Hin Hz].
    rewrite Forall_forall in Hn. specialize (Hn q Hin). rewrite Hm in Hn. congruence.
Qed.

Lemma filter_bool_nil {A} (f : A -> bool) (l : list A) : filter (fun c => f c = false) l = [] <-> Forall (fun c => f c = true) l.
Proof.
  induction l as [|c l IH]; [by split|]. rewrite filter_cons, Forall_cons. destruct (f c) eqn:E.
  - rewrite decide_False by done. rewrite IH. naive_solver.
  - rewrite decide_True by done. naive_solver.
Qed.

(** C31: The root task reaps: a round of its loop ends, and takes away every child that has
    exited (and no other process); it gives up the processor while children are left
    and waits for an interrupt when there are none. *)
Theorem root_reaps_zombies s p : tree_ok s -> sched_ok (psched s) -> current (psched s) = root_task -> procs s !! ROOT_PROC = Some p ->
  swp root_round s (fun yielded s' => tree_ok s' /\ sched_ok (psched s') /\ exists s1, reaped_all s ROOT_PROC p s1 /\
    s' = mkPS (if yielded then rescheduled Ready (psched s) else psched s) (procs s1) (proc_map s1) (next_pid s) (pmem s) /\
    (yielded = false <-> Forall (fun c => zombie_proc s c = true) (children p))).
Proof.
  intros T Hs Hc Hp. unfold root_round. apply cur_task_bind. rewrite Hc. cbn [fst root_task]. apply swp_bind. eapply get_proc_swp; [done|].
  apply swp_bind. eapply swp_mono; [apply reap_spec; [done|done|lia]|]. intros _ s1 [T1 Hr]. pose proof Hr as (E1 & E2 & E3 & E4 & _).
  apply swp_bind. eapply get_proc_swp; [done|]. cbn [children with_children].
  assert (filter (fun c => zombie_proc s c = false) (children p) = [] <-> Forall (fun c => zombie_proc s c = true) (children p)) as Hnil.
  { apply filter_bool_nil. }
  destruct (Z.eqb_spec (Zlength (filter (fun c => zombie_proc s c = false) (children p))) 0) as [El|El].
  - apply swp_ret. rewrite E1. split_and!; [done|done|]. exists s1. split_and!; [done|by destruct s1; simpl in *; subst|].
    split; [intros _|done]. apply Hnil. by destruct (filter _ _).
  - apply swp_bind, on_psched_swp. rewrite E1. eapply swp_mono; [by apply yield_now_spec|]. intros _ x ->. apply swp_ret.
    split_and!; [|by apply rescheduled_ok|].
    + destruct T1 as [? ? ? ? ? ?]. by split.
    + exists s1. split_and!; [done|by rewrite <- E2, <- E3|]. split; [done|]. intros Ha. apply Hnil in Ha. by rewrite Ha in El.
Qed.

(** ** Boot *)

Lemma on_mem_step {A} (f : st Mem A) s a x : f (pmem s) = Ok (a, x) ->
  on_mem f s = Ok (a, mkPS (psched s) (procs s) (proc_map s) (next_pid s) x).
Proof. unfold on_mem. by intros ->. Qed.
Lemma on_ps_step {A} (f : st PS A) b a x : f (ps b) = Ok (a, x) ->
  on_ps f b = Ok (a, mkBoot x (CPUS b) (TASK_MANAGER b) (PROC_MAP b) (ROOT b) (irqs_enabled b)).
Proof. unfold on_ps. by intros ->. Qed.

Section booted.
Context (parse : list Z -> option ElfFile) (root_fn test_fn : Z).

Definition kernel_task (pc arg : Z) : Task := mkTask true (EntryKernel pc arg) 0 SignalInner_new.
Definition kernel_proc (t : Task) (parent : option Z) (children : list Z) : Process :=
  mkProc true 1 0 None [(0, t)] 1 parent children [Some Stdin; Some Stdout; Some Stdout] SignalActions_default.
Definition exited_proc (t : Task) : Process :=
  mkProc true 3 0 None [(0, t)] 1 (Some 1) [] [Some Stdin; Some Stdout; Some Stdout] SignalActions_default.
Definition shell_proc (ms : MemorySet) (tf : TrapFrame) : Process :=
  mkProc false 1 0 (Some ms) [(0, mkTask false (EntryUser tf) 0 SignalInner_new)] 1 (Some 1) []
    [Some Stdin; Some Stdout; Some Stdout] SignalActions_default.

(** The state before the shell is made. *)
Definition before_shell (m : Mem) : Boot :=
  mkBoot (mkPS (mkSched (list_to_map [((0, 0), 2); ((1, 0), 1); ((2, 0), 1); ((3, 0), 1)]) [(1, 0); (2, 0); (3, 0)] (0, 0))
      (list_to_map [(0, kernel_proc (kernel_task 0 0) None []); (1, kernel_proc (kernel_task root_fn 0) None [2; 3]);
        (2, kernel_proc (kernel_task test_fn 0xdead) (Some 1) []); (3, kernel_proc (kernel_task test_fn 0xbeef) (Some 1) [])])
      ∅ 4 m)
    [mkLazy true (Some 0)] (mkLazy true (Some tt)) (mkLazy true (Some tt)) (mkLazy true (Some 1)) false.

Lemma task_init_kernel f m : task_init parse root_fn test_fn f (boot_statics m) =
  (p ← on_ps (new_user parse f); spawn_first p) (before_shell m).
Proof.
  unfold task_init. do 14 (eapply st_bind_step; [vm_compute; reflexivity|]).
  match goal with |- ?F ?x = ?F ?y => replace x with y; [done|vm_compute; reflexivity] end.
Qed.

(** The processes while the kernel's tasks have their first turns: the states of the tasks
    (idle, root, test, test, shell), the ready queue and the current task. *)
Definition first_procs (t1 t2 : Process) (ms : MemorySet) (tf : TrapFrame) : gmap Z Process :=
  list_to_map [(0, kernel_proc (kernel_task 0 0) None []); (1, kernel_proc (kernel_task root_fn 0) None [2; 3; 4]);
    (2, t1); (3, t2); (4, shell_proc ms tf)].
Definition first_state (sts : list Z) (q : list TaskRef) (c : Z) (t1 t2 : Process) (ms : MemorySet) (tf : TrapFrame) (m : Mem) : PS :=
  mkPS (mkSched (list_to_map (zip [(0, 0); (1, 0); (2, 0); (3, 0); (4, 0)] sts)) q (c, 0)) (first_procs t1 t2 ms tf) ∅ 5 m.
Definition statics_with (s : PS) (irqs : bool) : Boot :=
  mkBoot s [mkLazy true (Some 0)] (mkLazy true (Some tt)) (mkLazy true (Some tt)) (mkLazy true (Some 1)) irqs.

Definition test1 : Process := kernel_proc (kernel_task test_fn 0xdead) (Some 1) [].
Definition test2 : Process := kernel_proc (kernel_task test_fn 0xbeef) (Some 1) [].
Definition done1 : Process := exited_proc (kernel_task test_fn 0xdead).
Definition done2 : Process := exited_proc (kernel_task test_fn 0xbeef).

Lemma task_init_shell elf_data m ms0 m1 entry top ms m2 : MemorySet_new m = Ok (ms0, m1) ->
  load_user parse ms0 elf_data m1 = Ok ((entry, top), ms, m2) ->
  task_init parse root_fn test_fn (Some elf_data) (boot_statics m) =
    Ok (tt, statics_with (first_state [2; 1; 1; 1; 1] [(1, 0); (2, 0); (3, 0); (4, 0)] 0 test1 test2 ms (TF_new_user entry top) m2) false).
Proof.
  intros E1 E2. rewrite task_init_kernel.
  assert (new_user parse (Some elf_data) (ps (before_shell m)) =
    Ok (4, first_state [2; 1; 1; 1; 1] [(1, 0); (2, 0); (3, 0)] 0 test1 test2 ms (TF_new_user entry top) m2)) as En.
  { unfold new_user. do 3 (eapply st_bind_step; [vm_compute; reflexivity|]).
    eapply st_bind_step; [eapply on_mem_step; exact E1|]. eapply st_bind_step; [eapply on_mem_step; exact E2|].
    do 5 (eapply st_bind_step; [vm_compute; reflexivity|]). vm_compute. reflexivity. }
  eapply st_bind_step; [eapply on_ps_step; exact En|]. vm_compute. reflexivity.
Qed.

Lemma task_run_root ms tf m : task_run (statics_with (first_state [2; 1; 1; 1; 1] [(1, 0); (2, 0); (3, 0); (4, 0)] 0 test1 test2 ms tf m) false) =
  Ok (tt, statics_with (first_state [1; 2; 1; 1; 1] [(2, 0); (3, 0); (4, 0)] 1 test1 test2 ms tf m) true).
Proof. vm_compute. reflexivity. Qed.

Lemma first_turns ms tf m : root_fn <> test_fn ->
  turns root_fn test_fn 4 (first_state [1; 2; 1; 1; 1] [(2, 0); (3, 0); (4, 0)] 1 test1 test2 ms tf m) =
  Ok (Some tf, first_state [1; 1; 3; 3; 2] [(1, 0)] 4 done1 done2 ms tf m).
Proof.
  intros Hne. cbn [turns].
  assert (task_entry root_fn test_fn (first_state [1; 2; 1; 1; 1] [(2, 0); (3, 0); (4, 0)] 1 test1 test2 ms tf m) =
    Ok (None, first_state [1; 1; 2; 1; 1] [(3, 0); (4, 0); (1, 0)] 2 test1 test2 ms tf m)) as E1.
  { unfold task_entry. do 3 (eapply st_bind_step; [vm_compute; reflexivity|]). cbn [entry]. rewrite Z.eqb_refl.
    eapply st_bind_step; vm_compute; reflexivity. }
  assert (forall s s' t p k a b d, (ret ← test_kernel_task a; _ ← CurrentTask_exit (as_i32 ret); mret (None : option TrapFrame)) s = Ok (None, s') ->
    cur_task s = Ok (t, s) -> get_proc t.1 s = Ok (p, s) -> bt_lookup t.2 (tasks p) = Some (mkTask k (EntryKernel test_fn a) b d) ->
    task_entry root_fn test_fn s = Ok (None, s')) as Ht.
  { intros s s' t p k a b d E H1 H2 H3. unfold task_entry. eapply st_bind_step; [exact H1|]. eapply st_bind_step; [exact H2|].
    rewrite H3. eapply st_bind_step; [done|]. cbn [entry]. by rewrite (proj2 (Z.eqb_neq test_fn root_fn)), Z.eqb_refl by done. }
  assert (task_entry root_fn test_fn (first_state [1; 1; 2; 1; 1] [(3, 0); (4, 0); (1, 0)] 2 test1 test2 ms tf m) =
    Ok (None, first_state [1; 1; 3; 2; 1] [(4, 0); (1, 0)] 3 done1 test2 ms tf m)) as E2
    by (apply (Ht _ _ (2, 0) test1 true 0xdead 0 SignalInner_new); vm_compute; reflexivity).
  assert (task_entry root_fn test_fn (first_state [1; 1; 3; 2; 1] [(4, 0); (1, 0)] 3 done1 test2 ms tf m) =
    Ok (None, first_state [1; 1; 3; 3; 2] [(1, 0)] 4 done1 done2 ms tf m)) as E3
    by (apply (Ht _ _ (3, 0) test2 true 0xbeef 0 SignalInner_new); vm_compute; reflexivity).
  eapply st_bind_step; [exact E1|]. eapply st_bind_step; [exact E2|]. eapply st_bind_step; [exact E3|].
  eapply st_bind_step; vm_compute; reflexivity.
Qed.

Lemma task_init_no_shell m : task_init parse root_fn test_fn None (boot_statics m) = Err Panic.
Proof. rewrite task_init_kernel. vm_compute. reflexivity. Qed.

Lemma first_zombies ms tf m :
  filter (fun c => zombie_proc (first_state [1; 1; 3; 3; 2] [(1, 0)] 4 done1 done2 ms tf m) c = true) [1; 2; 3; 4] = [2; 3].
Proof. vm_compute. reflexivity. Qed.

Lemma first_shell sts q c t1 t2 ms tf m : procs (first_state sts q c t1 t2 ms tf m) !! 4 = Some (shell_proc ms tf).
Proof. vm_compute. reflexivity. Qed.

Lemma first_sched_ok t1 t2 ms tf m : sched_ok (psched (first_state [1; 1; 3; 3; 2] [(1, 0)] 4 t1 t2 ms tf m)).
Proof.
  assert (forall t z, states (psched (first_state [1; 1; 3; 3; 2] [(1, 0)] 4 t1 t2 ms tf m)) !! t = Some z ->
    (t, z) ∈ [((0, 0), 1); ((1, 0), 1); ((2, 0), 3); ((3, 0), 3); ((4, 0), 2)]) as H.
  { intros t z Hz. by apply elem_of_list_to_map_2 in Hz. }
  split.
  - intros t z Hz. apply H in Hz. rewrite !elem_of_cons in Hz. destruct_or! Hz; simplify_eq; [by exists Ready|by exists Ready|by exists Zombie|by exists Zombie|by exists Running|by apply elem_of_nil in Hz].
  - reflexivity.
  - intros t Ht. apply H in Ht. rewrite !elem_of_cons in Ht. destruct_or! Ht; simplify_eq; [done|by apply elem_of_nil in Ht].
  - by eexists.
  - by left.
  - intros t. cbn [ready_queue psched first_state]. rewrite list_elem_of_singleton. split.
    + intros ->. split; [reflexivity|done].
    + intros [Ht Hi]. apply H in Ht. rewrite !elem_of_cons in Ht. destruct_or! Ht; simplify_eq; [done|by apply elem_of_nil in Ht].
  - apply NoDup_singleton.
Qed.

Lemma first_tree_ok ms tf m : tree_ok (first_state [1; 1; 3; 3; 2] [(1, 0)] 4 done1 done2 ms tf m).
Proof.
  set (s := first_state _ _ _ _ _ _ _ _).
  assert (forall p x, procs s !! p = Some x -> 0 <= p < 5 /\ (exists st, proc_state x = u8_of_pstate st) /\
    children x = if decide (p = 1) then [2; 3; 4] else []) as H.
  { intros p x Hx. apply elem_of_list_to_map_2 in Hx. rewrite !elem_of_cons in Hx.
    destruct_or! Hx; simplify_eq; try (by apply elem_of_nil in Hx); split_and!; try lia; try done; (by exists PNormal) || by exists PZombie. }
  split.
  - intros p x c Hx Hc. apply H in Hx as (_ & _ & E). rewrite E in Hc. case_decide; [subst|by apply elem_of_nil in Hc].
    rewrite !elem_of_cons in Hc. destruct_or! Hc; subst; try (by apply elem_of_nil in Hc); (split; [by eexists|lia]).
  - intros p x Hx. apply H in Hx as (_ & _ & ->). case_decide; [|constructor]. apply (bool_decide_unpack _). by vm_compute.
  - intros p x q y c Hx Hy Hc Hd. apply H in Hx as (_ & _ & E1), Hy as (_ & _ & E2). rewrite E1 in Hc. rewrite E2 in Hd.
    do 2 case_decide; try (by apply elem_of_nil in Hc); try (by apply elem_of_nil in Hd). congruence.
  - intros c Hc. by apply not_elem_of_empty in Hc.
  - intros p x Hx. by apply H in Hx as (_ & ? & _).
  - intros p x Hx. by apply H in Hx as (? & _).
Qed.
End booted.

(** The kernel's page table is not affected by what a new process takes. *)
Lemma mapped_grows n R ms m m' O va : mapped n R ms m -> grows m ∅ m' O -> Forall (fun r => page_aligned r.1.1 /\ page_aligned r.1.2) R ->
  PHYS_VIRT_OFFSET <= va < 2 ^ 64 -> PageTable_query (pt ms) va m' = Ok (linear R va, m').
Proof.
  intros [(T & A & [Hm Hpt Hmap _ _]) _ _] G Hal Hva. pose proof (table_frames_used _ _ _ (pr_inv _ _ _ _ Hpt)) as Hu.
  eapply kspace_query; [apply G|eapply pt_rel_frame; [exact Hpt| |]|exact Hmap|done|done].
  - intros f Hf. apply (gr_used _ _ _ _ G). left. by apply Hu.
  - intros f Hf. apply (gr_ram _ _ _ _ G); [by apply Hu|apply not_elem_of_empty].
Qed.

(** A first program in a new address space. *)
Lemma load_first parse elf_data elf m : parse elf_data = Some elf -> program_ok elf -> mem_ok m -> 5 * (segs_pages (elf_ph elf) + 4) < spare m ->
  exists ms0 m1 ms m2 T A, MemorySet_new m = Ok (ms0, m1) /\ load_user parse ms0 elf_data m1 = Ok ((elf_entry elf, USER_STACK_TOP), ms, m2) /\
    space_inv m2 (pt ms) T A (areas ms) /\ grows m ∅ m2 (own T (areas ms)) /\
    forall va, 0 <= va -> ubyte m2 A va = if decide (in_area stack_area va) then Some (0, flags stack_area) else image (elf_ph elf) va None.
Proof.
  intros Hp Hok Hm Hsp. pose proof (segs_pages_nonneg _ _ (pk_segs _ Hok)).
  destruct (MemorySet_new_spec m Hm ltac:(lia)) as (ms0 & m1 & E1 & T0 & Ea & I0 & G0 & Hs0). rewrite <- Ea in I0.
  destruct (load_user_spec parse elf_data elf m1 ms0 T0 Hp Hok I0 Ea ltac:(lia)) as ([rr ms] & m2 & E2 & T & A & -> & I & G & V).
  exists ms0, m1, ms, m2, T, A. split_and!; [done|done|done|by eapply grows_trans|done].
Qed.

Lemma res_bind_step {A B} (m : res A) (f : A -> res B) a r : m = Ok a -> f a = r -> m ≫= f = r.
Proof. by intros ->. Qed.
Lemma res_bind_err {A B} (m : res A) (f : A -> res B) e : m = Err e -> m ≫= f = Err e.
Proof. by intros ->. Qed.

Lemma rust_main_steps {G} `{GicDevice G} (g : G) parse root_fn test_fn s f k k1 gic g' : mm_init s k = Ok k1 -> remap_test s k1 = Ok tt ->
  irq_boot g = Ok (gic, g') ->
  (forall b1 b2, task_init parse root_fn test_fn f (boot_statics (k_mem k1)) = Ok (tt, b1) -> task_run b1 = Ok (tt, b2) ->
    rust_main parse root_fn test_fn s f k g = Ok (mkKernel (pmem (ps b2)) (KERNEL_SPACE k1) (TTBR0_EL1 k1) (TTBR1_EL1 k1), b2, g')) /\
  forall e, task_init parse root_fn test_fn f (boot_statics (k_mem k1)) = Err e -> rust_main parse root_fn test_fn s f k g = Err e.
Proof.
  intros E1 E2 E3. unfold rust_main.
  split; [intros b1 b2 E4 E5|intros e E4]; (eapply res_bind_step; [exact E1|]); (eapply res_bind_step; [exact E2|]); (eapply res_bind_step; [exact E3|]).
  - eapply res_bind_step; [exact E4|]. eapply res_bind_step; [exact E5|]. reflexivity.
  - apply res_bind_err. exact E4.
Qed.


Lemma demo_room : 5 * (segs_pages (elf_ph demo_elf) + 4) + 1029 <= avail (init_frame_allocator demo_symbols (frames (k_mem demo_kernel))).
Proof. change (frames (k_mem demo_kernel)) with FreeList_empty. vm_compute. discriminate. Qed.


(** The shell has given up the processor for the first time. *)
Definition shell_yielded : PS :=
  let s := first_state 1 [1; 1; 3; 3; 2] [(1, 0)] 4 (done1 2) (done2 2) (mkMS (mkPT 0 []) []) (TF_new_user 0 0) (mkMem FreeList_empty ∅) in
  mkPS (rescheduled Ready (psched s)) (procs s) (proc_map s) (next_pid s) (pmem s).

Lemma root_reaps_zombies_witness : swp root_round shell_yielded (fun yielded s' => yielded = true /\
  procs s' !! 2 = None /\ procs s' !! 3 = None /\ current (psched s') = (4, 0)).
Proof.
  assert (tree_ok shell_yielded) as T.
  { destruct (first_tree_ok 1 2 (mkMS (mkPT 0 []) []) (TF_new_user 0 0) (mkMem FreeList_empty ∅)) as [H1 H2 H3 H4 H5 H6].
    split; [exact H1|exact H2|exact H3|exact H4|exact H5|exact H6]. }
  assert (sched_ok (psched shell_yielded)) as Hs by (apply rescheduled_ok; [apply first_sched_ok|discriminate|reflexivity]).
  eapply swp_mono; [apply (root_reaps_zombies shell_yielded _ T Hs eq_refl eq_refl)|].
  intros y s' (_ & _ & s1 & (_ & _ & _ & _ & Hq) & -> & Hy). destruct y.
  - split; [reflexivity|]. cbn [procs psched]. rewrite !Hq by discriminate. split_and!; reflexivity.
  - destruct Hy as [Hy _]. specialize (Hy eq_refl). exfalso. rewrite Forall_forall in Hy. specialize (Hy 4 ltac:(set_solver)). discriminate.
Defined.
