(* ===== verification/Trap.v ===== *)
(** Exceptions from entry to return (os/src/trap/trap.S, [TrapFrame::exec] of
    os/src/trap/context.rs, os/src/trap/mod.rs): the assembly that saves the registers of
    the interrupted code in a [TrapFrame] and restores them, the vector table, and the
    handler of synchronous exceptions with the delivery of signals at its end. *)
From S2P Require Import Prelude Signal Abi.

(** ** Instructions *)

(** Register 31 is the stack pointer of the kernel (SP_EL1); memory is 64-bit words by address. *)
Record machine := mkM {
  x : nat -> Z;
  sp_el0 : Z;
  elr_el1 : Z;
  spsr_el1 : Z;
  pc : Z;
  pstate : Z;
  words : gmap Z Z;
}.
Abbreviation SP := 31%nat.

Inductive sysreg := SP_EL0 | ELR_EL1 | SPSR_EL1.
Inductive instr :=
  | Stp (a b base : nat) (off : Z)
  | Ldp (a b base : nat) (off : Z)
  | AddImm (d s : nat) (imm : Z)
  | Mov (d s : nat)
  | Mrs (d : nat) (s : sysreg)
  | Msr (d : sysreg) (s : nat)
  | Eret.
(** [sub d, s, imm]. *)
Abbreviation SubImm d s imm := (AddImm d s (- imm)).

Definition upd (f : nat -> Z) (n : nat) (v : Z) : nat -> Z := fun m => if Nat.eqb m n then v else f m.
Definition set_x (m : machine) (n : nat) (v : Z) : machine :=
  mkM (upd (x m) n v) (sp_el0 m) (elr_el1 m) (spsr_el1 m) (pc m) (pstate m) (words m).
Definition set_words (m : machine) (w : gmap Z Z) : machine :=
  mkM (x m) (sp_el0 m) (elr_el1 m) (spsr_el1 m) (pc m) (pstate m) w.
Definition get_sys (m : machine) (s : sysreg) : Z :=
  match s with SP_EL0 => sp_el0 m | ELR_EL1 => elr_el1 m | SPSR_EL1 => spsr_el1 m end.
Definition set_sys (m : machine) (s : sysreg) (v : Z) : machine :=
  match s with
  | SP_EL0 => mkM (x m) v (elr_el1 m) (spsr_el1 m) (pc m) (pstate m) (words m)
  | ELR_EL1 => mkM (x m) (sp_el0 m) v (spsr_el1 m) (pc m) (pstate m) (words m)
  | SPSR_EL1 => mkM (x m) (sp_el0 m) (elr_el1 m) v (pc m) (pstate m) (words m)
  end.
Definition load (m : machine) (a : Z) : res Z := match words m !! a with Some v => Ok v | None => Err DataAbort end.
Definition store (m : machine) (a v : Z) : res machine :=
  match words m !! a with Some _ => Ok (set_words m (<[a := v]> (words m))) | None => Err DataAbort end.

Definition exec_instr (i : instr) (m : machine) : res machine :=
  match i with
  | Stp a b base off =>
      m1 ← store m (x m base + off) (x m a);
      store m1 (x m base + (off + 8)) (x m b)
  | Ldp a b base off =>
      va ← load m (x m base + off);
      vb ← load m (x m base + (off + 8));
      Ok (set_x (set_x m a va) b vb)
  | AddImm d s imm => Ok (set_x m d (u64 (x m s + imm)))
  | Mov d s => Ok (set_x m d (x m s))
  | Mrs d s => Ok (set_x m d (get_sys m s))
  | Msr d s => Ok (set_sys m d (x m s))
  | Eret => Ok (mkM (x m) (sp_el0 m) (elr_el1 m) (spsr_el1 m) (elr_el1 m) (spsr_el1 m) (words m))
  end.
Fixpoint exec_code (l : list instr) (m : machine) : res machine :=
  match l with [] => Ok m | i :: l => m ← exec_instr i m; exec_code l m end.

(** What the processor does on an exception: EL1 with its own stack pointer, interrupts
    masked, at the vector [v]. *)
Definition EL1_MASKED : Z := 0x3c5.
Definition take_exception (v : Z) (m : machine) : machine :=
  mkM (x m) (sp_el0 m) (pc m) (pstate m) v EL1_MASKED (words m).

(** ** The assembly *)

Definition SAVE_REGS : list instr :=
  [SubImm SP SP (34 * 8);
   Stp 0 1 SP 0;
   Stp 2 3 SP (2 * 8);
   Stp 4 5 SP (4 * 8);
   Stp 6 7 SP (6 * 8);
   Stp 8 9 SP (8 * 8);
   Stp 10 11 SP (10 * 8);
   Stp 12 13 SP (12 * 8);
   Stp 14 15 SP (14 * 8);
   Stp 16 17 SP (16 * 8);
   Stp 18 19 SP (18 * 8);
   Stp 20 21 SP (20 * 8);
   Stp 22 23 SP (22 * 8);
   Stp 24 25 SP (24 * 8);
   Stp 26 27 SP (26 * 8);
   Stp 28 29 SP (28 * 8);
   Mrs 9 SP_EL0;
   Mrs 10 ELR_EL1;
   Mrs 11 SPSR_EL1;
   Stp 30 9 SP (30 * 8);
   Stp 10 11 SP (32 * 8)].
Definition RESTORE_REGS : list instr :=
  [Ldp 10 11 SP (32 * 8);
   Ldp 30 9 SP (30 * 8);
   Msr SP_EL0 9;
   Msr ELR_EL1 10;
   Msr SPSR_EL1 11;
   Ldp 28 29 SP (28 * 8);
   Ldp 26 27 SP (26 * 8);
   Ldp 24 25 SP (24 * 8);
   Ldp 22 23 SP (22 * 8);
   Ldp 20 21 SP (20 * 8);
   Ldp 18 19 SP (18 * 8);
   Ldp 16 17 SP (16 * 8);
   Ldp 14 15 SP (14 * 8);
   Ldp 12 13 SP (12 * 8);
   Ldp 10 11 SP (10 * 8);
   Ldp 8 9 SP (8 * 8);
   Ldp 6 7 SP (6 * 8);
   Ldp 4 5 SP (4 * 8);
   Ldp 2 3 SP (2 * 8);
   Ldp 0 1 SP 0;
   AddImm SP SP (34 * 8)].
(** Up to the call of the handler, and [.Lexception_return]. *)
Definition HANDLE_SYNC : list instr := SAVE_REGS ++ [Mov 0 SP].
Definition exception_return : list instr := RESTORE_REGS ++ [Eret].

(** [TrapFrame::exec], with the frame's address in x0 and the stack in x1. *)
Definition TF_exec : list instr :=
  [Mov SP 1;
   Ldp 30 9 0 (30 * 8);
   Ldp 10 11 0 (32 * 8);
   Msr SP_EL0 9;
   Msr ELR_EL1 10;
   Msr SPSR_EL1 11;
   Ldp 28 29 0 (28 * 8);
   Ldp 26 27 0 (26 * 8);
   Ldp 24 25 0 (24 * 8);
   Ldp 22 23 0 (22 * 8);
   Ldp 20 21 0 (20 * 8);
   Ldp 18 19 0 (18 * 8);
   Ldp 16 17 0 (16 * 8);
   Ldp 14 15 0 (14 * 8);
   Ldp 12 13 0 (12 * 8);
   Ldp 10 11 0 (10 * 8);
   Ldp 8 9 0 (8 * 8);
   Ldp 6 7 0 (6 * 8);
   Ldp 4 5 0 (4 * 8);
   Ldp 2 3 0 (2 * 8);
   Ldp 0 1 0 0;
   Eret].

(** The vector table: sixteen entries of 128 bytes. *)
Inductive vector := Invalid (kind source : Z) | Sync | Irq.
Definition exception_vector_base : list vector :=
  [Invalid 0 0; Invalid 1 0; Invalid 2 0; Invalid 3 0;
   Sync; Irq; Invalid 2 1; Invalid 3 1;
   Sync; Irq; Invalid 2 2; Invalid 3 2;
   Invalid 0 3; Invalid 1 3; Invalid 2 3; Invalid 3 3].

(** ** The handler *)

(** What becomes of the task: back to its code, the end, or a wait for a signal, after which the
    delivery of signals goes on. *)
Inductive outcome := Return (tf : TrapFrame) (s : SignalInner) | ExitTask (code : Z) | BlockTask (tf : TrapFrame) (s : SignalInner).

Section handler.
(** The operations behind the system calls, which may change the frame ([exec], [sigreturn]). *)
Context (perform : request -> TrapFrame -> SignalInner -> res (Z * TrapFrame * SignalInner)) (actions : list SignalAction).

Definition handle_signals (tf : TrapFrame) (s : SignalInner) : res outcome :=
  '(v, s, tf) ← signals_pass actions s tf;
  Ok (match v with ToUser => Return tf s | Signal.Exit errno => ExitTask errno | Block => BlockTask tf s end).
Definition handle_sync_exception (ec : Kernel.exception_class) (tf : TrapFrame) (s : SignalInner) : res outcome :=
  a ← Kernel.handle_sync_exception ec tf;
  match a with
  | Kernel.Do q =>
      '(ret, tf, s) ← perform q tf s;
      handle_signals (Kernel.return_value tf ret) s
  | Kernel.KillTask code => Ok (ExitTask code)
  | Kernel.KernelPanic => Err Panic
  end.
End handler.

(** ** Saving and restoring *)

(** The interrupted code as a frame. *)
Definition frame_of (m : machine) : TrapFrame := mkTF (x m <$> seq 0 31) (sp_el0 m) (pc m) (pstate m).
(** A frame in memory: the [repr(C)] layout of [TrapFrame]. *)
Definition frame_words (tf : TrapFrame) : list Z := r tf ++ [usp tf; elr tf; spsr tf].
Definition offsets : list Z :=
  [0; 8; 16; 24; 32; 40; 48; 56; 64; 72; 80; 88; 96; 104; 112; 120; 128; 136; 144; 152; 160; 168; 176; 184; 192; 200;
   208; 216; 224; 232; 240; 248; 256; 264].
Definition frame_at (w : gmap Z Z) (a : Z) (tf : TrapFrame) : Prop :=
  Forall2 (fun off v => w !! (a + off) = Some v) offsets (frame_words tf).
Definition room (w : gmap Z Z) (a : Z) : Prop := Forall (fun off => is_Some (w !! (a + off))) offsets.

Section steps.
Context (X : nat -> Z) (S E F P Q : Z) (W : gmap Z Z) (l : list instr) (o : res machine).

Lemma save_pair_step a b base off p : X base = p -> is_Some (W !! (p + off)) -> is_Some (W !! (p + (off + 8))) ->
  exec_code l (mkM X S E F P Q (<[p + (off + 8) := X b]> (<[p + off := X a]> W))) = o ->
  exec_code (Stp a b base off :: l) (mkM X S E F P Q W) = o.
Proof.
  intros <- [v1 H1] H2 <-. cbn [exec_code exec_instr x]. unfold store at 2. cbn [words]. rewrite H1. cbn [mbind res_bind].
  assert (is_Some (<[X base + off := X a]> W !! (X base + (off + 8)))) as [v2 H3] by (apply lookup_insert_is_Some'; by right).
  unfold store. cbn [words set_words]. rewrite H3. done.
Qed.

Lemma load_pair_step a b base off p va vb : X base = p -> W !! (p + off) = Some va -> W !! (p + (off + 8)) = Some vb ->
  exec_code l (mkM (upd (upd X a va) b vb) S E F P Q W) = o -> exec_code (Ldp a b base off :: l) (mkM X S E F P Q W) = o.
Proof. intros <- H1 H2 <-. cbn [exec_code exec_instr x]. unfold load. cbn [words]. by rewrite H1, H2. Qed.
End steps.

Ltac in_room := repeat (apply lookup_insert_is_Some'; right); assumption.
Ltac run_instr H :=
  lazymatch goal with
  | |- exec_code (Stp _ _ _ _ :: _) _ = _ => eapply save_pair_step; [exact H|in_room|in_room|]
  | |- exec_code (Ldp _ _ _ _ :: _) _ = _ => eapply load_pair_step; [exact H|eassumption|eassumption|]
  | |- exec_code (AddImm ?d ?s ?i :: ?l) (mkM ?X ?S ?E ?F ?P ?Q ?W) = ?o => change (exec_code l (mkM (upd X d (u64 (X s + i))) S E F P Q W) = o)
  | |- exec_code (Mov ?d ?s :: ?l) (mkM ?X ?S ?E ?F ?P ?Q ?W) = ?o => change (exec_code l (mkM (upd X d (X s)) S E F P Q W) = o)
  | |- exec_code (Mrs ?d ?s :: ?l) (mkM ?X ?S ?E ?F ?P ?Q ?W) = ?o =>
      change (exec_code l (mkM (upd X d (get_sys (mkM X S E F P Q W) s)) S E F P Q W) = o); cbn [get_sys sp_el0 elr_el1 spsr_el1]
  | |- exec_code (Msr SP_EL0 ?s :: ?l) (mkM ?X ?S ?E ?F ?P ?Q ?W) = ?o => change (exec_code l (mkM X (X s) E F P Q W) = o)
  | |- exec_code (Msr ELR_EL1 ?s :: ?l) (mkM ?X ?S ?E ?F ?P ?Q ?W) = ?o => change (exec_code l (mkM X S (X s) F P Q W) = o)
  | |- exec_code (Msr SPSR_EL1 ?s :: ?l) (mkM ?X ?S ?E ?F ?P ?Q ?W) = ?o => change (exec_code l (mkM X S E (X s) P Q W) = o)
  | |- exec_code (Eret :: ?l) (mkM ?X ?S ?E ?F ?P ?Q ?W) = ?o => change (exec_code l (mkM X S E F E F W) = o)
  end.

Lemma save_regs_spec v m p : p = x m SP - 272 -> 0 <= p -> x m SP < 2 ^ 64 -> room (words m) p ->
  exists m1, exec_code HANDLE_SYNC (take_exception v m) = Ok m1 /\ x m1 0%nat = p /\ x m1 SP = p /\
    frame_at (words m1) p (frame_of m) /\ forall a, ~ p <= a < p + 272 -> words m1 !! a = words m !! a.
Proof.
  destruct m as [X S E F P Q W]. cbn [x words]. intros Hp H0 Hs Hr. unfold room, offsets in Hr. rewrite !Forall_cons in Hr. destruct_and! Hr.
  assert (u64 (X SP + - (34 * 8)) = p) as Hsp by (rewrite u64_small; lia).
  unfold take_exception, HANDLE_SYNC, SAVE_REGS. cbn [app x sp_el0 pc pstate words].
  eexists. split; [run_instr Hsp; rewrite Hsp; do 21 run_instr (@eq_refl Z p); reflexivity|].
  split_and!; [reflexivity|reflexivity| |].
  - unfold frame_at, offsets, frame_words, frame_of. cbn [r usp elr spsr x sp_el0 pc pstate words].
    cbn [fmap list_fmap seq app]. repeat apply List.Forall2_cons; [..|apply List.Forall2_nil]; cbn [words];
      repeat first [rewrite lookup_insert_eq; reflexivity|rewrite lookup_insert_ne by (intros ?%Z.add_reg_l; discriminate)].
  - intros a Ha. cbn [words]. rewrite !lookup_insert_ne by lia. done.
Qed.

(** The words of a frame in memory. *)
Ltac open_frame l Hl Hf :=
  destruct l as [|? l]; [done|]; do 30 (destruct l as [|? l]; [done|]); destruct l; [|done]; clear Hl;
  unfold frame_at, frame_words, offsets in Hf; cbn [r usp elr spsr app] in Hf;
  repeat match goal with H : Forall2 _ (_ :: _) _ |- _ => apply Forall2_cons in H as [? H] end.

Lemma restore_regs_spec m tf : length (r tf) = 31%nat -> frame_at (words m) (x m SP) tf -> 0 <= x m SP -> x m SP + 272 < 2 ^ 64 ->
  exists m', exec_code exception_return m = Ok m' /\ frame_of m' = tf /\ x m' SP = x m SP + 272 /\ words m' = words m.
Proof.
  destruct m as [X S E F P Q W], tf as [l u e s]. cbn [x words r]. intros Hl Hf H0 Hs.
  open_frame l Hl Hf.
  unfold exception_return, RESTORE_REGS. cbn [app].
  eexists. split; [do 22 run_instr (@eq_refl Z (X SP)); reflexivity|]. split_and!; [reflexivity| |reflexivity].
  cbn. rewrite u64_small; lia.
Qed.

Lemma TF_exec_spec m tf : length (r tf) = 31%nat -> frame_at (words m) (x m 0%nat) tf ->
  exists m', exec_code TF_exec m = Ok m' /\ frame_of m' = tf /\ x m' SP = x m 1%nat /\ words m' = words m.
Proof.
  destruct m as [X S E F P Q W], tf as [l u e s]. cbn [x words r]. intros Hl Hf.
  open_frame l Hl Hf.
  unfold TF_exec.
  eexists. split; [do 22 run_instr (@eq_refl Z (X 0%nat)); reflexivity|]. split_and!; reflexivity.
Qed.

(** The table names the exceptions that have a handler, and every other entry reports its own
    kind and source. *)
Lemma vectors_ok i v : exception_vector_base !! i = Some v ->
  match v with
  | Sync => i = 4%nat \/ i = 8%nat
  | Irq => i = 5%nat \/ i = 9%nat
  | Invalid kind source => Z.of_nat i = 4 * source + kind /\ 0 <= kind < 4
  end.
Proof. do 16 (destruct i as [|i]; [intros [= <-]; lia|]). done. Qed.

Lemma pass_no_signals actions s tf : sig_ok actions s -> signals s = 0 -> frozen s = false -> signals_pass actions s tf = Ok (ToUser, s, tf).
Proof.
  intros Hok H0 Hf. unfold signals_pass. rewrite check_pending_spec by done.
  assert (find_index (takes actions s) (seqZ 0 32) = None) as ->.
  { apply find_index_None, Forall_forall. intros i _. unfold takes. by rewrite H0, Z.testbit_0_l. }
  cbn [mbind res_bind]. by rewrite Hf, H0, orb_true_r.
Qed.

Lemma frame_reg m i : (i < 31)%nat -> r (frame_of m) !! i = Some (x m i).
Proof. intros Hi. unfold frame_of. cbn [r]. rewrite list_lookup_fmap, lookup_seq_lt by done. done. Qed.

Lemma svc_decode_machine m q : request_ok q -> (x m 8%nat, (x m 0%nat, x m 1%nat, x m 2%nat)) = User.lib q ->
  Kernel.handle_sync_exception Kernel.SVC64 (frame_of m) = Ok (Kernel.Do q).
Proof.
  intros Hq E. rewrite (svc_decode _ _ _ _ _ (frame_reg m 8 ltac:(lia)) (frame_reg m 0 ltac:(lia)) (frame_reg m 1 ltac:(lia)) (frame_reg m 2 ltac:(lia))).
  pose proof (decode_lib q Hq) as Hd. rewrite <- E in Hd. cbn [fst snd] in Hd. by rewrite Hd.
Qed.

(** C19: A system call on the machine.  When code in user mode executes [svc] with the number and
    arguments of an operation in its registers, the assembly puts its registers
    into a [TrapFrame] on the kernel's stack, touching no other memory, and the handler performs
    that operation; after an operation that leaves the frame alone, with no signal pending, the
    frame differs only in the result, and whatever the handler has done to the registers,
    the return puts the user's code back after the [svc], with its stack pointer, status and
    all registers as they were but x0, which holds the result, and the kernel's stack
    as it was.  The first entry to user mode ([TrapFrame::exec]) loads a frame in the same way. *)
Theorem svc_round_trip perform actions v m q ret s s' :
  let p := x m SP - 272 in
  0 <= p -> x m SP < 2 ^ 64 -> room (words m) p -> request_ok q -> (x m 8%nat, (x m 0%nat, x m 1%nat, x m 2%nat)) = User.lib q ->
  perform q (frame_of m) s = Ok (ret, frame_of m, s') -> is_isize ret -> sig_ok actions s' -> signals s' = 0 -> frozen s' = false ->
  let tf := Kernel.return_value (frame_of m) ret in
  exists m1, exec_code HANDLE_SYNC (take_exception v m) = Ok m1 /\ frame_at (words m1) (x m1 0%nat) (frame_of m) /\
    (forall a, ~ p <= a < p + 272 -> words m1 !! a = words m !! a) /\
    handle_sync_exception perform actions Kernel.SVC64 (frame_of m) s = Ok (Return tf s') /\
    (forall m2, x m2 SP = x m1 SP -> frame_at (words m2) (x m1 0%nat) tf ->
      exists m3, exec_code exception_return m2 = Ok m3 /\ pc m3 = pc m /\ pstate m3 = pstate m /\ sp_el0 m3 = sp_el0 m /\
        x m3 SP = x m SP /\ as_isize (x m3 0%nat) = ret /\ forall i, (0 < i < 31)%nat -> x m3 i = x m i) /\
    forall m0, frame_at (words m0) (x m0 0%nat) tf ->
      exists m3, exec_code TF_exec m0 = Ok m3 /\ frame_of m3 = tf /\ x m3 SP = x m0 1%nat.
Proof.
  intros p H0 Hs Hr Hq Elib Ep Hret Hok Hsig Hfr tf.
  destruct (save_regs_spec v m p eq_refl H0 Hs Hr) as (m1 & E1 & Hx0 & Hsp & Hf & Hmem). exists m1.
  assert (length (r tf) = 31%nat) as Hl by (unfold tf, Kernel.return_value; cbn [r set_r]; rewrite length_insert; unfold frame_of; cbn [r]; by rewrite length_fmap, length_seq).
  split_and!; [done|by rewrite Hx0|done| | |].
  - unfold handle_sync_exception. rewrite (svc_decode_machine m q Hq Elib). cbn [mbind res_bind]. rewrite Ep. cbn [mbind res_bind].
    unfold handle_signals. by rewrite pass_no_signals.
  - intros m2 Hm2 Hf2. rewrite Hx0, <- Hsp, <- Hm2 in Hf2. assert (x m2 SP = p) as Ep2 by congruence.
    destruct (restore_regs_spec m2 tf Hl Hf2) as (m3 & E3 & Hfr3 & Hsp3 & _); [lia|lia|].
    exists m3. unfold tf, Kernel.return_value, frame_of, set_r in Hfr3.
    pose proof (f_equal usp Hfr3). pose proof (f_equal elr Hfr3). pose proof (f_equal spsr Hfr3). pose proof (f_equal r Hfr3) as Hregs.
    cbn [usp elr spsr r] in *. split_and!; [done|done|done|done|lia| |].
    + assert (Some (x m3 0%nat) = Some (u64 ret)) as [= ->]; [|by apply as_isize_u64].
      rewrite <- (frame_reg m3 0) by lia. unfold frame_of. cbn [r]. rewrite Hregs. reflexivity.
    + intros i Hi. assert (Some (x m3 i) = Some (x m i)) as [= ->]; [|done].
      rewrite <- !frame_reg by lia. unfold frame_of. cbn [r]. rewrite Hregs. by rewrite list_lookup_insert_ne by lia.
  - intros m0 Hf0. destruct (TF_exec_spec m0 tf Hl Hf0) as (m3 & E3 & F3 & S3 & _). eauto.
Qed.

(** Code that yields, on a kernel stack at 4096. *)
Definition demo_user : machine :=
  mkM (fun i => if Nat.eqb i 8 then User.SYSCALL_YIELD else if Nat.eqb i 31 then 4096 else if Nat.ltb i 3 then 0 else Z.of_nat i) 8192 0 0 65540 0x340
    (list_to_map ((fun k => (4096 - 272 + 8 * k, 7)) <$> seqZ 0 34)).

Lemma svc_round_trip_witness : exists m1, exec_code HANDLE_SYNC (take_exception 1024 demo_user) = Ok m1 /\
  forall m2, x m2 SP = x m1 SP -> frame_at (words m2) (x m1 0%nat) (Kernel.return_value (frame_of demo_user) 0) ->
    exists m3, exec_code exception_return m2 = Ok m3 /\ pc m3 = 65540 /\ x m3 5%nat = 5.
Proof.
  destruct (svc_round_trip (fun _ tf s => Ok (0, tf, s)) SignalActions_default 1024 demo_user Yield 0 SignalInner_new SignalInner_new)
    as (m1 & E1 & _ & _ & _ & H & _).
  - vm_compute. discriminate.
  - reflexivity.
  - unfold room. apply Forall_forall. intros off Hoff. unfold offsets in Hoff. cbn [words x demo_user].
    repeat (apply elem_of_cons in Hoff as [->|Hoff]; [vm_compute; eauto|]). by apply elem_of_nil in Hoff.
  - exact I.
  - reflexivity.
  - reflexivity.
  - unfold is_isize. lia.
  - split; [reflexivity|done|split; by intros [? ?]].
  - reflexivity.
  - reflexivity.
  - exists m1. split; [exact E1|]. intros m2 Hs Hf. destruct (H m2 Hs Hf) as (m3 & E3 & Hp & _ & _ & _ & _ & Hi).
    exists m3. split; [exact E3|]. split; [exact Hp|]. rewrite (Hi 5%nat) by lia. reflexivity.
Defined.
