(* ===== verification/Entry.v ===== *)
(** The first code of the kernel (os/src/arch/aarch64/entry.rs): from the exception level the
    firmware leaves the processor in to EL1, with the boot page table active, up to the jump to
    [rust_main]. *)
From S2P Require Import Prelude Address PageEntry PageTable KernelSpace.

From Stdlib Require Import ZifyNat.
#[local] Ltac Zify.zify_post_hook ::= Z.to_euclidean_division_equations.

(** ** Processor *)

Inductive sysreg :=
  | SCR_EL3 | SPSR_EL3 | ELR_EL3
  | CNTHCTL_EL2 | CNTVOFF_EL2 | HCR_EL2 | SPSR_EL2 | ELR_EL2
  | SP_EL1 | MAIR_EL1 | TCR_EL1 | TTBR0_EL1 | TTBR1_EL1 | SCTLR_EL1.
#[export] Instance sysreg_eq_dec : EqDecision sysreg.
Proof. solve_decision. Defined.

(** The level whose code may use a register. *)
Definition level (r : sysreg) : Z :=
  match r with
  | SCR_EL3 | SPSR_EL3 | ELR_EL3 => 3
  | CNTHCTL_EL2 | CNTVOFF_EL2 | HCR_EL2 | SPSR_EL2 | ELR_EL2 | SP_EL1 => 2
  | _ => 1
  end.

(** [sp e] is the stack pointer of level [e], [sp 1] being SP_EL1; [daif] are the mask bits of PSTATE. *)
Record cpu := mkCpu {
  el : Z;
  spsel : bool;
  daif : Z;
  sp : Z -> Z;
  x8 : Z;
  lr : Z;
  pc : Z;
  regs : sysreg -> Z;
}.

Definition set_reg (r : sysreg) (v : Z) (f : sysreg -> Z) : sysreg -> Z := fun r' => if decide (r' = r) then v else f r'.
Definition set_sp_of (e v : Z) (f : Z -> Z) : Z -> Z := fun e' => if e' =? e then v else f e'.
Definition read (r : sysreg) (c : cpu) : res Z := if level r <=? el c then Ok (regs c r) else Err Undefined.
Definition write (r : sysreg) (v : Z) (c : cpu) : res cpu :=
  if level r <=? el c then
    Ok (match r with
        | SP_EL1 => mkCpu (el c) (spsel c) (daif c) (set_sp_of 1 v (sp c)) (x8 c) (lr c) (pc c) (regs c)
        | _ => mkCpu (el c) (spsel c) (daif c) (sp c) (x8 c) (lr c) (pc c) (set_reg r v (regs c))
        end)
  else Err Undefined.
Definition modify (r : sysreg) (f : Z -> Z) (c : cpu) : res cpu := v ← read r c; write r (f v) c.
Definition stack (c : cpu) : Z := sp c (if spsel c then el c else 0).
Definition set_stack (v : Z) (c : cpu) : cpu :=
  mkCpu (el c) (spsel c) (daif c) (set_sp_of (if spsel c then el c else 0) v (sp c)) (x8 c) (lr c) (pc c) (regs c).
Definition set_spsel (b : bool) (c : cpu) : cpu := mkCpu (el c) b (daif c) (sp c) (x8 c) (lr c) (pc c) (regs c).
Definition set_pc (v : Z) (c : cpu) : cpu := mkCpu (el c) (spsel c) (daif c) (sp c) (x8 c) (lr c) v (regs c).
Definition set_lr (v : Z) (c : cpu) : cpu := mkCpu (el c) (spsel c) (daif c) (sp c) (x8 c) v (pc c) (regs c).
Definition set_x8 (v : Z) (c : cpu) : cpu := mkCpu (el c) (spsel c) (daif c) (sp c) v (lr c) (pc c) (regs c).

(** [eret]: level, stack and masks from the saved status.  A return to EL1 as 64-bit code needs the
    register width of the levels above to be set. *)
Definition eret (c : cpu) : res cpu :=
  spsr ← (if el c =? 3 then read SPSR_EL3 c else read SPSR_EL2 c);
  elr ← (if el c =? 3 then read ELR_EL3 c else read ELR_EL2 c);
  let target := Z.land (Z.shiftr spsr 2) 3 in
  if (target =? 1) && Z.testbit (regs c HCR_EL2) 31 && ((el c =? 2) || Z.testbit (regs c SCR_EL3) 10) then
    Ok (mkCpu 1 (Z.testbit spsr 0) (Z.land (Z.shiftr spsr 6) 15) (sp c) (x8 c) (lr c) elr (regs c))
  else Err Undefined.

(** ** [switch_to_el1] and [init_mmu] *)

(** EL1h with D, A, I and F masked, for SPSR_EL3 and SPSR_EL2. *)
Definition EL1h_MASKED : Z := 0x3c5.
(** Bits NS, HCE and RW; bits EL1PCTEN and EL1PCEN; bit RW. *)
Definition SCR_BITS : Z := Z.lor (Z.lor (Z.shiftl 1 0) (Z.shiftl 1 8)) (Z.shiftl 1 10).
Definition CNTHCTL_BITS : Z := Z.lor (Z.shiftl 1 1) (Z.shiftl 1 0).
Definition HCR_BITS : Z := Z.shiftl 1 31.

(** [stack_end] is the end of [BOOT_STACK]; returns to the address in the link register. *)
Definition switch_to_el1 (stack_end : Z) (c : cpu) : res cpu :=
  let c := set_spsel true c in
  let current_el := el c in
  if 2 <=? current_el then
    c ← (if current_el =? 3 then
           c ← write SCR_EL3 SCR_BITS c;
           c ← write SPSR_EL3 EL1h_MASKED c;
           write ELR_EL3 (lr c) c
         else Ok c);
    c ← modify CNTHCTL_EL2 (fun v => Z.lor v CNTHCTL_BITS) c;
    c ← write CNTVOFF_EL2 0 c;
    c ← write HCR_EL2 HCR_BITS c;
    c ← write SPSR_EL2 EL1h_MASKED c;
    c ← write SP_EL1 stack_end c;
    c ← write ELR_EL2 (lr c) c;
    eret c
  else Ok (set_pc (lr c) c).

Definition MAIR_BITS : Z := 0xff04.
(** For each half: walks enabled, shareable, write-back, 48 bits of address; 4K pages are 0 for TG0 and 2
    for TG1; 40 bits of physical address. *)
Definition tcr_flags0 : Z :=
  Z.lor (Z.lor (Z.lor (Z.lor (Z.shiftl 0 7) (Z.shiftl 0 14)) (Z.shiftl 3 12)) (Z.lor (Z.shiftl 1 10) (Z.shiftl 1 8))) 16.
Definition tcr_flags1 : Z :=
  Z.lor (Z.lor (Z.lor (Z.lor (Z.shiftl 0 23) (Z.shiftl 2 30)) (Z.shiftl 3 28)) (Z.lor (Z.shiftl 1 26) (Z.shiftl 1 24))) (Z.shiftl 16 16).
Definition TCR_BITS : Z := Z.lor (Z.lor (Z.shiftl 2 32) tcr_flags0) tcr_flags1.
(** Bits M, C and I. *)
Definition SCTLR_BITS : Z := Z.lor (Z.lor (Z.shiftl 1 0) (Z.shiftl 1 2)) (Z.shiftl 1 12).

(** [l0] is the address of [BOOT_PT_L0]. *)
Definition init_mmu (l0 : Z) (c : cpu) : res cpu :=
  c ← write MAIR_EL1 MAIR_BITS c;
  c ← write TCR_EL1 TCR_BITS c;
  let root_paddr := PhysAddr_new l0 in
  c ← write TTBR0_EL1 root_paddr c;
  c ← write TTBR1_EL1 root_paddr c;
  c ← modify SCTLR_EL1 (fun v => Z.lor v SCTLR_BITS) c;
  Ok (set_pc (lr c) c).

(** ** Translation *)

(** Where an access to [va] goes, with the tables at [l0] in memory.  The size of the halves is
    that of T0SZ and T1SZ, and walks of 4K pages must be enabled. *)
Definition translate (l0 : Z) (tables : list Z * list Z) (c : cpu) (va : Z) : option Z :=
  if Z.testbit (regs c SCTLR_EL1) 0 then
    let tcr := regs c TCR_EL1 in
    let t0sz := Z.land tcr 63 in
    let t1sz := Z.land (Z.shiftr tcr 16) 63 in
    let lookup ttbr epd tg :=
      if (ttbr =? l0) && negb (Z.testbit tcr epd) && tg then
        match boot_lookup tables va with Some (true, pa, Ok _) => Some pa | _ => None end
      else None in
    if va <? 2 ^ (64 - t0sz) then lookup (regs c TTBR0_EL1) 7 (Z.land (Z.shiftr tcr 14) 3 =? 0)
    else if 2 ^ 64 - 2 ^ (64 - t1sz) <=? va then lookup (regs c TTBR1_EL1) 23 (Z.land (Z.shiftr tcr 30) 3 =? 2)
    else None
  else Some va.

(** ** [_start] *)

(** Link addresses; the image is loaded at these addresses less the offset, where its code runs
    and where addresses relative to the program counter lead. *)
Record Link := mkLink { start_addr : Z; rust_main_addr : Z; stack_top_addr : Z; pt_l0_addr : Z; pt_l1_addr : Z }.
Definition loaded (a : Z) : Z := a - PHYS_VIRT_OFFSET.

(** The next instruction must be the one at the physical address [a]. *)
Definition fetch (l0 : Z) (tables : list Z * list Z) (a : Z) (c : cpu) : res cpu :=
  if (pc c =? a) && bool_decide (translate l0 tables c (pc c) = Some a) then Ok c
  else Err DataAbort.

Definition entry_start (k : Link) (c : cpu) : res (cpu * (list Z * list Z)) :=
  let here := loaded (start_addr k) in
  let l0 := loaded (pt_l0_addr k) in
  let c := set_x8 (loaded (stack_top_addr k)) c in
  let c := set_stack (x8 c) c in
  c ← switch_to_el1 (loaded (stack_top_addr k)) (set_lr (here + 12) c);
  c ← fetch l0 boot_tables (here + 12) c;
  tables ← init_boot_page_table (loaded (pt_l1_addr k)) boot_tables;
  c ← init_mmu l0 (set_lr (here + 20) c);
  c ← fetch l0 tables (here + 20) c;
  let c := set_x8 (stack_top_addr k) c in
  let c := set_stack (x8 c) c in
  let c := set_x8 (rust_main_addr k) c in
  Ok (set_pc (x8 c) c, tables).

(** ** What it leaves *)

(** The lower half sees the same memory as the upper one. *)
Lemma boot_lookup_low t pa : 0 <= pa < 2 ^ 31 -> boot_lookup t pa = boot_lookup t (pa + PHYS_VIRT_OFFSET).
Proof.
  intros Hpa. unfold boot_lookup. destruct (kernel_index pa Hpa) as (-> & _ & _). rewrite kernel_p3 by done.
  assert (p4_index pa = 0) as ->.
  { unfold p4_index. change (ENTRY_COUNT - 1) with (Z.ones 9). rewrite Z.land_ones, Z.shiftr_div_pow2 by lia. lia. }
  assert (p3_index pa = pa / 2 ^ 30) as ->.
  { unfold p3_index. change (ENTRY_COUNT - 1) with (Z.ones 9). rewrite Z.land_ones, Z.shiftr_div_pow2 by lia. lia. }
  assert ((pa + PHYS_VIRT_OFFSET) `mod` 2 ^ 30 = pa `mod` 2 ^ 30) as ->; [|done].
  change PHYS_VIRT_OFFSET with (0x3fffc0000 * 2 ^ 30). apply Z_mod_plus_full.
Qed.

(** With the registers as [init_mmu] sets them, both halves are the boot table's linear map. *)
Lemma translate_boot l0 l1 t c pa : page_aligned l1 -> init_boot_page_table l1 boot_tables = Ok t -> 0 <= pa < 2 ^ 31 ->
  Z.testbit (regs c SCTLR_EL1) 0 = true -> regs c TCR_EL1 = TCR_BITS -> regs c TTBR0_EL1 = l0 -> regs c TTBR1_EL1 = l0 ->
  translate l0 t c pa = Some pa /\ translate l0 t c (pa + PHYS_VIRT_OFFSET) = Some pa.
Proof.
  intros Hl1 Ht Hpa Hm Etcr E0 E1. destruct (boot_table_spec l1 Hl1) as (t' & Ht' & Hb). rewrite Ht in Ht'. injection Ht' as <-.
  unfold translate. rewrite Hm, Etcr, E0, E1, boot_lookup_low, Hb by done. rewrite Z.eqb_refl.
  assert (Z.land TCR_BITS 63 = 16 /\ Z.land (Z.shiftr TCR_BITS 16) 63 = 16) as [-> ->] by done.
  unfold PHYS_VIRT_OFFSET. rewrite (proj2 (Z.ltb_lt pa _)), (proj2 (Z.ltb_ge (pa + _) _)), (proj2 (Z.leb_le _ _)) by lia. done.
Qed.

Lemma switch_spec e c : el c = 1 \/ el c = 2 \/ el c = 3 ->
  exists c1, switch_to_el1 e c = Ok c1 /\ el c1 = 1 /\ spsel c1 = true /\ pc c1 = lr c /\ regs c1 SCTLR_EL1 = regs c SCTLR_EL1 /\
    (el c <> 1 -> daif c1 = 15 /\ stack c1 = e /\ Z.testbit (regs c1 CNTHCTL_EL2) 0 = true /\ Z.testbit (regs c1 CNTHCTL_EL2) 1 = true /\ regs c1 CNTVOFF_EL2 = 0).
Proof.
  assert (forall v, Z.testbit (Z.lor v CNTHCTL_BITS) 0 = true /\ Z.testbit (Z.lor v CNTHCTL_BITS) 1 = true) as Hb.
  { intros v. by rewrite !Z.lor_spec, !orb_true_r. }
  destruct c as [e0 b d s x l p r]. cbn [el]. intros [->|[->| ->]].
  - eexists. split; [reflexivity|]. by split_and!.
  - eexists. split; [cbv -[Z.lor CNTHCTL_BITS]; reflexivity|]. split_and!; try reflexivity. intros _. split_and!; try reflexivity; apply Hb.
  - eexists. split; [cbv -[Z.lor CNTHCTL_BITS]; reflexivity|]. split_and!; try reflexivity. intros _. split_and!; try reflexivity; apply Hb.
Qed.

Lemma mmu_spec l0 c : el c = 1 -> 0 <= l0 < 2 ^ 40 ->
  exists c1, init_mmu l0 c = Ok c1 /\ pc c1 = lr c /\ el c1 = 1 /\ spsel c1 = spsel c /\ daif c1 = daif c /\
    Z.testbit (regs c1 SCTLR_EL1) 0 = true /\ regs c1 TCR_EL1 = TCR_BITS /\ regs c1 TTBR0_EL1 = l0 /\ regs c1 TTBR1_EL1 = l0 /\
    regs c1 CNTHCTL_EL2 = regs c CNTHCTL_EL2 /\ regs c1 CNTVOFF_EL2 = regs c CNTVOFF_EL2.
Proof.
  destruct c as [e0 b d s x l p r]. cbn [el]. intros -> Hl. assert (PhysAddr_new l0 = l0) as E.
  { by apply PhysAddr_new_eq. }
  assert (forall v, Z.testbit (Z.lor v SCTLR_BITS) 0 = true) as Hb by (intros v; by rewrite Z.lor_spec, orb_true_r).
  eexists. split; [unfold init_mmu; rewrite E; cbv -[Z.lor SCTLR_BITS TCR_BITS MAIR_BITS]; reflexivity|].
  split_and!; try reflexivity. apply Hb.
Qed.

Lemma fetch_ok l0 t a c : pc c = a -> translate l0 t c a = Some a -> fetch l0 t a c = Ok c.
Proof. intros <- Ht. unfold fetch. by rewrite Z.eqb_refl, bool_decide_true. Qed.


