(* ===== verification/Philosophers.v ===== *)
(** The dining philosophers (user/src/bin/phil_din_mutex.rs) on the kernel's blocking mutexes.

    The mutexes are the kernel's objects; a call changes them as [sys_mutex_lock] and
    [sys_mutex_unlock] do ([SyncInv.lock_spec], [SyncInv.unlock_spec]).  Threads run in any
    interleaving.  All forks exist before the first philosopher picks one up. *)
From stdpp Require Import relations.
From S2P Require Import Prelude State Sched Sync SyncInv.

(** ** The program *)

Definition N : nat := 5.
Definition ROUND : nat := 4.

Definition left (id : nat) : nat := id.
Definition right (id : nat) : nat := if Nat.eqb id (N - 1) then 0%nat else S id.
Definition min_fork (id : nat) : nat := if Nat.ltb (left id) (right id) then left id else right id.
Definition max_fork (id : nat) : nat := (left id + right id - min_fork id)%nat.

Inductive op := Sleep (ms : Z) | Lock (m : nat) | Unlock (m : nat).

Definition ARR : list (list Z) :=
  [[700; 800; 1000; 400; 500; 600; 200; 400];
   [300; 600; 200; 700; 1000; 100; 300; 600];
   [500; 200; 900; 200; 400; 600; 1200; 400];
   [500; 1000; 600; 500; 800; 600; 200; 900];
   [600; 100; 600; 600; 200; 500; 600; 200]].
Definition time (id i : nat) : Z := default 0 (l ← ARR !! id; l !! i).

(** One round of the loop of [philosopher_dining_problem]; the times it records are only printed. *)
Definition body (id round : nat) : list op :=
  [Sleep (time id (2 * round)); Lock (min_fork id); Lock (max_fork id); Sleep (time id (2 * round + 1));
   Unlock (max_fork id); Unlock (min_fork id)].

(** ** Runs *)

(** The place of a thread: its round, its next operation, and whether it waits in the last one. *)
Record thread := mkThread { round : nat; pc : nat; blocked : bool }.
Definition advance (th : thread) (b : bool) : thread :=
  if Nat.eqb (pc th) 5 then mkThread (S (round th)) 0 b else mkThread (round th) (S (pc th)) b.
Definition finished (th : thread) : bool := Nat.eqb (round th) ROUND.

Record state := mkState { forks : list UserMutex; threads : list thread }.
(** The kernel's name for philosopher [id]: the main thread has number 0. *)
Definition task (id : nat) : TaskRef := (2, Z.of_nat (S id)).
Definition init : state := mkState (replicate N MutexBlocking_new) (replicate N (mkThread 0 0 false)).

(** The thread that an [unlock] of [m] makes ready. *)
Definition wakes (m : UserMutex) (t : TaskRef) : bool :=
  match m with MutexBlocking _ (u :: _) => bool_decide (u = t) | _ => false end.
Definition wake (m : UserMutex) (id : nat) (th : thread) : thread :=
  if wakes m (task id) then mkThread (round th) (pc th) false else th.

(** Thread [id] makes its next call; [Err Panic] where the kernel panics. *)
Definition run_op (id : nat) (th : thread) (o : op) (s : state) : res state :=
  match o with
  | Sleep _ => Ok (mkState (forks s) (<[id := advance th false]> (threads s)))
  | Lock m =>
      mu ← unwrap (forks s !! m);
      Ok (mkState (<[m := lock_next (task id) mu]> (forks s))
            (<[id := advance th (match lock_cont (Z.of_nat m) mu with Some _ => true | None => false end)]> (threads s)))
  | Unlock m =>
      mu ← unwrap (forks s !! m);
      _ ← rassert (unlockable mu);
      Ok (mkState (<[m := unlock_next mu]> (forks s)) (imap (wake mu) (<[id := advance th false]> (threads s))))
  end.
Inductive step : state -> res state -> Prop :=
  step_op id th o s : threads s !! id = Some th -> blocked th = false -> finished th = false ->
    body id (round th) !! pc th = Some o -> step s (run_op id th o s).
Definition ok_step (s s' : state) : Prop := step s (Ok s').

(** A philosopher eats between its second [lock] and its first [unlock]. *)
Definition eats (th : thread) : bool := (Nat.eqb (pc th) 3 && negb (blocked th)) || Nat.eqb (pc th) 4.

(** ** The invariant *)

(** Which forks a philosopher has, and for which it waits. *)
Definition holds (id : nat) (th : thread) (m : nat) : bool :=
  Nat.eqb m (min_fork id) && ((Nat.eqb (pc th) 2 && negb (blocked th)) || Nat.leb 3 (pc th)) || Nat.eqb m (max_fork id) && eats th.
Definition waits (id : nat) (th : thread) (m : nat) : bool :=
  blocked th && (Nat.eqb m (min_fork id) && Nat.eqb (pc th) 2 || Nat.eqb m (max_fork id) && Nat.eqb (pc th) 3).
Definition holder (ths : list thread) (m id : nat) : Prop := exists th, ths !! id = Some th /\ holds id th m = true.
Definition waiter (ths : list thread) (m id : nat) : Prop := exists th, ths !! id = Some th /\ waits id th m = true.

(** A fork with holders [H] and waiters [W]: the queue has the waiters, a locked fork has one holder. *)
Definition fork_ok (H W : nat -> Prop) (mu : UserMutex) : Prop :=
  match mu with
  | MutexBlocking l q => NoDup q /\ (forall t, t ∈ q <-> exists id, t = task id /\ W id) /\
      if l then exists id, H id /\ forall id', H id' -> id' = id else (forall id, ~ H id) /\ q = []
  | MutexSpin _ => False
  end.

Record thread_ok (th : thread) : Prop := {
  th_pc : (pc th < 6)%nat;
  th_round : (round th <= ROUND)%nat;
  th_end : round th = ROUND -> pc th = 0%nat;
  th_blocked : blocked th = true -> pc th = 2%nat \/ pc th = 3%nat;
}.
Record inv (s : state) : Prop := {
  iv_forks : length (forks s) = N;
  iv_threads : length (threads s) = N;
  iv_thread id th : threads s !! id = Some th -> thread_ok th;
  iv_fork m mu : forks s !! m = Some mu -> fork_ok (holder (threads s) m) (waiter (threads s) m) mu;
}.

Lemma task_inj i j : task i = task j -> i = j.
Proof. unfold task. intros [= E]. lia. Qed.

Lemma forks_ordered id : (id < N)%nat -> (min_fork id < max_fork id < N)%nat.
Proof. unfold N. intros H. do 5 (destruct id as [|id]; [vm_compute; lia|]). lia. Qed.

Lemma fork_ext H W H' W' mu : (forall i, H i <-> H' i) -> (forall i, W i <-> W' i) -> fork_ok H W mu -> fork_ok H' W' mu.
Proof.
  intros EH EW. destruct mu as [l|l q]; [done|]. intros (Hn & Hq & Hl). split; [done|]. split.
  - intros t. rewrite Hq. split; intros (i & ? & ?); exists i; (split; [done|]); by apply EW.
  - destruct l.
    + destruct Hl as (i & Hi & Hu). exists i. split; [by apply EH|]. intros j Hj. by apply Hu, EH.
    + destruct Hl as [Hno ->]. split; [|done]. intros i Hi%EH. by apply (Hno i).
Qed.

Lemma fork_take H W id mu : fork_ok H W mu -> ~ W id ->
  match lock_cont 0 mu with
  | None => fork_ok (fun i => H i \/ i = id) W (lock_next (task id) mu)
  | Some _ => fork_ok H (fun i => W i \/ i = id) (lock_next (task id) mu)
  end.
Proof.
  destruct mu as [l|[] q]; [done| |]; intros (Hn & Hq & Hl) Hw; cbn [lock_cont lock_next fork_ok].
  - split; [|split; [|done]].
    + apply NoDup_app. split_and!; [done| |apply NoDup_singleton]. intros t Ht ->%list_elem_of_singleton.
      apply Hq in Ht as (j & Hj & ?). apply task_inj in Hj as ->. done.
    + intros t. rewrite elem_of_app, list_elem_of_singleton, Hq. split; [intros [(j & ? & ?)| -> ]; eauto|intros (j & -> & [?| ->]); eauto].
  - destruct Hl as [Hno ->]. split_and!; [done|done|]. exists id. split; [by right|]. intros j [Hj|?]; [|done]. by destruct (Hno j).
Qed.

Lemma fork_give H W id mu : fork_ok H W mu -> H id -> (forall i, W i -> i <> id) ->
  unlockable mu = true /\ fork_ok (fun i => (H i /\ i <> id) \/ wakes mu (task i) = true) (fun i => W i /\ wakes mu (task i) = false) (unlock_next mu) /\
  forall i, wakes mu (task i) = true -> W i.
Proof.
  destruct mu as [l|[] [|u q]]; [done| | | |]; intros (Hn & Hq & Hl) Hh Hw; cbn [unlockable unlock_next fork_ok wakes].
  - destruct Hl as (o & Ho & Hu). split_and!; [done|done| | |done|done].
    + intros t. rewrite Hq. split; intros (i & ? & ?); exists i; tauto.
    + intros i [[Hi Hne]|?]; [|done]. apply Hne. by rewrite (Hu i Hi), (Hu id Hh).
  - apply NoDup_cons in Hn as [Hnu Hn]. destruct (proj1 (Hq u) (list_elem_of_here _ _)) as (j & -> & Hj). destruct Hl as (o & Ho & Hu).
    assert (forall i, bool_decide (task j = task i) = true <-> i = j) as Hb.
    { intros i. rewrite bool_decide_eq_true. split; [by intros ?%task_inj|by intros ->]. }
    split_and!; [done|done| | |].
    + intros t. split.
      * intros Ht. destruct (proj1 (Hq t)) as (i & -> & Hi); [by apply elem_of_cons; right|]. exists i. split; [done|]. split; [done|].
        apply not_true_is_false. rewrite Hb. by intros ->.
      * intros (i & -> & Hi & Hf). destruct (proj1 (elem_of_cons _ _ _) (proj2 (Hq (task i)) (ex_intro _ i (conj eq_refl Hi)))) as [E|?]; [|done].
        by rewrite E, bool_decide_true in Hf.
    + exists j. split; [right; by apply Hb|]. intros i [[Hi Hne]|?%Hb]; [|done]. destruct Hne. by rewrite (Hu i Hi), (Hu id Hh).
    + by intros i ->%Hb.
  - destruct Hl as [Hno _]. by destruct (Hno id).
  - destruct Hl as [Hno _]. by destruct (Hno id).
Qed.

Lemma holder_insert ths id th m i : (id < length ths)%nat ->
  holder (<[id := th]> ths) m i <-> (i = id /\ holds id th m = true) \/ (i <> id /\ holder ths m i).
Proof.
  intros Hl. unfold holder. destruct (decide (i = id)) as [->|Hne].
  - rewrite list_lookup_insert_eq by done. naive_solver.
  - rewrite list_lookup_insert_ne by done. naive_solver.
Qed.
Lemma waiter_insert ths id th m i : (id < length ths)%nat ->
  waiter (<[id := th]> ths) m i <-> (i = id /\ waits id th m = true) \/ (i <> id /\ waiter ths m i).
Proof.
  intros Hl. unfold waiter. destruct (decide (i = id)) as [->|Hne].
  - rewrite list_lookup_insert_eq by done. naive_solver.
  - rewrite list_lookup_insert_ne by done. naive_solver.
Qed.
Lemma holder_at ths id th m : ths !! id = Some th -> holder ths m id <-> holds id th m = true.
Proof. unfold holder. naive_solver. Qed.
Lemma waiter_at ths id th m : ths !! id = Some th -> waiter ths m id <-> waits id th m = true.
Proof. unfold waiter. naive_solver. Qed.

(** A philosopher that waits for [m] and gets it. *)
Lemma unblock id th m : (id < N)%nat -> thread_ok th -> waits id th m = true ->
  let th' := mkThread (round th) (pc th) false in
  thread_ok th' /\ holds id th' m = true /\ holds id th m = false /\
  forall m', waits id th' m' = false /\ (m' <> m -> holds id th' m' = holds id th m' /\ waits id th m' = false).
Proof.
  intros Hid [H1 H2 H3 H4] Hw th'. pose proof (forks_ordered id Hid). split; [by split|]. unfold waits in Hw.
  destruct th as [r p b]. cbn [pc round blocked] in *. destruct b; [|done]. unfold holds, waits, eats, th'. cbn [pc blocked round] in *.
  destruct (H4 eq_refl) as [->| ->]; cbn in *; repeat (destruct (Nat.eqb_spec m (min_fork id)), (Nat.eqb_spec m (max_fork id)); subst; cbn in *; try done; try lia);
    split_and!; try done; intros m'; split; try done; intros Hne;
    destruct (Nat.eqb_spec m' (min_fork id)), (Nat.eqb_spec m' (max_fork id)); subst; cbn; try done; lia.
Qed.

Section keeps.
Context (s : state) (id : nat) (th : thread) (I : inv s) (Hth : threads s !! id = Some th) (Hb : blocked th = false).

Lemma id_lt : (id < length (threads s))%nat.
Proof. by eapply lookup_lt_Some. Qed.
Lemma id_N : (id < N)%nat.
Proof. rewrite <- (iv_threads _ I). apply id_lt. Qed.
Lemma waits_none m : waits id th m = false.
Proof. unfold waits. by rewrite Hb. Qed.

(** The other forks, when a step changes no more than what thread [id] has of fork [m]. *)
Lemma fork_same th' m' mu : forks s !! m' = Some mu -> holds id th' m' = holds id th m' -> waits id th' m' = false ->
  fork_ok (holder (<[id := th']> (threads s)) m') (waiter (<[id := th']> (threads s)) m') mu.
Proof.
  intros Hm Eh Ew. eapply fork_ext; [| |by apply (iv_fork _ I)]; intros i.
  - rewrite holder_insert by apply id_lt. destruct (decide (i = id)) as [->|]; [rewrite (holder_at _ _ _ _ Hth), Eh|]; naive_solver.
  - rewrite waiter_insert by apply id_lt. destruct (decide (i = id)) as [->|]; [rewrite (waiter_at _ _ _ _ Hth), Ew, waits_none|]; naive_solver.
Qed.
Lemma threads_insert_ok th' i th0 : thread_ok th' -> <[id := th']> (threads s) !! i = Some th0 -> thread_ok th0.
Proof. intros Hok [(_ & <- & _)|[_ H]]%list_lookup_insert_Some; [done|by apply (iv_thread _ I i)]. Qed.

Lemma sleep_keeps th' : thread_ok th' -> (forall m, holds id th' m = holds id th m /\ waits id th' m = false) ->
  inv (mkState (forks s) (<[id := th']> (threads s))).
Proof.
  intros Hok He. destruct I as [I1 I2 _ _]. split; cbn [forks threads]; [done|by rewrite length_insert|by intros; eapply threads_insert_ok|].
  intros m mu Hm. apply fork_same; [done|apply He..].
Qed.

Lemma lock_keeps m mu th1 th2 : forks s !! m = Some mu -> thread_ok th1 -> thread_ok th2 ->
  (forall m', m' <> m -> holds id th1 m' = holds id th m' /\ waits id th1 m' = false /\ holds id th2 m' = holds id th m' /\ waits id th2 m' = false) ->
  holds id th m = false -> holds id th1 m = true -> waits id th1 m = false -> holds id th2 m = false -> waits id th2 m = true ->
  inv (mkState (<[m := lock_next (task id) mu]> (forks s))
    (<[id := match lock_cont (Z.of_nat m) mu with Some _ => th2 | None => th1 end]> (threads s))).
Proof.
  intros Hm Hok1 Hok2 Ho Hh H1 H1' H2 H2'. destruct I as [I1 I2 _ If].
  pose proof (fork_take _ _ id mu (If m mu Hm)) as Ht. rewrite (waiter_at _ _ _ _ Hth), waits_none in Ht. specialize (Ht ltac:(done)).
  assert (lock_cont (Z.of_nat m) mu = None <-> lock_cont 0 mu = None) as Hc by (by destruct mu as [[]|[] q]).
  assert (thread_ok (match lock_cont (Z.of_nat m) mu with Some _ => th2 | None => th1 end)) as Hok by (by destruct (lock_cont (Z.of_nat m) mu)).
  split; cbn [forks threads]; [by rewrite length_insert|by rewrite length_insert|by intros; eapply threads_insert_ok|].
  intros m' mu' [[<- [<- _]]|[Hne Hm']]%list_lookup_insert_Some.
  2: { destruct (Ho m' ltac:(done)) as (? & ? & ? & ?). destruct (lock_cont (Z.of_nat m) mu); by apply fork_same. }
  destruct (lock_cont 0 mu) as [c|] eqn:E0.
  - destruct (lock_cont (Z.of_nat m) mu); [|by destruct Hc as [Hc _]; specialize (Hc eq_refl)].
    eapply fork_ext; [| |exact Ht]; intros i.
    + rewrite holder_insert by apply id_lt. destruct (decide (i = id)) as [->|]; [rewrite (holder_at _ _ _ _ Hth)|]; naive_solver congruence.
    + rewrite waiter_insert by apply id_lt. destruct (decide (i = id)) as [->|]; [rewrite (waiter_at _ _ _ _ Hth), waits_none|]; naive_solver.
  - rewrite (proj2 Hc eq_refl). eapply fork_ext; [| |exact Ht]; intros i.
    + rewrite holder_insert by apply id_lt. destruct (decide (i = id)) as [->|]; [rewrite (holder_at _ _ _ _ Hth)|]; naive_solver.
    + rewrite waiter_insert by apply id_lt. destruct (decide (i = id)) as [->|]; [rewrite (waiter_at _ _ _ _ Hth), waits_none|]; naive_solver congruence.
Qed.

(** The threads after an [unlock]: the one at the head of the queue has the fork. *)
Lemma woken mu m th1 : (forall i, wakes mu (task i) = true -> waiter (threads s) m i) ->
  let ths := imap (wake mu) (<[id := th1]> (threads s)) in
  (forall i th0, thread_ok th1 -> ths !! i = Some th0 -> thread_ok th0) /\
  forall m' i,
    (holder ths m' i <-> if wakes mu (task i) then m' = m \/ holder (threads s) m' i else holder (<[id := th1]> (threads s)) m' i) /\
    (waiter ths m' i <-> wakes mu (task i) = false /\ waiter (<[id := th1]> (threads s)) m' i).
Proof.
  intros Hw ths. assert (forall i, wakes mu (task i) = true -> i <> id /\ exists thi, threads s !! i = Some thi /\ thread_ok thi /\ waits i thi m = true /\ (i < N)%nat) as Hw'.
  { intros i Hi. destruct (Hw i Hi) as (thi & Et & Hwi). split.
    - intros ->. rewrite Hth in Et. injection Et as <-. by rewrite waits_none in Hwi.
    - exists thi. split_and!; [done|by apply (iv_thread _ I i)|done|]. rewrite <- (iv_threads _ I). by eapply lookup_lt_Some. }
  split.
  - intros i th0 Hok. unfold ths. rewrite list_lookup_imap. intros (th2 & E & ->)%fmap_Some. unfold wake. destruct (wakes mu (task i)) eqn:Ei.
    + destruct (Hw' i Ei) as (Hne & thi & Et & Hti & Hwi & Hi). rewrite list_lookup_insert_ne, Et in E by done. injection E as <-.
      by apply (unblock i thi m Hi Hti Hwi).
    + by eapply threads_insert_ok.
  - intros m' i. unfold holder, waiter, ths. rewrite list_lookup_imap. unfold wake. destruct (wakes mu (task i)) eqn:Ei.
    + destruct (Hw' i Ei) as (Hne & thi & Et & Hti & Hwi & Hi). rewrite list_lookup_insert_ne, Et by done. cbn [fmap option_fmap option_map].
      destruct (unblock i thi m Hi Hti Hwi) as (_ & H1 & H2 & H3). destruct (H3 m') as [H4 H5]. split; [|naive_solver congruence].
      destruct (decide (m' = m)) as [->|Hm]; [naive_solver|]. destruct (H5 Hm) as [H6 _]. split.
      * intros (? & [= <-] & ?). right. exists thi. split; [done|]. by rewrite <- H6.
      * intros [?|(? & [= <-] & ?)]; [done|]. eexists. split; [done|]. by rewrite H6.
    + destruct (<[id := th1]> (threads s) !! i); cbn; naive_solver.
Qed.

Lemma unlock_keeps m mu th1 : forks s !! m = Some mu -> thread_ok th1 -> holds id th m = true -> holds id th1 m = false ->
  (forall m', m' <> m -> holds id th1 m' = holds id th m') -> (forall m', waits id th1 m' = false) ->
  unlockable mu = true /\ inv (mkState (<[m := unlock_next mu]> (forks s)) (imap (wake mu) (<[id := th1]> (threads s)))).
Proof.
  intros Hm Hok Hh H1 Ho Hw1.
  destruct (fork_give _ _ id mu (iv_fork _ I m mu Hm)) as (Hu & Hf & Hw); [by apply (holder_at _ _ _ _ Hth)| |].
  { intros i Hi ->. apply (waiter_at _ _ _ _ Hth) in Hi. by rewrite waits_none in Hi. }
  destruct (woken mu m th1 Hw) as [Ht Hv]. split; [done|].
  split; cbn [forks threads]; [by rewrite length_insert; apply I|by rewrite length_imap, length_insert; apply I|by intros; eapply Ht|].
  intros m' mu' [[<- [<- _]]|[Hne Hm']]%list_lookup_insert_Some.
  - eapply fork_ext; [| |exact Hf]; intros i; destruct (Hv m i) as [Hv1 Hv2].
    + rewrite Hv1. destruct (wakes mu (task i)); [naive_solver|]. rewrite holder_insert by apply id_lt. naive_solver congruence.
    + rewrite Hv2, waiter_insert, Hw1 by apply id_lt. split; [|naive_solver]. intros [Hi Hk]. split; [done|]. right. split; [|done].
      intros ->. apply (waiter_at _ _ _ _ Hth) in Hi. by rewrite waits_none in Hi.
  - eapply fork_ext; [| |apply (fork_same th1 m' mu' Hm' (Ho m' ltac:(done)) (Hw1 m'))]; intros i; destruct (Hv m' i) as [Hv1 Hv2].
    + rewrite Hv1. destruct (wakes mu (task i)) eqn:Ei; [|done]. rewrite holder_insert by apply id_lt.
      assert (i <> id) by (intros ->; apply Hw in Ei; apply (waiter_at _ _ _ _ Hth) in Ei; by rewrite waits_none in Ei). naive_solver.
    + rewrite Hv2. split; [|naive_solver]. intros Hk. split; [|done]. destruct (wakes mu (task i)) eqn:Ei; [|done]. exfalso.
      rewrite waiter_insert, Hw1 in Hk by apply id_lt. destruct Hk as [[_ ?]|[_ (thi & Et & Hwi)]]; [done|].
      destruct (Hw i Ei) as (thj & Et' & Hwj). rewrite Et in Et'. injection Et' as <-.
      pose proof (lookup_lt_Some _ _ _ Et) as Hlt. rewrite (iv_threads _ I) in Hlt.
      destruct (unblock i thi m Hlt (iv_thread _ I i thi Et) Hwj) as (_ & _ & _ & H3). destruct (H3 m') as [_ H4]. destruct H4 as [_ H5]; [done|]. congruence.
Qed.
End keeps.

(** What a philosopher has before and after each operation. *)
Ltac fork_cases id :=
  unfold holds, waits, eats; cbn [pc round blocked advance]; intros;
  repeat match goal with |- context [Nat.eqb ?a ?b] => destruct (Nat.eqb_spec a b) end; cbn; try done; try lia; try congruence.

Lemma run_op_keeps s id th o : inv s -> threads s !! id = Some th -> blocked th = false -> finished th = false ->
  body id (round th) !! pc th = Some o -> exists s', run_op id th o s = Ok s' /\ inv s'.
Proof.
  intros I Hth Hb Hf Ho. pose proof (iv_thread _ I id th Hth) as [Hpc Hr He Hk]. pose proof (forks_ordered id (id_N s id th I Hth)) as [Hlt HN].
  assert (forall m, (m < N)%nat -> exists mu, forks s !! m = Some mu) as Hforks.
  { intros m Hm. apply lookup_lt_is_Some_2. by rewrite (iv_forks _ I). }
  destruct th as [r p b]. cbn [pc round blocked] in *. subst b. unfold finished in Hf. cbn [round] in Hf. apply Nat.eqb_neq in Hf.
  assert (forall q b, (q < 6)%nat -> (b = true -> q = 2 \/ q = 3)%nat -> thread_ok (mkThread r q b)) as Hok by (intros q b ? ?; split; cbn; auto; lia).
  assert (thread_ok (mkThread (S r) 0 false)) as Hok' by (split; cbn; auto; lia).
  destruct (Hforks (min_fork id) ltac:(lia)) as [m1 Hm1], (Hforks (max_fork id) HN) as [m2 Hm2].
  destruct p as [|[|[|[|[|[|p]]]]]]; [injection Ho as <-..|lia].
  - eexists. split; [reflexivity|]. eapply sleep_keeps; [done|done|done|apply (Hok 1%nat false); [lia|done]|]. split; fork_cases id.
  - eexists. split; [cbn [run_op]; rewrite Hm1; reflexivity|].
    pose proof (lock_keeps s id _ I Hth eq_refl (min_fork id) m1 (mkThread r 2 false) (mkThread r 2 true) Hm1) as Hl.
    destruct (lock_cont _ m1); apply Hl; try (apply Hok; [lia|auto]); try (split_and!); fork_cases id.
  - eexists. split; [cbn [run_op]; rewrite Hm2; reflexivity|].
    pose proof (lock_keeps s id _ I Hth eq_refl (max_fork id) m2 (mkThread r 3 false) (mkThread r 3 true) Hm2) as Hl.
    destruct (lock_cont _ m2); apply Hl; try (apply Hok; [lia|auto]); try (split_and!); fork_cases id.
  - eexists. split; [reflexivity|]. eapply sleep_keeps; [done|done|done|apply (Hok 4%nat false); [lia|done]|]. split; fork_cases id.
  - destruct (unlock_keeps s id _ I Hth eq_refl (max_fork id) m2 (mkThread r 5 false) Hm2) as [Hu Hi]; try (apply Hok; [lia|auto]); try (fork_cases id).
    eexists. split; [cbn [run_op]; rewrite Hm2; cbn [unwrap mbind res_bind]; rewrite Hu; reflexivity|]. exact Hi.
  - destruct (unlock_keeps s id _ I Hth eq_refl (min_fork id) m1 (mkThread (S r) 0 false) Hm1) as [Hu Hi]; try done; try (fork_cases id).
    eexists. split; [cbn [run_op]; rewrite Hm1; cbn [unwrap mbind res_bind]; rewrite Hu; reflexivity|]. exact Hi.
Qed.

(** ** Progress *)

Definition ops_left (th : thread) : nat := (ROUND * 6 - (round th * 6 + pc th))%nat.
Definition remaining (s : state) : nat := sum_list_with ops_left (threads s).

Lemma sum_insert {A} (f : A -> nat) (l : list A) id th th' : l !! id = Some th -> f th = S (f th') ->
  S (sum_list_with f (<[id := th']> l)) = sum_list_with f l.
Proof.
  revert id. induction l as [|x l IH]; intros [|id] E H; [done|done| |].
  - injection E as ->. cbn. lia.
  - specialize (IH id E H). change (S (f x + sum_list_with f (<[id := th']> l)) = f x + sum_list_with f l)%nat. lia.
Qed.
Lemma sum_woken mu l n : sum_list_with ops_left (imap (fun i => wake mu (n + i)) l) = sum_list_with ops_left l.
Proof.
  revert n. induction l as [|x l IH]; intros n; [done|]. cbn. f_equal; [unfold wake; by destruct (wakes _ _)|].
  rewrite <- (IH (S n)). f_equal. apply imap_ext. intros i y _. cbn. by rewrite Nat.add_succ_r.
Qed.

Lemma op_counts s id th o s' : inv s -> threads s !! id = Some th -> finished th = false ->
  run_op id th o s = Ok s' -> S (remaining s') = remaining s.
Proof.
  intros I Hth Hf E. destruct (iv_thread _ I id th Hth) as [Hpc Hr He _]. unfold finished in Hf. apply Nat.eqb_neq in Hf.
  assert (forall b, ops_left th = S (ops_left (advance th b))) as Ha.
  { intros b. unfold ops_left, advance. destruct (Nat.eqb_spec (pc th) 5); cbn [round pc]; lia. }
  unfold remaining. destruct o; cbn [run_op] in E.
  - injection E as <-. cbn [threads]. by apply (sum_insert ops_left _ _ th).
  - destruct (forks s !! m); [|done]. injection E as <-. cbn [threads]. by apply (sum_insert ops_left _ _ th).
  - destruct (forks s !! m) as [mu|]; [|done]. cbn [unwrap mbind res_bind] in E. destruct (unlockable mu); [|done]. injection E as <-.
    cbn [threads]. rewrite (sum_woken mu _ 0). by apply (sum_insert ops_left _ _ th).
Qed.

(** Whoever waits, waits for somebody who can go on: a fork is held by a philosopher that
    waits for no fork, or for a higher one. *)
Lemma someone_runs s n : inv s -> forall m id, (N - m <= n)%nat -> waiter (threads s) m id ->
  exists j th, threads s !! j = Some th /\ blocked th = false /\ finished th = false.
Proof.
  intros I. induction n as [|n IH]; intros m id Hn Hw; pose proof Hw as (thi & Ei & Hwi); pose proof (lookup_lt_Some _ _ _ Ei) as Hi;
    rewrite (iv_threads _ I) in Hi; pose proof (forks_ordered id Hi) as Hoi;
    assert (m < N)%nat as Hm by (revert Hwi; unfold waits; destruct (Nat.eqb_spec m (min_fork id)), (Nat.eqb_spec m (max_fork id)); subst; rewrite ?andb_false_r; cbn; (lia || done)); [lia|].
  destruct (lookup_lt_is_Some_2 (forks s) m) as [mu Hmu]; [by rewrite (iv_forks _ I)|].
  pose proof (iv_fork _ I m mu Hmu) as Hf. destruct mu as [|l q]; [done|]. destruct Hf as (_ & Hq & Hl).
  assert (task id ∈ q) as Hin by (apply Hq; eauto). destruct l; [|destruct Hl as [_ ->]; by apply elem_of_nil in Hin].
  destruct Hl as (j & (thj & Ej & Hh) & _). destruct (iv_thread _ I j thj Ej) as [Hp _ He Hb].
  destruct (blocked thj) eqn:Eb.
  - pose proof (lookup_lt_Some _ _ _ Ej) as Hj. rewrite (iv_threads _ I) in Hj. pose proof (forks_ordered j Hj).
    apply (IH (max_fork j) j).
    + unfold holds, eats in Hh. rewrite Eb in Hh. destruct (Hb eq_refl) as [E|E]; rewrite E in Hh; cbn in Hh; rewrite ?andb_false_r, ?orb_false_r, ?andb_true_r in Hh; [done|].
      apply Nat.eqb_eq in Hh. lia.
    + exists thj. split; [done|]. unfold waits. rewrite Eb, Nat.eqb_refl. unfold holds, eats in Hh. rewrite Eb in Hh.
      destruct (Hb eq_refl) as [E|E]; rewrite E in Hh |- *; cbn in Hh |- *; rewrite ?andb_false_r in Hh; [done|by rewrite orb_true_r].
  - exists j, thj. split_and!; [done|done|]. unfold finished. apply Nat.eqb_neq. intros Er. specialize (He Er).
    unfold holds, eats in Hh. rewrite He in Hh. cbn in Hh. by rewrite !andb_false_r in Hh.
Qed.

Lemma progress s : inv s -> Forall (fun th => finished th = true) (threads s) \/ exists s', ok_step s s'.
Proof.
  intros I. assert (forall id th, threads s !! id = Some th -> blocked th = false -> finished th = false -> exists s', ok_step s s') as Hrun.
  { intros id th Hth Hb Hf. destruct (iv_thread _ I id th Hth) as [Hp _ _ _].
    destruct (lookup_lt_is_Some_2 (body id (round th)) (pc th)) as [o Ho]; [by cbn|].
    destruct (run_op_keeps s id th o I Hth Hb Hf Ho) as (s' & E & _). exists s'. unfold ok_step. rewrite <- E. by constructor. }
  destruct (decide (Forall (fun th => finished th = true) (threads s))) as [?|Hn]; [by left|right].
  apply not_Forall_Exists in Hn; [|apply _]. apply Exists_exists in Hn as (th & (id & Hth)%list_elem_of_lookup & Hf).
  apply not_true_is_false in Hf. destruct (blocked th) eqn:Eb; [|by eapply Hrun].
  destruct (iv_thread _ I id th Hth) as [_ _ _ Hp]. assert (exists m, waits id th m = true) as [m Hm].
  { unfold waits. rewrite Eb. destruct (Hp Eb) as [E|E]; [exists (min_fork id)|exists (max_fork id)]; rewrite E, Nat.eqb_refl; cbn; by rewrite ?orb_true_r. }
  destruct (someone_runs s N I m id) as (j & thj & Ej & Hbj & Hfj); [lia|by exists th|]. by eapply Hrun.
Qed.

Lemma init_inv : inv init.
Proof.
  assert (forall id th, threads init !! id = Some th -> th = mkThread 0 0 false) as Ht by (by intros id th [-> _]%lookup_replicate).
  split; [done|done| |].
  - intros id th ->%Ht. split; cbn; lia || done.
  - intros m mu [-> _]%lookup_replicate. split_and!; [constructor| | |done].
    + intros t. split; [by intros ?%elem_of_nil|]. intros (id & _ & th & ->%Ht & Hw). done.
    + intros id (th & ->%Ht & Hh). revert Hh. unfold holds. cbn. by rewrite !andb_false_r.
Qed.

Lemma step_keeps s s' : inv s -> ok_step s s' -> inv s' /\ S (remaining s') = remaining s.
Proof.
  intros I Hs. inversion Hs as [id th o s0 Hth Hb Hf Ho E1 E2]; subst. destruct (run_op_keeps s id th o I Hth Hb Hf Ho) as (s1 & E & I1).
  rewrite E in E2. injection E2 as ->. split; [done|]. by eapply op_counts.
Qed.

Lemma run_inv s : rtc ok_step init s -> inv s.
Proof. revert s. apply (rtc_ind_r inv); [apply init_inv|]. intros s1 s2 _ Hs I. by eapply step_keeps. Qed.

Lemma eats_holds id th : eats th = true -> holds id th (left id) = true /\ holds id th (right id) = true.
Proof.
  intros He. assert (holds id th (min_fork id) = true /\ holds id th (max_fork id) = true) as [H1 H2].
  { unfold holds. rewrite He, !Nat.eqb_refl, !andb_true_r, orb_true_r. split; [|done]. unfold eats in He.
    destruct (Nat.eqb_spec (pc th) 3) as [->|]; [by rewrite orb_true_r|]. destruct (Nat.eqb_spec (pc th) 4) as [->|]; [by rewrite orb_true_r|done]. }
  assert (left id = min_fork id /\ right id = max_fork id \/ left id = max_fork id /\ right id = min_fork id) as [[-> ->]|[-> ->]]; [|done|done].
  unfold max_fork, min_fork. destruct (Nat.ltb_spec (left id) (right id)); [left|right]; lia.
Qed.


(** The main thread starts philosopher 0 before it makes fork 1: a philosopher that is early panics
    the kernel. *)
Example early_philosopher_panics : step (mkState [MutexBlocking true []] [mkThread 0 2 false]) (Err Panic).
Proof. exact (step_op 0 (mkThread 0 2 false) (Lock 1) (mkState [MutexBlocking true []] [mkThread 0 2 false]) eq_refl eq_refl eq_refl eq_refl). Qed.

