(* ===== verification/Lifecycle.v ===== *)
(** The life of a process, from [fork] to [waitpid] (os/src/syscall/process.rs and
    thread.rs on task/structs.rs, task/schedule.rs and mm/memory_set.rs): the calls of parent
    and child composed in the order in which the scheduler runs them. *)
From S2P Require Import Prelude State Sched Address Allocator PageEntry PageTable BTree MemorySet AddressSpace UserSpace LoadUser Signal Process ProcessInv.

(** The parent forks and waits, as [waitpid] of the user library does: while the kernel
    says -2 it yields.  The task that runs then exits. *)
Definition fork_and_wait (tf : TrapFrame) (code : Z) : st PS (Z * (Z * Z) * TaskRef * (Z * Z)) :=
  child ← sys_fork tf;
  first ← sys_waitpid child;
  _ ← on_psched yield_now;
  runs ← cur_task;
  _ ← sys_exit code;
  second ← sys_waitpid child;
  mret (child, first, runs, second).

(** ** The tree under an exit *)

Lemma tree_ok_put s q x y (sc : Sched) (m : Mem) : tree_ok s -> procs s !! q = Some x -> children y = children x ->
  (exists st, proc_state y = u8_of_pstate st) -> tree_ok (mkPS sc (<[q := y]> (procs s)) (proc_map s) (next_pid s) m).
Proof.
  intros T Hq Hc Hs.
  assert (forall r z, <[q := y]> (procs s) !! r = Some z -> exists z', procs s !! r = Some z' /\ children z = children z' /\
    exists st, proc_state z = u8_of_pstate st) as H.
  { intros r z [[<- <-]|[_ Hz]]%lookup_insert_Some; [by exists x|]. exists z. split_and!; [done|done|by apply (tk_state _ T r)]. }
  assert (forall r, is_Some (procs s !! r) -> is_Some (<[q := y]> (procs s) !! r)) as Hi.
  { intros r Hr. rewrite lookup_insert_is_Some. destruct (decide (q = r)); auto. }
  split; cbn [procs proc_map next_pid].
  - intros r z c (z' & Hz & -> & _)%H Hin. destruct (tk_child _ T _ _ _ Hz Hin). auto.
  - intros r z (z' & Hz & -> & _)%H. by apply (tk_nodup _ T r).
  - intros r z r' z' c (w & Hw & -> & _)%H (w' & Hw' & -> & _)%H. by apply (tk_one _ T r w r' w').
  - intros c Hin. by apply Hi, (tk_map _ T).
  - by intros r z (_ & _ & _ & ?)%H.
  - intros r z (z' & Hz & _)%H. by apply (tk_pids _ T r z').
Qed.

Lemma sys_waitpid_swp s p pid (Q : Z * Z -> PS -> Prop) : tree_ok s -> procs s !! (current (psched s)).1 = Some p ->
  (forall ret code s', tree_ok s' ->
    match find_index (fun c => matching pid c && zombie_proc s c) (children p) with
    | Some (i, c) => exists x, procs s !! c = Some x /\ ret = c /\ code = Some (proc_exit_code x) /\ s' = reaped s (current (psched s)).1 p i c
    | None => ret = (if existsb (matching pid) (children p) then -2 else -1) /\ code = None /\ s' = s
    end -> Q (ret, default 0 code) s') -> swp (sys_waitpid pid) s Q.
Proof.
  intros T Hp HQ. apply cur_task_bind, swp_bind. eapply swp_mono; [by apply (waitpid_spec s _ p)|].
  intros [ret code] s' [T' H]. apply swp_ret. by apply HQ.
Qed.

(** ** The turns of parent and child *)

(** With nothing else ready, the child runs when the parent yields, and the parent
    when the child has exited. *)
Lemma turns s new : sched_ok s -> ready_queue s = [] -> current s <> idle_task -> states s !! new = None ->
  let s1 := readied new s in let s2 := rescheduled Ready s1 in let s3 := rescheduled Zombie s2 in
  sched_ok s1 /\ sched_ok s2 /\ current s2 = new /\ sched_ok s3 /\ current s3 = current s /\ ready_queue s3 = [] /\
  (forall t, t <> new -> states s3 !! t = states s !! t) /\ in_state s3 new Zombie /\
  (forall t, t <> new -> t <> current s -> states s2 !! t = states s !! t) /\ in_state s2 (current s) Ready.
Proof.
  intros Hs Hq Hi Hn s1 s2 s3. assert (new <> current s) as Hc.
  { intros ->. destruct (in_state_some _ _ _ (sk_current _ Hs)). congruence. }
  assert (new <> idle_task) as Hni by (intros ->; destruct (sk_idle _ Hs); congruence).
  assert (sched_ok s1) as H1 by (apply readied_ok; [done|unfold in_state; by rewrite Hn|done..]).
  assert (sched_ok s2) as H2 by (by apply rescheduled_ok).
  assert (s2 = mkSched (<[new := u8_of_state Running]> (<[current s := u8_of_state Ready]> (<[new := u8_of_state Ready]> (states s))))
    [current s] new) as E2.
  { unfold s2, rescheduled, left_as, s1, readied, switched. cbn [states ready_queue current]. rewrite Hq, decide_True by done. done. }
  assert (current s2 = new) as Ec by (by rewrite E2).
  assert (sched_ok s3) as H3 by (apply rescheduled_ok; [done|done|by rewrite Ec]).
  assert (s3 = mkSched (<[current s := u8_of_state Running]> (<[new := u8_of_state Zombie]> (states s2))) [] (current s)) as E3.
  { unfold s3, rescheduled, left_as, switched. rewrite Ec, E2. cbn [states ready_queue current]. by rewrite decide_False by naive_solver. }
  split_and!; try done; [by rewrite E3..| | | |].
  - intros t Ht. rewrite E3, E2. cbn [states].
    destruct (decide (t = current s)) as [->|Hne]; [rewrite lookup_insert_eq; symmetry; apply (sk_current _ Hs)|].
    by rewrite !lookup_insert_ne by done.
  - rewrite E3. unfold in_state. cbn [states]. by rewrite lookup_insert_ne, lookup_insert_eq by done.
  - intros t Ht Hne. rewrite E2. cbn [states]. by rewrite !lookup_insert_ne by done.
  - rewrite E2. unfold in_state. cbn [states]. by rewrite lookup_insert_ne, lookup_insert_eq by done.
Qed.

(** What the exit of the child leaves of it. *)
Definition gone (p : Process) (pid : Z) (ms : MemorySet) (tf : TrapFrame) (code : Z) : Process :=
  let q := fork_child p pid ms tf in
  exited q 0 code [(0, with_code (mkTask false (EntryUser (TF_new_fork tf)) 0 SignalInner_new) code)].

Section Life.
  Context (s : PS) (tf : TrapFrame) (code : Z) (p : Process) (ms : MemorySet) (T : tree) (A : gmap Z (Z * Z)).
Let pid := (current (psched s)).1.
Let new := next_pid s.
  Context (Ht : tree_ok s) (Hp : procs s !! pid = Some p) (Hn : 0 <= new < 2 ^ 64 - 1)
    (Hf : forall t, is_Some (states (psched s) !! t) -> t.1 < new).

Lemma new_child c : c ∈ children p -> c <> new.
Proof. intros Hc ->. destruct (tk_child _ Ht _ _ _ Hp Hc) as [[x Hx] _]. pose proof (proj1 (fork_fresh s Ht Hf)) as E. unfold new in Hx. congruence. Qed.

Lemma pid_lt : pid <> new.
Proof. pose proof (tk_pids _ Ht _ _ Hp). unfold new. lia. Qed.

Lemma match_new c : matching new c = (c =? new).
Proof. unfold matching. rewrite u64_small by lia. destruct (Z.eqb_spec new (-1)); [lia|done]. Qed.

Lemma others_none s' : Forall (fun c => matching new c && zombie_proc s' c = false) (children p).
Proof. apply Forall_forall. intros c Hc. rewrite match_new, (proj2 (Z.eqb_neq _ _)); [done|by apply new_child]. Qed.

(** The first call of [waitpid]: the child has not exited. *)
Lemma wait_before (ms' : MemorySet) (m' : Mem) (Q : Z * Z -> PS -> Prop) : let s1 := forked_state s pid p ms' tf m' in
  Q (-2, 0) s1 -> swp (sys_waitpid new) s1 Q.
Proof.
  intros s1 HQ. pose proof pid_lt as Hne. eapply sys_waitpid_swp; [apply forked_tree_ok; [done|done|lia]|apply lookup_insert_eq|].
  cbn [children with_children]. intros ret c s' _. fold new.
  rewrite (proj2 (find_index_None _ (children p ++ [new]))).
  - rewrite existsb_app. cbn [existsb]. rewrite match_new, Z.eqb_refl, !orb_true_r. by intros (-> & -> & ->).
  - apply Forall_app. split; [apply others_none|]. apply Forall_singleton. rewrite match_new, Z.eqb_refl. cbn [andb].
    unfold zombie_proc, s1, forked_state. cbn [procs]. fold new. by rewrite lookup_insert_ne, lookup_insert_eq by done.
Qed.

(** The second: it has. *)
Lemma wait_after (ms' : MemorySet) (m' m'' : Mem) (sc : Sched) (Q : Z * Z -> PS -> Prop) : current sc = current (psched s) ->
  Q (new, code) (mkPS sc (procs s) (proc_map s) (new + 1) m'') ->
  swp (sys_waitpid new) (mkPS sc (<[new := gone p pid ms' tf code]> (procs (forked_state s pid p ms' tf m')))
    (proc_map (forked_state s pid p ms' tf m')) (new + 1) m'') Q.
Proof.
  intros Ec HQ. pose proof pid_lt as Hne. destruct (fork_fresh s Ht Hf) as [Hnone _].
  set (s3 := mkPS _ _ _ _ _).
  assert (procs s3 !! (current (psched s3)).1 = Some (with_children p (children p ++ [new]))) as Hp3.
  { unfold s3, forked_state. cbn [procs psched]. rewrite Ec. fold pid new. by rewrite lookup_insert_ne, lookup_insert_eq by done. }
  assert (tree_ok s3) as T3.
  { apply (tree_ok_put (forked_state s pid p ms' tf m') new (fork_child p pid ms' tf)); [apply forked_tree_ok; [done|done|lia]| |done|by exists PZombie].
    unfold forked_state. cbn [procs]. fold new. by rewrite lookup_insert_ne, lookup_insert_eq by done. }
  eapply sys_waitpid_swp; [done|exact Hp3|]. cbn [children with_children]. intros ret c s' _.
  rewrite (find_index_middle _ (children p) new []).
  - intros (x & Hx & -> & -> & ->). assert (x = gone p pid ms' tf code) as -> by (unfold s3 in Hx; cbn [procs] in Hx; rewrite lookup_insert_eq in Hx; congruence).
    cbn [default]. assert (reaped s3 (current (psched s3)).1 (with_children p (children p ++ [new])) (length (children p)) new =
      mkPS sc (procs s) (proc_map s) (new + 1) m'') as ->; [|exact HQ].
    unfold reaped, s3, forked_state. cbn [psched procs proc_map next_pid pmem children with_children]. rewrite Ec. fold pid new. f_equal.
    + rewrite delete_middle, app_nil_r. rewrite (insert_insert_ne _ pid new), insert_insert_eq by done.
      assert (with_children (with_children p (children p ++ [new])) (children p) = p) as -> by (by destruct p).
      rewrite delete_insert_eq, delete_insert_ne, delete_insert_eq by done. rewrite delete_id by done. by rewrite insert_id.
    + assert (new ∉ proc_map s) as Hout; [|clear -Hout; set_solver]. intros Hin. destruct (tk_map _ Ht _ Hin) as [y Hy]. unfold new in Hy. congruence.
  - apply others_none.
  - rewrite match_new, Z.eqb_refl. cbn [andb]. unfold zombie_proc, s3. cbn [procs]. by rewrite lookup_insert_eq.
Qed.

(** The exit of the child, which is its last task. *)
Lemma child_exits (ms' : MemorySet) (m' : Mem) T' A' (sc : Sched) (Q : unit -> PS -> Prop) : sched_ok sc -> current sc = (new, 0) ->
  space_inv m' (pt ms') T' A' (areas ms') -> let s1 := forked_state s pid p ms' tf m' in
  (forall m'', gives m' (own T' (areas ms')) m'' -> (forall f, f ∉ own T' (areas ms') -> ram m'' !! f = ram m' !! f) ->
    Q tt (mkPS (rescheduled Zombie sc) (<[new := gone p pid ms' tf code]> (procs s1)) (proc_map s1) (new + 1) m'')) ->
  swp (sys_exit code) (mkPS sc (procs s1) (proc_map s1) (new + 1) m') Q.
Proof.
  intros Hsc Ec I' s1 HQ. pose proof pid_lt as Hne. set (q := fork_child p pid ms' tf).
  assert (in_state sc (new, 0) Running) as Hr by (rewrite <- Ec; apply Hsc).
  assert (Zlength (live (marked sc) new (tasks q)) = 0) as En.
  { unfold live, q. cbn [tasks fork_child]. rewrite filter_cons_False; [done|]. unfold marked. cbn [states fst]. rewrite Ec, lookup_insert_eq. tauto. }
  set (s2 := mkPS sc _ _ _ _). assert (procs s2 !! (current (psched s2)).1 = Some q) as Hq2.
  { unfold s2, s1, forked_state. cbn [procs psched]. rewrite Ec. cbn [fst]. fold new. by rewrite lookup_insert_ne, lookup_insert_eq by done. }
  eapply swp_mono; [apply (sys_exit_spec s2 q (mkTask false (EntryUser (TF_new_fork tf)) 0 SignalInner_new) code ms' T' A')|]; try done.
  - cbn [psched s2]. rewrite Ec. unfold idle_task. intros [= E]. pose proof (tk_pids _ Ht _ _ Hp). unfold new in *. lia.
  - by exists PNormal.
  - cbn [psched s2]. rewrite Ec. split; [apply bt_ok_cons; split; [constructor|apply bt_ok_nil]|].
    intros tid Hin. apply list_elem_of_singleton in Hin as ->. by exists Running.
  - cbn [psched s2]. by rewrite Ec.
  - intros [] s3 (m'' & Hm & ->). unfold left_mem in Hm. cbn [psched s2 pmem] in Hm |- *. rewrite Ec in Hm |- *. cbn [fst snd] in Hm |- *.
    rewrite En in Hm |- *. destruct Hm as [Hg Hram]. exact (HQ m'' Hg Hram).
Qed.
End Life.


(** ** Threads *)

Definition thread_area (tid : Z) : MapArea :=
  mkArea (user_stack tid).1 USER_STACK_SIZE (Z.lor (Z.lor MemFlags.READ MemFlags.WRITE) MemFlags.USER) (Framed []).
Definition thread_task (tid entry arg : Z) : Task :=
  mkTask true (EntryUser (TF_new_user_arg entry (user_stack tid).2 arg 0)) 0 SignalInner_new.
(** A process with one more stack, and with one more thread that runs on it. *)
Definition with_stack (p : Process) (ms : MemorySet) : Process := with_vm (with_next_tid p (next_tid p + 1)) (Some ms).

(** A thread starts another one and waits for it, as [waittid] of the user library does. *)
Definition thread_and_wait (entry arg code : Z) : st PS (Z * Z * TaskRef * Z) :=
  tid ← sys_thread_create entry arg;
  first ← sys_waittid tid;
  _ ← on_psched yield_now;
  runs ← cur_task;
  _ ← sys_exit code;
  second ← sys_waittid tid;
  mret (tid, first, runs, second).

(** What [thread_create] does to the memory of the process: the pages of the stack are
    new and zero, all other pages stay. *)
Record stack_added (m : Mem) (T : tree) (A : gmap Z (Z * Z)) (ms : MemorySet) (tid : Z) (m' : Mem) (T' : tree) (A' : gmap Z (Z * Z)) (ms' : MemorySet) : Prop := {
  sa_inv : space_inv m' (pt ms') T' A' (areas ms');
  sa_grows : grows m (own T (areas ms)) m' (own T' (areas ms'));
  sa_view va : 0 <= va -> ubyte m' A' va = if decide (in_area (thread_area tid) va) then Some (0, flags (thread_area tid)) else ubyte m A va;
}.

(** A fresh stack below the others of its address space. *)
Record stack_free (ms : MemorySet) (tid : Z) : Prop := {
  sf_new : bt_lookup (start (thread_area tid)) (areas ms) = None;
  sf_apart k b : (k, b) ∈ areas ms -> apart (thread_area tid) b;
}.

Lemma thread_area_ready m ms tid : 0 <= tid <= 17 -> stack_free ms tid -> area_ready m (thread_area tid) [] (areas ms).
Proof.
  intros Ht [H1 H2]. split; [|done|apply fr_ok_nil|done|done]. unfold thread_area. rewrite user_stack_eq by lia.
  split; cbn [start area_size flags fst snd]; unfold USER_STACK_TOP, USER_STACK_SIZE.
  - replace (0x800000000000 - tid * 20480 - 16384) with ((0x800000000 - tid * 5 - 4) * 4096) by lia. split; [lia|by apply Z.mod_mul].
  - done.
  - lia.
  - vm_compute. intuition discriminate.
Qed.

Lemma new_thread_area tid : 0 <= tid <= 17 ->
  (va ← VirtAddr_new (user_stack tid).1; new_framed va USER_STACK_SIZE (flags (thread_area tid))) = Ok (thread_area tid) /\
  VirtAddr_new (user_stack tid).1 = Ok (user_stack tid).1.
Proof.
  intros H. assert (exists n : nat, tid = Z.of_nat n /\ (n <= 17)%nat) as (n & -> & Hn) by (exists (Z.to_nat tid); lia).
  do 18 (destruct n as [|n]; [by vm_compute|]). lia.
Qed.

Section Thread.
  Context (s : PS) (entry arg : Z) (p : Process) (ms : MemorySet) (T : tree) (A : gmap Z (Z * Z)).
Let t := current (psched s).
Let k := next_tid p.
  Context (Hp : procs s !! t.1 = Some p) (Hv : vm p = Some ms) (I : space_inv (pmem s) (pt ms) T A (areas ms))
    (Hk : 0 <= k <= 17) (Hst : stack_free ms k) (Hsp : 16 <= spare (pmem s)).

(** The part of [new_user_task] before the new task: a stack is mapped. *)
Lemma stack_mapped : exists ms' m' T' A', stack_added (pmem s) T A ms k m' T' A' ms' /\
  forall B (f : Z -> Z -> st PS B),
  (tid ← alloc_tid t.1; p ← get_proc t.1;
   let '(ustack_bottom, ustack_top) := user_stack tid in
   ms ← slift (unwrap (vm p)); va ← slift (VirtAddr_new ustack_bottom);
   area ← slift (new_framed va USER_STACK_SIZE (Z.lor (Z.lor MemFlags.READ MemFlags.WRITE) MemFlags.USER));
   ms ← on_mem (MemorySet_insert ms area);
   _ ← modify_proc t.1 (fun p => with_vm p (Some ms)); f tid ustack_top) s =
  f k (user_stack k).2 (mkPS (psched s) (<[t.1 := with_stack p ms']> (procs s)) (proc_map s) (next_pid s) m').
Proof.
  destruct (new_thread_area k Hk) as [Ha Hva]. rewrite Hva in Ha. cbn [mbind res_bind] in Ha.
  destruct (insert_fresh_spec _ ms T A (thread_area k) I (thread_area_ready _ _ _ Hk Hst) Hsp) as (ms' & m' & E & T' & A' & I' & G & V).
  exists ms', m', T', A'. split; [by split|]. intros B f.
  assert (forall q s0, procs s0 !! t.1 = Some q -> get_proc t.1 s0 = Ok (q, s0)) as Hget.
  { intros q s0 Hq. unfold get_proc, mbind, st_bind, sget, slift. by rewrite Hq. }
  eapply st_bind_step; [unfold alloc_tid; eapply st_bind_step; [by apply Hget|]; eapply st_bind_step; reflexivity|].
  eapply st_bind_step; [apply Hget; cbn [procs]; apply lookup_insert_eq|]. fold k. destruct (user_stack k) as [lo hi] eqn:Ek.
  cbn [fst snd] in *. eapply st_bind_step; [unfold slift; cbn [vm with_next_tid]; rewrite Hv; reflexivity|].
  eapply st_bind_step; [unfold slift; rewrite Hva; reflexivity|].
  eapply st_bind_step; [unfold slift; cbn [flags thread_area] in Ha; rewrite Ha; reflexivity|].
  eapply st_bind_step; [unfold on_mem; cbn [pmem]; rewrite E; reflexivity|].
  eapply st_bind_step; [unfold modify_proc; eapply st_bind_step; [apply Hget; cbn [procs]; apply lookup_insert_eq|]; reflexivity|].
  cbn [psched procs proc_map next_pid pmem]. rewrite insert_insert_eq, u64_small by lia. reflexivity.
Qed.

(** [thread_create] of the threads 0 to 16. *)
Lemma thread_create_spec : k <= 16 -> exists ms' m' T' A',
  stack_added (pmem s) T A ms k m' T' A' ms' /\ sys_thread_create entry arg s = Ok (k,
    mkPS (readied (t.1, k) (psched s)) (<[t.1 := with_tasks (with_stack p ms') (bt_insert k (thread_task k entry arg) (tasks p))]> (procs s))
      (proc_map s) (next_pid s) m').
Proof.
  intros Hk16. destruct stack_mapped as (ms' & m' & T' & A' & H & E). exists ms', m', T', A'. split; [done|].
  unfold sys_thread_create. eapply st_bind_step; [reflexivity|]. fold t. eapply st_bind_step.
  { unfold new_user_task. rewrite E. rewrite (proj2 (Z.leb_le _ _)) by done. eapply st_bind_step; [reflexivity|].
    eapply st_bind_step; [reflexivity|]. cbn [psched procs proc_map next_pid pmem].
    eapply st_bind_step; [|reflexivity]. unfold modify_proc, get_proc, mbind, st_bind, sget, slift. cbn [procs].
    rewrite lookup_insert_eq. reflexivity. }
  cbn [psched procs proc_map next_pid pmem]. rewrite insert_insert_eq. eapply st_bind_step; [|reflexivity].
  unfold spawn_task, on_psched. cbn [psched].
  destruct (spawn_spec (mkSched (<[(t.1, k) := u8_of_state Ready]> (states (psched s))) (ready_queue (psched s)) (current (psched s))) (t.1, k)) as ([] & x & Ex & ->);
    [apply lookup_insert_eq|]. rewrite Ex. reflexivity.
Qed.

(** A process that starts a thread with the id 17 stops the kernel. *)
Lemma thread_limit_panics : k = 17 -> sys_thread_create entry arg s = Err Panic.
Proof.
  intros E17. destruct stack_mapped as (ms' & m' & T' & A' & _ & E). unfold sys_thread_create. eapply st_bind_step; [reflexivity|].
  fold t. unfold new_user_task. unfold mbind at 1, st_bind at 1. rewrite E. by rewrite E17.
Qed.
End Thread.

(** A thread that is taken from the tasks of its process. *)
Lemma bt_remove_last (l : list (Z * Task)) k x : Forall (fun y => y.1 < k) l -> (bt_remove k (l ++ [(k, x)])).2 = l.
Proof.
  induction l as [|[k1 v] l IH]; cbn [app bt_remove]; [by rewrite Z.eqb_refl|]. intros [H1 H2]%Forall_cons. simpl in H1.
  destruct (Z.eqb_spec k k1); [lia|]. specialize (IH H2). destruct (bt_remove k (l ++ [(k, x)])) as [o l']. simpl in *. by rewrite IH.
Qed.

Lemma bt_lookup_last (l : list (Z * Task)) k x : Forall (fun y => y.1 < k) l -> bt_lookup k (l ++ [(k, x)]) = Some x.
Proof.
  induction l as [|[k1 v] l IH]; cbn [app bt_lookup]; [by rewrite Z.eqb_refl|]. intros [H1 H2]%Forall_cons. simpl in H1.
  destruct (Z.eqb_spec k k1); [lia|auto].
Qed.

Lemma bt_ok_last (l : list (Z * Task)) k x : bt_ok l -> Forall (fun y => y.1 < k) l -> bt_ok (l ++ [(k, x)]).
Proof. intros H1 H2. rewrite <- bt_insert_last by done. by apply bt_insert_ok. Qed.

Lemma sys_waittid_swp s p k y st (Q : Z -> PS -> Prop) : let t := current (psched s) in
  procs s !! t.1 = Some p -> t.2 <> k -> bt_lookup k (tasks p) = Some y -> in_state (psched s) (t.1, k) st ->
  Q (as_i32 (if bool_decide (st = Zombie) then task_exit_code y else -2))
    (if bool_decide (st = Zombie) then mkPS (psched s) (<[t.1 := with_tasks p (bt_remove k (tasks p)).2]> (procs s)) (proc_map s) (next_pid s) (pmem s) else s) ->
  swp (sys_waittid k) s Q.
Proof.
  intros t Hp Hne Hy Hst HQ. apply cur_task_bind. fold t. rewrite (proj2 (Z.eqb_neq _ _)) by done. apply swp_bind. unfold waittid.
  apply swp_bind. eapply get_proc_swp; [done|]. rewrite Hy. apply swp_bind, on_psched_swp. eapply task_state_swp; [done|].
  assert (mkPS (psched s) (procs s) (proc_map s) (next_pid s) (pmem s) = s) as -> by (by destruct s).
  destruct (bool_decide (st = Zombie)); [|apply swp_ret; by apply swp_ret]. apply swp_bind. eexists tt, _. split; [done|]. apply swp_ret. by apply swp_ret.
Qed.

Section Join.
  Context (s : PS) (p : Process) (x : Task).
Let t := current (psched s).
Let k := next_tid p.
  Context (Hs : sched_ok (psched s)) (Hq : ready_queue (psched s) = []) (Hi : t <> idle_task)
    (Hts : tasks_ok (psched s) t.1 (tasks p)) (Hx : bt_lookup t.2 (tasks p) = Some x) (Hlt : Forall (fun y => y.1 < k) (tasks p))
    (Hnone : states (psched s) !! (t.1, k) = None).

Lemma self_lt : t.2 < k.
Proof. apply bt_lookup_elem in Hx; [|apply Hts]. rewrite Forall_forall in Hlt. apply (Hlt _ Hx). Qed.

(** The scheduler knows the threads when the new one runs, and the waiting one lives. *)
Lemma threads_known y (sc := rescheduled Ready (readied (t.1, k) (psched s))) :
  tasks_ok sc t.1 (tasks p ++ [(k, y)]) /\ Zlength (live (marked sc) t.1 (tasks p ++ [(k, y)])) <> 0.
Proof.
  pose proof self_lt as Hself. destruct (turns (psched s) (t.1, k) Hs Hq Hi Hnone) as (K1 & K2 & Ec2 & _ & _ & _ & _ & _ & Eo & Et).
  fold sc t in K2, Ec2, Eo, Et. split; [split|].
  - apply bt_ok_last; [apply Hts|done].
  - intros tid. rewrite fmap_app, elem_of_app. intros [Hin|Hin].
    + destruct (ts_states _ _ _ Hts tid Hin) as [z Hz]. destruct (decide (tid = t.2)) as [->|Hne]; [exists Ready; destruct t; exact Et|].
      exists z. unfold in_state. rewrite Eo; [exact Hz| |intros E; apply Hne; by rewrite <- E].
      intros [= E]. apply list_elem_of_fmap in Hin as ([k' v] & -> & Hin). rewrite Forall_forall in Hlt. specialize (Hlt _ Hin). simpl in *. lia.
    + apply list_elem_of_singleton in Hin as ->. exists Running. simpl. rewrite <- Ec2. apply K2.
  - assert ((t.2, x) ∈ live (marked sc) t.1 (tasks p ++ [(k, y)])) as Hin; [|destruct (live _ _ _); [by apply elem_of_nil in Hin|cbn; lia]].
    apply list_elem_of_filter. split; [|apply elem_of_app; left; apply bt_lookup_elem; [apply Hts|done]].
    unfold marked. cbn [states fst]. rewrite Ec2, lookup_insert_ne by (intros [= E]; lia). destruct t as [t1 t2]. cbn [fst snd] in *.
    rewrite Et. by intros [= E].
Qed.
End Join.


(** ** Witnesses *)

(** Process 2 of the demonstration runs alone. *)
Definition alone_sched : Sched := fold_left (fun s o => op_result o s) [OpSpawn (2, 0); OpYield] sched_init.
Definition alone_ps (v : option MemorySet) (m : Mem) : PS :=
  mkPS alone_sched (procs (demo_ps v m)) (proc_map (demo_ps v m)) 4 m.

Lemma alone_ok : sched_ok alone_sched.
Proof.
  apply (run_ok sched_init [OpSpawn (2, 0); OpYield]); [|apply sched_init_ok].
  do 2 (eapply run_cons; [vm_compute; first [exact Logic.I|congruence]|vm_compute; reflexivity|]). vm_compute. constructor.
Qed.


