(* ===== verification/Stackless.v ===== *)
(** The executor of stackless coroutines (user/src/bin/stackless_coroutine.rs): futures that
    suspend at each [await] of a waiter, run by a queue.  The waker does nothing and has no
    counterpart. *)
From S2P Require Import Prelude State.
From Stdlib Require Import String.


(** ** Futures *)

Inductive TState := Halted | Running.

(** [Waiter::poll]: whether it is ready, and the state of its task. *)
Definition Waiter_poll (state : TState) : bool * TState :=
  match state with Halted => (true, Running) | Running => (false, Halted) end.

(** The body of an asynchronous block, and the block as the compiler lays it out: the state
    of the task it owns and the code from the point where it is suspended.  A block that
    is suspended polls the waiter of its [await] again. *)
Section Executor.
Context {L : Type}.
Inductive stmt := Println (l : L) | Await.
Record Future := mkFuture { task : TState; code : list stmt }.

(** One poll prints up to the next waiter that is not ready; [None] is [Poll::Ready]. *)
Fixpoint poll_code (state : TState) (c : list stmt) : list L * option Future :=
  match c with
  | [] => ([], None)
  | Println l :: c => let '(out, f) := poll_code state c in (l :: out, f)
  | Await :: c' =>
      let '(ready, state) := Waiter_poll state in
      if (ready : bool) then poll_code state c' else ([], Some (mkFuture state c))
  end.
Definition poll (f : Future) : list L * option Future := poll_code (task f) (code f).

(** ** The executor *)

Definition Executor := list Future.
Definition Executor_new : Executor := [].
Definition push (tasks : Executor) (closure : list stmt) : Executor := tasks ++ [mkFuture Running closure].

(** The loop of [run], with fuel; [None] when the fuel ends before the queue. *)
Fixpoint run (fuel : nat) (tasks : Executor) : option (list L) :=
  match tasks with
  | [] => Some []
  | f :: tasks =>
      match fuel with
      | O => None
      | S fuel =>
          let '(out, o) := poll f in
          rest ← run fuel (match o with Some f => tasks ++ [f] | None => tasks end);
          Some (out ++ rest)
      end
  end.

(** ** What each poll prints *)

(** The lines of a block between its waits. *)
Fixpoint segments (c : list stmt) : list (list L) :=
  match c with
  | [] => [[]]
  | Println l :: c => match segments c with s :: ss => (l :: s) :: ss | [] => [[l]] end
  | Await :: c => [] :: segments c
  end.

Lemma segments_cons c : exists s ss, segments c = s :: ss.
Proof. induction c as [|[l|] c (s & ss & E)]; simpl; rewrite ?E; eauto. Qed.

(** A future that has the segments [ss] to print. *)
Definition prints (f : Future) (ss : list (list L)) : Prop :=
  task f = Running /\ segments (code f) = ss \/ exists c, task f = Halted /\ code f = Await :: c /\ segments c = ss.

Lemma poll_running c : exists s ss, segments c = s :: ss /\ (poll_code Running c).1 = s /\
  match (poll_code Running c).2, ss with Some f, _ :: _ => prints f ss | None, [] => True | _, _ => False end.
Proof.
  induction c as [|[l|] c (s & ss & E & E1 & E2)]; cbn [segments poll_code].
  - by exists [], [].
  - rewrite E. destruct (poll_code Running c) as [out o]. cbn [fst snd] in *. subst. eauto.
  - exists [], (segments c). destruct (segments_cons c) as (s' & ss' & E'). cbn. rewrite E'. split_and!; [done|done|].
    right. exists c. rewrite <- E'. done.
Qed.

Lemma poll_prints f s ss : prints f (s :: ss) -> (poll f).1 = s /\
  match (poll f).2, ss with Some f', _ :: _ => prints f' ss | None, [] => True | _, _ => False end.
Proof.
  unfold poll. intros [[Et E]|(c & Et & Ec & E)].
  - rewrite Et. destruct (poll_running (code f)) as (s' & ss' & E' & H). rewrite E in E'. by injection E' as -> ->.
  - rewrite Et, Ec. cbn [poll_code Waiter_poll]. destruct (poll_running c) as (s' & ss' & E' & H). rewrite E in E'. by injection E' as -> ->.
Qed.

(** ** Rounds *)

(** What is left to print after one round, in the order of the queue. *)
Definition later (l : list (list (list L))) : list (list (list L)) := filter (fun ss => ss <> []) (tail <$> l).
Definition round (l : list (list (list L))) : list L := mjoin (default [] ∘ head <$> l).

Lemma one_round fuel : forall l fs acc accs, Forall2 prints fs l -> Forall (fun ss => ss <> []) l -> Forall2 prints acc accs ->
  exists acc', Forall2 prints acc' (accs ++ later l) /\
    run (Datatypes.length l + fuel) (fs ++ acc) = (fun out => round l ++ out) <$> run fuel acc'.
Proof.
  induction l as [|ss l IH]; intros fs acc accs Hf Hne Ha.
  - inversion Hf. subst. exists acc. rewrite app_nil_r. split; [done|]. simpl. by destruct (run fuel acc).
  - inversion Hf as [|f ? fs' ? Hp Hf' E1 E2]. subst. apply Forall_cons in Hne as [H1 H2]. destruct ss as [|s ss]; [done|].
    destruct (poll_prints f s ss Hp) as [E3 E4]. cbn [app Datatypes.length Nat.add run]. destruct (poll f) as [out o]. cbn [fst snd] in E3, E4. subst out.
    unfold later, round. rewrite !fmap_cons. cbn [tail list.tail compose head list.head default]. destruct o as [f'|], ss as [|s' ss]; try done.
    + rewrite filter_cons_True by done.
      destruct (IH fs' (acc ++ [f']) (accs ++ [s' :: ss]) Hf' H2) as (acc' & Ha' & E); [by apply Forall2_app; [|constructor]|].
      exists acc'. split; [by rewrite <- app_assoc in Ha'|]. rewrite <- app_assoc. rewrite E. cbn [mjoin list_join]. unfold round.
      destruct (run fuel acc'); simpl; [|done]. by rewrite app_assoc.
    + rewrite filter_cons_False by tauto. destruct (IH fs' acc accs Hf' H2 Ha) as (acc' & Ha' & E). exists acc'. split; [done|]. rewrite E.
      unfold round. destruct (run fuel acc'); simpl; [|done]. by rewrite app_assoc.
Qed.

(** The lines in rounds: segment [r] of every block that has it, in the order of the
    blocks, for [r] below [n]. *)
Definition in_rounds (n : nat) (l : list (list (list L))) : list L :=
  mjoin ((fun r => mjoin ((fun ss => default [] (ss !! r)) <$> l)) <$> seq 0 n).
(** The number of polls. *)
Definition polls (l : list (list (list L))) : nat := sum_list_with Datatypes.length l.

Lemma later_at r l : mjoin ((fun ss => default [] (ss !! r)) <$> later l) = mjoin ((fun ss => default [] (ss !! S r)) <$> l).
Proof.
  unfold later. induction l as [|ss l IH]; [done|]. rewrite fmap_cons. destruct ss as [|s ss]; [by rewrite filter_cons_False by tauto|].
  cbn [tail list.tail]. rewrite fmap_cons. cbn [lookup list_lookup]. destruct ss as [|s' ss].
  - rewrite filter_cons_False by tauto. exact IH.
  - rewrite filter_cons_True by done. rewrite fmap_cons. cbn [mjoin list_join]. f_equal. exact IH.
Qed.

Lemma in_rounds_S n l : in_rounds (S n) l = round l ++ in_rounds n (later l).
Proof.
  unfold in_rounds, round. cbn [seq]. rewrite fmap_cons. cbn [mjoin list_join]. f_equal.
  - f_equal. apply list_fmap_ext. intros _ ss _. by destruct ss.
  - rewrite <- seq_shift, <- list_fmap_compose. f_equal. apply list_fmap_ext. intros _ r _. simpl. by rewrite later_at.
Qed.

Lemma polls_later l : Forall (fun ss => ss <> []) l -> (polls l = Datatypes.length l + polls (later l))%nat.
Proof.
  unfold polls, later. induction l as [|ss l IH]; intros H; [done|]. apply Forall_cons in H as [H1 H2]. destruct ss as [|s ss]; [done|].
  rewrite fmap_cons. cbn [tail list.tail sum_list_with Datatypes.length]. destruct ss as [|s' ss].
  - rewrite filter_cons_False by tauto. simpl. rewrite IH by done. lia.
  - rewrite filter_cons_True by done. cbn [sum_list_with Datatypes.length]. rewrite IH by done. lia.
Qed.

Lemma later_short n l : Forall (fun ss => Datatypes.length ss <= S n)%nat l -> Forall (fun ss => Datatypes.length ss <= n)%nat (later l).
Proof.
  intros H. apply Forall_forall. intros ss [_ (ss' & -> & Hin)%list_elem_of_fmap]%list_elem_of_filter. rewrite Forall_forall in H.
  specialize (H _ Hin). destruct ss'; simpl in *; lia.
Qed.

Lemma run_spec n : forall l fs, Forall2 prints fs l -> Forall (fun ss => ss <> []) l -> Forall (fun ss => Datatypes.length ss <= n)%nat l ->
  run (polls l) fs = Some (in_rounds n l).
Proof.
  induction n as [|n IH]; intros l fs Hf Hne Hn.
  - destruct l as [|ss l]; [inversion Hf; done|]. apply Forall_cons in Hn as [Hn _], Hne as [Hne _]. destruct ss; [done|simpl in Hn; lia].
  - rewrite polls_later by done. destruct (one_round (polls (later l)) l fs [] [] Hf Hne ltac:(constructor)) as (acc & Ha & E).
    rewrite app_nil_r in E. rewrite E. cbn [app] in Ha. rewrite (IH (later l) acc Ha), in_rounds_S; [done| |by apply later_short].
    apply Forall_forall. intros ss [H _]%list_elem_of_filter. done.
Qed.

Lemma push_all cs : forall fs l, Forall2 prints fs l -> Forall2 prints (fold_left push cs fs) (l ++ (segments <$> cs)).
Proof.
  induction cs as [|c cs IH]; intros fs l H; [by rewrite app_nil_r|]. cbn [fold_left]. rewrite fmap_cons.
  change (segments c :: (segments <$> cs)) with ([segments c] ++ (segments <$> cs)). rewrite app_assoc. apply IH.
  apply Forall2_app; [done|]. constructor; [by left|constructor].
Qed.

(** A run with more fuel than it needs. *)
Lemma run_more k : forall fuel fs out, run fuel fs = Some out -> run (fuel + k) fs = Some out.
Proof.
  induction fuel as [|fuel IH]; intros [|f fs] out; cbn [run Nat.add]; try done; [by destruct k|]. destruct (poll f) as [o r].
  destruct (run fuel _) as [rest|] eqn:E; [|done]. by rewrite (IH _ _ E).
Qed.

(** The executor runs the blocks pushed to it to their ends, in rounds: in each round
    every block that is not at its end, in the order in which they were pushed, prints its
    lines up to its next wait.  It polls each block once more than the block waits, and
    more fuel changes nothing. *)
Theorem executor_rounds (cs : list (list stmt)) k n : Forall (fun c => Datatypes.length (segments c) <= n)%nat cs ->
  run (polls (segments <$> cs) + k) (fold_left push cs Executor_new) = Some (in_rounds n (segments <$> cs)).
Proof.
  intros H. apply run_more, run_spec; [by apply (push_all cs [] []); constructor| |].
  - apply Forall_fmap, Forall_true. intros c. cbn. destruct (segments_cons c) as (s & ss & ->). done.
  - by apply Forall_fmap.
Qed.
End Executor.
Arguments stmt : clear implicits.

(** ** The program *)

Inductive line := Text (s : string) | TaskLine (instance : Z) (s : string).
(** The block that [main] makes for an instance. *)
Definition closure (instance : Z) : list (stmt line) :=
  [Println (TaskLine instance "begin state"%string); Await; Println (TaskLine instance "next state"%string); Await;
   Println (TaskLine instance "end state"%string)].
Definition main (fuel : nat) : option (list line) :=
  out ← run fuel (fold_left push (closure <$> [1; 2; 3]%Z) Executor_new);
  Some ([Text "stackless coroutine Begin.."%string; Text " Create futures"%string; Text " Running"%string] ++ out ++
        [Text " Done"%string; Text "stackless coroutine PASSED"%string]).

Lemma executor_rounds_witness : main 9 = Some ([Text "stackless coroutine Begin.."%string; Text " Create futures"%string; Text " Running"%string] ++
  (flip TaskLine "begin state"%string <$> [1; 2; 3]%Z) ++ (flip TaskLine "next state"%string <$> [1; 2; 3]%Z) ++ (flip TaskLine "end state"%string <$> [1; 2; 3]%Z) ++
  [Text " Done"%string; Text "stackless coroutine PASSED"%string]).
Proof.
  unfold main. change 9%nat with (polls (segments <$> (closure <$> [1; 2; 3]%Z)) + 0)%nat. rewrite (executor_rounds (closure <$> [1; 2; 3]%Z) 0 3).
  - reflexivity.
  - repeat constructor.
Defined.
